(** * Milo performance harness: shallow embedding of [perf_run.py]

    The orchestrator script [test/performance/scripts/perf_run.py] is embedded
    as state-passing Rocq functions.  Remote calls, the clock, the file system
    and the metrics backend are the fields of a [Platform] interface acting on
    an abstract world [W]; the embedded code threads that world, and records
    every remote call, sleep and log line in a trace. *)

From Stdlib Require Import ZArith Ascii String List Bool Lia PrimFloat.
From stdpp Require Import base list strings pretty gmap.

Set Warnings "-register-all,-clear-no-such-hyp".
Local Open Scope string_scope.
Local Open Scope Z_scope.

(** ** Python values (parsed JSON / YAML documents) *)

Inductive pyval :=
| PNone
| PBool (b : bool)
| PInt (z : Z)
| PFloat (f : float)
| PStr (s : string)
| PList (xs : list pyval)
| PDict (kvs : list (string * pyval)).

(** ** Exceptions

    Only subclasses of Python's [Exception] are values of [exn];
    [SystemExit] (raised by [sys.exit]) is the separate outcome [Exit]. *)

Inductive exn :=
| ApiException (status : Z) (body : option string)
| TimeoutError (msg : string)
| RuntimeError (msg : string)
| KeyError (key : string)
| IndexError
| TypeError
| AttributeError
| ValueError
| AssertionError
| OtherException (msg : string).

(** Outcome of running a piece of the script.  [OutOfFuel] is not a Python
    outcome: it marks a [while] loop cut by the fuel bound of its embedding. *)
Inductive Res (A : Type) :=
| Ok (a : A)
| Raise (e : exn)
| Exit (code : Z)
| OutOfFuel.
Arguments Ok {A} a.
Arguments Raise {A} e.
Arguments Exit {A} code.
Arguments OutOfFuel {A}.

(** ** The Python heap

    Lists and dicts that the script mutates in place live in a heap of
    objects; a [value] is a scalar or a reference into it.  A [pyval] is a
    document: what [yaml.safe_dump] writes and [yaml.safe_load] reads. *)

Inductive value :=
| VNone
| VBool (b : bool)
| VInt (z : Z)
| VFloat (f : float)
| VStr (s : string)
| VRef (l : nat).

Inductive object :=
| OList (items : list value)
| ODict (items : list (string * value)).

(** ** Observable effects *)

Inductive Event :=
| EvCall (op : string) (err : option exn)
| EvSleep (seconds : Z)
| EvLog (msg : string)
| EvPrint (msg : string).

Record State (W : Type) := mkState {
  heap : list object;
  world : W;
  trace : list Event;
}.
Arguments mkState {W} heap world trace.
Arguments heap {W} s.
Arguments world {W} s.
Arguments trace {W} s.

Definition Py (W A : Type) := State W -> Res A * State W.

(** A remote or library call: it answers on the world, with a value or an
    exception. *)
Definition Ext (W A : Type) := W -> (exn + A) * W.

Module PyMonad.

Definition ret {W A} (a : A) : Py W A := fun s => (Ok a, s).

Definition bind {W A B} (c : Py W A) (k : A -> Py W B) : Py W B :=
  fun s => match c s with
           | (Ok a, s') => k a s'
           | (Raise e, s') => (Raise e, s')
           | (Exit n, s') => (Exit n, s')
           | (OutOfFuel, s') => (OutOfFuel, s')
           end.

(** A pure operation that may raise. *)
Definition lift {W A} (r : exn + A) : Py W A :=
  fun s => match r with inr a => (Ok a, s) | inl e => (Raise e, s) end.

Definition raise {W A} (e : exn) : Py W A := fun s => (Raise e, s).

Definition sys_exit {W A} (code : Z) : Py W A := fun s => (Exit code, s).

(** [try: c  except Exception as e: handler e].  [SystemExit] is not an
    [Exception] and passes through. *)
Definition try_except {W A} (c : Py W A) (handler : exn -> Py W A) : Py W A :=
  fun s => match c s with
           | (Raise e, s') => handler e s'
           | r => r
           end.

Definition emit {W} (ev : Event) : Py W unit :=
  fun s => (Ok tt, mkState (heap s) (world s) (trace s ++ [ev])).

(** [log(message)]: one line on stdout (the timestamp prefix is left out). *)
Definition log {W} (message : string) : Py W unit := emit (EvLog message).

(** Calling a remote operation [op]: the world answers, and the call and its
    outcome are recorded. *)
Definition invoke {W A} (op : string) (f : Ext W A) : Py W A :=
  fun s => match f (world s) with
           | (inr a, w') => (Ok a, mkState (heap s) w' (trace s ++ [EvCall op None]))
           | (inl e, w') => (Raise e, mkState (heap s) w' (trace s ++ [EvCall op (Some e)]))
           end.

End PyMonad.
Import PyMonad.

Notation "x <- c1 ;; c2" := (bind c1 (fun x => c2))
  (at level 100, c1 at next level, right associativity).
Notation "c1 ;;; c2" := (bind c1 (fun _ => c2))
  (at level 100, right associativity).

(** ** The clock *)

Class Clock (W : Type) := {
  (** [time.time()], in seconds *)
  time_time : W -> Z;
  (** the world after [time.sleep(d)] *)
  time_sleep : Z -> W -> W;
}.

Section Time.
Context {W : Type} {C : Clock W}.

Definition now : Py W Z := fun s => (Ok (time_time (world s)), s).

Definition sleep (d : Z) : Py W unit :=
  fun s => (Ok tt, mkState (heap s) (time_sleep d (world s)) (trace s ++ [EvSleep d])).

End Time.

(** ** Strings *)

(** Python's [needle in hay] on strings. *)
Fixpoint contains (needle hay : string) : bool :=
  String.prefix needle hay
  || match hay with
     | EmptyString => false
     | String _ rest => contains needle rest
     end.

(** ** Retry Executor *)

(** [e.status in (429, 500)], else one of the three markers in [str(body)]. *)
Definition should_retry_api_exception (status : Z) (body : option string) : bool :=
  if (status =? 429) || (status =? 500) then true
  else
    let msg := match body with Some b => b | None => EmptyString end in
    if contains "Internal error occurred" msg
       || contains "failed calling webhook" msg
       || contains "EOF" msg
    then true
    else false.

Section Retry.
Context {W : Type} {C : Clock W} {A : Type}.

Definition retry_log_line (action_name : string) (attempt : Z) (status delay : Z) : string :=
  action_name +:+ " failed (attempt " +:+ pretty attempt +:+ "/6): status="
  +:+ pretty status +:+ " retrying in " +:+ pretty delay +:+ "s …".

(** The body of [for attempt in range(1, 7)], over the attempts that remain.
    Falling off the end of the loop returns [None]. *)
Fixpoint retry_loop (action_name : string) (fn : Py W A)
    (attempts : list Z) (delay : Z) : Py W (option A) :=
  match attempts with
  | [] => ret None
  | attempt :: rest =>
      try_except (a <- fn ;; ret (Some a))
        (fun e =>
           match e with
           | ApiException status body =>
               if should_retry_api_exception status body && (attempt <? 6)
               then
                 log (retry_log_line action_name attempt status delay) ;;;
                 sleep delay ;;;
                 retry_loop action_name fn rest (Z.min (delay * 2) 16)
               else raise e
           | _ => raise e
           end)
  end.

Definition retry_with_backoff (action_name : string) (fn : Py W A) : Py W (option A) :=
  retry_loop action_name fn [1; 2; 3; 4; 5; 6] 1.

End Retry.

(** ** Operations on Python values *)

Class PyLib := {
  (** [repr] of a float *)
  float_repr : float -> string;
  (** [repr] of a string: the quotes Python chooses and its escapes *)
  str_repr : string -> string;
  (** [float(s)] on a string; [None] is [ValueError] *)
  float_of_string : string -> option float;
  (** [float(n)] on an integer *)
  float_of_Z : Z -> float;
  (** [int(s)] on a string; [None] is [ValueError] *)
  int_of_string : string -> option Z;
  (** [str(e)] on an exception *)
  exn_str : exn -> string;
  (** [json.dumps(v)] and [json.dumps(v, indent=2)] *)
  json_dumps : pyval -> string;
  json_dumps_indent : pyval -> string;
  (** [generate_report_html]: the chart and HTML rendering, from the three
      snapshots, the project count and the time to Ready *)
  generate_report_html :
    gmap string float -> gmap string float -> option (gmap string float) -> Z -> Z -> string;
}.

Fixpoint dict_get {V : Type} (k : string) (kvs : list (string * V)) : option V :=
  match kvs with
  | [] => None
  | (k', v) :: rest => if String.eqb k k' then Some v else dict_get k rest
  end.

(** [d[k] = v]: overwrite in place, or append a new key. *)
Fixpoint dict_set {V : Type} (k : string) (v : V) (kvs : list (string * V)) : list (string * V) :=
  match kvs with
  | [] => [(k, v)]
  | (k', v') :: rest =>
      if String.eqb k k' then (k', v) :: rest else (k', v') :: dict_set k v rest
  end.

(** [bool(v)] *)
Definition truthy (v : pyval) : bool :=
  match v with
  | PNone => false
  | PBool b => b
  | PInt z => negb (z =? 0)
  | PFloat f => negb (PrimFloat.eqb f 0%float)
  | PStr s => negb (String.eqb s EmptyString)
  | PList xs => match xs with [] => false | _ => true end
  | PDict kvs => match kvs with [] => false | _ => true end
  end.

(** [v.get(k, default)] *)
Definition py_get (v : pyval) (k : string) (default : pyval) : exn + pyval :=
  match v with
  | PDict kvs => inr (match dict_get k kvs with Some x => x | None => default end)
  | _ => inl AttributeError
  end.

(** [v[k]] for a string key *)
Definition py_getitem (v : pyval) (k : string) : exn + pyval :=
  match v with
  | PDict kvs => match dict_get k kvs with Some x => inr x | None => inl (KeyError k) end
  | _ => inl TypeError
  end.

(** [v[i]] for an integer index; negative indices count from the end. *)
Definition py_index (v : pyval) (i : Z) : exn + pyval :=
  match v with
  | PList xs =>
      let n := Z.of_nat (length xs) in
      let j := if i <? 0 then i + n else i in
      if (0 <=? j) && (j <? n)
      then match xs !! Z.to_nat j with Some x => inr x | None => inl IndexError end
      else inl IndexError
  | PStr s =>
      let n := Z.of_nat (String.length s) in
      let j := if i <? 0 then i + n else i in
      if (0 <=? j) && (j <? n)
      then match String.get (Z.to_nat j) s with
           | Some c => inr (PStr (String c EmptyString))
           | None => inl IndexError
           end
      else inl IndexError
  | PDict _ => inl (KeyError (pretty i))
  | _ => inl TypeError
  end.

Fixpoint string_chars (s : string) : list pyval :=
  match s with
  | EmptyString => []
  | String c rest => PStr (String c EmptyString) :: string_chars rest
  end.

(** The elements a [for] loop over [v] visits. *)
Definition py_iter (v : pyval) : exn + list pyval :=
  match v with
  | PList xs => inr xs
  | PDict kvs => inr (map (fun kv => PStr (fst kv)) kvs)
  | PStr s => inr (string_chars s)
  | _ => inl TypeError
  end.

(** [v == s] for a string [s] *)
Definition py_eq_str (v : pyval) (s : string) : bool :=
  match v with
  | PStr s' => String.eqb s' s
  | _ => false
  end.

Fixpoint join (sep : string) (parts : list string) : string :=
  match parts with
  | [] => EmptyString
  | [x] => x
  | x :: rest => x +:+ sep +:+ join sep rest
  end.

Section Str.
Context {L : PyLib}.

(** [repr(v)]; the items of a list or dict are shown by their [repr]. *)
Fixpoint py_repr (v : pyval) : string :=
  match v with
  | PNone => "None"
  | PBool true => "True"
  | PBool false => "False"
  | PInt z => pretty z
  | PFloat f => float_repr f
  | PStr s => str_repr s
  | PList xs => "[" +:+ join ", " (map py_repr xs) +:+ "]"
  | PDict kvs =>
      "{" +:+ join ", " (map (fun kv => str_repr (fst kv) +:+ ": " +:+ py_repr (snd kv)) kvs) +:+ "}"
  end.

(** [str(v)] *)
Definition py_str (v : pyval) : string :=
  match v with
  | PStr s => s
  | _ => py_repr v
  end.

(** [float(v)] *)
Definition py_float (v : pyval) : exn + float :=
  match v with
  | PFloat f => inr f
  | PInt z => inr (float_of_Z z)
  | PBool b => inr (float_of_Z (if b then 1 else 0))
  | PStr s => match float_of_string s with Some f => inr f | None => inl ValueError end
  | _ => inl TypeError
  end.

End Str.

(** ** The platform: Kubernetes clients, metrics backend, files, environment *)

(** A client built by [kube_client_from_config]; it carries the kubeconfig it
    was built from. *)
Definition ApiClient := pyval.

Record V1ObjectMeta := { meta_name : string; meta_labels : list (string * string) }.

Record V1ConfigMap := { cm_metadata : V1ObjectMeta; cm_data : list (string * string) }.

Record V1Secret := {
  secret_metadata : V1ObjectMeta;
  secret_string_data : list (string * string);
  secret_type : string;
}.

Class Platform (W : Type) := {
  platform_clock :: Clock W;
  (** [os.getenv(name)] *)
  os_getenv : string -> W -> option string;
  (** [yaml.safe_load] of a file *)
  yaml_load_file : string -> Ext W pyval;
  (** [KubeConfigLoader(config_dict=cfg).load_and_set] and [ApiClient] *)
  load_client : pyval -> Ext W ApiClient;
  (** [k8s_config.load_incluster_config()], [k8s_config.load_kube_config()] *)
  load_incluster_config : Ext W unit;
  load_kube_config : Ext W unit;
  (** [CustomObjectsApi(client)]: group, version, plural, then body, name or
      label selector *)
  create_cluster_custom_object : ApiClient -> string -> string -> string -> pyval -> Ext W pyval;
  get_cluster_custom_object : ApiClient -> string -> string -> string -> string -> Ext W pyval;
  list_cluster_custom_object : ApiClient -> string -> string -> string -> string -> Ext W pyval;
  delete_cluster_custom_object : ApiClient -> string -> string -> string -> string -> Ext W pyval;
  (** [CoreV1Api(client)]; [None] is the default configuration.  The string
      arguments are the object name or label selector, then the namespace. *)
  read_namespaced_config_map : option ApiClient -> string -> string -> Ext W V1ConfigMap;
  replace_namespaced_config_map : option ApiClient -> string -> string -> V1ConfigMap -> Ext W unit;
  create_namespaced_config_map : option ApiClient -> string -> V1ConfigMap -> Ext W unit;
  delete_namespaced_config_map : option ApiClient -> string -> string -> Ext W unit;
  list_namespaced_config_map : option ApiClient -> string -> string -> Ext W (option (list V1ConfigMap));
  create_namespaced_secret : option ApiClient -> string -> V1Secret -> Ext W unit;
  delete_namespaced_secret : option ApiClient -> string -> string -> Ext W unit;
  list_namespaced_secret : option ApiClient -> string -> string -> Ext W (option (list V1Secret));
  (** [requests.get(url, params={"query": q}, timeout=30)], then
      [raise_for_status()] and [json()] *)
  requests_get_json : string -> string -> Ext W pyval;
  (** [os.makedirs(dir, exist_ok=True)]; writing one file *)
  os_makedirs : string -> Ext W unit;
  write_file : string -> string -> Ext W unit;
  (** [uuid.uuid4().hex[:8]], [datetime.now(timezone.utc).isoformat()] *)
  uuid4_hex8 : W -> string * W;
  now_isoformat : W -> string;
  (** The scheduler of a thread pool: which of the [k] tasks in flight is the
      next to do its work, and whether the tasks not yet started have been
      cancelled by now *)
  pool_next : nat -> W -> nat;
  pool_cancelled : W -> bool;
}.

(** ** Readiness Poller *)

Section Poller.
Context {W : Type} {P : Platform W} {L : PyLib}.

Fixpoint find_condition_loop (cs : list pyval) (ctype : string) : exn + pyval :=
  match cs with
  | [] => inr PNone
  | c :: rest =>
      match py_get c "type" PNone with
      | inl e => inl e
      | inr t => if py_eq_str t ctype then inr c else find_condition_loop rest ctype
      end
  end.

Definition find_condition (conditions : pyval) (ctype : string) : exn + pyval :=
  if negb (truthy conditions) then inr PNone
  else
    match py_iter conditions with
    | inl e => inl e
    | inr cs => find_condition_loop cs ctype
    end.

Definition wait_ctx (plural name : string) (log_context : option string) : string :=
  match log_context with
  | None | Some EmptyString => plural +:+ "/" +:+ name
  | Some c => c +:+ " (" +:+ plural +:+ "/" +:+ name +:+ ")"
  end.

(** The periodic detail line of the poll loop. *)
Definition wait_detail_log (plural name : string) (log_context : option string)
    (cond : pyval) : Py W unit :=
  if truthy cond then
    reason <- lift (py_get cond "reason" (PStr EmptyString)) ;;
    message <- lift (py_get cond "message" (PStr EmptyString)) ;;
    status <- lift (py_get cond "status" (PStr "Unknown")) ;;
    log ("waiting for " +:+ wait_ctx plural name log_context +:+ ": Ready=" +:+ py_str status
         +:+ " reason=" +:+ py_str reason +:+ " message=" +:+ py_str message)
  else
    log ("waiting for " +:+ wait_ctx plural name log_context +:+ ": no Ready condition yet").

(** [cond and str(cond.get("status")) == "True"] *)
Definition ready_true (cond : pyval) : exn + bool :=
  if truthy cond then
    match py_get cond "status" PNone with
    | inl e => inl e
    | inr st => inr (String.eqb (py_str st) "True")
    end
  else inr false.

(** The [while time.time() < deadline] loop of [wait_condition_ready]; each
    unit of fuel pays for one test of the loop condition. *)
Fixpoint wait_loop (fuel : nat) (coapi : ApiClient) (group version plural name : string)
    (log_context : option string) (start deadline last_log : Z) : Py W unit :=
  match fuel with
  | O => fun s => (OutOfFuel, s)
  | S fuel' =>
      t <- now ;;
      if t <? deadline then
        obj <- invoke ("get " +:+ plural +:+ "/" +:+ name)
                 (get_cluster_custom_object coapi group version plural name) ;;
        status <- lift (py_get obj "status" (PDict [])) ;;
        conditions <- lift (py_get status "conditions" PNone) ;;
        cond <- lift (find_condition conditions "Ready") ;;
        ready <- lift (ready_true cond) ;;
        if ready then ret tt
        else
          t' <- now ;;
          last_log' <- (if (10 <=? t' - start) && (15 <=? t' - last_log)
                        then wait_detail_log plural name log_context cond ;;; ret t'
                        else ret last_log) ;;
          sleep 2 ;;;
          wait_loop fuel' coapi group version plural name log_context start deadline last_log'
      else raise (TimeoutError ("Timed out waiting for " +:+ plural +:+ "/" +:+ name +:+ " Ready"))
  end.

Definition wait_condition_ready (fuel : nat) (coapi : ApiClient)
    (group version plural name : string) (timeout_s : Z)
    (log_context : option string) : Py W unit :=
  start <- now ;;
  let deadline := start + timeout_s in
  wait_loop fuel coapi group version plural name log_context start deadline 0.

End Poller.

(** ** Metrics Collector *)

(** [s.rstrip("/")]: every trailing slash goes. *)
Fixpoint rstrip_slash (s : string) : string :=
  match s with
  | EmptyString => EmptyString
  | String c rest =>
      let rest' := rstrip_slash rest in
      if Ascii.eqb c "/"%char && String.eqb rest' EmptyString then EmptyString
      else String c rest'
  end.

(** The double-quote character of the selector templates. *)
Definition dq : string := String (Ascii.ascii_of_nat 34) EmptyString.

Section Metrics.
Context {W : Type} {P : Platform W} {L : PyLib}.

(** The body of [for attempt in range(6)] in [http_get_json], over the
    attempts that remain; [last_err] is the last exception seen. *)
Fixpoint http_get_json_loop (url query : string) (attempts : list Z)
    (last_err : option exn) : Py W pyval :=
  match attempts with
  | [] =>
      match last_err with
      | None => raise AssertionError
      | Some e => raise e
      end
  | attempt :: rest =>
      try_except (invoke "requests.get" (requests_get_json url query))
        (fun e =>
           let sleep_s := 2 * (attempt + 1) in
           log ("[metrics] request failed (attempt " +:+ pretty (attempt + 1) +:+ "/6): "
                +:+ exn_str e +:+ "; retrying in " +:+ pretty sleep_s +:+ "s") ;;;
           sleep sleep_s ;;;
           http_get_json_loop url query rest (Some e))
  end.

Definition http_get_json (url query : string) : Py W pyval :=
  http_get_json_loop url query [0; 1; 2; 3; 4; 5] None.

(** [if context: log(...)] *)
Definition log_if (context : option string) (line : string -> string) : Py W unit :=
  match context with
  | None | Some EmptyString => ret tt
  | Some c => log (line c)
  end.

Definition prom_query (base_url query : string) (context : option string) : Py W float :=
  let url := rstrip_slash base_url +:+ "/api/v1/query" in
  start <- now ;;
  data <- http_get_json url query ;;
  t <- now ;;
  let duration := t - start in
  log_if context (fun c => "[metrics] " +:+ c +:+ " took " +:+ pretty duration +:+ ".0s") ;;;
  st <- lift (py_get data "status" PNone) ;;
  if negb (py_eq_str st "success")
  then raise (RuntimeError ("Prom query failed: " +:+ py_str data))
  else
    d <- lift (py_get data "data" (PDict [])) ;;
    result <- lift (py_get d "result" (PList [])) ;;
    if negb (truthy result) then
      log_if context (fun c => "[metrics] " +:+ c +:+ " returned empty result") ;;;
      ret 0%float
    else
      r0 <- lift (py_index result 0) ;;
      v <- lift (py_getitem r0 "value") ;;
      v1 <- lift (py_index v 1) ;;
      value <- lift (py_float v1) ;;
      log_if context (fun c => "[metrics] " +:+ c +:+ " value=" +:+ float_repr value) ;;;
      ret value.

(** [v != 0.0] *)
Definition nonzero (v : float) : bool := negb (PrimFloat.eqb v 0%float).

Definition metric_keys : list string :=
  ["apiserver_cpu_cores"; "apiserver_mem_bytes"; "etcd_cpu_cores"; "etcd_mem_bytes"].

Definition selector (namespace pod_label regex : string) (include_container_filter : bool) : string :=
  let container_filter :=
    if include_container_filter
    then "container!=" +:+ dq +:+ dq +:+ ",container!=" +:+ dq +:+ "POD" +:+ dq
    else EmptyString in
  let comma := if include_container_filter then "," else EmptyString in
  "{namespace=" +:+ dq +:+ namespace +:+ dq +:+ "," +:+ pod_label +:+ "=~" +:+ dq +:+ regex +:+ dq
  +:+ comma +:+ container_filter +:+ "}".

Definition queries (namespace apiserver_regex etcd_regex window pod_label : string)
    (include_container_filter : bool) : list (string * string) :=
  let apiserver_selector := selector namespace pod_label apiserver_regex include_container_filter in
  let etcd_selector := selector namespace pod_label etcd_regex include_container_filter in
  [ ("apiserver_cpu_cores",
     "sum(rate(container_cpu_usage_seconds_total" +:+ apiserver_selector +:+ "[" +:+ window +:+ "]))");
    ("apiserver_mem_bytes",
     "sum(avg_over_time(container_memory_working_set_bytes" +:+ apiserver_selector +:+ "[" +:+ window +:+ "]))");
    ("etcd_cpu_cores",
     "sum(rate(container_cpu_usage_seconds_total" +:+ etcd_selector +:+ "[" +:+ window +:+ "]))");
    ("etcd_mem_bytes",
     "sum(avg_over_time(container_memory_working_set_bytes" +:+ etcd_selector +:+ "[" +:+ window +:+ "]))") ].

Definition py_bool_str (b : bool) : string := if b then "True" else "False".

(** The four futures of [run_queries], taken one after the other in the order
    of [queries]; a failed query counts as [0.0]. *)
Fixpoint collect_results (base_url : string) (qs : list (string * string))
    (results : gmap string float) : Py W (gmap string float) :=
  match qs with
  | [] => ret results
  | (k, query) :: rest =>
      v <- try_except (prom_query base_url query (Some k))
             (fun e =>
                log ("[metrics] query failed for " +:+ k +:+ ": " +:+ exn_str e +:+ "; using 0") ;;;
                ret 0%float) ;;
      collect_results base_url rest (<[k := v]> results)
  end.

Fixpoint log_queries (pod_label : string) (include_container_filter : bool)
    (qs : list (string * string)) : Py W unit :=
  match qs with
  | [] => ret tt
  | (k, q) :: rest =>
      log ("[metrics] query[" +:+ k +:+ "] (label=" +:+ pod_label +:+ ", filter="
           +:+ py_bool_str include_container_filter +:+ "): " +:+ q) ;;;
      log_queries pod_label include_container_filter rest
  end.

Definition run_queries (base_url namespace apiserver_regex etcd_regex window : string)
    (pod_label : string) (include_container_filter : bool) : Py W (gmap string float) :=
  let qs := queries namespace apiserver_regex etcd_regex window pod_label include_container_filter in
  log_queries pod_label include_container_filter qs ;;;
  collect_results base_url qs ∅.

(** [any(v != 0.0 for v in results.values())] *)
Definition any_nonzero (results : gmap string float) : bool :=
  bool_decide (map_Exists (fun _ v => nonzero v = true) results).

Definition zero_snapshot : gmap string float :=
  <["apiserver_cpu_cores" := 0%float]> (<["apiserver_mem_bytes" := 0%float]>
    (<["etcd_cpu_cores" := 0%float]> (<["etcd_mem_bytes" := 0%float]> ∅))).

Definition variants : list (string * bool) :=
  [("pod", true); ("pod", false); ("pod_name", true); ("pod_name", false)].

Fixpoint try_variants (base_url namespace apiserver_regex etcd_regex window : string)
    (vs : list (string * bool)) : Py W (gmap string float) :=
  match vs with
  | [] =>
      log "[metrics] all query variants returned 0; returning zeros" ;;;
      ret zero_snapshot
  | (pod_label, with_filter) :: rest =>
      log ("[metrics] attempting with pod_label=" +:+ pod_label +:+ " filter=" +:+ py_bool_str with_filter) ;;;
      results <- run_queries base_url namespace apiserver_regex etcd_regex window pod_label with_filter ;;
      if any_nonzero results then ret results
      else try_variants base_url namespace apiserver_regex etcd_regex window rest
  end.

Definition count_query (metric namespace : string) (pod_regex : option string) : string :=
  "count(" +:+ metric +:+ "{namespace=" +:+ dq +:+ namespace +:+ dq
  +:+ match pod_regex with
      | None => EmptyString
      | Some r => ",pod=~" +:+ dq +:+ r +:+ dq
      end
  +:+ "})".

(** The pre-flight series counts; any failure is logged and dropped. *)
Definition preflight (base_url namespace apiserver_regex etcd_regex : string) : Py W unit :=
  try_except
    (ns_cpu <- prom_query base_url
                 (count_query "container_cpu_usage_seconds_total" namespace None)
                 (Some "series_count_ns_cpu") ;;
     ns_mem <- prom_query base_url
                 (count_query "container_memory_working_set_bytes" namespace None)
                 (Some "series_count_ns_mem") ;;
     apiserver <- prom_query base_url
                 (count_query "container_cpu_usage_seconds_total" namespace (Some apiserver_regex))
                 (Some "series_count_apiserver") ;;
     etcd <- prom_query base_url
                 (count_query "container_cpu_usage_seconds_total" namespace (Some etcd_regex))
                 (Some "series_count_etcd") ;;
     log ("[metrics] series counts: ns_cpu=" +:+ float_repr ns_cpu +:+ " ns_mem=" +:+ float_repr ns_mem
          +:+ " apiserver=" +:+ float_repr apiserver +:+ " etcd=" +:+ float_repr etcd))
    (fun e => log ("[metrics] pre-flight series counts failed: " +:+ exn_str e)).

Definition measure_metrics (base_url namespace apiserver_regex etcd_regex window : string)
    : Py W (gmap string float) :=
  log ("[metrics] VM_BASE_URL=" +:+ base_url +:+ " namespace=" +:+ namespace +:+ " window=" +:+ window) ;;;
  log "[metrics] querying apiserver cpu/memory and etcd cpu/memory …" ;;;
  preflight base_url namespace apiserver_regex etcd_regex ;;;
  try_variants base_url namespace apiserver_regex etcd_regex window variants.

End Metrics.

(** ** YAML documents and the heap *)

(** [yaml.safe_load] of a text without aliases, given as the document it
    denotes: every node becomes a fresh object, children first. *)
Fixpoint load_doc (t : pyval) (h : list object) : value * list object :=
  match t with
  | PNone => (VNone, h)
  | PBool b => (VBool b, h)
  | PInt z => (VInt z, h)
  | PFloat f => (VFloat f, h)
  | PStr s => (VStr s, h)
  | PList xs =>
      let '(vs, h') :=
        (fix items (xs : list pyval) (h : list object) : list value * list object :=
           match xs with
           | [] => ([], h)
           | x :: rest =>
               let '(v, h1) := load_doc x h in
               let '(vs, h2) := items rest h1 in
               (v :: vs, h2)
           end) xs h in
      (VRef (length h'), (h' ++ [OList vs])%list)
  | PDict kvs =>
      let '(vs, h') :=
        (fix items (kvs : list (string * pyval)) (h : list object)
           : list (string * value) * list object :=
           match kvs with
           | [] => ([], h)
           | (k, x) :: rest =>
               let '(v, h1) := load_doc x h in
               let '(vs, h2) := items rest h1 in
               ((k, v) :: vs, h2)
           end) kvs h in
      (VRef (length h'), (h' ++ [ODict vs])%list)
  end.

(** [yaml.safe_load] on the items of a list, in turn. *)
Fixpoint load_items (xs : list pyval) (h : list object) : list value * list object :=
  match xs with
  | [] => ([], h)
  | x :: rest =>
      let '(v, h1) := load_doc x h in
      let '(vs, h2) := load_items rest h1 in
      (v :: vs, h2)
  end.

(** The document a value holds: what is reachable from [v], with an object
    that is reached twice written out at both places and the keys in the
    order of insertion.  This is what a reader of the object sees; the
    unfolding is cut at [fuel] nested containers. *)
Fixpoint dump_value (fuel : nat) (h : list object) (v : value) : option pyval :=
  match v with
  | VNone => Some PNone
  | VBool b => Some (PBool b)
  | VInt z => Some (PInt z)
  | VFloat f => Some (PFloat f)
  | VStr s => Some (PStr s)
  | VRef l =>
      match fuel with
      | O => None
      | S fuel' =>
          match h !! l with
          | Some (OList vs) => PList <$> mapM (dump_value fuel' h) vs
          | Some (ODict kvs) =>
              PDict <$> mapM (fun kv => pair (fst kv) <$> dump_value fuel' h (snd kv)) kvs
          | None => None
          end
      end
  end.

(** ** The round trip through YAML *)

(** [sorted(mapping.items())] on string keys, which [yaml.safe_dump] applies
    to every mapping: by insertion, in the order of the bytes, which in UTF-8
    is the order of the code points. *)
Fixpoint insert_item {V : Type} (kv : string * V) (kvs : list (string * V))
    : list (string * V) :=
  match kvs with
  | [] => [kv]
  | kv' :: rest =>
      if String.leb (fst kv) (fst kv') then kv :: kvs else kv' :: insert_item kv rest
  end.

Fixpoint sort_items {V : Type} (kvs : list (string * V)) : list (string * V) :=
  match kvs with
  | [] => []
  | kv :: rest => insert_item kv (sort_items rest)
  end.

(** The copy made of the object at [l], if one was made. *)
Fixpoint memo_get (l : nat) (memo : list (nat * nat)) : option nat :=
  match memo with
  | [] => None
  | (l0, l') :: rest => if (l =? l0)%nat then Some l' else memo_get l rest
  end.

Fixpoint copy_values {S : Type} (f : S -> value -> option (value * S)) (st : S)
    (vs : list value) : option (list value * S) :=
  match vs with
  | [] => Some ([], st)
  | v :: rest =>
      match f st v with
      | Some (v', st1) =>
          match copy_values f st1 rest with
          | Some (vs', st2) => Some (v' :: vs', st2)
          | None => None
          end
      | None => None
      end
  end.

(** [yaml.safe_load(yaml.safe_dump(v))], on the objects: the dump writes a
    list or dict met a second time as an alias of the first, and the load
    makes one object of both, so the copy shares what the original shares;
    the dump sorts the keys of every dict.  The state is the pairs of an
    object and its copy so far, and the copies made so far, which will lie
    in the heap from [base] on.  A dict or list that contains itself, which
    YAML can write too, is cut at [fuel] nested containers. *)
Fixpoint copy_value (fuel base : nat) (h : list object)
    (st : list (nat * nat) * list object) (v : value)
    : option (value * (list (nat * nat) * list object)) :=
  match v with
  | VRef l =>
      match memo_get l (fst st) with
      | Some l' => Some (VRef l', st)
      | None =>
          match fuel with
          | O => None
          | S fuel' =>
              match h !! l with
              | Some (OList vs) =>
                  match copy_values (copy_value fuel' base h) st vs with
                  | Some (vs', (memo, out)) =>
                      Some (VRef (base + length out),
                            ((l, base + length out)%nat :: memo, (out ++ [OList vs'])%list))
                  | None => None
                  end
              | Some (ODict kvs) =>
                  let kvs := sort_items kvs in
                  match copy_values (copy_value fuel' base h) st (map snd kvs) with
                  | Some (vs', (memo, out)) =>
                      Some (VRef (base + length out),
                            ((l, base + length out)%nat :: memo,
                             (out ++ [ODict (zip (map fst kvs) vs')])%list))
                  | None => None
                  end
              | None => None
              end
          end
      end
  | _ => Some (v, st)
  end.

Section HeapOps.
Context {W : Type}.

(** The document an object holds at this moment, for a library that only
    reads the object.  A chain of nested containers longer than the heap
    would revisit an object; such graphs are outside the documents the
    script handles. *)
Definition snapshot (v : value) : Py W pyval :=
  fun s => match dump_value (S (length (heap s))) (heap s) v with
           | Some t => (Ok t, s)
           | None => (OutOfFuel, s)
           end.

Definition yaml_safe_load (t : pyval) : Py W value :=
  fun s => let '(v, h') := load_doc t (heap s) in (Ok v, mkState h' (world s) (trace s)).

(** [yaml.safe_load(yaml.safe_dump(v))] *)
Definition yaml_round_trip (v : value) : Py W value :=
  fun s =>
    match copy_value (S (length (heap s))) (length (heap s)) (heap s) ([], []) v with
    | Some (v', (_, out)) => (Ok v', mkState (heap s ++ out) (world s) (trace s))
    | None => (OutOfFuel, s)
    end.

(** A fresh object, for a list or dict display. *)
Definition alloc (o : object) : Py W value :=
  fun s => (Ok (VRef (length (heap s))), mkState (heap s ++ [o]) (world s) (trace s)).

Definition deref (v : value) : Py W (option object) :=
  fun s => (Ok (match v with VRef l => heap s !! l | _ => None end), s).

Definition store (v : value) (o : object) : Py W unit :=
  fun s => match v with
           | VRef l => (Ok tt, mkState (<[l := o]> (heap s)) (world s) (trace s))
           | _ => (Ok tt, s)
           end.

(** [v.get(k, default)] *)
Definition h_get (v : value) (k : string) (default : value) : Py W value :=
  o <- deref v ;;
  match o with
  | Some (ODict kvs) => ret (match dict_get k kvs with Some x => x | None => default end)
  | _ => raise AttributeError
  end.

(** [v[k]] for a string key *)
Definition h_getitem (v : value) (k : string) : Py W value :=
  o <- deref v ;;
  match o with
  | Some (ODict kvs) =>
      match dict_get k kvs with Some x => ret x | None => raise (KeyError k) end
  | _ => raise TypeError
  end.

(** [v[i]] for an index [i >= 0] *)
Definition h_index (v : value) (i : nat) : Py W value :=
  o <- deref v ;;
  match o with
  | Some (OList vs) => match vs !! i with Some x => ret x | None => raise IndexError end
  | Some (ODict _) => raise (KeyError (pretty i))
  | None =>
      match v with
      | VStr s => match String.get i s with
                  | Some c => ret (VStr (String c EmptyString))
                  | None => raise IndexError
                  end
      | _ => raise TypeError
      end
  end.

(** [v[k] = x] for a string key *)
Definition h_setitem (v : value) (k : string) (x : value) : Py W unit :=
  o <- deref v ;;
  match o with
  | Some (ODict kvs) => store v (ODict (dict_set k x kvs))
  | _ => raise TypeError
  end.

(** The elements a [for] loop over [v] visits. *)
Definition h_iter (v : value) : Py W (list value) :=
  o <- deref v ;;
  match o with
  | Some (OList vs) => ret vs
  | Some (ODict kvs) => ret (map (fun kv => VStr (fst kv)) kvs)
  | None =>
      match v with
      | VStr s => ret (map (fun c => match c with PStr x => VStr x | _ => VNone end) (string_chars s))
      | _ => raise TypeError
      end
  end.

(** [bool(v)] *)
Definition h_truthy (v : value) : Py W bool :=
  o <- deref v ;;
  ret (match o with
       | Some (OList vs) => match vs with [] => false | _ => true end
       | Some (ODict kvs) => match kvs with [] => false | _ => true end
       | None =>
           match v with
           | VNone => false
           | VBool b => b
           | VInt z => negb (z =? 0)
           | VFloat f => negb (PrimFloat.eqb f 0%float)
           | VStr s => negb (String.eqb s EmptyString)
           | VRef _ => true
           end
       end).

(** [v.rstrip("/")]: only strings have the method. *)
Definition h_rstrip (v : value) : Py W string :=
  match v with
  | VStr s => ret (rstrip_slash s)
  | _ => raise AttributeError
  end.

Fixpoint for_each {A : Type} (xs : list A) (body : A -> Py W unit) : Py W unit :=
  match xs with
  | [] => ret tt
  | x :: rest => body x ;;; for_each rest body
  end.

(** ** Scoped Credential Deriver *)

Definition build_scoped_kubeconfig (base_cfg : value) (scope_path new_name : string)
    : Py W value :=
  cfg <- yaml_round_trip base_cfg ;;
  empty <- alloc (OList []) ;;
  clusters <- h_get cfg "clusters" empty ;;
  cs <- h_iter clusters ;;
  for_each cs (fun c =>
    cl <- h_getitem c "cluster" ;;
    sv <- h_get cl "server" (VStr EmptyString) ;;
    server <- h_rstrip sv ;;
    h_setitem c "name" (VStr new_name) ;;;
    cl' <- h_getitem c "cluster" ;;
    h_setitem cl' "server" (VStr (server +:+ scope_path))) ;;;
  contexts <- h_get cfg "contexts" VNone ;;
  has_contexts <- h_truthy contexts ;;
  (if has_contexts then
     ctxs <- h_getitem cfg "contexts" ;;
     xs <- h_iter ctxs ;;
     for_each xs (fun ctx =>
       h_setitem ctx "name" (VStr new_name) ;;;
       inner <- h_getitem ctx "context" ;;
       h_setitem inner "cluster" (VStr new_name))
   else ret tt) ;;;
  current <- h_get cfg "current-context" VNone ;;
  has_current <- h_truthy current ;;
  (if has_current then h_setitem cfg "current-context" (VStr new_name) else ret tt) ;;;
  ret cfg.

End HeapOps.

(** ** Strings of the run configuration *)

(** Strings hold text in UTF-8: a character outside ASCII is the two to four
    bytes of its encoding. *)
Definition utf8 (bytes : list nat) : string :=
  fold_right (fun n s => String (ascii_of_nat n) s) EmptyString bytes.

(** The characters [str.isspace()] accepts, which [str.strip()] removes:
    U+0009..U+000D, U+001C..U+0020, U+0085, U+00A0, U+1680, U+2000..U+200A,
    U+2028, U+2029, U+202F, U+205F and U+3000. *)
Definition whitespace : list string :=
  Eval cbv in
  map utf8
    [ [9]; [10]; [11]; [12]; [13]; [28]; [29]; [30]; [31]; [32];
      [194; 133]; [194; 160]; [225; 154; 128];
      [226; 128; 128]; [226; 128; 129]; [226; 128; 130]; [226; 128; 131];
      [226; 128; 132]; [226; 128; 133]; [226; 128; 134]; [226; 128; 135];
      [226; 128; 136]; [226; 128; 137]; [226; 128; 138];
      [226; 128; 168]; [226; 128; 169]; [226; 128; 175]; [226; 129; 159];
      [227; 128; 128] ]%nat.

(** [s] without the leading [p], when it starts with [p]. *)
Fixpoint drop_prefix (p s : string) : option string :=
  match p, s with
  | EmptyString, _ => Some s
  | String a p', String b s' => if Ascii.eqb a b then drop_prefix p' s' else None
  | String _ _, EmptyString => None
  end.

(** [s] without one leading character of [chars], when it starts with one. *)
Fixpoint strip_one (chars : list string) (s : string) : option string :=
  match chars with
  | [] => None
  | p :: rest =>
      match drop_prefix p s with
      | Some t => Some t
      | None => strip_one rest s
      end
  end.

Fixpoint lstrip_loop (fuel : nat) (chars : list string) (s : string) : string :=
  match fuel with
  | O => s
  | S fuel' =>
      match strip_one chars s with
      | Some t => lstrip_loop fuel' chars t
      | None => s
      end
  end.

(** [s.lstrip()] *)
Definition lstrip (s : string) : string := lstrip_loop (String.length s) whitespace s.

(** [s.rstrip()]: the same from the other end. *)
Definition rstrip (s : string) : string :=
  String.rev (lstrip_loop (String.length s) (map String.rev whitespace) (String.rev s)).

(** [s.strip()] *)
Definition strip (s : string) : string := rstrip (lstrip s).

(** [s.lower()], on ASCII letters; the bytes of other characters are left as
    they are.  The script only compares the result with words in ASCII
    letters other than k, and [str.lower()] maps no character outside ASCII
    to such a letter (the Kelvin sign, which becomes k, is the one character
    it maps into ASCII), so every such comparison comes out as in Python. *)
Fixpoint lower (s : string) : string :=
  match s with
  | EmptyString => EmptyString
  | String c rest =>
      let n := nat_of_ascii c in
      String (if ((65 <=? n) && (n <=? 90))%nat then ascii_of_nat (n + 32) else c) (lower rest)
  end.

Definition parse_bool (value : option string) (default : bool) : bool :=
  match value with
  | None => default
  | Some v =>
      let x := lower (strip v) in
      existsb (String.eqb x) ["1"; "true"; "t"; "yes"; "y"; "on"]
  end.

(** [f"{i:03d}"] for [i >= 0] *)
Definition zfill3 (i : Z) : string :=
  let s := pretty i in
  match String.length s with
  | 0%nat => "000" | 1%nat => "00" +:+ s | 2%nat => "0" +:+ s | _ => s
  end.

(** [range(1, n + 1)] *)
Definition range1 (n : Z) : list Z := map Z.of_nat (seq 1 (Z.to_nat n)).

Definition labels_doc (labels : list (string * string)) : pyval :=
  PDict (map (fun kv => (fst kv, PStr (snd kv))) labels).

(** ** Concurrent Tree Provisioner *)

Section Provisioner.
Context {W : Type} {P : Platform W} {L : PyLib}.

Definition getenv (name : string) : Py W (option string) :=
  fun s => (Ok (os_getenv name (world s)), s).

Definition print (msg : string) : Py W unit := emit (EvPrint msg).

Definition get_env (name : string) (default : option string) : Py W string :=
  v <- getenv name ;;
  match v, default with
  | Some x, _ => ret x
  | None, Some d => ret d
  | None, None => print ("Missing required env var: " +:+ name) ;;; sys_exit 1
  end.

(** [yaml.safe_load(f)]: the file is taken to hold a YAML text without
    aliases, so that the platform can hand over the document it denotes. *)
Definition load_yaml_file (path : string) : Py W value :=
  doc <- invoke ("open " +:+ path) (yaml_load_file path) ;;
  yaml_safe_load doc.

Definition kube_client_from_config (cfg : value) : Py W ApiClient :=
  doc <- snapshot cfg ;;
  invoke "KubeConfigLoader" (load_client doc).

Definition api_group : string := "resourcemanager.miloapis.com".
Definition api_version : string := "v1alpha1".

(** The two log lines on the kubeconfig in use; read on a snapshot, and
    dropped on any exception. *)
Definition log_kubeconfig (scope : string) (cfg : value) : Py W unit :=
  try_except
    (doc <- snapshot cfg ;;
     clusters <- lift (py_get doc "clusters" (PList [PDict []])) ;;
     c0 <- lift (py_index clusters 0) ;;
     cluster <- lift (py_get c0 "cluster" (PDict [])) ;;
     server <- lift (py_get cluster "server" (PStr EmptyString)) ;;
     users <- lift (py_get doc "users" (PList [PDict []])) ;;
     u0 <- lift (py_index users 0) ;;
     user <- lift (py_get u0 "name" (PStr EmptyString)) ;;
     log ("Using " +:+ scope +:+ "-scoped kubeconfig: server=" +:+ py_str server
          +:+ " user=" +:+ py_str user))
    (fun _ => ret tt).

(** The optional [AUTH_BEARER_TOKEN] override, written into [base_cfg]. *)
Definition override_token (base_cfg : value) : Py W unit :=
  tok <- getenv "AUTH_BEARER_TOKEN" ;;
  match tok with
  | None | Some EmptyString => ret tt
  | Some token =>
      try_except
        (users <- h_get base_cfg "users" VNone ;;
         has_users <- h_truthy users ;;
         if has_users then
           us <- h_getitem base_cfg "users" ;;
           u0 <- h_index us 0 ;;
           user <- h_getitem u0 "user" ;;
           h_setitem user "token" (VStr token) ;;;
           log "Using AUTH_BEARER_TOKEN override for kubeconfig user[0]"
         else ret tt)
        (fun _ => ret tt)
  end.

Definition org_body (org_name : string) (labels : list (string * string)) : pyval :=
  PDict [ ("apiVersion", PStr "resourcemanager.miloapis.com/v1alpha1");
          ("kind", PStr "Organization");
          ("metadata", PDict [("name", PStr org_name); ("labels", labels_doc labels)]);
          ("spec", PDict [("type", PStr "Standard")]) ].

Definition proj_body (org_name pname : string) (labels : list (string * string)) : pyval :=
  PDict [ ("apiVersion", PStr "resourcemanager.miloapis.com/v1alpha1");
          ("kind", PStr "Project");
          ("metadata", PDict [("name", PStr pname); ("labels", labels_doc labels)]);
          ("spec", PDict [("ownerRef", PDict [("kind", PStr "Organization"); ("name", PStr org_name)])]) ].

(** Lines 332-343: the Organization create, with 409 swallowed. *)
Definition create_organization (coapi : ApiClient) (org_name : string)
    (labels : list (string * string)) : Py W unit :=
  try_except
    (retry_with_backoff "create Organization"
       (invoke ("create organizations/" +:+ org_name)
          (create_cluster_custom_object coapi api_group api_version "organizations"
             (org_body org_name labels))) ;;;
     ret tt)
    (fun e =>
       match e with
       | ApiException status _ => if negb (status =? 409) then raise e else ret tt
       | _ => raise e
       end).

Definition project_name (org_name : string) (i : Z) : string :=
  org_name +:+ "-p-" +:+ zfill3 i.

Definition body_str (body : option string) : string :=
  match body with Some b => b | None => "None" end.

(** Lines 373-385: one Project create, with 409 swallowed. *)
Definition create_project (org_coapi : ApiClient) (org_name pname : string)
    (labels : list (string * string)) : Py W unit :=
  try_except
    (retry_with_backoff ("create Project " +:+ pname)
       (invoke ("create projects/" +:+ pname)
          (create_cluster_custom_object org_coapi api_group api_version "projects"
             (proj_body org_name pname labels))) ;;;
     ret tt)
    (fun e =>
       match e with
       | ApiException status body =>
           if negb (status =? 409) then
             log ("error creating Project '" +:+ pname +:+ "': " +:+ body_str body) ;;;
             raise e
           else ret tt
       | _ => raise e
       end).

(** Lines 364-387: [for i in range(1, num_projects + 1)], over the indices
    that remain. *)
Fixpoint create_projects (org_coapi : ApiClient) (org_name : string)
    (labels : list (string * string)) (num_projects : Z) (indices : list Z)
    (project_names : list string) : Py W (list string) :=
  match indices with
  | [] => ret project_names
  | i :: rest =>
      let pname := project_name org_name i in
      let project_names := (project_names ++ [pname])%list in
      create_project org_coapi org_name pname labels ;;;
      (if (i mod 10 =? 0) || (i =? num_projects)
       then log ("Created " +:+ pretty i +:+ "/" +:+ pretty num_projects +:+ " Projects …")
       else ret tt) ;;;
      create_projects org_coapi org_name labels num_projects rest project_names
  end.

(** Lines 392-396: the readiness waits, over the names that remain. *)
Fixpoint wait_projects (fuel : nat) (org_coapi : ApiClient) (total : Z)
    (names : list string) (ready : Z) : Py W unit :=
  match names with
  | [] => ret tt
  | pname :: rest =>
      wait_condition_ready fuel org_coapi api_group api_version "projects" pname 900
        (Some "Project") ;;;
      let ready := ready + 1 in
      (if (ready mod 10 =? 0) || (ready =? total)
       then log ("Projects Ready: " +:+ pretty ready +:+ "/" +:+ pretty total +:+ " …")
       else ret tt) ;;;
      wait_projects fuel org_coapi total rest ready
  end.

Definition org_scope (org_name : string) : string :=
  "/apis/resourcemanager.miloapis.com/v1alpha1/organizations/" +:+ org_name +:+ "/control-plane".

Definition project_scope (pname : string) : string :=
  "/apis/resourcemanager.miloapis.com/v1alpha1/projects/" +:+ pname +:+ "/control-plane".

Definition create_org_and_projects (fuel : nat) (milo_kubeconfig_path org_name : string)
    (num_projects : Z) (labels : list (string * string))
    : Py W (value * list string * Z) :=
  base_cfg <- load_yaml_file milo_kubeconfig_path ;;
  override_token base_cfg ;;;
  coapi <- kube_client_from_config base_cfg ;;
  log_kubeconfig "cluster" base_cfg ;;;
  log ("Creating Organization '" +:+ org_name +:+ "' …") ;;;
  create_organization coapi org_name labels ;;;
  log ("Organization '" +:+ org_name +:+ "' created") ;;;
  org_cfg <- build_scoped_kubeconfig base_cfg (org_scope org_name) ("organization-" +:+ org_name) ;;
  org_coapi <- kube_client_from_config org_cfg ;;
  log_kubeconfig "organization" org_cfg ;;;
  start <- now ;;
  log ("Creating " +:+ pretty num_projects +:+ " Projects …") ;;;
  project_names <- create_projects org_coapi org_name labels num_projects
                     (range1 num_projects) [] ;;
  log "Waiting for Projects to become Ready …" ;;;
  wait_projects fuel org_coapi (Z.of_nat (length project_names)) project_names 0 ;;;
  finish <- now ;;
  ret (base_cfg, project_names, finish - start).

End Provisioner.

(** ** Object creation, Checkpoint Store, Cleanup Engine and the run *)

Definition nl : string := String (ascii_of_nat 10) EmptyString.

(** [os.path.join(dir, name)] for a relative [name] *)
Definition path_join (dir name : string) : string :=
  if String.eqb dir EmptyString then name
  else if String.eqb (rstrip_slash dir) dir then dir +:+ "/" +:+ name
  else dir +:+ name.

Definition metrics_doc (m : gmap string float) : pyval :=
  PDict (map (fun kv => (fst kv, PFloat (snd kv))) (map_to_list m)).

Section Run.
Context {W : Type} {P : Platform W} {L : PyLib}.

(** [int(s)] *)
Definition py_int (s : string) : Py W Z :=
  match int_of_string s with
  | Some z => ret z
  | None => raise ValueError
  end.

Definition create_secret (v1 : option ApiClient) (pname : string)
    (labels : list (string * string)) (i : Z) : Py W unit :=
  let sname := "perf-secret-" +:+ zfill3 i in
  let body := {| secret_metadata := {| meta_name := sname; meta_labels := labels |};
                 secret_string_data := [("note", "secret " +:+ pretty i +:+ " for " +:+ pname)];
                 secret_type := "Opaque" |} in
  try_except
    (invoke ("create secrets/" +:+ sname) (create_namespaced_secret v1 "default" body))
    (fun e =>
       match e with
       | ApiException status _ => if negb (status =? 409) then raise e else ret tt
       | _ => raise e
       end).

Definition create_configmap (v1 : option ApiClient) (pname : string)
    (labels : list (string * string)) (i : Z) : Py W unit :=
  let cname := "perf-configmap-" +:+ zfill3 i in
  let body := {| cm_metadata := {| meta_name := cname; meta_labels := labels |};
                 cm_data := [("note", "configmap " +:+ pretty i +:+ " for " +:+ pname)] |} in
  try_except
    (invoke ("create configmaps/" +:+ cname) (create_namespaced_config_map v1 "default" body))
    (fun e =>
       match e with
       | ApiException status _ => if negb (status =? 409) then raise e else ret tt
       | _ => raise e
       end).

(** The outcome of task [i], once it has ended. *)
Fixpoint task_result (i : nat) (results : list (nat * Res unit)) : option (Res unit) :=
  match results with
  | [] => None
  | (j, r) :: rest => if (i =? j)%nat then Some r else task_result i rest
  end.

(** What the iterator of [ex.map] has met so far: it takes the outcomes in
    the order of the items, waits for each, and stops at the first that is
    not a normal return. *)
Fixpoint iterator_failure (results : list (nat * Res unit)) (indices : list nat)
    : option (Res unit) :=
  match indices with
  | [] => None
  | i :: rest =>
      match task_result i results with
      | None => None
      | Some (Ok _) => iterator_failure results rest
      | Some r => Some r
      end
  end.

(** The workers of a pool.  The tasks are started in the order of the items,
    at most [workers] of them are in flight, and the scheduler picks the one
    in flight that does its work next; a task runs to its end whatever the
    others did.  Once the iterator has met a failure the tasks not yet
    started are cancelled, sooner or later; those in flight still run.  A
    task is run as one step: the steps of tasks in flight together are not
    interleaved, which is exact for the tasks of one call each. *)
Fixpoint pool_run {A : Type} (fuel workers : nat) (task : A -> Py W unit)
    (indices : list nat) (pending : list (nat * A)) (results : list (nat * Res unit))
    : Py W (list (nat * Res unit)) :=
  match fuel with
  | O => ret results
  | S fuel' =>
      fun s =>
        let cancelled :=
          match iterator_failure results indices with
          | Some _ => pool_cancelled (world s)
          | None => false
          end in
        let pending := if cancelled then take workers pending else pending in
        let in_flight := length (take workers pending) in
        match pending !! (pool_next in_flight (world s) mod in_flight)%nat with
        | None => (Ok results, s)
        | Some (i, x) =>
            let '(r, s') := task x s in
            pool_run fuel' workers task indices
              (delete (pool_next in_flight (world s) mod in_flight)%nat pending)
              (results ++ [(i, r)])%list s'
        end
  end.

(** [with ThreadPoolExecutor(max_workers=n) as ex: list(ex.map(task, items))]:
    the constructor raises [ValueError] unless [n > 0]; the block ends when
    the workers have ended, with the first failure in the order of the
    items, if there is one. *)
Definition pool_map {A : Type} (max_workers : Z) (task : A -> Py W unit) (items : list A)
    : Py W unit :=
  if max_workers <=? 0 then raise ValueError
  else
    let indices := seq 0 (length items) in
    results <- pool_run (length items) (Z.to_nat max_workers) task indices
                 (zip indices items) [] ;;
    match iterator_failure results indices with
    | Some r => fun s => (r, s)
    | None => ret tt
    end.

Definition work_project (base_cfg : value) (num_secrets num_configmaps : Z)
    (labels : list (string * string)) (object_concurrency : Z) (pname : string) : Py W unit :=
  proj_cfg <- build_scoped_kubeconfig base_cfg (project_scope pname) ("project-" +:+ pname) ;;
  proj_client <- kube_client_from_config proj_cfg ;;
  let v1 := Some proj_client in
  log ("[" +:+ pname +:+ "] Creating " +:+ pretty num_secrets +:+ " Secrets (concurrency="
       +:+ pretty object_concurrency +:+ ") …") ;;;
  (if 0 <? num_secrets
   then pool_map object_concurrency (create_secret v1 pname labels) (range1 num_secrets)
   else ret tt) ;;;
  log ("[" +:+ pname +:+ "] Secrets created: " +:+ pretty num_secrets +:+ "/" +:+ pretty num_secrets) ;;;
  log ("[" +:+ pname +:+ "] Creating " +:+ pretty num_configmaps +:+ " ConfigMaps (concurrency="
       +:+ pretty object_concurrency +:+ ") …") ;;;
  (if 0 <? num_configmaps
   then pool_map object_concurrency (create_configmap v1 pname labels) (range1 num_configmaps)
   else ret tt) ;;;
  log ("[" +:+ pname +:+ "] ConfigMaps created: " +:+ pretty num_configmaps +:+ "/"
       +:+ pretty num_configmaps).

Definition create_objects_in_projects (base_cfg : value) (org_name : string)
    (project_names : list string) (num_secrets num_configmaps : Z)
    (labels : list (string * string)) (project_concurrency object_concurrency : Z)
    : Py W unit :=
  let work := work_project base_cfg num_secrets num_configmaps labels object_concurrency in
  if project_concurrency <=? 1 then for_each project_names work
  else
    log ("Creating objects across projects (concurrency=" +:+ pretty project_concurrency +:+ ") …") ;;;
    pool_map project_concurrency work project_names.

(** [load_incluster_config()], falling back to [load_kube_config()] *)
Definition load_default_config : Py W unit :=
  try_except (invoke "load_incluster_config" load_incluster_config)
    (fun _ => invoke "load_kube_config" load_kube_config).

Definition save_results_configmap (namespace name : string) (data : list (string * string))
    : Py W unit :=
  load_default_config ;;;
  let cm := {| cm_metadata := {| meta_name := name; meta_labels := [] |}; cm_data := data |} in
  try_except
    (existing <- invoke ("read configmaps/" +:+ name)
                   (read_namespaced_config_map None name namespace) ;;
     let existing := {| cm_metadata := cm_metadata existing; cm_data := data |} in
     invoke ("replace configmaps/" +:+ name)
       (replace_namespaced_config_map None name namespace existing))
    (fun e =>
       match e with
       | ApiException status _ =>
           if status =? 404
           then invoke ("create configmaps/" +:+ name)
                  (create_namespaced_config_map None namespace cm)
           else raise e
       | _ => raise e
       end).

(** [json.dumps(v) if isinstance(v, (dict, list)) else str(v)] *)
Definition checkpoint_text (v : pyval) : string :=
  match v with
  | PDict _ | PList _ => json_dumps v
  | _ => py_str v
  end.

Definition save_checkpoint (namespace test_id org_name phase : string)
    (extra : option (list (string * pyval))) : Py W unit :=
  let data := [("test_id", test_id); ("org_name", org_name); ("phase", phase)] in
  let data :=
    match extra with
    | None => data
    | Some items => fold_left (fun d kv => dict_set (fst kv) (checkpoint_text (snd kv)) d) items data
    end in
  save_results_configmap namespace "perf-results" data.

Definition label_selector (test_id : string) : string := "app=milo-perf,test-id=" +:+ test_id.

(** Lines 708-717: the Secrets of one project. *)
Definition cleanup_secrets (v1 : option ApiClient) (label_sel : string) : Py W unit :=
  try_except
    (sl <- invoke "list secrets" (list_namespaced_secret v1 label_sel "default") ;;
     for_each (match sl with Some items => items | None => [] end) (fun s =>
       let name := meta_name (secret_metadata s) in
       try_except
         (invoke ("delete secrets/" +:+ name) (delete_namespaced_secret v1 name "default"))
         (fun e =>
            match e with
            | ApiException status _ => if negb (status =? 404) then raise e else ret tt
            | _ => raise e
            end)))
    (fun e => match e with ApiException _ _ => ret tt | _ => raise e end).

(** Lines 719-728: the ConfigMaps of one project. *)
Definition cleanup_configmaps (v1 : option ApiClient) (label_sel : string) : Py W unit :=
  try_except
    (cml <- invoke "list configmaps" (list_namespaced_config_map v1 label_sel "default") ;;
     for_each (match cml with Some items => items | None => [] end) (fun cm =>
       let name := meta_name (cm_metadata cm) in
       try_except
         (invoke ("delete configmaps/" +:+ name) (delete_namespaced_config_map v1 name "default"))
         (fun e =>
            match e with
            | ApiException status _ => if negb (status =? 404) then raise e else ret tt
            | _ => raise e
            end)))
    (fun e => match e with ApiException _ _ => ret tt | _ => raise e end).

(** [e.status not in (404, 409)]: re-raise; else swallow. *)
Definition tolerate_gone (e : exn) : Py W unit :=
  match e with
  | ApiException status _ =>
      if negb ((status =? 404) || (status =? 409)) then raise e else ret tt
  | _ => raise e
  end.

(** Lines 697-743: one listed project. *)
Definition cleanup_project (base_cfg : value) (org_coapi : ApiClient) (test_id : string)
    (item : pyval) : Py W unit :=
  metadata <- lift (py_getitem item "metadata") ;;
  name <- lift (py_getitem metadata "name") ;;
  let pname := py_str name in
  log ("[cleanup] project " +:+ pname +:+ ": deleting Secrets/ConfigMaps and Project …") ;;;
  try_except
    (proj_cfg <- build_scoped_kubeconfig base_cfg (project_scope pname) ("project-" +:+ pname) ;;
     proj_client <- kube_client_from_config proj_cfg ;;
     let v1 := Some proj_client in
     let label_sel := label_selector test_id in
     cleanup_secrets v1 label_sel ;;;
     cleanup_configmaps v1 label_sel)
    (fun _ => ret tt) ;;;
  try_except
    (invoke ("delete projects/" +:+ pname)
       (delete_cluster_custom_object org_coapi api_group api_version "projects" pname) ;;;
     ret tt)
    tolerate_gone.

Definition cleanup_resources (milo_kubeconfig_path test_id org_name : string) : Py W unit :=
  base_cfg <- load_yaml_file milo_kubeconfig_path ;;
  coapi <- kube_client_from_config base_cfg ;;
  org_cfg <- build_scoped_kubeconfig base_cfg (org_scope org_name) ("organization-" +:+ org_name) ;;
  org_coapi <- kube_client_from_config org_cfg ;;
  proj_list <- invoke "list projects"
                 (list_cluster_custom_object coapi api_group api_version "projects"
                    (label_selector test_id)) ;;
  items <- lift (py_get proj_list "items" (PList [])) ;;
  its <- lift (py_iter items) ;;
  for_each its (cleanup_project base_cfg org_coapi test_id) ;;;
  try_except
    (invoke ("delete organizations/" +:+ org_name)
       (delete_cluster_custom_object coapi api_group api_version "organizations" org_name) ;;;
     ret tt)
    tolerate_gone.

(** Lines 762-779: [RUN_MODE=cleanup]. *)
Definition main_cleanup (target_ns : string) : Py W unit :=
  milo_kubeconfig_path <- get_env "MILO_KUBECONFIG_PATH" (Some "/work/milo-kubeconfig") ;;
  test_id <- get_env "TEST_ID" None ;;
  org_name <- get_env "ORG_NAME" None ;;
  cleanup_resources milo_kubeconfig_path test_id org_name ;;;
  load_default_config ;;;
  try_except
    (invoke "delete configmaps/perf-results"
       (delete_namespaced_config_map None "perf-results" target_ns))
    (fun e =>
       match e with
       | ApiException status _ => if negb (status =? 404) then raise e else ret tt
       | _ => raise e
       end) ;;;
  print "Cleanup complete".

Definition results_doc (test_id now_iso org_name : string)
    (num_projects num_secrets num_configmaps projects_ready_seconds : Z)
    (baseline after_projects : gmap string float) (after_secrets : option (gmap string float))
    : pyval :=
  PDict [ ("test_id", PStr test_id);
          ("timestamp", PStr now_iso);
          ("org_name", PStr org_name);
          ("num_projects", PInt num_projects);
          ("num_secrets_per_project", PInt num_secrets);
          ("num_configmaps_per_project", PInt num_configmaps);
          ("projects_ready_seconds", PInt projects_ready_seconds);
          ("metrics", PDict [ ("baseline", metrics_doc baseline);
                              ("after_projects", metrics_doc after_projects);
                              ("after_secrets",
                               match after_secrets with
                               | Some m => metrics_doc m
                               | None => PNone
                               end) ]) ].

(** Lines 873-884: the result files; any failure is logged and dropped. *)
Definition write_results (out_dir test_id org_name : string) (results : pyval)
    (report_html : string) : Py W unit :=
  try_except
    (invoke "os.makedirs" (os_makedirs out_dir) ;;;
     invoke "write results.json"
       (write_file (path_join out_dir "results.json") (json_dumps_indent results)) ;;;
     invoke "write report.html" (write_file (path_join out_dir "report.html") report_html) ;;;
     invoke "write meta.txt"
       (write_file (path_join out_dir "meta.txt")
          ("test_id=" +:+ test_id +:+ nl +:+ "org_name=" +:+ org_name +:+ nl)) ;;;
     log ("Results written to " +:+ out_dir))
    (fun e => log ("Failed to write results to " +:+ out_dir +:+ ": " +:+ exn_str e)).

(** Lines 886-897: the results ConfigMap; any failure is logged and dropped. *)
Definition publish_results (target_ns test_id org_name : string) (results : pyval)
    (report_html : string) : Py W unit :=
  try_except
    (let cm_data := [ ("results.json", json_dumps_indent results);
                      ("report.html", report_html);
                      ("test_id", test_id);
                      ("org_name", org_name) ] in
     save_results_configmap target_ns "perf-results" cm_data ;;;
     log "Also saved results to ConfigMap 'perf-results'")
    (fun e => log ("Skipping ConfigMap save (insufficient RBAC?): " +:+ exn_str e)).

Definition stabilize (stabilize_seconds : Z) (what : string) : Py W unit :=
  if 0 <? stabilize_seconds then
    log ("Stabilizing for " +:+ pretty stabilize_seconds +:+ "s after " +:+ what +:+ " …") ;;;
    sleep stabilize_seconds
  else ret tt.

(** Lines 781-899: [RUN_MODE=run]. *)
Definition main_run (fuel : nat) (target_ns : string) : Py W unit :=
  milo_kubeconfig_path <- get_env "MILO_KUBECONFIG_PATH" (Some "/work/milo-kubeconfig") ;;
  milo_metrics_ns <- get_env "MILO_NAMESPACE" (Some "milo-system") ;;
  vm_base_url <- get_env "VM_BASE_URL" None ;;
  apiserver_regex <- get_env "APISERVER_POD_REGEX" (Some "milo-apiserver.*") ;;
  etcd_regex <- get_env "ETCD_POD_REGEX" (Some "etcd.*") ;;
  window <- get_env "MEASURE_WINDOW" (Some "2m") ;;
  stabilize_seconds <- (x <- get_env "STABILIZE_SECONDS" (Some "90") ;; py_int x) ;;
  num_projects <- (x <- get_env "NUM_PROJECTS" (Some "100") ;; py_int x) ;;
  num_secrets <- (x <- get_env "NUM_SECRETS_PER_PROJECT" (Some "100") ;; py_int x) ;;
  num_configmaps <- (x <- get_env "NUM_CONFIGMAPS_PER_PROJECT" (Some "100") ;; py_int x) ;;
  project_concurrency <- (x <- getenv "PROJECT_CONCURRENCY" ;; py_int (default "4" x)) ;;
  object_concurrency <- (x <- getenv "OBJECT_CONCURRENCY" ;; py_int (default "8" x)) ;;
  run_objects_env <- getenv "RUN_OBJECTS_PHASE" ;;
  let run_objects_phase := parse_bool (Some (default "true" run_objects_env)) true in
  out_dir_env <- getenv "OUT_DIR" ;;
  let out_dir := default "/work/out" out_dir_env in
  test_id <- (fun s => let '(u, w') := uuid4_hex8 (world s) in
                       (Ok u, mkState (heap s) w' (trace s))) ;;
  org_env <- getenv "ORG_NAME" ;;
  let org_name :=
    match org_env with
    | Some o => if negb (String.eqb (strip o) EmptyString) then strip o else "perf-" +:+ test_id
    | None => "perf-" +:+ test_id
    end in
  let labels := [("app", "milo-perf"); ("test-id", test_id)] in
  save_checkpoint target_ns test_id org_name "init" (Some [("num_projects", PInt num_projects)]) ;;;
  log "Measuring baseline metrics …" ;;;
  baseline <- measure_metrics vm_base_url milo_metrics_ns apiserver_regex etcd_regex window ;;
  log ("Creating org '" +:+ org_name +:+ "' and " +:+ pretty num_projects +:+ " projects …") ;;;
  created <- create_org_and_projects fuel milo_kubeconfig_path org_name num_projects labels ;;
  let '(base_cfg, project_names, projects_ready_seconds) := created in
  save_checkpoint target_ns test_id org_name "org-created" None ;;;
  stabilize stabilize_seconds "projects are Ready" ;;;
  log "Measuring metrics after projects are Ready …" ;;;
  after_projects <- measure_metrics vm_base_url milo_metrics_ns apiserver_regex etcd_regex window ;;
  save_checkpoint target_ns test_id org_name "projects-ready"
    (Some [("num_projects", PInt num_projects)]) ;;;
  after_secrets <-
    (if run_objects_phase then
       log ("Creating " +:+ pretty num_secrets +:+ " secrets and " +:+ pretty num_configmaps
            +:+ " configmaps per project …") ;;;
       create_objects_in_projects base_cfg org_name project_names num_secrets num_configmaps
         labels project_concurrency object_concurrency ;;;
       stabilize stabilize_seconds "secrets/configmaps" ;;;
       log "Measuring metrics after creating secrets/configmaps …" ;;;
       m <- measure_metrics vm_base_url milo_metrics_ns apiserver_regex etcd_regex window ;;
       ret (Some m)
     else ret None) ;;
  now_iso <- (fun s => (Ok (now_isoformat (world s)), s)) ;;
  let results := results_doc test_id now_iso org_name num_projects num_secrets num_configmaps
                   projects_ready_seconds baseline after_projects after_secrets in
  let report_html := generate_report_html baseline after_projects after_secrets num_projects
                       projects_ready_seconds in
  write_results out_dir test_id org_name results report_html ;;;
  publish_results target_ns test_id org_name results report_html ;;;
  log "Perf run complete".

Definition main (fuel : nat) : Py W unit :=
  mode <- getenv "RUN_MODE" ;;
  let run_mode := lower (default "run" mode) in
  target_ns <- get_env "TARGET_NAMESPACE" (Some "milo-system") ;;
  if String.eqb run_mode "cleanup" then main_cleanup target_ns
  else main_run fuel target_ns.

End Run.

(** ** A simulated platform

    Worlds that count the calls made and carry a clock; what each remote
    operation answers is given by a table of handlers. *)

Record SimWorld := { sw_clock : Z; sw_calls : nat }.

Record Sim := {
  sim_env : string -> option string;
  sim_yaml : string -> SimWorld -> exn + pyval;
  sim_client : pyval -> SimWorld -> exn + ApiClient;
  sim_incluster : SimWorld -> exn + unit;
  sim_create : string -> pyval -> SimWorld -> exn + pyval;
  sim_get : string -> string -> SimWorld -> exn + pyval;
  sim_list : string -> SimWorld -> exn + pyval;
  sim_delete : string -> string -> SimWorld -> exn + pyval;
  sim_cm_read : string -> SimWorld -> exn + V1ConfigMap;
  sim_cm_write : string -> SimWorld -> exn + unit;
  sim_cm_delete : string -> SimWorld -> exn + unit;
  sim_cm_list : SimWorld -> exn + option (list V1ConfigMap);
  sim_secret_write : string -> SimWorld -> exn + unit;
  sim_secret_list : SimWorld -> exn + option (list V1Secret);
  sim_request : string -> string -> SimWorld -> exn + pyval;
  sim_file : string -> SimWorld -> exn + unit;
}.

(** One call made: the handler answers on the world before the call. *)
Definition sim_call {A : Type} (h : SimWorld -> exn + A) : Ext SimWorld A :=
  fun w => (h w, {| sw_clock := sw_clock w; sw_calls := S (sw_calls w) |}).

#[export] Instance sim_clock : Clock SimWorld := {
  time_time w := sw_clock w;
  time_sleep d w := {| sw_clock := sw_clock w + d; sw_calls := sw_calls w |};
}.

Definition sim_platform (sim : Sim) : Platform SimWorld := {|
  platform_clock := sim_clock;
  os_getenv name _ := sim_env sim name;
  yaml_load_file path := sim_call (sim_yaml sim path);
  load_client cfg := sim_call (sim_client sim cfg);
  load_incluster_config := sim_call (sim_incluster sim);
  load_kube_config := sim_call (fun _ => inr tt);
  create_cluster_custom_object _ _ _ plural body := sim_call (sim_create sim plural body);
  get_cluster_custom_object _ _ _ plural name := sim_call (sim_get sim plural name);
  list_cluster_custom_object _ _ _ plural _ := sim_call (sim_list sim plural);
  delete_cluster_custom_object _ _ _ plural name := sim_call (sim_delete sim plural name);
  read_namespaced_config_map _ name _ := sim_call (sim_cm_read sim name);
  replace_namespaced_config_map _ name _ _ := sim_call (sim_cm_write sim name);
  create_namespaced_config_map _ _ cm := sim_call (sim_cm_write sim (meta_name (cm_metadata cm)));
  delete_namespaced_config_map _ name _ := sim_call (sim_cm_delete sim name);
  list_namespaced_config_map _ _ _ := sim_call (sim_cm_list sim);
  create_namespaced_secret _ _ sec := sim_call (sim_secret_write sim (meta_name (secret_metadata sec)));
  delete_namespaced_secret _ name _ := sim_call (sim_secret_write sim name);
  list_namespaced_secret _ _ _ := sim_call (sim_secret_list sim);
  requests_get_json url query := sim_call (sim_request sim url query);
  os_makedirs dir := sim_call (sim_file sim dir);
  write_file path _ := sim_call (sim_file sim path);
  uuid4_hex8 w := ("0a1b2c3d", w);
  now_isoformat _ := "2025-01-01T00:00:00+00:00";
  pool_next _ w := sw_calls w;
  pool_cancelled _ := true;
|}.

(** Decimal digits, for the simulated [int] and [float]. *)
Fixpoint digits_value (s : string) (acc : Z) : option Z :=
  match s with
  | EmptyString => Some acc
  | String c rest =>
      let n := nat_of_ascii c in
      if ((48 <=? n) && (n <=? 57))%nat
      then digits_value rest (10 * acc + Z.of_nat (n - 48))
      else None
  end.

Definition sim_int (s : string) : option Z :=
  match s with
  | EmptyString => None
  | _ => digits_value s 0
  end.

(** [repr] of a string, for text in ASCII: double quotes when the string
    holds an apostrophe and no double quote, single quotes otherwise; the
    backslash and the chosen quote escaped; tab, newline and carriage return
    by their letters and the other control characters in hexadecimal. *)
Definition hex_digit (n : nat) : ascii :=
  ascii_of_nat (if (n <? 10)%nat then 48 + n else 87 + n).

Definition repr_char (quote c : ascii) : string :=
  let n := nat_of_ascii c in
  if Ascii.eqb c quote || (n =? 92)%nat then String (ascii_of_nat 92) (String c EmptyString)
  else if (n =? 9)%nat then String (ascii_of_nat 92) "t"
  else if (n =? 10)%nat then String (ascii_of_nat 92) "n"
  else if (n =? 13)%nat then String (ascii_of_nat 92) "r"
  else if (n <? 32)%nat || (n =? 127)%nat
       then String (ascii_of_nat 92)
              (String "x" (String (hex_digit (n / 16)) (String (hex_digit (n mod 16)) EmptyString)))
  else String c EmptyString.

Fixpoint repr_chars (quote : ascii) (s : string) : string :=
  match s with
  | EmptyString => EmptyString
  | String c rest => repr_char quote c +:+ repr_chars quote rest
  end.

Definition sim_str_repr (s : string) : string :=
  let quote := if contains "'" s && negb (contains dq s)
               then ascii_of_nat 34 else ascii_of_nat 39 in
  String quote (repr_chars quote s +:+ String quote EmptyString).

#[export] Instance sim_pylib : PyLib := {
  float_repr f := if PrimFloat.eqb f 0%float then "0.0" else "<float>";
  str_repr := sim_str_repr;
  float_of_string s :=
    match sim_int s with
    | Some 0 => Some 0%float
    | Some 1 => Some 1%float
    | Some 2 => Some 2%float
    | _ => None
    end;
  float_of_Z z := if z =? 0 then 0%float else 1%float;
  int_of_string := sim_int;
  exn_str e :=
    match e with
    | ApiException status _ => "(" +:+ pretty status +:+ ")"
    | TimeoutError msg | RuntimeError msg | OtherException msg => msg
    | KeyError k => sim_str_repr k
    | _ => EmptyString
    end;
  json_dumps _ := "{...}";
  json_dumps_indent _ := "{...}";
  generate_report_html _ _ _ _ _ := "<html></html>";
}.

(** A kubeconfig with one cluster, one context and one user. *)
Definition sample_kubeconfig : pyval :=
  PDict [ ("apiVersion", PStr "v1");
          ("kind", PStr "Config");
          ("clusters", PList [ PDict [ ("name", PStr "milo");
                                       ("cluster", PDict [("server", PStr "https://milo.example:6443/")]) ] ]);
          ("contexts", PList [ PDict [ ("name", PStr "milo");
                                       ("context", PDict [("cluster", PStr "milo"); ("user", PStr "admin")]) ] ]);
          ("current-context", PStr "milo");
          ("users", PList [ PDict [ ("name", PStr "admin");
                                    ("user", PDict [("token", PStr "secret")]) ] ]) ].

(** A base configuration whose two cluster entries share one [cluster] dict:
    the copy shares it too, so the second entry finds the server the first
    has written and the scope path is appended twice. *)
Definition shared_cluster_heap : list object :=
  [ ODict [("server", VStr "https://a")];
    ODict [("name", VStr "a"); ("cluster", VRef 0)];
    ODict [("name", VStr "b"); ("cluster", VRef 0)];
    OList [VRef 1; VRef 2];
    ODict [("clusters", VRef 3)] ].

Definition ready_object (status : string) : pyval :=
  PDict [ ("metadata", PDict [("name", PStr "p")]);
          ("status", PDict [ ("conditions",
              PList [ PDict [("type", PStr "Ready"); ("status", PStr status);
                             ("reason", PStr "Reconciled"); ("message", PStr EmptyString)] ]) ]) ].

(** Everything succeeds: creates and deletes answer, every object is Ready,
    no project is listed, the metrics backend has no series. *)
Definition sim_default : Sim := {|
  sim_env name :=
    if String.eqb name "VM_BASE_URL" then Some "http://vm:8428/"
    else if String.eqb name "NUM_PROJECTS" then Some "2"
    else if String.eqb name "NUM_SECRETS_PER_PROJECT" then Some "1"
    else if String.eqb name "NUM_CONFIGMAPS_PER_PROJECT" then Some "0"
    else if String.eqb name "STABILIZE_SECONDS" then Some "0"
    else if String.eqb name "TEST_ID" then Some "0a1b2c3d"
    else if String.eqb name "ORG_NAME" then Some "perf-org"
    else None;
  sim_yaml _ _ := inr sample_kubeconfig;
  sim_client cfg _ := inr cfg;
  sim_incluster _ := inr tt;
  sim_create _ body _ := inr body;
  sim_get _ _ _ := inr (ready_object "True");
  sim_list _ _ := inr (PDict [("items", PList [])]);
  sim_delete _ _ _ := inr (PDict []);
  sim_cm_read name _ := inr {| cm_metadata := {| meta_name := name; meta_labels := [] |}; cm_data := [] |};
  sim_cm_write _ _ := inr tt;
  sim_cm_delete _ _ := inr tt;
  sim_cm_list _ := inr (Some []);
  sim_secret_write _ _ := inr tt;
  sim_secret_list _ := inr (Some []);
  sim_request _ _ _ := inr (PDict [("status", PStr "success"); ("data", PDict [("result", PList [])])]);
  sim_file _ _ := inr tt;
|}.

Definition sim_start : State SimWorld :=
  mkState [] {| sw_clock := 1000; sw_calls := 0 |} [].

(** The simulated platform with another environment, and with other answers
    to the Secret writes (create and delete) and to the Secret list. *)
Definition sim_with_env (f : string -> option string) (sim : Sim) : Sim := {|
  sim_env := f; sim_yaml := sim_yaml sim; sim_client := sim_client sim;
  sim_incluster := sim_incluster sim; sim_create := sim_create sim; sim_get := sim_get sim;
  sim_list := sim_list sim; sim_delete := sim_delete sim; sim_cm_read := sim_cm_read sim;
  sim_cm_write := sim_cm_write sim; sim_cm_delete := sim_cm_delete sim;
  sim_cm_list := sim_cm_list sim; sim_secret_write := sim_secret_write sim;
  sim_secret_list := sim_secret_list sim; sim_request := sim_request sim;
  sim_file := sim_file sim |}.

Definition sim_with_secret_write (f : string -> SimWorld -> exn + unit) (sim : Sim) : Sim := {|
  sim_env := sim_env sim; sim_yaml := sim_yaml sim; sim_client := sim_client sim;
  sim_incluster := sim_incluster sim; sim_create := sim_create sim; sim_get := sim_get sim;
  sim_list := sim_list sim; sim_delete := sim_delete sim; sim_cm_read := sim_cm_read sim;
  sim_cm_write := sim_cm_write sim; sim_cm_delete := sim_cm_delete sim;
  sim_cm_list := sim_cm_list sim; sim_secret_write := f;
  sim_secret_list := sim_secret_list sim; sim_request := sim_request sim;
  sim_file := sim_file sim |}.

Definition sim_with_secret_list (f : SimWorld -> exn + option (list V1Secret)) (sim : Sim) : Sim := {|
  sim_env := sim_env sim; sim_yaml := sim_yaml sim; sim_client := sim_client sim;
  sim_incluster := sim_incluster sim; sim_create := sim_create sim; sim_get := sim_get sim;
  sim_list := sim_list sim; sim_delete := sim_delete sim; sim_cm_read := sim_cm_read sim;
  sim_cm_write := sim_cm_write sim; sim_cm_delete := sim_cm_delete sim;
  sim_cm_list := sim_cm_list sim; sim_secret_write := sim_secret_write sim;
  sim_secret_list := f; sim_request := sim_request sim;
  sim_file := sim_file sim |}.

(** A cleanup started without [TEST_ID]; a run started without
    [VM_BASE_URL]. *)
Definition sim_cleanup_no_id : Sim :=
  sim_with_env (fun name => if String.eqb name "RUN_MODE" then Some "Cleanup" else None)
    sim_default.

Definition sim_run_no_url : Sim :=
  sim_with_env (fun _ => None) sim_default.

(** Every Secret exists already; two Secrets are listed and no Secret can be
    deleted. *)
Definition sim_secrets_exist : Sim :=
  sim_with_secret_write (fun _ _ => inl (ApiException 409 None)) sim_default.

Definition perf_secret (name : string) : V1Secret :=
  {| secret_metadata := {| meta_name := name; meta_labels := [] |};
     secret_string_data := []; secret_type := "Opaque" |}.

Definition sim_secrets_locked : Sim :=
  sim_with_secret_write (fun _ _ => inl (ApiException 403 None))
    (sim_with_secret_list
       (fun _ => inr (Some [perf_secret "perf-secret-001"; perf_secret "perf-secret-002"]))
       sim_default).

(** ** Vocabulary of the statements *)

(** The delay before attempt [i + 2]: doubled from one second, capped at 16. *)
Definition delay_at (i : nat) : Z := Z.min (2 ^ Z.of_nat i) 16.

Definition exn_status (e : exn) : Z :=
  match e with ApiException status _ => status | _ => 0 end.

Definition is_api_exception (e : exn) : bool :=
  match e with ApiException _ _ => true | _ => false end.

(** Classified retryable: an [ApiException] that [should_retry_api_exception]
    accepts. *)
Definition retryable (e : exn) : bool :=
  match e with
  | ApiException status body => should_retry_api_exception status body
  | _ => false
  end.

(** What one failed, retried attempt leaves in the trace: the call, the
    progress line, the sleep. *)
Definition retry_round (action_name op : string) (i : nat) (e : exn) : list Event :=
  [ EvCall op (Some e);
    EvLog (retry_log_line action_name (Z.of_nat i + 1) (exn_status e) (delay_at i));
    EvSleep (delay_at i) ].

Fixpoint retry_rounds (action_name op : string) (i : nat) (errs : list exn) : list Event :=
  match errs with
  | [] => []
  | e :: rest => (retry_round action_name op i e ++ retry_rounds action_name op (S i) rest)%list
  end.

(** The calls recorded in a trace, and the sleeps. *)
Definition calls_of (evs : list Event) : list (string * option exn) :=
  omap (fun ev => match ev with EvCall op r => Some (op, r) | _ => None end) evs.

Definition sleeps_of (evs : list Event) : list Z :=
  omap (fun ev => match ev with EvSleep d => Some d | _ => None end) evs.

(** The body carries none of the three transient markers. *)
Definition no_marker (body : option string) : bool :=
  let msg := match body with Some b => b | None => EmptyString end in
  negb (contains "Internal error occurred" msg)
  && negb (contains "failed calling webhook" msg)
  && negb (contains "EOF" msg).

(** The three markers of a transient failure looked for in an error body. *)
Definition transient_markers : list string :=
  ["Internal error occurred"; "failed calling webhook"; "EOF"].

(** The seconds slept in all. *)
Definition total (ds : list Z) : Z := foldr Z.add 0 ds.

(** [s.lstrip()] is empty: the string holds nothing but whitespace. *)
Definition all_space (s : string) : bool := String.eqb (lstrip s) EmptyString.

(** The first byte of a character in UTF-8, as opposed to the bytes that
    continue one. *)
Definition is_lead (c : ascii) : bool :=
  let n := nat_of_ascii c in ((n <? 128) || (192 <=? n))%nat.

Definition is_letter (c : ascii) : bool :=
  let n := nat_of_ascii c in
  ((65 <=? n) && (n <=? 90) || (97 <=? n) && (n <=? 122))%nat.

Fixpoint no_letter (p : string) : bool :=
  match p with
  | EmptyString => true
  | String c p' => negb (is_letter c) && no_letter p'
  end.

(** What [lower] does to one character. *)
Definition lower_char (c : ascii) : ascii :=
  let n := nat_of_ascii c in
  if ((65 <=? n) && (n <=? 90))%nat then ascii_of_nat (n + 32) else c.

Definition is_dict (v : pyval) : bool :=
  match v with PDict _ => true | _ => false end.

(** [c.get("type") == ctype] on a dict [c] *)
Definition has_type (ctype : string) (c : pyval) : bool :=
  match c with
  | PDict kvs => match dict_get "type" kvs with Some t => py_eq_str t ctype | None => false end
  | _ => false
  end.

(** [e] is an [ApiException] with status 404. *)
Definition not_found (e : exn) : bool :=
  match e with ApiException status _ => status =? 404 | _ => false end.

(** [e] is an [ApiException] with status 404 or 409. *)
Definition gone (e : exn) : bool :=
  match e with ApiException status _ => (status =? 404) || (status =? 409) | _ => false end.

(** A create that answers, or fails with 409 only. *)
Definition conflict_or_ok {W A : Type} (f : Ext W A) : Prop :=
  forall w, (exists a w', f w = (inr a, w'))
            \/ (exists body w', f w = (inl (ApiException 409 body), w')).

(** The data of a checkpoint: the three identity keys, then each extra key
    written over them in turn. *)
Definition checkpoint_data {L : PyLib} (test_id org_name phase : string)
    (items : list (string * pyval)) : list (string * string) :=
  fold_left (fun d kv => dict_set (fst kv) (checkpoint_text (snd kv)) d) items
    [("test_id", test_id); ("org_name", org_name); ("phase", phase)].

(** A value that does not point below [n]; an object that holds only such
    values. *)
Definition fresh (n : nat) (v : value) : Prop :=
  match v with VRef l => (n <= l)%nat | _ => True end.

Definition obj_fresh (n : nat) (o : object) : Prop :=
  match o with
  | OList vs => Forall (fresh n) vs
  | ODict kvs => Forall (fun kv => fresh n (snd kv)) kvs
  end.

(** The objects from [n] on point to objects from [n] on only. *)
Definition closed_above (n : nat) (h : list object) : Prop :=
  forall l o, (n <= l)%nat -> h !! l = Some o -> obj_fresh n o.

(** [c] leaves the first [n] objects, the world and the trace as they are,
    keeps the heap closed above [n], and returns values satisfying [ok]. *)
Definition keeps {W A : Type} (n : nat) (ok : A -> Prop) (c : Py W A) : Prop :=
  forall s r s',
    (n <= length (heap s))%nat -> closed_above n (heap s) ->
    c s = (r, s') ->
    take n (heap s') = take n (heap s)
    /\ (n <= length (heap s'))%nat
    /\ closed_above n (heap s')
    /\ world s' = world s
    /\ trace s' = trace s
    /\ forall a, r = Ok a -> ok a.

(** [lay h lo hi v t]: in the heap [h] the value [v] stands for the document
    [t], and the objects it is made of lie in the cells [lo .. hi - 1], each
    child in an interval of its own below its parent. *)
Inductive lay (h : list object) : nat -> nat -> value -> pyval -> Prop :=
| lay_none lo hi : (lo <= hi)%nat -> lay h lo hi VNone PNone
| lay_bool lo hi b : (lo <= hi)%nat -> lay h lo hi (VBool b) (PBool b)
| lay_int lo hi z : (lo <= hi)%nat -> lay h lo hi (VInt z) (PInt z)
| lay_float lo hi f : (lo <= hi)%nat -> lay h lo hi (VFloat f) (PFloat f)
| lay_str lo hi s : (lo <= hi)%nat -> lay h lo hi (VStr s) (PStr s)
| lay_list lo hi l vs ts :
    lays h lo l vs ts -> (l < hi)%nat -> h !! l = Some (OList vs) ->
    lay h lo hi (VRef l) (PList ts)
| lay_dict lo hi l kvs kts :
    lays h lo l (map snd kvs) (map snd kts) -> map fst kvs = map fst kts ->
    (l < hi)%nat -> h !! l = Some (ODict kvs) ->
    lay h lo hi (VRef l) (PDict kts)
with lays (h : list object) : nat -> nat -> list value -> list pyval -> Prop :=
| lays_nil lo hi : (lo <= hi)%nat -> lays h lo hi [] []
| lays_cons lo mid hi v t vs ts :
    lay h lo mid v t -> lays h mid hi vs ts -> lays h lo hi (v :: vs) (t :: ts).

Scheme lay_mut := Minimality for lay Sort Prop
  with lays_mut := Minimality for lays Sort Prop.
Combined Scheme lay_lays_ind from lay_mut, lays_mut.

(** The entries of a dict object stand for the entries of a dict document. *)
Definition lay_kvs (h : list object) (lo hi : nat)
    (kvs : list (string * value)) (kts : list (string * pyval)) : Prop :=
  lays h lo hi (map snd kvs) (map snd kts) /\ map fst kvs = map fst kts.

(** The heaps agree on every cell outside [a .. b - 1]. *)
Definition same_outside (a b : nat) (h h' : list object) : Prop :=
  length h' = length h /\ forall l, ~ (a <= l < b)%nat -> h' !! l = h !! l.

(** The state of a copy in progress holds copies only: every copy lies at
    [base] or above, and the copied objects point nowhere below [base]. *)
Definition copy_inv (base : nat) (st : list (nat * nat) * list object) : Prop :=
  Forall (fun p => (base <= snd p)%nat) (fst st) /\ Forall (obj_fresh base) (snd st).

(** ** Objects that are not shared *)

(** The lists and dicts met on the way through [v], each as often as it is
    met. *)
Fixpoint cells (fuel : nat) (h : list object) (v : value) : option (list nat) :=
  match v with
  | VRef l =>
      match fuel with
      | O => None
      | S fuel' =>
          match h !! l with
          | Some (OList vs) =>
              (fun ls => concat ls ++ [l])%list <$> mapM (cells fuel' h) vs
          | Some (ODict kvs) =>
              (fun ls => concat ls ++ [l])%list <$> mapM (cells fuel' h) (map snd kvs)
          | None => None
          end
      end
  | _ => Some []
  end.

(** No list or dict under [v] is reached twice. *)
Definition unshared (h : list object) (v : value) : bool :=
  match cells (S (length h)) h v with
  | Some ls => bool_decide (NoDup ls)
  | None => false
  end.

(** A document with the keys of every dict sorted. *)
Fixpoint sort_doc (t : pyval) : pyval :=
  match t with
  | PList xs => PList (map sort_doc xs)
  | PDict kvs =>
      PDict (sort_items
               ((fix items (kvs : list (string * pyval)) : list (string * pyval) :=
                   match kvs with
                   | [] => []
                   | (k, x) :: rest => (k, sort_doc x) :: items rest
                   end) kvs))
  | _ => t
  end.

(** ** The scoped document, on documents *)

(** One cluster entry: renamed, its server stripped of trailing slashes and
    suffixed with the scope path. *)
Definition scope_cluster (scope_path new_name : string) (c : pyval) : option pyval :=
  match c with
  | PDict kts =>
      match dict_get "cluster" kts with
      | Some (PDict ckts) =>
          match default (PStr EmptyString) (dict_get "server" ckts) with
          | PStr server =>
              Some (PDict (dict_set "cluster"
                             (PDict (dict_set "server"
                                       (PStr (rstrip_slash server +:+ scope_path)) ckts))
                             (dict_set "name" (PStr new_name) kts)))
          | _ => None
          end
      | _ => None
      end
  | _ => None
  end.

(** One context entry: renamed, and pointed at the renamed cluster. *)
Definition rename_context (new_name : string) (ctx : pyval) : option pyval :=
  match ctx with
  | PDict kts =>
      let kts1 := dict_set "name" (PStr new_name) kts in
      match dict_get "context" kts1 with
      | Some (PDict ikts) =>
          Some (PDict (dict_set "context"
                         (PDict (dict_set "cluster" (PStr new_name) ikts)) kts1))
      | _ => None
      end
  | _ => None
  end.

Definition scope_clusters (scope_path new_name : string) (kts : list (string * pyval))
    : option (list (string * pyval)) :=
  match dict_get "clusters" kts with
  | None => Some kts
  | Some (PList cs) =>
      cs' ← mapM (scope_cluster scope_path new_name) cs;
      Some (dict_set "clusters" (PList cs') kts)
  | Some _ => None
  end.

Definition rename_contexts (new_name : string) (kts : list (string * pyval))
    : option (list (string * pyval)) :=
  match dict_get "contexts" kts with
  | None => Some kts
  | Some t =>
      if truthy t then
        match t with
        | PList xs =>
            xs' ← mapM (rename_context new_name) xs;
            Some (dict_set "contexts" (PList xs') kts)
        | _ => None
        end
      else Some kts
  end.

Definition set_current_context (new_name : string) (kts : list (string * pyval))
    : list (string * pyval) :=
  match dict_get "current-context" kts with
  | Some t => if truthy t then dict_set "current-context" (PStr new_name) kts else kts
  | None => kts
  end.

(** The three edits of [build_scoped_kubeconfig] on a document of the
    kubeconfig shape; [None] on any other shape. *)
Definition edited_document (doc : pyval) (scope_path new_name : string) : option pyval :=
  match doc with
  | PDict kts =>
      kts1 ← scope_clusters scope_path new_name kts;
      kts2 ← rename_contexts new_name kts1;
      Some (PDict (set_current_context new_name kts2))
  | _ => None
  end.

(** The document [build_scoped_kubeconfig] is to return for a base
    configuration of the kubeconfig shape that shares no object: the base
    with its keys sorted, as the round trip through YAML leaves it, and the
    three edits made. *)
Definition scoped_document (doc : pyval) (scope_path new_name : string) : option pyval :=
  edited_document (sort_doc doc) scope_path new_name.

(** [t.get(k)] on a document. *)
Definition field (k : string) (t : pyval) : option pyval :=
  match t with PDict kts => dict_get k kts | _ => None end.

(** [cl.get("server")] with the empty string as default, when it is a string. *)
Definition server_of (cl : pyval) : string :=
  match default (PStr EmptyString) (field "server" cl) with
  | PStr s => s
  | _ => EmptyString
  end.

Definition scoped_cluster_ok (scope_path new_name : string) (c c' : pyval) : Prop :=
  field "name" c' = Some (PStr new_name)
  /\ exists cl cl',
       field "cluster" c = Some cl /\ field "cluster" c' = Some cl'
       /\ field "server" cl' = Some (PStr (rstrip_slash (server_of cl) +:+ scope_path)).

Definition renamed_context_ok (new_name : string) (x' : pyval) : Prop :=
  field "name" x' = Some (PStr new_name)
  /\ exists inner', field "context" x' = Some inner'
                    /\ field "cluster" inner' = Some (PStr new_name).

(** [c] ends normally or with an exception, and leaves the heap as it is. *)
Definition settles_in_place {W A : Type} (c : Py W A) : Prop :=
  forall s, exists s',
    heap s' = heap s
    /\ ((exists a, c s = (Ok a, s')) \/ (exists e, c s = (Raise e, s'))).

(** A delete that answers, or fails with 404 or 409 only. *)
Definition gone_or_ok {W A : Type} (f : Ext W A) : Prop :=
  forall w, (exists a w', f w = (inr a, w'))
            \/ (exists e w', f w = (inl e, w') /\ gone e = true).

(** A delete that answers, or fails with 404 only. *)
Definition not_found_or_ok {W A : Type} (f : Ext W A) : Prop :=
  forall w, (exists a w', f w = (inr a, w'))
            \/ (exists e w', f w = (inl e, w') /\ not_found e = true).

(** An answer of the Project list call the cleanup can walk: [items] is
    absent or a list, and every item has a [metadata.name]. *)
Definition project_listing (proj_list : pyval) : Prop :=
  exists items its,
    py_get proj_list "items" (PList []) = inr items
    /\ py_iter items = inr its
    /\ Forall (fun item => exists md nm,
                 py_getitem item "metadata" = inr md /\ py_getitem md "name" = inr nm) its.

(** [e] is an [ApiException] with status 409. *)
Definition conflict (e : exn) : bool :=
  match e with ApiException status _ => status =? 409 | _ => false end.

(** The calls of a loop that tries each operation of [ops] in turn: each
    operation with the outcomes of its attempts. *)
Definition call_attempts (ops : list string) (tries : list (list (option exn)))
    : list (string * option exn) :=
  concat (zip_with (fun op t => map (pair op) t) ops tries).

(** The object [body] is named [name]. *)
Definition pyval_name_is (name : string) (body : pyval) : bool :=
  match py_getitem body "metadata" with
  | inr md => match py_getitem md "name" with
              | inr (PStr n) => String.eqb n name
              | _ => false
              end
  | inl _ => false
  end.

(** * Proofs *)

(** ** The monad *)

Section MonadFacts.
Context {W : Type}.

Lemma bind_ok {A B} (c : Py W A) (k : A -> Py W B) s a s' :
  c s = (Ok a, s') -> bind c k s = k a s'.
Proof. intros E. unfold bind. now rewrite E. Qed.

Lemma bind_raise {A B} (c : Py W A) (k : A -> Py W B) s e s' :
  c s = (Raise e, s') -> bind c k s = (Raise e, s').
Proof. intros E. unfold bind. now rewrite E. Qed.

Lemma try_except_ok {A} (c : Py W A) h s a s' :
  c s = (Ok a, s') -> try_except c h s = (Ok a, s').
Proof. intros E. unfold try_except. now rewrite E. Qed.

Lemma try_except_raise {A} (c : Py W A) h s e s' :
  c s = (Raise e, s') -> try_except c h s = h e s'.
Proof. intros E. unfold try_except. now rewrite E. Qed.

Lemma invoke_ok {A} op (f : Ext W A) s a w' :
  f (world s) = (inr a, w') ->
  invoke op f s = (Ok a, mkState (heap s) w' (trace s ++ [EvCall op None])).
Proof. intros E. unfold invoke. now rewrite E. Qed.

Lemma invoke_raise {A} op (f : Ext W A) s e w' :
  f (world s) = (inl e, w') ->
  invoke op f s = (Raise e, mkState (heap s) w' (trace s ++ [EvCall op (Some e)])).
Proof. intros E. unfold invoke. now rewrite E. Qed.

End MonadFacts.

(** ** Retry Executor *)

Lemma delay_at_next i : Z.min (delay_at i * 2) 16 = delay_at (S i).
Proof.
  unfold delay_at. rewrite Nat2Z.inj_succ, Z.pow_succ_r by lia.
  assert (0 < 2 ^ Z.of_nat i) by (apply Z.pow_pos_nonneg; lia). lia.
Qed.

Lemma delay_at_cap i : 1 <= delay_at i <= 16.
Proof.
  unfold delay_at.
  assert (0 < 2 ^ Z.of_nat i) by (apply Z.pow_pos_nonneg; lia). lia.
Qed.

Lemma no_marker_not_retried body :
  no_marker body = true -> should_retry_api_exception 409 body = false.
Proof.
  unfold no_marker, should_retry_api_exception. simpl.
  destruct body as [b|]; simpl;
    intros Hm; repeat (apply andb_prop in Hm as [Hm ?]);
    repeat match goal with H : negb _ = true |- _ => apply negb_true_iff in H; rewrite H end;
    reflexivity.
Qed.

Section RetryFacts.
Context {W : Type} {C : Clock W} {A : Type}.
Implicit Types (fn : Py W A) (ext : Ext W A) (s : State W).

(** A successful call ends the loop with its value. *)
Lemma retry_loop_ok name fn attempt rest d s a s' :
  fn s = (Ok a, s') ->
  retry_loop name fn (attempt :: rest) d s = (Ok (Some a), s').
Proof.
  intros E. simpl. unfold try_except, bind, ret. now rewrite E.
Qed.

(** Any exception that is not retried leaves the loop as it was raised. *)
Lemma retry_loop_raise name fn attempt rest d s e s' :
  fn s = (Raise e, s') ->
  retryable e && (attempt <? 6) = false ->
  retry_loop name fn (attempt :: rest) d s = (Raise e, s').
Proof.
  intros E Hn. simpl. unfold try_except, bind. rewrite E.
  destruct e; try reflexivity. simpl in Hn. now rewrite Hn.
Qed.

(** A retryable failure with attempts left: progress line, sleep, next
    attempt with the doubled, capped delay. *)
Lemma retry_loop_again name fn attempt rest d s status body s' :
  fn s = (Raise (ApiException status body), s') ->
  should_retry_api_exception status body = true ->
  attempt < 6 ->
  retry_loop name fn (attempt :: rest) d s
  = retry_loop name fn rest (Z.min (d * 2) 16)
      (mkState (heap s') (time_sleep d (world s'))
         (trace s' ++ [EvLog (retry_log_line name attempt status d)] ++ [EvSleep d])).
Proof.
  intros E Hr Hlt. simpl. unfold try_except at 1. unfold bind at 1. rewrite E.
  rewrite Hr. apply Z.ltb_lt in Hlt. rewrite Hlt. simpl.
  unfold bind, log, emit, sleep. simpl. now rewrite <- app_assoc.
Qed.

(** The attempts [k+1 .. 6] of the loop, started with the delay of round [k],
    when every failure of the remote call is retryable. *)
Lemma retry_loop_rounds name op ext :
  (forall w e w', ext w = (inl e, w') -> retryable e = true) ->
  forall n k s, (k + n = 6)%nat -> (1 <= n)%nat ->
  exists (errs : list exn) (last : option exn) r s',
    retry_loop name (invoke op ext) (map Z.of_nat (seq (S k) n)) (delay_at k) s = (r, s')
    /\ trace s' = (trace s ++ retry_rounds name op k errs ++ [EvCall op last])%list
    /\ (length errs < n)%nat
    /\ Forall (fun e => retryable e = true) errs
    /\ match last with
       | None => exists a, r = Ok (Some a)
       | Some e => r = Raise e /\ length errs = (n - 1)%nat
       end.
Proof.
  intros Hall n. induction n as [|n IH]; intros k s Hk Hn; [lia|].
  cbn [seq map].
  destruct (ext (world s)) as [[e|a] w'] eqn:E.
  - pose proof (Hall _ _ _ E) as Hr.
    destruct e; try discriminate Hr. simpl in Hr.
    destruct (Nat.eq_dec n 0%nat) as [->|Hn0].
    + (* attempt 6: exhausted *)
      assert (k = 5%nat) by lia. subst k.
      eexists [], (Some (ApiException status body)), _, _.
      rewrite (retry_loop_raise _ _ _ _ _ _ _ _ (invoke_raise _ _ _ _ _ E))
        by (simpl; now rewrite andb_false_r).
      simpl. repeat split; auto.
    + erewrite retry_loop_again; [| apply (invoke_raise _ _ _ _ _ E) | exact Hr | lia].
      rewrite delay_at_next. simpl heap. simpl world. simpl trace.
      match goal with |- context [retry_loop _ _ _ _ ?st] =>
        destruct (IH (S k) st ltac:(lia) ltac:(lia))
          as (errs & last & r & s' & Hrun & Htr & Hlen & Hfa & Hlast)
      end.
      exists (ApiException status body :: errs), last, r, s'.
      split; [exact Hrun|]. split; [|split; [|split]].
      * rewrite Htr. simpl trace. simpl retry_rounds. unfold retry_round. simpl exn_status.
        replace (Z.of_nat k + 1) with (Z.of_nat (S k)) by lia.
        rewrite <- !app_assoc. reflexivity.
      * simpl. lia.
      * constructor; auto.
      * destruct last; [|exact Hlast]. destruct Hlast as [-> Hl]. split; [reflexivity|].
        simpl. lia.
  - eexists [], None, _, _.
    rewrite (retry_loop_ok _ _ _ _ _ _ _ _ (invoke_ok _ _ _ _ _ E)).
    simpl. repeat split; eauto with lia.
Qed.

End RetryFacts.

Lemma calls_of_app evs1 evs2 : calls_of (evs1 ++ evs2) = (calls_of evs1 ++ calls_of evs2)%list.
Proof. unfold calls_of. apply omap_app. Qed.

Lemma sleeps_of_app evs1 evs2 : sleeps_of (evs1 ++ evs2) = (sleeps_of evs1 ++ sleeps_of evs2)%list.
Proof. unfold sleeps_of. apply omap_app. Qed.

Lemma calls_of_retry_rounds name op i errs :
  calls_of (retry_rounds name op i errs) = map (fun e => (op, Some e)) errs.
Proof.
  revert i. induction errs as [|e errs IH]; intros i; [reflexivity|].
  simpl. unfold calls_of in *. simpl. now rewrite IH.
Qed.

Lemma sleeps_of_retry_rounds name op i errs :
  sleeps_of (retry_rounds name op i errs) = map delay_at (seq i (length errs)).
Proof.
  revert i. induction errs as [|e errs IH]; intros i; [reflexivity|].
  simpl. unfold sleeps_of in *. simpl. now rewrite IH.
Qed.

(** A simulated remote call that fails with 500 three times, then answers. *)
Definition flaky_call : Ext SimWorld unit :=
  sim_call (fun w => if (sw_calls w <? 3)%nat then inl (ApiException 500 None) else inr tt).

(** A simulated remote call that always fails with a connection error
    raised by the network library. *)
Definition broken_call : Ext SimWorld unit :=
  sim_call (fun _ => inl (OtherException "Connection aborted")).

(** A simulated create that always answers 409 with [body]. *)
Definition conflict_call (body : option string) : Ext SimWorld pyval :=
  sim_call (fun _ => inl (ApiException 409 body)).

(** C2: when every failure of the remote call is classified retryable (429,
    500, or a transient marker in the body), the Retry Executor calls it
    [min(6, attempts until success)] times: it stops at the first success, or
    at the sixth call; it sleeps 1, 2, 4, 8, 16 seconds between consecutive
    calls (doubled, capped at 16); and the error it gives up with is the very
    error of the last call.  An error that is not classified retryable is
    returned unchanged at once, on whichever attempt it occurs. *)
Theorem retry_with_backoff_schedule
    (W : Type) (C : Clock W) (A : Type) (name op : string) (ext : Ext W A) :
  ((forall w e w', ext w = (inl e, w') -> retryable e = true) ->
   forall s, exists (errs : list exn) (last : option exn) r s',
     retry_with_backoff name (invoke op ext) s = (r, s')
     /\ trace s' = (trace s ++ retry_rounds name op 0 errs ++ [EvCall op last])%list
     /\ calls_of (retry_rounds name op 0 errs ++ [EvCall op last])
        = (map (fun e => (op, Some e)) errs ++ [(op, last)])%list
     /\ sleeps_of (retry_rounds name op 0 errs ++ [EvCall op last])
        = take (length errs) [1; 2; 4; 8; 16]
     /\ (S (length errs) <= 6)%nat
     /\ Forall (fun e => retryable e = true) errs
     /\ match last with
        | None => exists a, r = Ok (Some a)
        | Some e => r = Raise e /\ S (length errs) = 6%nat
        end)
  /\ (forall attempt rest d s e w',
        ext (world s) = (inl e, w') ->
        retryable e = false ->
        retry_loop name (invoke op ext) (attempt :: rest) d s
        = (Raise e, mkState (heap s) w' (trace s ++ [EvCall op (Some e)]))).
Proof.
  split.
  - intros Hall s.
    destruct (retry_loop_rounds name op ext Hall 6 0 s eq_refl ltac:(lia))
      as (errs & last & r & s' & Hrun & Htr & Hlen & Hfa & Hlast).
    exists errs, last, r, s'.
    split; [exact Hrun|]. split; [exact Htr|].
    split; [|split; [|split; [|split]]].
    + now rewrite calls_of_app, calls_of_retry_rounds.
    + rewrite sleeps_of_app, sleeps_of_retry_rounds. simpl. rewrite app_nil_r.
      do 6 (destruct errs as [|? errs]; [reflexivity|]). simpl in Hlen. lia.
    + lia.
    + exact Hfa.
    + destruct last; [|exact Hlast]. destruct Hlast as [-> Hl]. split; [reflexivity|lia].
  - intros attempt rest d s e w' E Hn.
    apply retry_loop_raise; [now apply invoke_raise|].
    now rewrite Hn.
Qed.

Lemma flaky_call_retryable w e w' : flaky_call w = (inl e, w') -> retryable e = true.
Proof.
  unfold flaky_call, sim_call. destruct (sw_calls w <? 3)%nat; intros E; inversion E.
  reflexivity.
Qed.

Lemma retry_with_backoff_schedule_witness :
  exists (errs : list exn) (last : option exn) r s',
    retry_with_backoff "create Organization" (invoke "create" flaky_call) sim_start = (r, s')
    /\ trace s' = (trace sim_start
                   ++ retry_rounds "create Organization" "create" 0 errs ++ [EvCall "create" last])%list
    /\ calls_of (retry_rounds "create Organization" "create" 0 errs ++ [EvCall "create" last])
       = (map (fun e => ("create", Some e)) errs ++ [("create", last)])%list
    /\ sleeps_of (retry_rounds "create Organization" "create" 0 errs ++ [EvCall "create" last])
       = take (length errs) [1; 2; 4; 8; 16]
    /\ (S (length errs) <= 6)%nat
    /\ Forall (fun e => retryable e = true) errs
    /\ match last with
       | None => exists a, r = Ok (Some a)
       | Some e => r = Raise e /\ S (length errs) = 6%nat
       end.
Proof.
  apply (proj1 (retry_with_backoff_schedule SimWorld sim_clock unit
                  "create Organization" "create" flaky_call)).
  exact flaky_call_retryable.
Defined.

(** The run behind the witness: three failures, sleeps of 1, 2 and 4 seconds,
    success on the fourth call. *)
Example retry_flaky_run :
  let '(r, s') := retry_with_backoff "create Organization" (invoke "create" flaky_call) sim_start in
  r = Ok (Some tt)
  /\ sleeps_of (trace s') = [1; 2; 4]
  /\ length (calls_of (trace s')) = 4%nat
  /\ sw_clock (world s') = 1007.
Proof. vm_compute. repeat split; reflexivity. Qed.

(** C10: an exception of [fn] that is not an [ApiException] leaves the Retry
    Executor at once, on whichever attempt it occurs: the executor ends in the
    very state [fn] left, so nothing is retried, slept or logged. *)
Theorem retry_other_exception_propagates
    (W : Type) (C : Clock W) (A : Type) (name : string) (fn : Py W A)
    (attempt : Z) (rest : list Z) (d : Z) (s s' : State W) (e : exn) :
  fn s = (Raise e, s') ->
  is_api_exception e = false ->
  retry_loop name fn (attempt :: rest) d s = (Raise e, s')
  /\ retry_with_backoff name fn s = (Raise e, s').
Proof.
  intros E He.
  assert (Hn : forall a, retryable e && (a <? 6) = false)
    by (intros a; destruct e; try reflexivity; discriminate He).
  split; [|unfold retry_with_backoff]; apply retry_loop_raise; auto.
Qed.

Lemma retry_other_exception_propagates_witness :
  let s' := mkState [] {| sw_clock := 1000; sw_calls := 1 |}
              [EvCall "create" (Some (OtherException "Connection aborted"))] in
  retry_loop "create Project p" (invoke "create" broken_call) [3; 4; 5; 6] 4 sim_start
  = (Raise (OtherException "Connection aborted"), s')
  /\ retry_with_backoff "create Project p" (invoke "create" broken_call) sim_start
     = (Raise (OtherException "Connection aborted"), s').
Proof.
  apply (retry_other_exception_propagates SimWorld sim_clock unit "create Project p"
           (invoke "create" broken_call) 3 [4; 5; 6] 4 sim_start).
  - reflexivity.
  - reflexivity.
Defined.

(** ** Conflict on create *)

Lemma bind_inv_ok {W A B} (c : Py W A) (k : A -> Py W B) s b s' :
  bind c k s = (Ok b, s') -> exists a s1, c s = (Ok a, s1) /\ k a s1 = (Ok b, s').
Proof.
  unfold bind. destruct (c s) as [[a| | |] s1]; intros E; try discriminate E. eauto.
Qed.

Section ConflictFacts.
Context {W : Type} {P : Platform W} {L : PyLib}.

Lemma create_projects_names coapi org labels n indices :
  forall names s names' s',
    create_projects coapi org labels n indices names s = (Ok names', s') ->
    names' = (names ++ map (project_name org) indices)%list.
Proof.
  induction indices as [|i rest IH]; intros names s names' s' E.
  - inversion E. now rewrite app_nil_r.
  - simpl in E.
    apply bind_inv_ok in E as (? & s1 & _ & E).
    apply bind_inv_ok in E as (? & s2 & _ & E).
    apply IH in E. rewrite E, <- app_assoc. reflexivity.
Qed.

End ConflictFacts.

(** The simulated platform with other answers to create, get, delete, the
    ConfigMap read and the metrics request. *)
Definition sim_with_create (f : string -> pyval -> SimWorld -> exn + pyval) (sim : Sim) : Sim := {|
  sim_env := sim_env sim; sim_yaml := sim_yaml sim; sim_client := sim_client sim;
  sim_incluster := sim_incluster sim; sim_create := f; sim_get := sim_get sim;
  sim_list := sim_list sim; sim_delete := sim_delete sim; sim_cm_read := sim_cm_read sim;
  sim_cm_write := sim_cm_write sim; sim_cm_delete := sim_cm_delete sim;
  sim_cm_list := sim_cm_list sim; sim_secret_write := sim_secret_write sim;
  sim_secret_list := sim_secret_list sim; sim_request := sim_request sim;
  sim_file := sim_file sim |}.

Definition sim_with_get (f : string -> string -> SimWorld -> exn + pyval) (sim : Sim) : Sim := {|
  sim_env := sim_env sim; sim_yaml := sim_yaml sim; sim_client := sim_client sim;
  sim_incluster := sim_incluster sim; sim_create := sim_create sim; sim_get := f;
  sim_list := sim_list sim; sim_delete := sim_delete sim; sim_cm_read := sim_cm_read sim;
  sim_cm_write := sim_cm_write sim; sim_cm_delete := sim_cm_delete sim;
  sim_cm_list := sim_cm_list sim; sim_secret_write := sim_secret_write sim;
  sim_secret_list := sim_secret_list sim; sim_request := sim_request sim;
  sim_file := sim_file sim |}.

Definition sim_with_cm_read (f : string -> SimWorld -> exn + V1ConfigMap) (sim : Sim) : Sim := {|
  sim_env := sim_env sim; sim_yaml := sim_yaml sim; sim_client := sim_client sim;
  sim_incluster := sim_incluster sim; sim_create := sim_create sim; sim_get := sim_get sim;
  sim_list := sim_list sim; sim_delete := sim_delete sim; sim_cm_read := f;
  sim_cm_write := sim_cm_write sim; sim_cm_delete := sim_cm_delete sim;
  sim_cm_list := sim_cm_list sim; sim_secret_write := sim_secret_write sim;
  sim_secret_list := sim_secret_list sim; sim_request := sim_request sim;
  sim_file := sim_file sim |}.

Definition sim_with_request (f : string -> string -> SimWorld -> exn + pyval) (sim : Sim) : Sim := {|
  sim_env := sim_env sim; sim_yaml := sim_yaml sim; sim_client := sim_client sim;
  sim_incluster := sim_incluster sim; sim_create := sim_create sim; sim_get := sim_get sim;
  sim_list := sim_list sim; sim_delete := sim_delete sim; sim_cm_read := sim_cm_read sim;
  sim_cm_write := sim_cm_write sim; sim_cm_delete := sim_cm_delete sim;
  sim_cm_list := sim_cm_list sim; sim_secret_write := sim_secret_write sim;
  sim_secret_list := sim_secret_list sim; sim_request := f;
  sim_file := sim_file sim |}.

(** Every create answers 409 "already exists". *)
Definition conflict_body : option string :=
  Some "{'kind':'Status','reason':'AlreadyExists','code':409}".

Definition sim_conflict : Sim :=
  sim_with_create (fun _ _ _ => inl (ApiException 409 conflict_body)) sim_default.

(** ** Readiness Poller *)

(** What the poll loop reads in a fetched object: its Ready condition, and
    whether that condition has status "True". *)
Definition object_condition (obj : pyval) : exn + pyval :=
  match py_get obj "status" (PDict []) with
  | inl e => inl e
  | inr status =>
      match py_get status "conditions" PNone with
      | inl e => inl e
      | inr conditions => find_condition conditions "Ready"
      end
  end.

Definition object_ready {L : PyLib} (obj : pyval) : exn + bool :=
  match object_condition obj with
  | inl e => inl e
  | inr cond => ready_true cond
  end.

Definition timeout_error (plural name : string) : exn :=
  TimeoutError ("Timed out waiting for " +:+ plural +:+ "/" +:+ name +:+ " Ready").

(** The clock never runs backwards, and a sleep lasts at least as long as
    asked. *)
Definition sleep_advances (W : Type) {C : Clock W} : Prop :=
  forall d w, time_time w + d <= time_time (time_sleep d w).

Definition ext_monotone {W : Type} {C : Clock W} {A : Type} (f : Ext W A) : Prop :=
  forall w, time_time w <= time_time (snd (f w)).

Lemma find_condition_loop_shape cs ctype cond :
  find_condition_loop cs ctype = inr cond ->
  cond = PNone \/ exists k v kvs, cond = PDict ((k, v) :: kvs).
Proof.
  induction cs as [|c cs IH]; simpl; intros E.
  - left. now inversion E.
  - destruct c; simpl in E; try discriminate E.
    destruct (py_eq_str _ ctype) eqn:Hq; [|now apply IH].
    inversion E; subst. right.
    destruct kvs as [|[k v] kvs]; [discriminate Hq|eauto].
Qed.

Lemma find_condition_shape conditions ctype cond :
  find_condition conditions ctype = inr cond ->
  cond = PNone \/ exists k v kvs, cond = PDict ((k, v) :: kvs).
Proof.
  unfold find_condition. destruct (negb (truthy conditions)).
  - intros E. left. now inversion E.
  - destruct (py_iter conditions); [discriminate|]. apply find_condition_loop_shape.
Qed.

Section PollerFacts.
Context {W : Type} {P : Platform W} {L : PyLib}.
Variables (coapi : ApiClient) (group version plural name : string).
Variable (log_context : option string).

Let get := get_cluster_custom_object coapi group version plural name.
Let get_op := "get " +:+ plural +:+ "/" +:+ name.

(** The detail line cannot fail on a condition the loop found. *)
Lemma wait_detail_log_ok cond (s : State W) :
  cond = PNone \/ (exists k v kvs, cond = PDict ((k, v) :: kvs)) ->
  exists line,
    wait_detail_log plural name log_context cond s
    = (Ok tt, mkState (heap s) (world s) (trace s ++ [EvLog line])).
Proof.
  intros [->|(k & v & kvs & ->)]; unfold wait_detail_log; simpl; eauto.
Qed.

(** The deadline has passed when the loop tests it: timeout, naming the
    resource. *)
Lemma wait_loop_timeout fuel start deadline last_log (s : State W) :
  deadline <= time_time (world s) ->
  wait_loop (S fuel) coapi group version plural name log_context start deadline last_log s
  = (Raise (timeout_error plural name), s).
Proof.
  intros Hd. cbn [wait_loop]. unfold bind at 1. unfold now at 1.
  apply Z.ltb_ge in Hd. now rewrite Hd.
Qed.

(** The fetch raises: the error leaves the loop as it is. *)
Lemma wait_loop_fetch_error fuel start deadline last_log s e w' :
  time_time (world s) < deadline ->
  get (world s) = (inl e, w') ->
  wait_loop (S fuel) coapi group version plural name log_context start deadline last_log s
  = (Raise e, mkState (heap s) w' (trace s ++ [EvCall get_op (Some e)])).
Proof.
  intros Hd E. cbn [wait_loop]. unfold bind at 1. unfold now at 1.
  apply Z.ltb_lt in Hd. rewrite Hd.
  unfold bind at 1. erewrite invoke_raise by exact E. reflexivity.
Qed.

(** The reads of one iteration, on the fetched object. *)
Lemma poll_read {B} obj (k : pyval -> bool -> Py W B) (s : State W) :
  (status <- lift (py_get obj "status" (PDict [])) ;;
   conditions <- lift (py_get status "conditions" PNone) ;;
   cond <- lift (find_condition conditions "Ready") ;;
   ready <- lift (ready_true cond) ;;
   k cond ready) s
  = match object_condition obj with
    | inl e => (Raise e, s)
    | inr cond =>
        match ready_true cond with
        | inl e => (Raise e, s)
        | inr ready => k cond ready s
        end
    end.
Proof.
  unfold object_condition, bind, lift.
  destruct (py_get obj "status" (PDict [])) as [|status]; [reflexivity|].
  destruct (py_get status "conditions" PNone) as [|conditions]; [reflexivity|].
  destruct (find_condition conditions "Ready") as [|cond]; [reflexivity|].
  destruct (ready_true cond); reflexivity.
Qed.

(** One iteration before the deadline, up to the reads of the object. *)
Lemma wait_loop_fetched fuel start deadline last_log s obj w' :
  time_time (world s) < deadline ->
  get (world s) = (inr obj, w') ->
  wait_loop (S fuel) coapi group version plural name log_context start deadline last_log s
  = let s1 := mkState (heap s) w' (trace s ++ [EvCall get_op None]) in
    match object_condition obj with
    | inl e => (Raise e, s1)
    | inr cond =>
        match ready_true cond with
        | inl e => (Raise e, s1)
        | inr true => (Ok tt, s1)
        | inr false =>
            (t' <- now ;;
             last_log' <- (if (10 <=? t' - start) && (15 <=? t' - last_log)
                           then wait_detail_log plural name log_context cond ;;; ret t'
                           else ret last_log) ;;
             sleep 2 ;;;
             wait_loop fuel coapi group version plural name log_context start deadline last_log') s1
        end
    end.
Proof.
  intros Hd E. cbn [wait_loop]. unfold bind at 1. unfold now at 1.
  apply Z.ltb_lt in Hd. rewrite Hd.
  unfold bind at 1. erewrite invoke_ok by exact E.
  etransitivity; [apply poll_read|]. cbv zeta.
  destruct (object_condition obj) as [|cond]; [reflexivity|].
  destruct (ready_true cond) as [|[|]]; reflexivity.
Qed.

(** The fetched object has Ready "True": success at once. *)
Lemma wait_loop_ready fuel start deadline last_log s obj w' :
  time_time (world s) < deadline ->
  get (world s) = (inr obj, w') ->
  object_ready obj = inr true ->
  wait_loop (S fuel) coapi group version plural name log_context start deadline last_log s
  = (Ok tt, mkState (heap s) w' (trace s ++ [EvCall get_op None])).
Proof.
  intros Hd E Hr. rewrite (wait_loop_fetched _ _ _ _ _ _ _ Hd E). cbv zeta.
  unfold object_ready in Hr.
  destruct (object_condition obj) as [|cond]; [discriminate|]. now rewrite Hr.
Qed.

(** The fetched object is malformed: the error of reading it leaves the loop. *)
Lemma wait_loop_malformed fuel start deadline last_log s obj w' e :
  time_time (world s) < deadline ->
  get (world s) = (inr obj, w') ->
  object_ready obj = inl e ->
  wait_loop (S fuel) coapi group version plural name log_context start deadline last_log s
  = (Raise e, mkState (heap s) w' (trace s ++ [EvCall get_op None])).
Proof.
  intros Hd E Hr. rewrite (wait_loop_fetched _ _ _ _ _ _ _ Hd E). cbv zeta.
  unfold object_ready in Hr.
  destruct (object_condition obj) as [|cond]; [now inversion Hr|]. now rewrite Hr.
Qed.

(** The fetched object is not Ready: at most one detail line, a sleep of two
    seconds, and the next iteration. *)
Lemma wait_loop_pending fuel start deadline last_log s obj w' :
  time_time (world s) < deadline ->
  get (world s) = (inr obj, w') ->
  object_ready obj = inr false ->
  exists last_log' lines,
    wait_loop (S fuel) coapi group version plural name log_context start deadline last_log s
    = wait_loop fuel coapi group version plural name log_context start deadline last_log'
        (mkState (heap s) (time_sleep 2 w')
           (trace s ++ [EvCall get_op None] ++ map EvLog lines ++ [EvSleep 2]))
    /\ (length lines <= 1)%nat.
Proof.
  intros Hd E Hr. rewrite (wait_loop_fetched _ _ _ _ _ _ _ Hd E). cbv zeta.
  unfold object_ready in Hr.
  destruct (object_condition obj) as [|cond] eqn:E3; [discriminate|]. rewrite Hr.
  assert (Hshape : cond = PNone \/ exists k v kvs, cond = PDict ((k, v) :: kvs)).
  { unfold object_condition in E3.
    destruct (py_get obj "status" (PDict [])) as [|status]; [discriminate|].
    destruct (py_get status "conditions" PNone) as [|conditions]; [discriminate|].
    eapply find_condition_shape, E3. }
  unfold bind at 1. unfold now at 1. cbn [world].
  destruct ((10 <=? time_time w' - start) && (15 <=? time_time w' - last_log)).
  - destruct (wait_detail_log_ok cond
                (mkState (heap s) w' (trace s ++ [EvCall get_op None])) Hshape) as [line Hl].
    exists (time_time w'), [line]. split; [|simpl; lia].
    unfold bind at 1. unfold bind at 1. rewrite Hl. unfold ret at 1.
    unfold bind at 1. unfold sleep at 1. cbn [heap world trace].
    simpl map. rewrite <- !app_assoc. reflexivity.
  - exists last_log, []. split; [|simpl; lia].
    unfold bind at 1. unfold ret at 1.
    unfold bind at 1. unfold sleep at 1. cbn [heap world trace].
    simpl map. rewrite <- !app_assoc. reflexivity.
Qed.

Hypothesis Hsleep : sleep_advances W.
Hypothesis Hget : ext_monotone get.

(** With fuel for the polls that fit before the deadline, the loop ends by
    itself: success, or an exception (the timeout, an error of the fetch or
    of reading the object). *)
Lemma wait_loop_total fuel :
  forall start deadline last_log s,
    (1 <= fuel)%nat ->
    deadline - time_time (world s) <= 2 * (Z.of_nat fuel - 1) ->
    exists s',
      wait_loop fuel coapi group version plural name log_context start deadline last_log s
      = (Ok tt, s')
      \/ exists e,
           wait_loop fuel coapi group version plural name log_context start deadline last_log s
           = (Raise e, s').
Proof.
  induction fuel as [|fuel IH]; intros start deadline last_log s Hf Hd; [lia|].
  destruct (Z_lt_le_dec (time_time (world s)) deadline) as [Hlt|Hge].
  - destruct (get (world s)) as [[e|obj] w'] eqn:E.
    + eexists. right. exists e. eapply wait_loop_fetch_error; eassumption.
    + destruct (object_ready obj) as [e|[|]] eqn:Hr.
      * eexists. right. exists e. eapply wait_loop_malformed; eassumption.
      * eexists. left. eapply wait_loop_ready; eassumption.
      * destruct (wait_loop_pending fuel start deadline last_log s obj w' Hlt E Hr)
          as (ll & lines & -> & _).
        pose proof (Hget (world s)) as Hm. rewrite E in Hm. simpl in Hm.
        pose proof (Hsleep 2 w') as Hs.
        apply IH; cbn [world]; lia.
  - eexists. right. eexists. apply wait_loop_timeout. exact Hge.
Qed.

(** When no fetched object is ever Ready, the loop ends in the timeout error. *)
Lemma wait_loop_never_ready fuel :
  (forall w, exists obj w', get w = (inr obj, w') /\ object_ready obj = inr false) ->
  forall start deadline last_log s,
    (1 <= fuel)%nat ->
    deadline - time_time (world s) <= 2 * (Z.of_nat fuel - 1) ->
    exists s',
      wait_loop fuel coapi group version plural name log_context start deadline last_log s
      = (Raise (timeout_error plural name), s')
      /\ deadline <= time_time (world s').
Proof.
  intros Hnever.
  induction fuel as [|fuel IH]; intros start deadline last_log s Hf Hd; [lia|].
  destruct (Z_lt_le_dec (time_time (world s)) deadline) as [Hlt|Hge].
  - destruct (Hnever (world s)) as (obj & w' & E & Hr).
    destruct (wait_loop_pending fuel start deadline last_log s obj w' Hlt E Hr)
      as (ll & lines & -> & _).
    pose proof (Hget (world s)) as Hm. rewrite E in Hm. simpl in Hm.
    pose proof (Hsleep 2 w') as Hs.
    apply IH; cbn [world]; lia.
  - exists s. split; [now apply wait_loop_timeout|exact Hge].
Qed.

End PollerFacts.

Lemma sim_sleep_advances : sleep_advances SimWorld.
Proof. intros d w. simpl. lia. Qed.

Lemma sim_call_monotone {A : Type} (h : SimWorld -> exn + A) : ext_monotone (sim_call h).
Proof. intros w. simpl. lia. Qed.

(** No object is ever Ready. *)
Definition sim_pending : Sim :=
  sim_with_get (fun _ _ _ => inr (ready_object "False")) sim_default.

(** The first fetch fails with a transient 500; every later fetch would find
    the object Ready. *)
Definition sim_fetch_glitch : Sim :=
  sim_with_get (fun _ _ w =>
                  if (sw_calls w =? 0)%nat
                  then inl (ApiException 500 (Some "Internal error occurred: etcdserver: leader changed"))
                  else inr (ready_object "True")) sim_default.

(** X15: WaitReady returns success on the first poll whose fetched object has
    a Ready condition of status "True", in the state that fetch left (a poll
    that does not see it sleeps two seconds and polls again); once the
    deadline has passed when the loop tests it, WaitReady raises the timeout
    error that names the resource; with fuel for the polls that fit in the
    timeout the embedding always returns, and when no fetched object is ever
    Ready it ends in that timeout error, at or after the deadline. *)
Theorem wait_condition_ready_spec
    (W : Type) (P : Platform W) (L : PyLib)
    (coapi : ApiClient) (group version plural name : string)
    (timeout_s : Z) (log_context : option string) :
  sleep_advances W ->
  ext_monotone (get_cluster_custom_object coapi group version plural name) ->
  (forall fuel start deadline last_log s obj w',
      time_time (world s) < deadline ->
      get_cluster_custom_object coapi group version plural name (world s) = (inr obj, w') ->
      object_ready obj = inr true ->
      wait_loop (S fuel) coapi group version plural name log_context start deadline last_log s
      = (Ok tt, mkState (heap s) w' (trace s ++ [EvCall ("get " +:+ plural +:+ "/" +:+ name) None])))
  /\ (forall fuel start deadline last_log s obj w',
        time_time (world s) < deadline ->
        get_cluster_custom_object coapi group version plural name (world s) = (inr obj, w') ->
        object_ready obj = inr false ->
        exists last_log' lines,
          wait_loop (S fuel) coapi group version plural name log_context start deadline last_log s
          = wait_loop fuel coapi group version plural name log_context start deadline last_log'
              (mkState (heap s) (time_sleep 2 w')
                 (trace s ++ [EvCall ("get " +:+ plural +:+ "/" +:+ name) None]
                  ++ map EvLog lines ++ [EvSleep 2]))
          /\ (length lines <= 1)%nat)
  /\ (forall fuel start deadline last_log (s : State W),
        deadline <= time_time (world s) ->
        wait_loop (S fuel) coapi group version plural name log_context start deadline last_log s
        = (Raise (TimeoutError ("Timed out waiting for " +:+ plural +:+ "/" +:+ name +:+ " Ready")), s))
  /\ (forall fuel s,
        (1 <= fuel)%nat ->
        timeout_s <= 2 * (Z.of_nat fuel - 1) ->
        (exists s',
            wait_condition_ready fuel coapi group version plural name timeout_s log_context s
            = (Ok tt, s')
            \/ exists e,
                 wait_condition_ready fuel coapi group version plural name timeout_s log_context s
                 = (Raise e, s'))
        /\ ((forall w, exists obj w',
                get_cluster_custom_object coapi group version plural name w = (inr obj, w')
                /\ object_ready obj = inr false) ->
            exists s',
              wait_condition_ready fuel coapi group version plural name timeout_s log_context s
              = (Raise (TimeoutError ("Timed out waiting for " +:+ plural +:+ "/" +:+ name +:+ " Ready")), s')
              /\ time_time (world s) + timeout_s <= time_time (world s'))).
Proof.
  intros Hsleep Hget. split; [|split; [|split]].
  - intros. now apply wait_loop_ready with (obj := obj).
  - intros. now apply wait_loop_pending with (obj := obj).
  - intros. now apply wait_loop_timeout.
  - intros fuel s Hf Ht.
    assert (Hrun : forall X : Res unit * State W,
               wait_condition_ready fuel coapi group version plural name timeout_s log_context s = X
               <-> wait_loop fuel coapi group version plural name log_context
                     (time_time (world s)) (time_time (world s) + timeout_s) 0 s = X)
      by (intros X; reflexivity).
    assert (Hd0 : time_time (world s) + timeout_s - time_time (world s)
                  <= 2 * (Z.of_nat fuel - 1)) by lia.
    split.
    + destruct (wait_loop_total coapi group version plural name log_context Hsleep Hget fuel
                  (time_time (world s)) (time_time (world s) + timeout_s) 0 s Hf Hd0)
        as [s' [H|[e H]]]; exists s'; [left|right; exists e]; now apply Hrun.
    + intros Hnever.
      destruct (wait_loop_never_ready coapi group version plural name log_context Hsleep Hget fuel
                  Hnever (time_time (world s)) (time_time (world s) + timeout_s) 0 s Hf Hd0)
        as (s' & H & Hd).
      exists s'. split; [now apply Hrun|exact Hd].
Qed.

Lemma wait_condition_ready_spec_witness :
  wait_loop (P := sim_platform sim_default) 1 sample_kubeconfig api_group api_version
    "projects" "perf-org-p-001" (Some "Project") 1000 1900 0 sim_start
  = (Ok tt, mkState [] {| sw_clock := 1000; sw_calls := 1 |}
              [EvCall "get projects/perf-org-p-001" None])
  /\ (exists s',
        wait_condition_ready (P := sim_platform sim_pending) 4 sample_kubeconfig api_group
          api_version "projects" "perf-org-p-001" 6 (Some "Project") sim_start
        = (Raise (TimeoutError "Timed out waiting for projects/perf-org-p-001 Ready"), s')
        /\ 1000 + 6 <= time_time (world s')).
Proof.
  split.
  - apply (proj1 (wait_condition_ready_spec SimWorld (sim_platform sim_default) sim_pylib
                    sample_kubeconfig api_group api_version "projects" "perf-org-p-001" 900
                    (Some "Project") sim_sleep_advances (sim_call_monotone _))
             0%nat 1000 1900 0 sim_start (ready_object "True")
             {| sw_clock := 1000; sw_calls := 1 |});
      [reflexivity | reflexivity | reflexivity].
  - apply (proj2 (proj2 (proj2 (proj2
             (wait_condition_ready_spec SimWorld (sim_platform sim_pending) sim_pylib
                sample_kubeconfig api_group api_version "projects" "perf-org-p-001" 6
                (Some "Project") sim_sleep_advances (sim_call_monotone _)))) 4%nat sim_start
             ltac:(lia) ltac:(lia))).
    intros w. exists (ready_object "False"), {| sw_clock := sw_clock w; sw_calls := S (sw_calls w) |}.
    split; reflexivity.
Defined.

(** The run behind the witness: three polls two seconds apart, then the
    timeout at the deadline. *)
Example wait_pending_run :
  let '(r, s') := wait_condition_ready (P := sim_platform sim_pending) 4 sample_kubeconfig
                    api_group api_version "projects" "perf-org-p-001" 6 (Some "Project")
                    sim_start in
  r = Raise (TimeoutError "Timed out waiting for projects/perf-org-p-001 Ready")
  /\ sleeps_of (trace s') = [2; 2; 2]
  /\ length (calls_of (trace s')) = 3%nat
  /\ sw_clock (world s') = 1006.
Proof. vm_compute. repeat split; reflexivity. Qed.

(** X16: an error raised by the status fetch of a poll made
    before the deadline ends the wait at once: WaitReady raises that very
    error, in the state the fetch left, with no further poll, no sleep and no
    conversion to the timeout error. *)
Theorem wait_fetch_error_propagates
    (W : Type) (P : Platform W) (L : PyLib)
    (coapi : ApiClient) (group version plural name : string)
    (log_context : option string) (fuel : nat) (s : State W) (e : exn) (w' : W) :
  get_cluster_custom_object coapi group version plural name (world s) = (inl e, w') ->
  (forall start deadline last_log,
      time_time (world s) < deadline ->
      wait_loop (S fuel) coapi group version plural name log_context start deadline last_log s
      = (Raise e, mkState (heap s) w' (trace s ++ [EvCall ("get " +:+ plural +:+ "/" +:+ name) (Some e)])))
  /\ (forall timeout_s,
        0 < timeout_s ->
        wait_condition_ready (S fuel) coapi group version plural name timeout_s log_context s
        = (Raise e, mkState (heap s) w' (trace s ++ [EvCall ("get " +:+ plural +:+ "/" +:+ name) (Some e)]))).
Proof.
  intros E. split.
  - intros. now apply wait_loop_fetch_error.
  - intros timeout_s Ht.
    change (wait_loop (S fuel) coapi group version plural name log_context
              (time_time (world s)) (time_time (world s) + timeout_s) 0 s
            = (Raise e, mkState (heap s) w' (trace s ++ [EvCall ("get " +:+ plural +:+ "/" +:+ name) (Some e)]))).
    apply wait_loop_fetch_error; [lia|exact E].
Qed.

Lemma wait_fetch_error_propagates_witness :
  let e := ApiException 500 (Some "Internal error occurred: etcdserver: leader changed") in
  let s' := mkState [] {| sw_clock := 1000; sw_calls := 1 |}
              [EvCall "get projects/perf-org-p-001" (Some e)] in
  wait_loop (P := sim_platform sim_fetch_glitch) 500 sample_kubeconfig api_group api_version
    "projects" "perf-org-p-001" (Some "Project") 1000 1900 0 sim_start = (Raise e, s')
  /\ wait_condition_ready (P := sim_platform sim_fetch_glitch) 500 sample_kubeconfig api_group
       api_version "projects" "perf-org-p-001" 900 (Some "Project") sim_start = (Raise e, s').
Proof.
  intros e s'.
  destruct (wait_fetch_error_propagates SimWorld (sim_platform sim_fetch_glitch) sim_pylib
              sample_kubeconfig api_group api_version "projects" "perf-org-p-001"
              (Some "Project") 499 sim_start e {| sw_clock := 1000; sw_calls := 1 |} eq_refl)
    as [H1 H2].
  split.
  - apply H1. simpl. lia.
  - apply H2. lia.
Defined.

(** A run: one transient 500 from the fetch, 900 seconds before the
    deadline, and WaitReady is over after a single poll with that error,
    which is neither success nor the timeout error; the object would have
    been Ready at the next poll. *)
Lemma wait_aborts_on_transient_fetch_error :
  let '(r, s') := wait_condition_ready (P := sim_platform sim_fetch_glitch) 500
                    sample_kubeconfig api_group api_version "projects" "perf-org-p-001" 900
                    (Some "Project") sim_start in
  r = Raise (ApiException 500 (Some "Internal error occurred: etcdserver: leader changed"))
  /\ r <> Ok tt
  /\ r <> Raise (TimeoutError "Timed out waiting for projects/perf-org-p-001 Ready")
  /\ length (calls_of (trace s')) = 1%nat
  /\ sleeps_of (trace s') = []
  /\ sw_clock (world s') < 1000 + 900
  /\ sim_get sim_fetch_glitch "projects" "perf-org-p-001" (world s') = inr (ready_object "True").
Proof. vm_compute. repeat split; try reflexivity; discriminate. Qed.

(** ** Metrics Collector *)

(** A computation that never exits and never runs out of fuel, and one that
    moreover never raises. *)
Definition settles {W A} (c : Py W A) : Prop :=
  forall s, exists s', (exists a, c s = (Ok a, s')) \/ (exists e, c s = (Raise e, s')).

Definition returns {W A} (c : Py W A) : Prop :=
  forall s, exists a s', c s = (Ok a, s').

Section Settles.
Context {W : Type}.

Lemma returns_settles {A} (c : Py W A) : returns c -> settles c.
Proof. intros H s. destruct (H s) as (a & s' & E). exists s'. left. eauto. Qed.

Lemma returns_ret {A} (a : A) : returns (ret (W := W) a).
Proof. intros s. now exists a, s. Qed.

Lemma returns_emit ev : returns (emit (W := W) ev).
Proof. intros s. unfold emit. eauto. Qed.

Lemma returns_log msg : returns (log (W := W) msg).
Proof. apply returns_emit. Qed.

Lemma settles_raise {A} e : settles (raise (W := W) (A := A) e).
Proof. intros s. exists s. right. now exists e. Qed.

Lemma settles_lift {A} (r : exn + A) : settles (lift (W := W) r).
Proof. intros s. exists s. destruct r; [right|left]; eauto. Qed.

Lemma settles_invoke {A} op (f : Ext W A) : settles (invoke op f).
Proof.
  intros s. unfold invoke. destruct (f (world s)) as [[e|a] w']; eexists; [right|left]; eauto.
Qed.

Lemma returns_bind {A B} (c : Py W A) (k : A -> Py W B) :
  returns c -> (forall a, returns (k a)) -> returns (bind c k).
Proof.
  intros Hc Hk s. destruct (Hc s) as (a & s1 & E). destruct (Hk a s1) as (b & s2 & E2).
  exists b, s2. unfold bind. now rewrite E.
Qed.

Lemma settles_bind {A B} (c : Py W A) (k : A -> Py W B) :
  settles c -> (forall a, settles (k a)) -> settles (bind c k).
Proof.
  intros Hc Hk s. destruct (Hc s) as (s1 & [[a E]|[e E]]); unfold bind; rewrite E.
  - apply Hk.
  - exists s1. right. eauto.
Qed.

Lemma settles_try_except {A} (c : Py W A) h :
  settles c -> (forall e, settles (h e)) -> settles (try_except c h).
Proof.
  intros Hc Hh s. destruct (Hc s) as (s1 & [[a E]|[e E]]); unfold try_except; rewrite E.
  - exists s1. left. eauto.
  - apply Hh.
Qed.

(** A handler that never raises makes the guarded block never raise. *)
Lemma returns_try_except {A} (c : Py W A) h :
  settles c -> (forall e, returns (h e)) -> returns (try_except c h).
Proof.
  intros Hc Hh s. destruct (Hc s) as (s1 & [[a E]|[e E]]); unfold try_except; rewrite E.
  - eauto.
  - apply Hh.
Qed.

Lemma returns_if {A} (b : bool) (c1 c2 : Py W A) :
  returns c1 -> returns c2 -> returns (if b then c1 else c2).
Proof. now destruct b. Qed.

Lemma settles_if {A} (b : bool) (c1 c2 : Py W A) :
  settles c1 -> settles c2 -> settles (if b then c1 else c2).
Proof. now destruct b. Qed.

Lemma returns_now {C : Clock W} : returns now.
Proof. intros s. unfold now. eauto. Qed.

Lemma returns_sleep {C : Clock W} d : returns (sleep d).
Proof. intros s. unfold sleep. eauto. Qed.

End Settles.

Create HintDb settle discriminated.
#[export] Hint Resolve returns_ret returns_log returns_emit returns_now returns_sleep
  returns_bind returns_try_except returns_if : settle.
#[export] Hint Resolve settles_raise settles_lift settles_invoke settles_bind settles_try_except
  settles_if returns_settles : settle.

(** What one failed request leaves in the trace: the call, the line, the
    sleep of [2 * attempt] seconds. *)
Definition http_round {L : PyLib} (i : nat) (e : exn) : list Event :=
  [ EvCall "requests.get" (Some e);
    EvLog ("[metrics] request failed (attempt " +:+ pretty (Z.of_nat i + 1) +:+ "/6): "
           +:+ exn_str e +:+ "; retrying in " +:+ pretty (2 * (Z.of_nat i + 1)) +:+ "s");
    EvSleep (2 * (Z.of_nat i + 1)) ].

Fixpoint http_rounds {L : PyLib} (i : nat) (errs : list exn) : list Event :=
  match errs with
  | [] => []
  | e :: rest => (http_round i e ++ http_rounds (S i) rest)%list
  end.

Section MetricsFacts.
Context {W : Type} {P : Platform W} {L : PyLib}.

Lemma log_if_returns context line : returns (log_if (W := W) context line).
Proof. destruct context as [[|]|]; simpl; auto with settle. Qed.

Lemma http_get_json_loop_settles url query attempts last_err :
  settles (http_get_json_loop url query attempts last_err).
Proof.
  revert last_err. induction attempts as [|a rest IH]; intros last_err; simpl.
  - destruct last_err; auto with settle.
  - apply settles_try_except; [auto with settle|]. intros e.
    apply settles_bind; [auto with settle|]. intros _.
    apply settles_bind; [auto with settle|]. intros _. apply IH.
Qed.

Lemma prom_query_settles base_url query context : settles (prom_query base_url query context).
Proof.
  unfold prom_query.
  repeat first
    [ apply log_if_returns
    | apply returns_settles, log_if_returns
    | apply http_get_json_loop_settles
    | apply settles_bind; [|intros ?]
    | apply settles_if
    | solve [auto with settle] ].
Qed.

Lemma collect_results_returns base_url qs results : returns (collect_results base_url qs results).
Proof.
  revert results. induction qs as [|[k q] rest IH]; intros results; simpl.
  - auto with settle.
  - apply returns_bind; [|intros v; apply IH].
    apply returns_try_except; [apply prom_query_settles|]. auto with settle.
Qed.

Lemma log_queries_returns pod_label f qs : returns (log_queries (W := W) pod_label f qs).
Proof. induction qs as [|[k q] rest IH]; simpl; auto with settle. Qed.

Lemma run_queries_returns base_url ns ar er win pod_label f :
  returns (run_queries base_url ns ar er win pod_label f).
Proof.
  unfold run_queries. apply returns_bind; [apply log_queries_returns|].
  intros _. apply collect_results_returns.
Qed.

Lemma try_variants_returns base_url ns ar er win vs :
  returns (try_variants base_url ns ar er win vs).
Proof.
  induction vs as [|[l f] rest IH]; simpl.
  - auto with settle.
  - apply returns_bind; [auto with settle|]. intros _.
    apply returns_bind; [apply run_queries_returns|]. intros m.
    apply returns_if; auto with settle.
Qed.

Lemma preflight_returns base_url ns ar er : returns (preflight base_url ns ar er).
Proof.
  unfold preflight. apply returns_try_except; [|auto with settle].
  repeat (apply settles_bind; [apply prom_query_settles|intros ?]).
  auto with settle.
Qed.

Lemma measure_metrics_returns base_url ns ar er win :
  returns (measure_metrics base_url ns ar er win).
Proof.
  unfold measure_metrics.
  apply returns_bind; [auto with settle|]. intros _.
  apply returns_bind; [auto with settle|]. intros _.
  apply returns_bind; [apply preflight_returns|]. intros _.
  apply try_variants_returns.
Qed.

(** The attempts [k .. 5] of [http_get_json]: each failure is logged and
    slept on; the first answer is returned; when all have failed, the last
    error is raised. *)
Lemma http_get_json_loop_rounds url query :
  forall n k last_err s, (k + n = 6)%nat ->
  exists (errs : list exn) r s',
    http_get_json_loop url query (map Z.of_nat (seq k n)) last_err s = (r, s')
    /\ (length errs <= n)%nat
    /\ ((exists v, r = Ok v
                   /\ (length errs < n)%nat
                   /\ trace s' = (trace s ++ http_rounds k errs ++ [EvCall "requests.get" None])%list)
        \/ (length errs = n
            /\ trace s' = (trace s ++ http_rounds k errs)%list
            /\ r = match last errs, last_err with
                   | Some e, _ | None, Some e => Raise e
                   | None, None => Raise AssertionError
                   end)).
Proof.
  induction n as [|n IH]; intros k last_err s Hk.
  - exists [], (match last_err with Some e => Raise e | None => Raise AssertionError end), s.
    split; [|split; [simpl; lia|]].
    + simpl. now destruct last_err.
    + right. simpl. rewrite app_nil_r. now destruct last_err.
  - cbn [seq map http_get_json_loop].
    destruct (requests_get_json url query (world s)) as [[e|v] w'] eqn:E.
    + erewrite try_except_raise by (apply invoke_raise, E).
      unfold bind at 1. unfold log, emit at 1. unfold bind at 1. unfold sleep at 1.
      cbn [heap world trace].
      match goal with |- context [http_get_json_loop _ _ _ _ ?st] =>
        destruct (IH (S k) (Some e) st ltac:(lia)) as (errs & r & s' & Hrun & Hlen & Hcase)
      end.
      exists (e :: errs), r, s'. split; [exact Hrun|]. split; [simpl; lia|].
      replace (Z.of_nat k + 1) with (Z.of_nat k + 1) in * by lia.
      destruct Hcase as [(v & -> & Hl & Htr)|(Hl & Htr & Hr)].
      * left. exists v. split; [reflexivity|]. split; [simpl; lia|].
        rewrite Htr. cbn [trace http_rounds http_round]. rewrite <- !app_assoc. reflexivity.
      * right. split; [simpl; lia|]. split.
        -- rewrite Htr. cbn [trace http_rounds http_round]. rewrite <- !app_assoc. reflexivity.
        -- rewrite Hr. destruct errs as [|e' errs']; [reflexivity|].
           change (last (e :: e' :: errs')) with (last (e' :: errs')).
           destruct (last (e' :: errs')) eqn:El; [reflexivity|].
           apply last_None in El. discriminate El.
    + erewrite try_except_ok by (apply invoke_ok, E).
      exists [], (Ok v), (mkState (heap s) w' (trace s ++ [EvCall "requests.get" None])).
      split; [reflexivity|]. split; [simpl; lia|].
      left. exists v. split; [reflexivity|]. split; [simpl; lia|]. reflexivity.
Qed.

End MetricsFacts.

(** The metrics backend is unreachable: every request raises. *)
Definition sim_unreachable : Sim :=
  sim_with_request (fun _ _ _ => inl (OtherException "Connection refused")) sim_default.

Definition unreachable {W : Type} {P : Platform W} : Prop :=
  forall url query w, exists e w', requests_get_json url query w = (inl e, w').

Lemma sleeps_of_http_rounds {L : PyLib} i errs :
  sleeps_of (http_rounds i errs) = map (fun j => 2 * (Z.of_nat j + 1)) (seq i (length errs)).
Proof.
  revert i. induction errs as [|e errs IH]; intros i; [reflexivity|].
  simpl. unfold sleeps_of in *. simpl. now rewrite IH.
Qed.

Lemma calls_of_http_rounds {L : PyLib} i errs :
  calls_of (http_rounds i errs) = map (fun e => ("requests.get", Some e)) errs.
Proof.
  revert i. induction errs as [|e errs IH]; intros i; [reflexivity|].
  simpl. unfold calls_of in *. simpl. now rewrite IH.
Qed.

Section Unreachable.
Context {W : Type} {P : Platform W} {L : PyLib}.
Hypothesis Hdown : unreachable.

Lemma http_get_json_loop_down url query attempts last_err s :
  (attempts <> [] \/ last_err <> None) ->
  exists e s', http_get_json_loop url query attempts last_err s = (Raise e, s').
Proof.
  revert last_err s. induction attempts as [|a rest IH]; intros last_err s Hne.
  - destruct last_err as [e|]; [|destruct Hne; congruence]. simpl. now exists e, s.
  - cbn [http_get_json_loop]. destruct (Hdown url query (world s)) as (e & w' & E).
    erewrite try_except_raise by (apply invoke_raise, E).
    unfold bind at 1. unfold log, emit at 1. unfold bind at 1. unfold sleep at 1.
    apply IH. right. discriminate.
Qed.

Lemma prom_query_down base_url query context s :
  exists e s', prom_query base_url query context s = (Raise e, s').
Proof.
  unfold prom_query. unfold bind at 1. unfold now at 1.
  destruct (http_get_json_loop_down (rstrip_slash base_url +:+ "/api/v1/query") query
              [0; 1; 2; 3; 4; 5] None s) as (e & s' & E); [left; discriminate|].
  exists e, s'. unfold bind at 1. unfold http_get_json. now rewrite E.
Qed.

Lemma collect_results_down base_url qs results s :
  exists s', collect_results base_url qs results s
             = (Ok (fold_left (fun m kq => <[fst kq := 0%float]> m) qs results), s').
Proof.
  revert results s. induction qs as [|[k q] rest IH]; intros results s; simpl.
  - now exists s.
  - destruct (prom_query_down base_url q (Some k) s) as (e & s1 & E).
    unfold bind at 1. erewrite try_except_raise by exact E.
    unfold bind at 1. unfold log, emit at 1. unfold ret at 1. apply IH.
Qed.

Lemma run_queries_down base_url ns ar er win pod_label f s :
  exists s', run_queries base_url ns ar er win pod_label f s = (Ok zero_snapshot, s').
Proof.
  unfold run_queries.
  destruct (log_queries_returns pod_label f (queries ns ar er win pod_label f) s) as ([] & s1 & E).
  unfold bind at 1. rewrite E.
  destruct (collect_results_down base_url (queries ns ar er win pod_label f) ∅ s1) as (s' & E').
  exists s'. rewrite E'. reflexivity.
Qed.

Lemma try_variants_down base_url ns ar er win vs s :
  exists s', try_variants base_url ns ar er win vs s = (Ok zero_snapshot, s').
Proof.
  revert s. induction vs as [|[l f] rest IH]; intros s; simpl.
  - unfold bind, log, emit, ret. eauto.
  - unfold bind at 1. unfold log, emit at 1.
    match goal with |- context [bind (run_queries _ _ _ _ _ _ _) _ ?st] =>
      destruct (run_queries_down base_url ns ar er win l f st) as (s1 & E)
    end.
    unfold bind at 1. rewrite E.
    replace (any_nonzero zero_snapshot) with false by (vm_compute; reflexivity).
    apply IH.
Qed.

Lemma measure_metrics_down base_url ns ar er win s :
  exists s', measure_metrics base_url ns ar er win s = (Ok zero_snapshot, s').
Proof.
  unfold measure_metrics.
  unfold bind at 1. unfold log, emit at 1. unfold bind at 1. unfold log, emit at 1.
  match goal with |- context [bind (preflight _ _ _ _) _ ?st] =>
    destruct (preflight_returns base_url ns ar er st) as ([] & s1 & E)
  end.
  unfold bind at 1. rewrite E. apply try_variants_down.
Qed.

End Unreachable.


Lemma sim_unreachable_down : unreachable (P := sim_platform sim_unreachable).
Proof. intros url query w. simpl. unfold sim_call. eauto. Qed.


(** A run: with the backend unreachable, each query exhausts its six
    attempts (sleeping 2, 4, 6, 8, 10, 12 seconds), and [measure_metrics]
    still returns normally, with the all-zero snapshot. *)
Lemma unreachable_backend_degrades_to_zero :
  (let '(r, s') := http_get_json (P := sim_platform sim_unreachable)
                     "http://vm:8428/api/v1/query" "up" sim_start in
   r = Raise (OtherException "Connection refused")
   /\ sleeps_of (trace s') = [2; 4; 6; 8; 10; 12]
   /\ length (calls_of (trace s')) = 6%nat)
  /\ (let '(r, s') := measure_metrics (P := sim_platform sim_unreachable) "http://vm:8428/"
                        "milo-system" "milo-apiserver.*" "etcd.*" "2m" sim_start in
      r = Ok zero_snapshot
      /\ (forall e, r <> Raise e)
      /\ length (calls_of (trace s')) = 102%nat).
Proof.
  split.
  - vm_compute. repeat split; reflexivity.
  - assert (Hlen : length (calls_of (trace (snd
             (measure_metrics (P := sim_platform sim_unreachable) "http://vm:8428/"
                "milo-system" "milo-apiserver.*" "etcd.*" "2m" sim_start)))) = 102%nat)
      by (vm_compute; reflexivity).
    destruct (measure_metrics_down (P := sim_platform sim_unreachable) sim_unreachable_down
                "http://vm:8428/" "milo-system" "milo-apiserver.*" "etcd.*" "2m" sim_start)
      as (s' & E).
    rewrite E in Hlen |- *. cbn [snd] in Hlen.
    split; [reflexivity|]. split; [discriminate|exact Hlen].
Qed.

(** One combination tried by the collector: the line that announces it, then
    its four queries. *)
Definition run_variant {W : Type} {P : Platform W} {L : PyLib}
    (base_url namespace apiserver_regex etcd_regex window : string) (v : string * bool)
    : Py W (gmap string float) :=
  log ("[metrics] attempting with pod_label=" +:+ fst v +:+ " filter=" +:+ py_bool_str (snd v)) ;;;
  run_queries base_url namespace apiserver_regex etcd_regex window (fst v) (snd v).

(** The result set of the first combination, tried in order, in which some
    metric is non-zero, and the state it leaves. *)
Fixpoint first_nonzero_result {W : Type} {P : Platform W} {L : PyLib}
    (base_url namespace apiserver_regex etcd_regex window : string)
    (vs : list (string * bool)) (s : State W) : option (gmap string float * State W) :=
  match vs with
  | [] => None
  | v :: rest =>
      match run_variant base_url namespace apiserver_regex etcd_regex window v s with
      | (Ok m, s1) =>
          if any_nonzero m then Some (m, s1)
          else first_nonzero_result base_url namespace apiserver_regex etcd_regex window rest s1
      | _ => None
      end
  end.

(** Every combination, tried in order, yields zero for all its metrics. *)
Fixpoint all_variants_zero {W : Type} {P : Platform W} {L : PyLib}
    (base_url namespace apiserver_regex etcd_regex window : string)
    (vs : list (string * bool)) (s : State W) : Prop :=
  match vs with
  | [] => True
  | v :: rest =>
      exists m s1,
        run_variant base_url namespace apiserver_regex etcd_regex window v s = (Ok m, s1)
        /\ any_nonzero m = false
        /\ all_variants_zero base_url namespace apiserver_regex etcd_regex window rest s1
  end.

Section FallbackFacts.
Context {W : Type} {P : Platform W} {L : PyLib}.
Variables (base_url namespace apiserver_regex etcd_regex window : string).

Lemma run_variant_returns v :
  returns (run_variant base_url namespace apiserver_regex etcd_regex window v).
Proof.
  unfold run_variant. apply returns_bind; [auto with settle|]. intros _.
  apply run_queries_returns.
Qed.

Lemma try_variants_cons v rest s :
  try_variants base_url namespace apiserver_regex etcd_regex window (v :: rest) s
  = match run_variant base_url namespace apiserver_regex etcd_regex window v s with
    | (Ok m, s1) =>
        if any_nonzero m then (Ok m, s1)
        else try_variants base_url namespace apiserver_regex etcd_regex window rest s1
    | (Raise e, s1) => (Raise e, s1)
    | (Exit n, s1) => (Exit n, s1)
    | (OutOfFuel, s1) => (OutOfFuel, s1)
    end.
Proof.
  destruct v as [l f]. cbn [try_variants]. unfold run_variant, bind, log, emit. cbn [fst snd].
  destruct (run_queries _ _ _ _ _ l f _) as [[m| | |] s1]; try reflexivity.
  now destruct (any_nonzero m).
Qed.

Lemma collect_results_dom qs :
  forall results s m s',
    collect_results base_url qs results s = (Ok m, s') ->
    dom m = dom results ∪ list_to_set (map fst qs).
Proof.
  induction qs as [|[k q] rest IH]; intros results s m s' E.
  - inversion E; subst. simpl. set_solver.
  - simpl in E. apply bind_inv_ok in E as (v & s1 & _ & E).
    apply IH in E. rewrite E, dom_insert_L. simpl. set_solver.
Qed.

Lemma run_queries_dom pod_label f s m s' :
  run_queries base_url namespace apiserver_regex etcd_regex window pod_label f s = (Ok m, s') ->
  dom m = list_to_set metric_keys.
Proof.
  unfold run_queries. intros E. apply bind_inv_ok in E as (? & s1 & _ & E).
  apply collect_results_dom in E. rewrite E, dom_empty_L. simpl. set_solver.
Qed.

Lemma run_variant_dom v s m s' :
  run_variant base_url namespace apiserver_regex etcd_regex window v s = (Ok m, s') ->
  dom m = list_to_set metric_keys.
Proof.
  unfold run_variant. intros E. apply bind_inv_ok in E as (? & s1 & _ & E).
  now apply run_queries_dom in E.
Qed.

Lemma zero_snapshot_dom : dom zero_snapshot = list_to_set metric_keys.
Proof. unfold zero_snapshot. rewrite !dom_insert_L, dom_empty_L. simpl. set_solver. Qed.

Lemma any_nonzero_zero_snapshot : any_nonzero zero_snapshot = false.
Proof. vm_compute. reflexivity. Qed.

(** The collector returns the first non-zero result set, or the zero
    snapshot when there is none. *)
Lemma try_variants_first vs :
  forall s, exists m s',
    try_variants base_url namespace apiserver_regex etcd_regex window vs s = (Ok m, s')
    /\ dom m = list_to_set metric_keys
    /\ match first_nonzero_result base_url namespace apiserver_regex etcd_regex window vs s with
       | Some (m1, s1) => m = m1 /\ s' = s1 /\ any_nonzero m = true
       | None => m = zero_snapshot
       end.
Proof.
  induction vs as [|v rest IH]; intros s.
  - simpl. unfold bind, log, emit, ret. eexists _, _. split; [reflexivity|].
    split; [apply zero_snapshot_dom|reflexivity].
  - rewrite try_variants_cons. cbn [first_nonzero_result].
    destruct (run_variant_returns v s) as (m & s1 & E). rewrite E.
    destruct (any_nonzero m) eqn:Hnz.
    + exists m, s1. split; [reflexivity|]. split; [eapply run_variant_dom, E|auto].
    + apply IH.
Qed.

Lemma first_nonzero_none_iff vs :
  forall s,
    first_nonzero_result base_url namespace apiserver_regex etcd_regex window vs s = None
    <-> all_variants_zero base_url namespace apiserver_regex etcd_regex window vs s.
Proof.
  induction vs as [|v rest IH]; intros s; [simpl; tauto|].
  cbn [first_nonzero_result all_variants_zero].
  destruct (run_variant_returns v s) as (m & s1 & E). rewrite E.
  destruct (any_nonzero m) eqn:Hnz.
  - split; [discriminate|]. intros (m' & s' & E' & Hz & _).
    inversion E'; subst. congruence.
  - rewrite IH. split.
    + intros Hall. now exists m, s1.
    + intros (m' & s' & E' & _ & Hall). now inversion E'; subst.
Qed.

(** A failing query counts as 0.0 and the other queries still run. *)
Lemma collect_results_failure k q rest results s e s1 :
  prom_query base_url q (Some k) s = (Raise e, s1) ->
  collect_results base_url ((k, q) :: rest) results s
  = collect_results base_url rest (<[k := 0%float]> results)
      (mkState (heap s1) (world s1)
         (trace s1 ++ [EvLog ("[metrics] query failed for " +:+ k +:+ ": " +:+ exn_str e
                              +:+ "; using 0")])).
Proof.
  intros E. cbn [collect_results]. unfold bind at 1.
  erewrite try_except_raise by exact E. reflexivity.
Qed.

End FallbackFacts.



(** * Further properties of the script *)

(** ** Substrings and the retry classification *)

Lemma prefix_split needle hay :
  String.prefix needle hay = true <-> exists post, hay = needle +:+ post.
Proof.
  revert hay. induction needle as [|a needle IH]; intros hay; simpl.
  - split; [intros _; now exists hay|intros _; now destruct hay].
  - destruct hay as [|b hay]; simpl.
    + split; [discriminate|intros [post H]; discriminate H].
    + destruct (ascii_dec a b) as [->|Hne].
      * rewrite IH. split; intros [post H]; exists post; [now rewrite H|now inversion H].
      * split; [discriminate|]. intros [post H]. inversion H. congruence.
Qed.

Lemma contains_split needle hay :
  contains needle hay = true <-> exists pre post, hay = pre +:+ needle +:+ post.
Proof.
  induction hay as [|c hay IH].
  - cbn [contains]. rewrite orb_false_r, prefix_split. split.
    + intros [post H]. now exists EmptyString, post.
    + intros (pre & post & H). destruct pre; [|discriminate H]. now exists post.
  - cbn [contains]. rewrite orb_true_iff, prefix_split, IH. split.
    + intros [[post H]|(pre & post & H)].
      * now exists EmptyString, post.
      * exists (String c pre), post. simpl. now rewrite H.
    + intros (pre & post & H). destruct pre as [|c' pre].
      * left. now exists post.
      * right. inversion H. now exists pre, post.
Qed.

(** X1: an API error is classified retryable exactly when its status is 429
    or 500, or when one of the three transient markers occurs somewhere in
    its body, whatever the status: a 404 or 409 whose body mentions a marker
    is retried, and an error without a body is retried only on 429 and 500. *)
Theorem should_retry_api_exception_iff (status : Z) (body : option string) :
  should_retry_api_exception status body = true
  <-> status = 429 \/ status = 500
      \/ exists marker pre post,
           In marker transient_markers /\ body = Some (pre +:+ marker +:+ post).
Proof.
  unfold should_retry_api_exception.
  destruct (Z.eqb_spec status 429) as [->|H1]; [simpl; tauto|].
  destruct (Z.eqb_spec status 500) as [->|H2]; [simpl; tauto|].
  cbn [orb].
  set (msg := match body with Some b => b | None => EmptyString end).
  assert (Hmsg : forall m, m <> EmptyString ->
            (contains m msg = true <-> exists pre post, body = Some (pre +:+ m +:+ post))).
  { intros m Hm. rewrite contains_split. subst msg. destruct body as [b|].
    - split; intros (pre & post & H); exists pre, post; congruence.
    - split; intros (pre & post & H); [|discriminate H].
      destruct pre; [|discriminate H]. destruct m; [contradiction|discriminate H]. }
  split.
  - intros H. right. right.
    destruct (contains "Internal error occurred" msg) eqn:E1.
    { apply Hmsg in E1 as (pre & post & ->); [|discriminate].
      exists "Internal error occurred", pre, post. simpl. tauto. }
    destruct (contains "failed calling webhook" msg) eqn:E2.
    { apply Hmsg in E2 as (pre & post & ->); [|discriminate].
      exists "failed calling webhook", pre, post. simpl. tauto. }
    destruct (contains "EOF" msg) eqn:E3; [|discriminate H].
    apply Hmsg in E3 as (pre & post & ->); [|discriminate].
    exists "EOF", pre, post. simpl. tauto.
  - intros [?|[?|(m & pre & post & Hin & Hb)]]; try contradiction.
    assert (Hc : contains m msg = true).
    { apply Hmsg; [|eauto]. simpl in Hin. intuition (subst; discriminate). }
    simpl in Hin. destruct Hin as [<-|[<-|[<-|[]]]]; rewrite Hc; rewrite ?orb_true_r; reflexivity.
Qed.

(** ** Retry Executor, for any remote call *)

Section RetryAny.
Context {W : Type} {C : Clock W} {A : Type}.

Lemma retry_loop_any name op (ext : Ext W A) :
  forall n k s, (k + n = 6)%nat -> (1 <= n)%nat ->
  exists (errs : list exn) (last : option exn) r s',
    retry_loop name (invoke op ext) (map Z.of_nat (seq (S k) n)) (delay_at k) s = (r, s')
    /\ trace s' = (trace s ++ retry_rounds name op k errs ++ [EvCall op last])%list
    /\ (length errs < n)%nat
    /\ Forall (fun e => retryable e = true) errs
    /\ match last with
       | None => exists a, r = Ok (Some a)
       | Some e => r = Raise e /\ (retryable e = false \/ length errs = (n - 1)%nat)
       end.
Proof.
  induction n as [|n IH]; intros k s Hk Hn; [lia|].
  cbn [seq map].
  destruct (ext (world s)) as [[e|a] w'] eqn:E.
  - destruct (retryable e && (Z.of_nat (S k) <? 6)) eqn:Hr.
    + apply andb_prop in Hr as [Hr Hlt]. apply Z.ltb_lt in Hlt.
      destruct e; try discriminate Hr. simpl in Hr.
      erewrite retry_loop_again; [| apply (invoke_raise _ _ _ _ _ E) | exact Hr | exact Hlt].
      rewrite delay_at_next. simpl heap. simpl world. simpl trace.
      match goal with |- context [retry_loop _ _ _ _ ?st] =>
        destruct (IH (S k) st ltac:(lia) ltac:(lia))
          as (errs & last & r & s' & Hrun & Htr & Hlen & Hfa & Hlast)
      end.
      exists (ApiException status body :: errs), last, r, s'.
      split; [exact Hrun|]. split; [|split; [|split]].
      * rewrite Htr. simpl trace. simpl retry_rounds. unfold retry_round. simpl exn_status.
        replace (Z.of_nat k + 1) with (Z.of_nat (S k)) by lia.
        rewrite <- !app_assoc. reflexivity.
      * simpl. lia.
      * constructor; auto.
      * destruct last; [|exact Hlast]. destruct Hlast as [-> Hl]. split; [reflexivity|].
        destruct Hl as [Hl|Hl]; [now left|right; simpl; lia].
    + eexists [], (Some e), _, _.
      rewrite (retry_loop_raise _ _ _ _ _ _ _ _ (invoke_raise _ _ _ _ _ E) Hr).
      simpl. repeat split; auto.
      apply andb_false_iff in Hr as [Hr|Hr]; [now left|right].
      apply Z.ltb_ge in Hr. lia.
  - eexists [], None, _, _.
    rewrite (retry_loop_ok _ _ _ _ _ _ _ _ (invoke_ok _ _ _ _ _ E)).
    simpl. repeat split; eauto with lia.
Qed.

Lemma retry_loop_not_none name (fn : Py W A) :
  forall attempts d s,
    (exists a, last attempts = Some a /\ 6 <= a) ->
    fst (retry_loop name fn attempts d s) <> Ok None.
Proof.
  induction attempts as [|x rest IH]; intros d s (a & Hl & Ha); [discriminate Hl|].
  cbn [retry_loop]. unfold try_except at 1. unfold bind at 1.
  destruct (fn s) as [[v|e|n|] s1]; try (simpl; discriminate).
  destruct e; try (simpl; discriminate).
  destruct (should_retry_api_exception status body && (x <? 6)) eqn:Hr; [|simpl; discriminate].
  unfold bind at 1. unfold log, emit at 1. unfold bind at 1. unfold sleep at 1.
  apply IH. exists a. split; [|exact Ha].
  destruct rest as [|y rest]; [|exact Hl].
  simpl in Hl. inversion Hl; subst a.
  apply andb_prop in Hr as [_ Hr]. apply Z.ltb_lt in Hr. lia.
Qed.

End RetryAny.

(** X2: whatever the remote call answers, the Retry Executor calls it at most
    six times; every failure before the last call was classified retryable
    and was followed by one sleep, so the sleeps are a prefix of 1, 2, 4, 8,
    16 seconds, at most 31 seconds in all; a success ends the run with the
    value, and a failure ends it with that very error either because it is not
    retryable or because it is the sixth. *)
Theorem retry_with_backoff_bounds
    (W : Type) (C : Clock W) (A : Type) (name op : string) (ext : Ext W A) (s : State W) :
  exists (errs : list exn) (last : option exn) r s',
    retry_with_backoff name (invoke op ext) s = (r, s')
    /\ trace s' = (trace s ++ retry_rounds name op 0 errs ++ [EvCall op last])%list
    /\ calls_of (trace s')
       = (calls_of (trace s) ++ map (fun e => (op, Some e)) errs ++ [(op, last)])%list
    /\ (length errs <= 5)%nat
    /\ Forall (fun e => retryable e = true) errs
    /\ sleeps_of (trace s') = (sleeps_of (trace s) ++ take (length errs) [1; 2; 4; 8; 16])%list
    /\ total (take (length errs) [1; 2; 4; 8; 16]) <= 31
    /\ match last with
       | None => exists a, r = Ok (Some a)
       | Some e => r = Raise e /\ (retryable e = false \/ length errs = 5%nat)
       end.
Proof.
  destruct (retry_loop_any name op ext 6 0 s eq_refl ltac:(lia))
    as (errs & last & r & s' & Hrun & Htr & Hlen & Hfa & Hlast).
  exists errs, last, r, s'.
  assert (Hsl : map delay_at (seq 0 (length errs)) = take (length errs) [1; 2; 4; 8; 16]).
  { do 6 (destruct errs as [|? errs]; [reflexivity|]). simpl in Hlen. lia. }
  split; [exact Hrun|]. split; [exact Htr|].
  split; [|split; [|split; [|split; [|split]]]].
  - rewrite Htr, !calls_of_app, calls_of_retry_rounds. reflexivity.
  - lia.
  - exact Hfa.
  - rewrite Htr, !sleeps_of_app, sleeps_of_retry_rounds, Hsl. simpl. now rewrite app_nil_r.
  - do 6 (destruct errs as [|? errs]; [vm_compute; discriminate|]). simpl in Hlen. lia.
  - destruct last; [|exact Hlast]. destruct Hlast as [-> Hl]. split; [reflexivity|].
    destruct Hl as [Hl|Hl]; [now left|right; lia].
Qed.

(** X3: the Retry Executor never falls off the end of its loop: for any
    callable and any state, its outcome is not a normal return without a
    value (the sixth failure is always re-raised). *)
Theorem retry_with_backoff_never_none
    (W : Type) (C : Clock W) (A : Type) (name : string) (fn : Py W A) (s : State W) :
  fst (retry_with_backoff name fn s) <> Ok None.
Proof.
  unfold retry_with_backoff. apply retry_loop_not_none. exists 6. split; [reflexivity|lia].
Qed.

(** ** Configuration strings *)

Lemma append_cons (x : ascii) (a b : string) : String x a +:+ b = String x (a +:+ b).
Proof. reflexivity. Qed.

Lemma append_assoc (a b c : string) : (a +:+ b) +:+ c = a +:+ b +:+ c.
Proof. induction a as [|x a IH]; [reflexivity|]. now rewrite !append_cons, IH. Qed.

Lemma append_nil_r (a : string) : a +:+ EmptyString = a.
Proof. induction a as [|x a IH]; [reflexivity|]. now rewrite append_cons, IH. Qed.

Lemma append_length (a b : string) :
  String.length (a +:+ b) = (String.length a + String.length b)%nat.
Proof.
  induction a as [|x a IH]; [reflexivity|]. rewrite append_cons. cbn [String.length].
  now rewrite IH.
Qed.

Lemma rev_app_spec s1 : forall s2, String.rev_app s1 s2 = String.rev s1 +:+ s2.
Proof.
  unfold String.rev. induction s1 as [|c s1 IH]; intros s2; [reflexivity|].
  cbn [String.rev_app]. rewrite IH, (IH (String c EmptyString)).
  rewrite append_assoc. reflexivity.
Qed.

Lemma rev_cons c s : String.rev (String c s) = String.rev s +:+ String c EmptyString.
Proof. unfold String.rev at 1. cbn [String.rev_app]. apply rev_app_spec. Qed.

Lemma rev_app s1 s2 : String.rev (s1 +:+ s2) = String.rev s2 +:+ String.rev s1.
Proof.
  induction s1 as [|c s1 IH].
  - change (String.rev EmptyString) with EmptyString. now rewrite append_nil_r.
  - rewrite append_cons, !rev_cons, IH, append_assoc. reflexivity.
Qed.

Lemma rev_length s : String.length (String.rev s) = String.length s.
Proof.
  induction s as [|c s IH]; [reflexivity|].
  rewrite rev_cons, append_length, IH. cbn [String.length]. lia.
Qed.

Lemma drop_prefix_app p s : drop_prefix p (p +:+ s) = Some s.
Proof.
  induction p as [|a p IH]; [reflexivity|].
  rewrite append_cons. cbn [drop_prefix]. now rewrite Ascii.eqb_refl.
Qed.

Lemma drop_prefix_Some p s t : drop_prefix p s = Some t -> s = p +:+ t.
Proof.
  revert s. induction p as [|a p IH]; intros s E; [now inversion E|].
  destruct s as [|b s]; [discriminate E|]. cbn [drop_prefix] in E.
  destruct (Ascii.eqb a b) eqn:Hab; [|discriminate E].
  apply Ascii.eqb_eq in Hab. subst b. rewrite append_cons. f_equal. now apply IH.
Qed.

Lemma strip_one_Some chars s t :
  strip_one chars s = Some t -> exists p, In p chars /\ s = p +:+ t.
Proof.
  induction chars as [|p chars IH]; [discriminate|]. simpl.
  destruct (drop_prefix p s) as [t'|] eqn:E.
  - intros H. inversion H; subst. exists p. split; [now left|]. now apply drop_prefix_Some.
  - intros H. destruct (IH H) as (q & Hq & Hs). exists q. split; [now right|exact Hs].
Qed.

(** A pattern of either list starts the string: it is the one stripped. *)
Lemma strip_one_whitespace p s : In p whitespace -> strip_one whitespace (p +:+ s) = Some s.
Proof.
  intros Hin. cbv [whitespace] in Hin. cbn [In] in Hin.
  repeat (destruct Hin as [<-|Hin]; [reflexivity|]). contradiction.
Qed.

Lemma strip_one_whitespace_rev p s :
  In p whitespace ->
  strip_one (map String.rev whitespace) (String.rev p +:+ s) = Some s.
Proof.
  intros Hin. cbv [whitespace] in Hin. cbn [In] in Hin.
  repeat (destruct Hin as [<-|Hin]; [reflexivity|]). contradiction.
Qed.

Lemma whitespace_nonempty p : In p whitespace -> (0 < String.length p)%nat.
Proof.
  intros Hin. cbv [whitespace] in Hin. cbn [In] in Hin.
  repeat (destruct Hin as [<-|Hin]; [simpl; lia|]). contradiction.
Qed.

Lemma strip_one_shorter chars s t :
  Forall (fun p => (0 < String.length p)%nat) chars ->
  strip_one chars s = Some t -> (String.length t < String.length s)%nat.
Proof.
  intros Hne E. apply strip_one_Some in E as (p & Hp & ->).
  rewrite List.Forall_forall in Hne. specialize (Hne p Hp).
  rewrite append_length. lia.
Qed.

Lemma lstrip_loop_enough chars :
  Forall (fun p => (0 < String.length p)%nat) chars ->
  forall n m s, (String.length s <= n)%nat -> (String.length s <= m)%nat ->
    lstrip_loop n chars s = lstrip_loop m chars s.
Proof.
  intros Hne. induction n as [|n IH]; intros m s Hn Hm.
  - destruct s; [|cbn [String.length] in Hn; lia].
    destruct m; [reflexivity|]. cbn [lstrip_loop].
    destruct (strip_one chars EmptyString) as [t|] eqn:E; [|reflexivity].
    apply (strip_one_shorter _ _ _ Hne) in E. cbn [String.length] in E. lia.
  - cbn [lstrip_loop]. destruct (strip_one chars s) as [t|] eqn:E.
    + pose proof (strip_one_shorter _ _ _ Hne E) as Hlt.
      destruct m as [|m]; [lia|]. cbn [lstrip_loop]. rewrite E. apply IH; lia.
    + destruct m; [reflexivity|]. cbn [lstrip_loop]. now rewrite E.
Qed.

Lemma lstrip_loop_fuel chars :
  Forall (fun p => (0 < String.length p)%nat) chars ->
  forall n s, (String.length s <= n)%nat ->
    lstrip_loop n chars s = lstrip_loop (String.length s) chars s.
Proof. intros Hne n s Hn. now apply lstrip_loop_enough. Qed.

Lemma whitespace_all_nonempty : Forall (fun p => (0 < String.length p)%nat) whitespace.
Proof. apply List.Forall_forall. intros p. apply whitespace_nonempty. Qed.

Lemma whitespace_rev_all_nonempty :
  Forall (fun p => (0 < String.length p)%nat) (map String.rev whitespace).
Proof.
  apply List.Forall_forall. intros p Hp. apply in_map_iff in Hp as (q & <- & Hq).
  rewrite rev_length. now apply whitespace_nonempty.
Qed.

Lemma lstrip_step s t : strip_one whitespace s = Some t -> lstrip s = lstrip t.
Proof.
  intros E. unfold lstrip.
  pose proof (strip_one_shorter _ _ _ whitespace_all_nonempty E) as Hlt.
  destruct s as [|c s]; [simpl in Hlt; lia|].
  cbn [String.length lstrip_loop]. rewrite E.
  apply (lstrip_loop_fuel _ whitespace_all_nonempty). cbn [String.length] in Hlt. lia.
Qed.

Lemma lstrip_stuck s : strip_one whitespace s = None -> lstrip s = s.
Proof.
  intros E. unfold lstrip. destruct s; [reflexivity|].
  cbn [String.length lstrip_loop]. now rewrite E.
Qed.

Lemma lstrip_char p s : In p whitespace -> lstrip (p +:+ s) = lstrip s.
Proof. intros Hp. apply lstrip_step. now apply strip_one_whitespace. Qed.

Lemma rstrip_char p s : In p whitespace -> rstrip (s +:+ p) = rstrip s.
Proof.
  intros Hp. unfold rstrip. f_equal. rewrite rev_app.
  pose proof (strip_one_whitespace_rev p (String.rev s) Hp) as E.
  pose proof (strip_one_shorter _ _ _ whitespace_rev_all_nonempty E) as Hlt.
  rewrite append_length.
  destruct (String.length s + String.length p)%nat as [|n] eqn:Hn.
  { rewrite append_length, !rev_length in Hlt. lia. }
  cbn [lstrip_loop]. rewrite E.
  rewrite append_length, !rev_length in Hlt.
  rewrite (lstrip_loop_fuel _ whitespace_rev_all_nonempty n) by (rewrite rev_length; lia).
  now rewrite rev_length.
Qed.

(** A string of whitespace only is a sequence of whitespace characters. *)
Lemma all_space_ind (P : string -> Prop) :
  P EmptyString ->
  (forall p s, In p whitespace -> all_space s = true -> P s -> P (p +:+ s)) ->
  forall s, all_space s = true -> P s.
Proof.
  intros H0 Hstep s. remember (String.length s) as n eqn:Hn. revert s Hn.
  induction n as [n IH] using lt_wf_ind. intros s Hn Hs.
  destruct (strip_one whitespace s) as [t|] eqn:E.
  - pose proof (strip_one_shorter _ _ _ whitespace_all_nonempty E) as Hlt.
    pose proof (lstrip_step s t E) as Hl.
    apply strip_one_Some in E as (p & Hp & ->).
    assert (Ht : all_space t = true) by (unfold all_space in *; now rewrite <- Hl).
    apply Hstep; [exact Hp|exact Ht|]. apply (IH (String.length t)); [lia|reflexivity|exact Ht].
  - unfold all_space in Hs. rewrite (lstrip_stuck s E) in Hs.
    apply String.eqb_eq in Hs. now subst s.
Qed.

Lemma lstrip_space ws : all_space ws = true -> lstrip ws = EmptyString.
Proof. unfold all_space. apply String.eqb_eq. Qed.

Lemma lstrip_app_space ws s : all_space ws = true -> lstrip (ws +:+ s) = lstrip s.
Proof.
  intros H. revert s. pattern ws. apply all_space_ind; [| |exact H].
  - intros s. reflexivity.
  - intros p t Hp _ IH s. rewrite append_assoc, lstrip_char by exact Hp. apply IH.
Qed.

Lemma rstrip_app_space s ws : all_space ws = true -> rstrip (s +:+ ws) = rstrip s.
Proof.
  intros H. revert s. pattern ws. apply all_space_ind; [| |exact H].
  - intros s. now rewrite append_nil_r.
  - intros p t Hp _ IH s. rewrite <- append_assoc, IH. now apply rstrip_char.
Qed.

Lemma rstrip_empty : rstrip EmptyString = EmptyString.
Proof. reflexivity. Qed.

Lemma append_nil_l (a : string) : EmptyString +:+ a = a.
Proof. reflexivity. Qed.

Lemma strip_one_None chars s p :
  strip_one chars s = None -> In p chars -> drop_prefix p s = None.
Proof.
  induction chars as [|q chars IH]; [intros _ []|]. cbn [strip_one].
  destruct (drop_prefix q s) eqn:E; [discriminate|].
  intros H [<-|Hp]; [exact E|now apply IH].
Qed.

Lemma whitespace_lead p :
  In p whitespace -> exists c r, p = String c r /\ is_lead c = true.
Proof.
  intros Hin. cbv [whitespace] in Hin. cbn [In] in Hin.
  repeat (destruct Hin as [<-|Hin]; [eexists _, _; split; reflexivity|]). contradiction.
Qed.

(** No whitespace character starts in the middle of another: text that is
    not whitespace does not become whitespace by what follows it. *)
Lemma strip_one_app_space s ws :
  all_space ws = true -> s <> EmptyString ->
  strip_one whitespace s = None -> strip_one whitespace (s +:+ ws) = None.
Proof.
  intros Hws Hs E.
  destruct (strip_one whitespace (s +:+ ws)) as [t|] eqn:E2; [|reflexivity]. exfalso.
  destruct ws as [|c ws].
  { rewrite append_nil_r in E2. congruence. }
  assert (Hc : is_lead c = true).
  { destruct (strip_one whitespace (String c ws)) as [r|] eqn:E3.
    - apply strip_one_Some in E3 as (p & Hp & Hr).
      destruct (whitespace_lead p Hp) as (c0 & p' & -> & Hc0).
      rewrite append_cons in Hr. now inversion Hr; subst.
    - unfold all_space in Hws. rewrite (lstrip_stuck _ E3) in Hws. discriminate Hws. }
  clear Hws. apply strip_one_Some in E2 as (q & Hq & Heq).
  pose proof (strip_one_None _ _ _ E Hq) as Hd. clear E.
  cbv [whitespace] in Hq. cbn [In] in Hq.
  destruct s as [|a [|b [|d s]]]; [congruence| | |];
    repeat (destruct Hq as [<-|Hq];
            [rewrite ?append_cons, ?append_nil_l in Heq; cbn [drop_prefix] in Hd;
             inversion Heq; subst;
             first [discriminate Hc | revert Hd; rewrite ?Ascii.eqb_refl; discriminate]|]);
    contradiction.
Qed.

Lemma lstrip_app_r s ws :
  all_space ws = true ->
  lstrip (s +:+ ws) = if all_space s then EmptyString else lstrip s +:+ ws.
Proof.
  intros Hws. remember (String.length s) as n eqn:Hn. revert s Hn.
  induction n as [n IH] using lt_wf_ind. intros s Hn.
  destruct (strip_one whitespace s) as [t|] eqn:E.
  - pose proof (strip_one_shorter _ _ _ whitespace_all_nonempty E) as Hlt.
    pose proof (lstrip_step s t E) as Hl.
    apply strip_one_Some in E as (p & Hp & ->).
    rewrite append_assoc, lstrip_char by exact Hp.
    unfold all_space. rewrite Hl. apply (IH (String.length t)); [lia|reflexivity].
  - unfold all_space. rewrite (lstrip_stuck s E).
    destruct s as [|c s].
    + rewrite append_nil_l. now apply lstrip_space.
    + cbn [String.eqb]. apply lstrip_stuck. now apply strip_one_app_space.
Qed.

Lemma strip_spaces ws1 v ws2 :
  all_space ws1 = true -> all_space ws2 = true -> strip (ws1 +:+ v +:+ ws2) = strip v.
Proof.
  intros H1 H2. unfold strip. rewrite lstrip_app_space by exact H1.
  rewrite lstrip_app_r by exact H2.
  destruct (all_space v) eqn:Hv.
  - now rewrite (lstrip_space v Hv).
  - now apply rstrip_app_space.
Qed.

Lemma lower_cons c s : lower (String c s) = String (lower_char c) (lower s).
Proof. reflexivity. Qed.

Lemma lower_char_idem c : lower_char (lower_char c) = lower_char c.
Proof. destruct c as [[] [] [] [] [] [] [] []]; reflexivity. Qed.

Lemma lower_idem s : lower (lower s) = lower s.
Proof.
  induction s as [|c s IH]; [reflexivity|].
  rewrite !lower_cons, lower_char_idem, IH. reflexivity.
Qed.

Lemma lower_empty s : String.eqb (lower s) EmptyString = String.eqb s EmptyString.
Proof. now destruct s. Qed.

Lemma eqb_lower_char c x :
  is_letter c = false -> Ascii.eqb c (lower_char x) = Ascii.eqb c x.
Proof.
  intros Hc. unfold lower_char.
  destruct ((65 <=? nat_of_ascii x) && (nat_of_ascii x <=? 90))%nat eqn:Hu; [|reflexivity].
  apply andb_prop in Hu as [H1 H2]. apply Nat.leb_le in H1, H2.
  assert (Hx : Ascii.eqb c x = false).
  { apply Ascii.eqb_neq. intros ->. unfold is_letter in Hc.
    apply orb_false_elim in Hc as [Hc _]. apply andb_false_iff in Hc as [Hc|Hc];
      apply Nat.leb_gt in Hc; lia. }
  rewrite Hx. apply Ascii.eqb_neq. intros ->. unfold is_letter in Hc.
  rewrite nat_ascii_embedding in Hc by lia.
  apply orb_false_elim in Hc as [_ Hc]. apply andb_false_iff in Hc as [Hc|Hc];
    apply Nat.leb_gt in Hc; lia.
Qed.

Lemma drop_prefix_lower p s :
  no_letter p = true -> drop_prefix p (lower s) = lower <$> drop_prefix p s.
Proof.
  revert s. induction p as [|c p IH]; intros s Hp; [reflexivity|].
  cbn [no_letter] in Hp. apply andb_prop in Hp as [Hc Hp]. apply negb_true_iff in Hc.
  destruct s as [|x s]; [reflexivity|].
  rewrite lower_cons. cbn [drop_prefix]. rewrite (eqb_lower_char c x Hc).
  destruct (Ascii.eqb c x); [now apply IH|reflexivity].
Qed.

Lemma strip_one_lower chars s :
  forallb no_letter chars = true -> strip_one chars (lower s) = lower <$> strip_one chars s.
Proof.
  induction chars as [|p chars IH]; [reflexivity|]. cbn [forallb strip_one].
  intros H. apply andb_prop in H as [Hp Hc]. rewrite (drop_prefix_lower p s Hp).
  destruct (drop_prefix p s); [reflexivity|now apply IH].
Qed.

Lemma lstrip_loop_lower chars n :
  forallb no_letter chars = true ->
  forall s, lstrip_loop n chars (lower s) = lower (lstrip_loop n chars s).
Proof.
  intros H. induction n as [|n IH]; intros s; [reflexivity|].
  cbn [lstrip_loop]. rewrite (strip_one_lower chars s H).
  destruct (strip_one chars s); [apply IH|reflexivity].
Qed.

Lemma lower_length s : String.length (lower s) = String.length s.
Proof. induction s as [|c s IH]; [reflexivity|]. rewrite lower_cons. cbn. now rewrite IH. Qed.

Lemma lower_app a b : lower (a +:+ b) = lower a +:+ lower b.
Proof.
  induction a as [|c a IH]; [reflexivity|].
  now rewrite append_cons, !lower_cons, append_cons, IH.
Qed.

Lemma lower_rev s : lower (String.rev s) = String.rev (lower s).
Proof.
  induction s as [|c s IH]; [reflexivity|].
  now rewrite lower_cons, !rev_cons, lower_app, IH.
Qed.

Lemma lstrip_lower s : lstrip (lower s) = lower (lstrip s).
Proof. unfold lstrip. rewrite lower_length. now apply lstrip_loop_lower. Qed.

Lemma rstrip_lower s : rstrip (lower s) = lower (rstrip s).
Proof.
  unfold rstrip. rewrite lower_length, <- lower_rev, lstrip_loop_lower by reflexivity.
  apply eq_sym, lower_rev.
Qed.

(** X4: [parse_bool] on a given value ignores its default, the whitespace
    around the value (every character [str.strip()] removes, those outside
    ASCII included) and the case of its ASCII letters; a value that is empty
    or only whitespace is false, also when the default is true. *)
Theorem parse_bool_normalises (v ws1 ws2 : string) (default default' : bool) :
  all_space ws1 = true ->
  all_space ws2 = true ->
  parse_bool (Some (ws1 +:+ v +:+ ws2)) default = parse_bool (Some (lower v)) default'
  /\ parse_bool (Some ws1) default = false.
Proof.
  intros H1 H2. split.
  - unfold parse_bool. rewrite strip_spaces by assumption.
    unfold strip. rewrite lstrip_lower, rstrip_lower, lower_idem. reflexivity.
  - unfold parse_bool, strip. rewrite lstrip_space by exact H1. reflexivity.
Qed.

Lemma parse_bool_normalises_witness :
  let nbsp := utf8 [194; 160]%nat in
  let em_space := utf8 [226; 128; 131]%nat in
  parse_bool (Some ((" " +:+ em_space) +:+ "Yes" +:+ (nbsp +:+ " "))) false
  = parse_bool (Some (lower "Yes")) true
  /\ parse_bool (Some (" " +:+ em_space)) false = false.
Proof.
  intros nbsp em_space.
  apply (parse_bool_normalises "Yes" (" " +:+ em_space) (nbsp +:+ " ") false true);
    reflexivity.
Defined.

(** A value followed by a no-break space, which is no ASCII whitespace. *)
Example parse_bool_no_break_space :
  parse_bool (Some ("true" +:+ utf8 [194; 160]%nat)) false = true.
Proof. reflexivity. Qed.

(** ** Required environment *)

Section Env.
Context {W : Type} {P : Platform W} {L : PyLib}.

Lemma get_env_default name d (s : State W) :
  get_env name (Some d) s = (Ok (default d (os_getenv name (world s))), s).
Proof. unfold get_env, bind, getenv. now destruct (os_getenv name (world s)). Qed.

Lemma get_env_set name dflt v (s : State W) :
  os_getenv name (world s) = Some v -> get_env name dflt s = (Ok v, s).
Proof. intros E. unfold get_env, bind, getenv. now rewrite E. Qed.

Lemma get_env_missing name (s : State W) :
  os_getenv name (world s) = None ->
  get_env name None s
  = (Exit 1, mkState (heap s) (world s) (trace s ++ [EvPrint ("Missing required env var: " +:+ name)])).
Proof. intros E. unfold get_env, bind, getenv. now rewrite E. Qed.

Lemma get_env_int name d z (s : State W) :
  int_of_string (default d (os_getenv name (world s))) = Some z ->
  (x <- get_env name (Some d) ;; py_int x) s = (Ok z, s).
Proof. intros E. unfold bind. rewrite get_env_default. unfold py_int. now rewrite E. Qed.

Lemma getenv_int name d z (s : State W) :
  int_of_string (default d (os_getenv name (world s))) = Some z ->
  (x <- getenv name ;; py_int (default d x)) s = (Ok z, s).
Proof. intros E. unfold bind, getenv. unfold py_int. now rewrite E. Qed.

End Env.

(** X5: a required variable that is unset ends the script with exit code 1
    before anything else happens: the only effect is the line that names the
    variable; no remote call is made, nothing is logged and no checkpoint is
    written.  In cleanup mode ([RUN_MODE] is "cleanup" in any letter case)
    the required variables are [TEST_ID], then [ORG_NAME]; in any other mode
    it is [VM_BASE_URL]. *)
Theorem main_missing_env_exits
    (W : Type) (P : Platform W) (L : PyLib) (fuel : nat) (s : State W) :
  let run_mode := lower (default "run" (os_getenv "RUN_MODE" (world s))) in
  let missing name :=
    (Exit 1 : Res unit,
     mkState (heap s) (world s) (trace s ++ [EvPrint ("Missing required env var: " +:+ name)])) in
  (run_mode = "cleanup" ->
   (os_getenv "TEST_ID" (world s) = None -> main fuel s = missing "TEST_ID")
   /\ (os_getenv "TEST_ID" (world s) <> None ->
       os_getenv "ORG_NAME" (world s) = None -> main fuel s = missing "ORG_NAME"))
  /\ (run_mode <> "cleanup" ->
      os_getenv "VM_BASE_URL" (world s) = None -> main fuel s = missing "VM_BASE_URL").
Proof.
  intros run_mode missing. subst missing. cbv beta.
  assert (Hmain : main fuel s
                  = (if String.eqb run_mode "cleanup"
                     then main_cleanup (default "milo-system" (os_getenv "TARGET_NAMESPACE" (world s)))
                     else main_run fuel (default "milo-system" (os_getenv "TARGET_NAMESPACE" (world s)))) s).
  { unfold main. unfold bind at 1. unfold getenv at 1.
    unfold bind at 1. rewrite get_env_default. reflexivity. }
  split.
  - intros Hmode. rewrite Hmain, Hmode.
    change ("cleanup" =? "cleanup")%string with true. cbv iota.
    unfold main_cleanup.
    split.
    + intros Ht. unfold bind at 1. rewrite get_env_default.
      unfold bind at 1. now rewrite (get_env_missing _ _ Ht).
    + intros Ht Ho. destruct (os_getenv "TEST_ID" (world s)) as [tid|] eqn:Et; [|congruence].
      unfold bind at 1. rewrite get_env_default.
      unfold bind at 1. rewrite (get_env_set _ _ _ _ Et).
      unfold bind at 1. now rewrite (get_env_missing _ _ Ho).
  - intros Hmode Hv. rewrite Hmain.
    apply String.eqb_neq in Hmode. rewrite Hmode.
    unfold main_run. unfold bind at 1. rewrite get_env_default.
    unfold bind at 1. rewrite get_env_default.
    unfold bind at 1. now rewrite (get_env_missing _ _ Hv).
Qed.

Lemma main_missing_env_exits_witness :
  main (P := sim_platform sim_cleanup_no_id) 500 sim_start
  = (Exit 1, mkState [] {| sw_clock := 1000; sw_calls := 0 |}
               [EvPrint "Missing required env var: TEST_ID"])
  /\ main (P := sim_platform sim_run_no_url) 500 sim_start
     = (Exit 1, mkState [] {| sw_clock := 1000; sw_calls := 0 |}
                  [EvPrint "Missing required env var: VM_BASE_URL"]).
Proof.
  split.
  - apply (proj1 (proj1 (main_missing_env_exits SimWorld (sim_platform sim_cleanup_no_id)
                           sim_pylib 500 sim_start) eq_refl)).
    reflexivity.
  - apply (proj2 (main_missing_env_exits SimWorld (sim_platform sim_run_no_url)
                    sim_pylib 500 sim_start)).
    + discriminate.
    + reflexivity.
Defined.

(** ** Results ConfigMap and checkpoints *)

Section Upsert.
Context {W : Type}.

Lemma upsert_handler_not_found {A} (c : Py W A) e (s : State W) :
  not_found e = true ->
  (match e with
   | ApiException status _ => if status =? 404 then c else raise e
   | _ => raise e
   end) s
  = c s.
Proof. destruct e; try discriminate. simpl. now intros ->. Qed.

Lemma upsert_handler_other {A} (c : Py W A) e (s : State W) :
  not_found e = false ->
  (match e with
   | ApiException status _ => if status =? 404 then c else raise e
   | _ => raise e
   end) s
  = (Raise e, s).
Proof. destruct e; try reflexivity. simpl. now intros ->. Qed.

End Upsert.

(** X6: once the client configuration is loaded, [save_results_configmap]
    reads the ConfigMap and replaces it; it creates the ConfigMap exactly
    when the read, or the replace after a successful read, failed with 404,
    and then its outcome is the outcome of the create; any other error of the
    read or of the replace is raised as it is, with no further call. *)
Theorem save_results_configmap_upsert
    (W : Type) (P : Platform W) (L : PyLib)
    (namespace name : string) (data : list (string * string)) (s s1 : State W) :
  load_default_config s = (Ok tt, s1) ->
  let read := "read configmaps/" +:+ name in
  let replace := "replace configmaps/" +:+ name in
  let create := "create configmaps/" +:+ name in
  exists evs r s',
    save_results_configmap namespace name data s = (r, s')
    /\ trace s' = (trace s1 ++ evs)%list
    /\ ((evs = [EvCall read None; EvCall replace None] /\ r = Ok tt)
        \/ (exists e, not_found e = false /\ r = Raise e
                      /\ (evs = [EvCall read (Some e)]
                          \/ evs = [EvCall read None; EvCall replace (Some e)]))
        \/ (exists e last,
              not_found e = true
              /\ (evs = [EvCall read (Some e); EvCall create last]
                  \/ evs = [EvCall read None; EvCall replace (Some e); EvCall create last])
              /\ r = match last with None => Ok tt | Some e' => Raise e' end)).
Proof.
  intros Hcfg read replace create.
  set (create_op := "create configmaps/" +:+ name) in *.
  set (read_op := "read configmaps/" +:+ name) in *.
  set (replace_op := "replace configmaps/" +:+ name) in *.
  subst read replace create.
  unfold save_results_configmap. fold create_op read_op replace_op.
  unfold bind at 1. rewrite Hcfg.
  set (cm := {| cm_metadata := {| meta_name := name; meta_labels := [] |}; cm_data := data |}).
  assert (Hcreate : forall s0 : State W, exists last r s',
            invoke create_op (create_namespaced_config_map None namespace cm) s0 = (r, s')
            /\ trace s' = (trace s0 ++ [EvCall create_op last])%list
            /\ r = match last with None => Ok tt | Some e' => Raise e' end).
  { intros s0. unfold invoke.
    destruct (create_namespaced_config_map None namespace cm (world s0)) as [[e|[]] w].
    - now exists (Some e), (Raise e), (mkState (heap s0) w (trace s0 ++ [EvCall create_op (Some e)])).
    - now exists None, (Ok tt), (mkState (heap s0) w (trace s0 ++ [EvCall create_op None])). }
  destruct (read_namespaced_config_map None name namespace (world s1)) as [[e|existing] w2] eqn:Eread.
  - (* the read fails *)
    unfold try_except at 1. unfold bind at 1.
    rewrite (invoke_raise _ _ _ _ _ Eread).
    destruct (not_found e) eqn:Hnf.
    + rewrite upsert_handler_not_found by exact Hnf.
      match goal with |- context [invoke create_op _ ?st] =>
        destruct (Hcreate st) as (last & r & s' & Hrun & Htr & Hr) end.
      exists [EvCall read_op (Some e); EvCall create_op last], r, s'.
      split; [exact Hrun|]. split; [rewrite Htr; cbn [trace]; now rewrite <- app_assoc|].
      right. right. exists e, last. auto.
    + rewrite upsert_handler_other by exact Hnf.
      eexists [EvCall read_op (Some e)], (Raise e), _. split; [reflexivity|].
      split; [reflexivity|]. right. left. exists e. auto.
  - (* the read answers *)
    unfold try_except at 1. unfold bind at 1.
    rewrite (invoke_ok _ _ _ _ _ Eread).
    match goal with |- context [invoke replace_op ?f ?st] =>
      destruct (f (world st)) as [[e|[]] w3] eqn:Erep;
      [rewrite (invoke_raise _ _ _ _ _ Erep)|rewrite (invoke_ok _ _ _ _ _ Erep)]
    end.
    + destruct (not_found e) eqn:Hnf.
      * rewrite upsert_handler_not_found by exact Hnf.
        match goal with |- context [invoke create_op _ ?st] =>
          destruct (Hcreate st) as (last & r & s' & Hrun & Htr & Hr) end.
        exists [EvCall read_op None; EvCall replace_op (Some e); EvCall create_op last], r, s'.
        split; [exact Hrun|].
        split; [rewrite Htr; cbn [trace]; now rewrite <- !app_assoc|].
        right. right. exists e, last. auto.
      * rewrite upsert_handler_other by exact Hnf.
        eexists [EvCall read_op None; EvCall replace_op (Some e)], (Raise e), _.
        split; [reflexivity|]. split; [cbn [trace]; now rewrite <- !app_assoc|].
        right. left. exists e. auto.
    + eexists [EvCall read_op None; EvCall replace_op None], (Ok tt), _.
      split; [reflexivity|]. split; [cbn [trace]; now rewrite <- !app_assoc|].
      left. auto.
Qed.

Lemma save_results_configmap_upsert_witness :
  let s1 := mkState [] {| sw_clock := 1000; sw_calls := 1 |}
              [EvCall "load_incluster_config" None] in
  let read := "read configmaps/" +:+ "perf-results" in
  let replace := "replace configmaps/" +:+ "perf-results" in
  let create := "create configmaps/" +:+ "perf-results" in
  exists evs r s',
    save_results_configmap (P := sim_platform sim_default) "milo-system" "perf-results"
      [("phase", "init")] sim_start = (r, s')
    /\ trace s' = (trace s1 ++ evs)%list
    /\ ((evs = [EvCall read None; EvCall replace None] /\ r = Ok tt)
        \/ (exists e, not_found e = false /\ r = Raise e
                      /\ (evs = [EvCall read (Some e)]
                          \/ evs = [EvCall read None; EvCall replace (Some e)]))
        \/ (exists e last,
              not_found e = true
              /\ (evs = [EvCall read (Some e); EvCall create last]
                  \/ evs = [EvCall read None; EvCall replace (Some e); EvCall create last])
              /\ r = match last with None => Ok tt | Some e' => Raise e' end)).
Proof.
  intros s1.
  apply (save_results_configmap_upsert SimWorld (sim_platform sim_default) sim_pylib
           "milo-system" "perf-results" [("phase", "init")] sim_start s1).
  reflexivity.
Defined.

Lemma dict_get_set_eq {V : Type} k (v : V) kvs : dict_get k (dict_set k v kvs) = Some v.
Proof.
  induction kvs as [|[k' v'] kvs IH]; simpl.
  - now rewrite String.eqb_refl.
  - destruct (String.eqb k k') eqn:E; simpl; rewrite E; auto.
Qed.

Lemma dict_get_set_ne {V : Type} k k' (v : V) kvs :
  k <> k' -> dict_get k (dict_set k' v kvs) = dict_get k kvs.
Proof.
  intros Hne. induction kvs as [|[k0 v0] kvs IH]; simpl.
  - apply String.eqb_neq in Hne. now rewrite Hne.
  - destruct (String.eqb k' k0) eqn:E; simpl.
    + apply String.eqb_eq in E. subst k0.
      apply String.eqb_neq in Hne. now rewrite Hne.
    + destruct (String.eqb k k0); auto.
Qed.

Section Checkpoint.
Context {L : PyLib}.

Lemma fold_set_other k items :
  forall d, k ∉ map fst items ->
    dict_get k (fold_left (fun d kv => dict_set (fst kv) (checkpoint_text (snd kv)) d) items d)
    = dict_get k d.
Proof.
  induction items as [|[k' v'] items IH]; intros d Hk; [reflexivity|].
  simpl in *. apply not_elem_of_cons in Hk as [Hne Hk].
  rewrite IH by exact Hk. now apply dict_get_set_ne.
Qed.

Lemma fold_set_member k v items :
  forall d, NoDup (map fst items) -> (k, v) ∈ items ->
    dict_get k (fold_left (fun d kv => dict_set (fst kv) (checkpoint_text (snd kv)) d) items d)
    = Some (checkpoint_text v).
Proof.
  induction items as [|[k' v'] items IH]; intros d Hnd Hin.
  - now apply elem_of_nil in Hin.
  - simpl in *. apply NoDup_cons in Hnd as [Hk' Hnd].
    apply elem_of_cons in Hin as [Heq|Hin].
    + inversion Heq; subst k' v'. rewrite fold_set_other by exact Hk'.
      apply dict_get_set_eq.
    + now apply IH.
Qed.

End Checkpoint.

(** X7: a checkpoint is one [save_results_configmap] on "perf-results" whose
    data holds the keys test_id, org_name and phase, and every key of
    [extra] with the text of its value; a key of [extra] replaces an identity
    key of the same name, and the identity keys that [extra] does not name
    keep the values given. *)
Theorem save_checkpoint_data
    (W : Type) (P : Platform W) (L : PyLib)
    (namespace test_id org_name phase : string) (items : list (string * pyval)) :
  (forall s : State W,
      save_checkpoint namespace test_id org_name phase (Some items) s
      = save_results_configmap namespace "perf-results"
          (checkpoint_data test_id org_name phase items) s)
  /\ (forall s : State W,
        save_checkpoint namespace test_id org_name phase None s
        = save_results_configmap namespace "perf-results"
            (checkpoint_data test_id org_name phase []) s)
  /\ (forall k,
        k ∉ map fst items ->
        dict_get k (checkpoint_data test_id org_name phase items)
        = dict_get k [("test_id", test_id); ("org_name", org_name); ("phase", phase)])
  /\ (forall k v,
        NoDup (map fst items) ->
        (k, v) ∈ items ->
        dict_get k (checkpoint_data test_id org_name phase items) = Some (checkpoint_text v)).
Proof.
  split; [intros s; reflexivity|]. split; [intros s; reflexivity|]. split.
  - intros k Hk. now apply fold_set_other.
  - intros k v Hnd Hin. now apply fold_set_member.
Qed.

Lemma save_checkpoint_data_witness :
  let items := [("num_projects", PInt 2); ("phase", PStr "override")] in
  dict_get "test_id" (checkpoint_data "0a1b2c3d" "perf-org" "init" items) = Some "0a1b2c3d"
  /\ dict_get "phase" (checkpoint_data "0a1b2c3d" "perf-org" "init" items) = Some "override"
  /\ dict_get "num_projects" (checkpoint_data "0a1b2c3d" "perf-org" "init" items) = Some "2".
Proof.
  intros items.
  destruct (save_checkpoint_data SimWorld (sim_platform sim_default) sim_pylib
              "milo-system" "0a1b2c3d" "perf-org" "init" items) as (_ & _ & Hkeep & Hset).
  assert (Hnd : NoDup (map fst items)).
  { subst items. simpl. apply NoDup_cons. split; [|apply NoDup_singleton].
    intros H. apply list_elem_of_singleton in H. discriminate H. }
  split; [|split].
  - apply (Hkeep "test_id"). subst items. simpl. intros H.
    apply elem_of_cons in H as [H|H]; [discriminate H|].
    apply list_elem_of_singleton in H. discriminate H.
  - apply (Hset "phase" (PStr "override") Hnd). subst items. repeat constructor.
  - apply (Hset "num_projects" (PInt 2) Hnd). subst items. repeat constructor.
Defined.

(** X8: when the initial checkpoint cannot be saved, the run ends there with
    the error of the save, in the state the save left: no metric is
    measured, no Organization or Project is created and nothing else is
    written.  The hypotheses say that the configuration is readable: the
    metrics URL is set and the six numeric settings parse. *)
Theorem main_run_init_checkpoint_aborts
    (W : Type) (P : Platform W) (L : PyLib) (fuel : nat) (target_ns : string) (s s2 : State W)
    (url test_id : string) (stabilize_seconds num_projects num_secrets num_configmaps : Z)
    (project_concurrency object_concurrency : Z) (w1 : W) (e : exn) :
  os_getenv "VM_BASE_URL" (world s) = Some url ->
  int_of_string (default "90" (os_getenv "STABILIZE_SECONDS" (world s))) = Some stabilize_seconds ->
  int_of_string (default "100" (os_getenv "NUM_PROJECTS" (world s))) = Some num_projects ->
  int_of_string (default "100" (os_getenv "NUM_SECRETS_PER_PROJECT" (world s))) = Some num_secrets ->
  int_of_string (default "100" (os_getenv "NUM_CONFIGMAPS_PER_PROJECT" (world s)))
  = Some num_configmaps ->
  int_of_string (default "4" (os_getenv "PROJECT_CONCURRENCY" (world s)))
  = Some project_concurrency ->
  int_of_string (default "8" (os_getenv "OBJECT_CONCURRENCY" (world s)))
  = Some object_concurrency ->
  uuid4_hex8 (world s) = (test_id, w1) ->
  let org_name :=
    match os_getenv "ORG_NAME" w1 with
    | Some o => if negb (String.eqb (strip o) EmptyString) then strip o else "perf-" +:+ test_id
    | None => "perf-" +:+ test_id
    end in
  save_checkpoint target_ns test_id org_name "init" (Some [("num_projects", PInt num_projects)])
    (mkState (heap s) w1 (trace s)) = (Raise e, s2) ->
  main_run fuel target_ns s = (Raise e, s2).
Proof.
  intros Hurl Hst Hnp Hns Hnc Hpc Hoc Hid org_name Hsave.
  unfold main_run.
  unfold bind at 1. rewrite get_env_default.
  unfold bind at 1. rewrite get_env_default.
  unfold bind at 1. rewrite (get_env_set _ _ _ _ Hurl).
  unfold bind at 1. rewrite get_env_default.
  unfold bind at 1. rewrite get_env_default.
  unfold bind at 1. rewrite get_env_default.
  unfold bind at 1. rewrite (get_env_int _ _ _ _ Hst).
  unfold bind at 1. rewrite (get_env_int _ _ _ _ Hnp).
  unfold bind at 1. rewrite (get_env_int _ _ _ _ Hns).
  unfold bind at 1. rewrite (get_env_int _ _ _ _ Hnc).
  unfold bind at 1. rewrite (getenv_int _ _ _ _ Hpc).
  unfold bind at 1. rewrite (getenv_int _ _ _ _ Hoc).
  unfold bind at 1. unfold getenv at 1.
  unfold bind at 1. unfold getenv at 1.
  unfold bind at 1. rewrite Hid.
  unfold bind at 1. unfold getenv at 1. cbn [world].
  unfold bind at 1. fold org_name. rewrite Hsave. reflexivity.
Qed.

(** The results ConfigMap cannot be read: 403. *)
Definition sim_forbidden : Sim :=
  sim_with_cm_read (fun _ _ => inl (ApiException 403 None)) sim_default.

Lemma main_run_init_checkpoint_aborts_witness :
  main_run (P := sim_platform sim_forbidden) 500 "milo-system" sim_start
  = (Raise (ApiException 403 None),
     mkState [] {| sw_clock := 1000; sw_calls := 2 |}
       [EvCall "load_incluster_config" None;
        EvCall "read configmaps/perf-results" (Some (ApiException 403 None))]).
Proof.
  apply (main_run_init_checkpoint_aborts SimWorld (sim_platform sim_forbidden) sim_pylib 500
           "milo-system" sim_start _ "http://vm:8428/" "0a1b2c3d" 0 2 1 0 4 8
           {| sw_clock := 1000; sw_calls := 0 |} (ApiException 403 None));
    reflexivity.
Defined.

(** X9: the two steps that persist the results at the end of a run never
    fail it: writing the result files and saving the results ConfigMap each
    return normally from any state, whatever the file system and the API
    server answer (a failure is logged and dropped). *)
Theorem results_persistence_never_fails
    (W : Type) (P : Platform W) (L : PyLib)
    (out_dir target_ns test_id org_name : string) (results : pyval) (report_html : string)
    (s : State W) :
  (exists s', write_results out_dir test_id org_name results report_html s = (Ok tt, s'))
  /\ (exists s', publish_results target_ns test_id org_name results report_html s = (Ok tt, s')).
Proof.
  assert (Hsave : forall ns name data, settles (save_results_configmap (W := W) ns name data)).
  { intros. unfold save_results_configmap, load_default_config.
    apply settles_bind; [apply settles_try_except; auto with settle|]. intros _.
    apply settles_try_except; [auto with settle|].
    intros [st b| | | | | | | | |]; auto with settle. }
  split.
  - assert (H : returns (write_results out_dir test_id org_name results report_html)).
    { unfold write_results. apply returns_try_except; auto 10 with settle. }
    destruct (H s) as ([] & s' & E). eauto.
  - assert (H : returns (publish_results target_ns test_id org_name results report_html)).
    { unfold publish_results. apply returns_try_except; auto 10 with settle. }
    destruct (H s) as ([] & s' & E). eauto.
Qed.

(** ** Decoding the answer of a metrics query *)

Lemma py_index_0 x xs : py_index (PList (x :: xs)) 0 = inr x.
Proof.
  unfold py_index. change (0 <? 0) with false. cbv iota.
  assert (H : (0 <? Z.of_nat (length (x :: xs))) = true) by (apply Z.ltb_lt; simpl; lia).
  rewrite H. reflexivity.
Qed.

Lemma py_index_1 x y xs : py_index (PList (x :: y :: xs)) 1 = inr y.
Proof.
  unfold py_index. change (1 <? 0) with false. cbv iota.
  assert (H : (1 <? Z.of_nat (length (x :: y :: xs))) = true) by (apply Z.ltb_lt; simpl; lia).
  rewrite H. reflexivity.
Qed.

Lemma rstrip_slash_snoc s : rstrip_slash (s +:+ "/") = rstrip_slash s.
Proof.
  induction s as [|c s IH]; [reflexivity|]. simpl. now rewrite IH.
Qed.

Lemma rstrip_slash_idem s : rstrip_slash (rstrip_slash s) = rstrip_slash s.
Proof.
  induction s as [|c s IH]; [reflexivity|]. cbn [rstrip_slash].
  destruct (Ascii.eqb c "/" && String.eqb (rstrip_slash s) EmptyString) eqn:E; [reflexivity|].
  cbn [rstrip_slash]. now rewrite IH, E.
Qed.

Section PromQuery.
Context {W : Type} {P : Platform W} {L : PyLib}.

Lemma log_if_spec context line (s : State W) :
  exists lines,
    log_if context line s = (Ok tt, mkState (heap s) (world s) (trace s ++ map EvLog lines)).
Proof.
  destruct context as [[|c cs]|].
  - exists []. simpl. rewrite app_nil_r. now destruct s.
  - eexists [_]. reflexivity.
  - exists []. simpl. rewrite app_nil_r. now destruct s.
Qed.

Lemma http_get_json_first_ok url query (s : State W) data w' :
  requests_get_json url query (world s) = (inr data, w') ->
  http_get_json url query s
  = (Ok data, mkState (heap s) w' (trace s ++ [EvCall "requests.get" None])).
Proof.
  intros E. unfold http_get_json. cbn [http_get_json_loop].
  apply try_except_ok. now apply invoke_ok.
Qed.

End PromQuery.

(** X11: when the first request of a metrics query is answered, [prom_query]
    makes no other request and never sleeps, whatever the answer holds.  An
    answer whose status is not "success" raises [RuntimeError] naming the
    answer; a successful answer with an empty or missing result list gives
    0.0; otherwise the value is the float read at index 1 of the "value" of
    the first series, and the other series are ignored. *)
Theorem prom_query_decodes_answer
    (W : Type) (P : Platform W) (L : PyLib)
    (base_url query : string) (context : option string) (s : State W) (data : pyval) (w' : W) :
  requests_get_json (rstrip_slash base_url +:+ "/api/v1/query") query (world s) = (inr data, w') ->
  let after lines :=
    mkState (heap s) w' (trace s ++ [EvCall "requests.get" None] ++ map EvLog lines) in
  (forall st,
      py_get data "status" PNone = inr st ->
      py_eq_str st "success" = false ->
      exists lines,
        prom_query base_url query context s
        = (Raise (RuntimeError ("Prom query failed: " +:+ py_str data)), after lines))
  /\ (forall d result,
        py_get data "status" PNone = inr (PStr "success") ->
        py_get data "data" (PDict []) = inr d ->
        py_get d "result" (PList []) = inr result ->
        (truthy result = false ->
         exists lines, prom_query base_url query context s = (Ok 0%float, after lines))
        /\ (forall r0 rest t v1 more f,
              result = PList (r0 :: rest) ->
              py_getitem r0 "value" = inr (PList (t :: v1 :: more)) ->
              py_float v1 = inr f ->
              exists lines, prom_query base_url query context s = (Ok f, after lines))).
Proof.
  intros E after.
  assert (Hlines : forall l1 l2, after (l1 ++ l2)%list
            = mkState (heap (after l1)) (world (after l1)) (trace (after l1) ++ map EvLog l2)).
  { intros l1 l2. unfold after. cbn [heap world trace].
    now rewrite map_app, <- !app_assoc. }
  assert (Hhead : exists l0 (k : Py W float),
            prom_query base_url query context s = k (after l0)
            /\ k = (st <- lift (py_get data "status" PNone) ;;
                    if negb (py_eq_str st "success")
                    then raise (RuntimeError ("Prom query failed: " +:+ py_str data))
                    else
                      d <- lift (py_get data "data" (PDict [])) ;;
                      result <- lift (py_get d "result" (PList [])) ;;
                      if negb (truthy result) then
                        log_if context (fun c => "[metrics] " +:+ c +:+ " returned empty result") ;;;
                        ret 0%float
                      else
                        r0 <- lift (py_index result 0) ;;
                        v <- lift (py_getitem r0 "value") ;;
                        v1 <- lift (py_index v 1) ;;
                        value <- lift (py_float v1) ;;
                        log_if context (fun c => "[metrics] " +:+ c +:+ " value=" +:+ float_repr value) ;;;
                        ret value)).
  { unfold prom_query. unfold bind at 1. unfold now at 1.
    unfold bind at 1. rewrite (http_get_json_first_ok _ _ _ _ _ E).
    unfold bind at 1. unfold now at 1.
    match goal with |- context [bind (log_if ?c ?l) _ ?st] =>
      destruct (log_if_spec c l st) as [l0 H0] end.
    exists l0. eexists. split; [|reflexivity].
    unfold bind at 1. rewrite H0. unfold after. cbn [heap world trace].
    now rewrite <- app_assoc. }
  destruct Hhead as (l0 & k & Hrun & ->).
  split.
  - intros st Hst Hne. exists l0. rewrite Hrun.
    unfold bind at 1. rewrite Hst. cbn [lift]. now rewrite Hne.
  - intros d result Hst Hd Hres. split.
    + intros Hempty.
      destruct (log_if_spec context (fun c => "[metrics] " +:+ c +:+ " returned empty result")
                  (after l0)) as [l1 H1].
      exists (l0 ++ l1)%list. rewrite Hrun, Hlines.
      unfold bind at 1. rewrite Hst. cbn [lift].
      change (negb (py_eq_str (PStr "success") "success")) with false. cbv iota.
      unfold bind at 1. rewrite Hd. cbn [lift].
      unfold bind at 1. rewrite Hres. cbn [lift]. rewrite Hempty. cbn [negb].
      unfold bind at 1. rewrite H1. reflexivity.
    + intros r0 rest t v1 more f -> Hv Hf.
      destruct (log_if_spec context (fun c => "[metrics] " +:+ c +:+ " value=" +:+ float_repr f)
                  (after l0)) as [l1 H1].
      exists (l0 ++ l1)%list. rewrite Hrun, Hlines.
      unfold bind at 1. rewrite Hst. cbn [lift].
      change (negb (py_eq_str (PStr "success") "success")) with false. cbv iota.
      unfold bind at 1. rewrite Hd. cbn [lift].
      unfold bind at 1. rewrite Hres. cbn [lift truthy negb].
      unfold bind at 1. rewrite py_index_0. cbn [lift].
      unfold bind at 1. rewrite Hv. cbn [lift].
      unfold bind at 1. rewrite py_index_1. cbn [lift].
      unfold bind at 1. rewrite Hf. cbn [lift].
      unfold bind at 1. rewrite H1. reflexivity.
Qed.

(** The backend answers every query with an error status; it answers every
    query with two series, the first of value 2. *)
Definition sim_backend_error : Sim :=
  sim_with_request
    (fun _ _ _ => inr (PDict [("status", PStr "error"); ("error", PStr "bad query")]))
    sim_default.

Definition sim_two_series : Sim :=
  sim_with_request
    (fun _ _ _ =>
       inr (PDict [("status", PStr "success");
                   ("data", PDict [("result",
                      PList [PDict [("metric", PDict []);
                                    ("value", PList [PInt 1700000000; PStr "2"])];
                             PDict [("metric", PDict []);
                                    ("value", PList [PInt 1700000000; PStr "1"])]])])]))
    sim_default.

Lemma prom_query_decodes_answer_witness :
  (exists lines,
      prom_query (P := sim_platform sim_backend_error) "http://vm:8428/" "up" None sim_start
      = (Raise (RuntimeError ("Prom query failed: "
                              +:+ py_str (PDict [("status", PStr "error");
                                                 ("error", PStr "bad query")]))),
         mkState [] {| sw_clock := 1000; sw_calls := 1 |}
           ([] ++ [EvCall "requests.get" None] ++ map EvLog lines)))
  /\ (exists lines,
        prom_query (P := sim_platform sim_default) "http://vm:8428/" "up" None sim_start
        = (Ok 0%float,
           mkState [] {| sw_clock := 1000; sw_calls := 1 |}
             ([] ++ [EvCall "requests.get" None] ++ map EvLog lines)))
  /\ (exists lines,
        prom_query (P := sim_platform sim_two_series) "http://vm:8428/" "up" None sim_start
        = (Ok 2%float,
           mkState [] {| sw_clock := 1000; sw_calls := 1 |}
             ([] ++ [EvCall "requests.get" None] ++ map EvLog lines))).
Proof.
  split; [|split].
  - apply (proj1 (prom_query_decodes_answer SimWorld (sim_platform sim_backend_error) sim_pylib
                    "http://vm:8428/" "up" None sim_start _ _ eq_refl) (PStr "error"));
      reflexivity.
  - apply (proj1 (proj2 (prom_query_decodes_answer SimWorld (sim_platform sim_default) sim_pylib
                           "http://vm:8428/" "up" None sim_start _ _ eq_refl)
                    (PDict [("result", PList [])]) (PList []) eq_refl eq_refl eq_refl)).
    reflexivity.
  - apply (proj2 (proj2 (prom_query_decodes_answer SimWorld (sim_platform sim_two_series) sim_pylib
                           "http://vm:8428/" "up" None sim_start _ _ eq_refl)
                    _ _ eq_refl eq_refl eq_refl)
             _ _ (PInt 1700000000) (PStr "2") [] 2%float eq_refl eq_refl eq_refl).
Defined.

(** The text of the error for an answer that holds an apostrophe: the
    library shows that string in double quotes. *)
Example prom_query_error_text :
  py_str (L := sim_pylib) (PDict [("status", PStr "error"); ("error", PStr "can't parse")])
  = "{'status': 'error', 'error': " +:+ dq +:+ "can't parse" +:+ dq +:+ "}".
Proof. reflexivity. Qed.

(** X12: trailing slashes of the metrics base URL do not matter: a base URL
    and the same URL with one more slash, or stripped of its slashes, give
    the same query, request for request. *)
Theorem prom_query_trailing_slash
    (W : Type) (P : Platform W) (L : PyLib)
    (base_url query : string) (context : option string) (s : State W) :
  prom_query (base_url +:+ "/") query context s = prom_query base_url query context s
  /\ prom_query (rstrip_slash base_url) query context s = prom_query base_url query context s.
Proof.
  unfold prom_query. now rewrite rstrip_slash_snoc, rstrip_slash_idem.
Qed.

(** ** Finding a condition *)

Lemma find_condition_loop_skip ctype pre cs :
  Forall (fun c => is_dict c = true /\ has_type ctype c = false) pre ->
  find_condition_loop (pre ++ cs) ctype = find_condition_loop cs ctype.
Proof.
  induction 1 as [|c pre [Hd Ht] _ IH]; [reflexivity|].
  destruct c; try discriminate Hd. simpl in *.
  destruct (dict_get "type" kvs) as [t|]; [rewrite Ht|]; exact IH.
Qed.

(** X14: [find_condition] returns the first condition of the wanted type:
    after any number of dict conditions of other types it returns the next
    condition if that one has the type, whatever follows; it returns [None]
    when the list holds only conditions of other types; and an element that
    is not a dict, met before any match, raises [AttributeError]. *)
Theorem find_condition_first (ctype : string) (pre : list pyval) :
  Forall (fun c => is_dict c = true /\ has_type ctype c = false) pre ->
  (forall c post,
      has_type ctype c = true ->
      find_condition (PList (pre ++ c :: post)) ctype = inr c)
  /\ find_condition (PList pre) ctype = inr PNone
  /\ (forall x post,
        is_dict x = false ->
        find_condition (PList (pre ++ x :: post)) ctype = inl AttributeError).
Proof.
  intros Hpre.
  assert (Hne : forall x post, find_condition (PList (pre ++ x :: post)) ctype
                               = find_condition_loop (x :: post) ctype).
  { intros x post. unfold find_condition.
    replace (truthy (PList (pre ++ x :: post))) with true by now destruct pre.
    cbn [negb py_iter]. now apply find_condition_loop_skip. }
  split; [|split].
  - intros c post Hc. rewrite Hne. destruct c; try discriminate Hc. simpl in *.
    destruct (dict_get "type" kvs); [|discriminate Hc]. now rewrite Hc.
  - unfold find_condition. destruct pre as [|c pre']; [reflexivity|].
    cbn [truthy negb py_iter].
    rewrite <- (app_nil_r (c :: pre')). now rewrite find_condition_loop_skip.
  - intros x post Hx. rewrite Hne. now destruct x.
Qed.

Lemma find_condition_first_witness :
  let scheduled := PDict [("type", PStr "Scheduled"); ("status", PStr "True")] in
  (forall c post,
      has_type "Ready" c = true ->
      find_condition (PList ([scheduled] ++ c :: post)) "Ready" = inr c)
  /\ find_condition (PList [scheduled]) "Ready" = inr PNone
  /\ (forall x post,
        is_dict x = false ->
        find_condition (PList ([scheduled] ++ x :: post)) "Ready" = inl AttributeError).
Proof.
  intros scheduled. apply (find_condition_first "Ready" [scheduled]).
  repeat constructor.
Defined.

(** ** Creating the objects of a project *)

Section Objects.
Context {W : Type} {P : Platform W} {L : PyLib}.

Lemma iterator_failure_ok (results : list (nat * Res unit)) (indices : list nat) :
  Forall (fun r => snd r = Ok tt) results -> iterator_failure results indices = None.
Proof.
  intros Hok. induction indices as [|i indices IH]; [reflexivity|]. cbn [iterator_failure].
  destruct (task_result i results) as [r|] eqn:E; [|reflexivity].
  assert (Hr : r = Ok tt).
  { clear IH. induction Hok as [|[j r'] rs Hj _ IHr]; [discriminate E|].
    cbn [task_result] in E. destruct (i =? j)%nat; [|now apply IHr].
    inversion E; subst. exact Hj. }
  subst r. exact IH.
Qed.

(** Tasks that return after one call each: the pool runs them all, in the
    order its scheduler picks. *)
Lemma pool_run_calls {A : Type} (task : A -> Py W unit) (op : A -> string)
    (workers : nat) (indices : list nat) :
  (0 < workers)%nat ->
  (forall x s, exists err s',
      task x s = (Ok tt, s') /\ trace s' = (trace s ++ [EvCall (op x) err])%list) ->
  forall fuel pending results s,
    (length pending <= fuel)%nat ->
    Forall (fun r => snd r = Ok tt) results ->
    exists s' results' order,
      pool_run fuel workers task indices pending results s = (Ok results', s')
      /\ Forall (fun r => snd r = Ok tt) results'
      /\ order ≡ₚ map snd pending
      /\ map fst (calls_of (trace s')) = (map fst (calls_of (trace s)) ++ map op order)%list
      /\ sleeps_of (trace s') = sleeps_of (trace s).
Proof.
  intros Hw Htask. induction fuel as [|fuel IH]; intros pending results s Hlen Hok.
  - destruct pending; [|simpl in Hlen; lia].
    exists s, results, []. cbn. rewrite app_nil_r. auto.
  - cbn [pool_run]. rewrite (iterator_failure_ok results indices Hok).
    destruct pending as [|[i0 x0] pending'] eqn:Hp.
    { exists s, results, []. cbn. rewrite app_nil_r.
      destruct (take workers []); cbn; auto. }
    rewrite <- Hp in *.
    set (k := (pool_next (length (take workers pending)) (world s)
               mod length (take workers pending))%nat).
    assert (Hk : (k < length pending)%nat).
    { assert (Hpos : (0 < length (take workers pending))%nat).
      { rewrite length_take, Hp. cbn [length]. lia. }
      pose proof (Nat.mod_upper_bound (pool_next (length (take workers pending)) (world s))
                    (length (take workers pending)) ltac:(lia)) as Hm.
      rewrite length_take in Hm, Hpos. unfold k. rewrite length_take. lia. }
    destruct (lookup_lt_is_Some_2 pending k Hk) as [[i x] Hix]. rewrite Hix.
    destruct (Htask x s) as (err & s1 & E1 & T1). rewrite E1.
    destruct (IH (delete k pending) (results ++ [(i, Ok tt)])%list s1)
      as (s' & results' & order & E & Hok' & Hperm & Hc & Hs).
    { rewrite length_delete by eauto. lia. }
    { apply Forall_app. split; [exact Hok|]. now constructor. }
    exists s', results', (x :: order). split; [exact E|]. split; [exact Hok'|].
    split; [|split].
    + rewrite Hperm. change (x :: map snd (delete k pending))
        with (map snd ((i, x) :: delete k pending)).
      apply Permutation_map. symmetry. now apply delete_Permutation.
    + rewrite Hc, T1, calls_of_app, map_app. cbn. now rewrite <- app_assoc.
    + rewrite Hs, T1, sleeps_of_app. cbn. now rewrite app_nil_r.
Qed.

Lemma pool_map_calls {A : Type} (task : A -> Py W unit) (op : A -> string)
    (max_workers : Z) (items : list A) (s : State W) :
  0 < max_workers ->
  (forall x s, exists err s',
      task x s = (Ok tt, s') /\ trace s' = (trace s ++ [EvCall (op x) err])%list) ->
  exists s' order,
    pool_map max_workers task items s = (Ok tt, s')
    /\ order ≡ₚ items
    /\ map fst (calls_of (trace s')) = (map fst (calls_of (trace s)) ++ map op order)%list
    /\ sleeps_of (trace s') = sleeps_of (trace s).
Proof.
  intros Hw Htask. unfold pool_map.
  destruct (max_workers <=? 0) eqn:Hle; [apply Z.leb_le in Hle; lia|].
  destruct (pool_run_calls task op (Z.to_nat max_workers) (seq 0 (length items))
              ltac:(lia) Htask (length items) (zip (seq 0 (length items)) items) [] s)
    as (s' & results & order & E & Hok & Hperm & Hc & Hs).
  { rewrite length_zip_with, length_seq. lia. }
  { constructor. }
  exists s', order. unfold bind. rewrite E.
  rewrite (iterator_failure_ok results _ Hok). split; [reflexivity|].
  split; [|split; assumption].
  rewrite Hperm. rewrite snd_zip; [reflexivity|]. rewrite length_seq. lia.
Qed.

Lemma create_secret_conflict v1 pname labels i (s : State W) :
  (forall body, conflict_or_ok (create_namespaced_secret v1 "default" body)) ->
  exists err s',
    create_secret v1 pname labels i s = (Ok tt, s')
    /\ trace s' = (trace s ++ [EvCall ("create secrets/perf-secret-" +:+ zfill3 i) err])%list.
Proof.
  intros H. unfold create_secret. unfold try_except, invoke.
  match goal with |- context [create_namespaced_secret v1 "default" ?b (world s)] =>
    destruct (H b (world s)) as [(a & w' & ->)|(b' & w' & ->)] end.
  - destruct a. eauto.
  - simpl. eauto.
Qed.

Lemma create_configmap_conflict v1 pname labels i (s : State W) :
  (forall body, conflict_or_ok (create_namespaced_config_map v1 "default" body)) ->
  exists err s',
    create_configmap v1 pname labels i s = (Ok tt, s')
    /\ trace s' = (trace s ++ [EvCall ("create configmaps/perf-configmap-" +:+ zfill3 i) err])%list.
Proof.
  intros H. unfold create_configmap. unfold try_except, invoke.
  match goal with |- context [create_namespaced_config_map v1 "default" ?b (world s)] =>
    destruct (H b (world s)) as [(a & w' & ->)|(b' & w' & ->)] end.
  - destruct a. eauto.
  - simpl. eauto.
Qed.

End Objects.

(** X17: objects that exist already do not stop the object phase of a
    project.  With a pool of at least one worker, when each Secret create
    answers or fails with 409, the pool returns normally after one create
    call for each of the Secrets 1..n, named perf-secret-001 onwards, in the
    order the scheduler picked, and without any sleep; the same holds for the
    ConfigMaps.  With no worker the pool raises [ValueError] before any
    call. *)
Theorem create_objects_tolerate_conflicts
    (W : Type) (P : Platform W) (L : PyLib)
    (v1 : option ApiClient) (pname : string) (labels : list (string * string))
    (workers n : Z) (s : State W) :
  (0 < workers ->
   (forall body, conflict_or_ok (create_namespaced_secret v1 "default" body)) ->
   exists s' order,
     pool_map workers (create_secret v1 pname labels) (range1 n) s = (Ok tt, s')
     /\ order ≡ₚ range1 n
     /\ map fst (calls_of (trace s'))
        = (map fst (calls_of (trace s))
           ++ map (fun i => "create secrets/perf-secret-" +:+ zfill3 i) order)%list
     /\ sleeps_of (trace s') = sleeps_of (trace s))
  /\ (0 < workers ->
      (forall body, conflict_or_ok (create_namespaced_config_map v1 "default" body)) ->
      exists s' order,
        pool_map workers (create_configmap v1 pname labels) (range1 n) s = (Ok tt, s')
        /\ order ≡ₚ range1 n
        /\ map fst (calls_of (trace s'))
           = (map fst (calls_of (trace s))
              ++ map (fun i => "create configmaps/perf-configmap-" +:+ zfill3 i) order)%list
        /\ sleeps_of (trace s') = sleeps_of (trace s))
  /\ (workers <= 0 ->
      pool_map workers (create_secret v1 pname labels) (range1 n) s = (Raise ValueError, s)
      /\ pool_map workers (create_configmap v1 pname labels) (range1 n) s
         = (Raise ValueError, s)).
Proof.
  split; [|split].
  - intros Hw H. apply pool_map_calls; [exact Hw|]. intros x s0.
    now apply create_secret_conflict.
  - intros Hw H. apply pool_map_calls; [exact Hw|]. intros x s0.
    now apply create_configmap_conflict.
  - intros Hw. apply Z.leb_le in Hw. unfold pool_map. rewrite Hw. split; reflexivity.
Qed.

Lemma create_objects_tolerate_conflicts_witness :
  (exists s' order,
      pool_map (P := sim_platform sim_secrets_exist) 8
        (create_secret (P := sim_platform sim_secrets_exist) (Some sample_kubeconfig)
           "perf-org-p-001" []) (range1 3) sim_start
      = (Ok tt, s')
      /\ order ≡ₚ range1 3
      /\ map fst (calls_of (trace s'))
         = (map fst (calls_of (trace sim_start))
            ++ map (fun i => "create secrets/perf-secret-" +:+ zfill3 i) order)%list
      /\ sleeps_of (trace s') = sleeps_of (trace sim_start))
  /\ (exists s' order,
        pool_map (P := sim_platform sim_default) 8
          (create_configmap (P := sim_platform sim_default) (Some sample_kubeconfig)
             "perf-org-p-001" []) (range1 3) sim_start
        = (Ok tt, s')
        /\ order ≡ₚ range1 3
        /\ map fst (calls_of (trace s'))
           = (map fst (calls_of (trace sim_start))
              ++ map (fun i => "create configmaps/perf-configmap-" +:+ zfill3 i) order)%list
        /\ sleeps_of (trace s') = sleeps_of (trace sim_start))
  /\ pool_map (P := sim_platform sim_default) 0
       (create_secret (P := sim_platform sim_default) (Some sample_kubeconfig)
          "perf-org-p-001" []) (range1 3) sim_start
     = (Raise ValueError, sim_start).
Proof.
  split; [|split].
  - apply (proj1 (create_objects_tolerate_conflicts SimWorld (sim_platform sim_secrets_exist)
                    sim_pylib (Some sample_kubeconfig) "perf-org-p-001" [] 8 3 sim_start));
      [lia|].
    intros body w. right. eexists _, _. reflexivity.
  - apply (proj1 (proj2 (create_objects_tolerate_conflicts SimWorld (sim_platform sim_default)
                    sim_pylib (Some sample_kubeconfig) "perf-org-p-001" [] 8 3 sim_start)));
      [lia|].
    intros body w. left. eexists _, _. reflexivity.
  - apply (proj2 (proj2 (create_objects_tolerate_conflicts SimWorld (sim_platform sim_default)
                    sim_pylib (Some sample_kubeconfig) "perf-org-p-001" [] 0 3 sim_start))).
    lia.
Defined.

(** The run behind the witness: the scheduler of the simulation lets the
    third Secret overtake the second. *)
Example create_secrets_run :
  calls_of (trace (snd (pool_map (P := sim_platform sim_default) 8
                          (create_secret (P := sim_platform sim_default)
                             (Some sample_kubeconfig) "perf-org-p-001" [])
                          (range1 3) sim_start)))
  = [ ("create secrets/perf-secret-001", None);
      ("create secrets/perf-secret-003", None);
      ("create secrets/perf-secret-002", None) ].
Proof. vm_compute. reflexivity. Qed.

(** ** Cleanup Engine *)

(** X18: the Secret cleanup of a project never lets an API error through:
    whatever it raises is not an [ApiException].  When the list call fails
    with an API error nothing is deleted and the step returns normally; and
    when the delete of the first listed Secret fails with an API error other
    than 404, the step returns normally at once, leaving the remaining
    Secrets undeleted and unreported. *)
Theorem cleanup_secrets_swallows_api_errors
    (W : Type) (P : Platform W) (L : PyLib)
    (v1 : option ApiClient) (label_sel : string) (s : State W) :
  (forall e s', cleanup_secrets v1 label_sel s = (Raise e, s') -> is_api_exception e = false)
  /\ (forall e w1,
        list_namespaced_secret v1 label_sel "default" (world s) = (inl e, w1) ->
        is_api_exception e = true ->
        cleanup_secrets v1 label_sel s
        = (Ok tt, mkState (heap s) w1 (trace s ++ [EvCall "list secrets" (Some e)])))
  /\ (forall x rest w1 status body w2,
        list_namespaced_secret v1 label_sel "default" (world s) = (inr (Some (x :: rest)), w1) ->
        delete_namespaced_secret v1 (meta_name (secret_metadata x)) "default" w1
        = (inl (ApiException status body), w2) ->
        status <> 404 ->
        cleanup_secrets v1 label_sel s
        = (Ok tt, mkState (heap s) w2
                    (trace s ++ [EvCall "list secrets" None;
                                 EvCall ("delete secrets/" +:+ meta_name (secret_metadata x))
                                   (Some (ApiException status body))]))).
Proof.
  split; [|split].
  - intros e s' E. unfold cleanup_secrets in E. unfold try_except at 1 in E.
    match type of E with context [bind ?c ?k s] => destruct (bind c k s) as [[[]|e1|n|] s1] end;
      try discriminate E.
    destruct e1; try discriminate E; now inversion E.
  - intros e w1 El He. unfold cleanup_secrets. unfold try_except at 1. unfold bind at 1.
    rewrite (invoke_raise _ _ _ _ _ El). now destruct e.
  - intros x rest w1 status body w2 El Ed Hs.
    unfold cleanup_secrets. unfold try_except at 1. unfold bind at 1.
    rewrite (invoke_ok _ _ _ _ _ El). cbn [for_each]. unfold bind at 1.
    unfold try_except at 1.
    match goal with |- context [invoke ?op ?f ?st] =>
      rewrite (invoke_raise op f st _ _ Ed) end.
    apply Z.eqb_neq in Hs. rewrite Hs. cbn [negb]. unfold raise. cbn [heap trace].
    now rewrite <- app_assoc.
Qed.

Lemma cleanup_secrets_swallows_api_errors_witness :
  cleanup_secrets (P := sim_platform sim_secrets_locked) (Some sample_kubeconfig)
    (label_selector "0a1b2c3d") sim_start
  = (Ok tt, mkState [] {| sw_clock := 1000; sw_calls := 2 |}
              [EvCall "list secrets" None;
               EvCall "delete secrets/perf-secret-001" (Some (ApiException 403 None))]).
Proof.
  apply (proj2 (proj2 (cleanup_secrets_swallows_api_errors SimWorld
                         (sim_platform sim_secrets_locked) sim_pylib (Some sample_kubeconfig)
                         (label_selector "0a1b2c3d") sim_start))
           (perf_secret "perf-secret-001") [perf_secret "perf-secret-002"]
           {| sw_clock := 1000; sw_calls := 1 |} 403 None
           {| sw_clock := 1000; sw_calls := 2 |}).
  - reflexivity.
  - reflexivity.
  - discriminate.
Defined.

(** X19: in the cleanup of a listed project, no failure of the per-project
    object cleanup (building the scoped client, listing or deleting Secrets
    and ConfigMaps) prevents the delete of the Project itself.  Whenever the
    cleanup of the project ends, normally or with an exception, its last
    event is the delete call for that Project, and its outcome is that of
    this call, where a 404 or 409 counts as success. *)
Theorem cleanup_project_always_deletes
    (W : Type) (P : Platform W) (L : PyLib)
    (base_cfg : value) (org_coapi : ApiClient) (test_id : string) (item md nm : pyval)
    (s s' : State W) (r : Res unit) :
  py_getitem item "metadata" = inr md ->
  py_getitem md "name" = inr nm ->
  cleanup_project base_cfg org_coapi test_id item s = (r, s') ->
  (r = Ok tt \/ exists e, r = Raise e) ->
  exists evs err,
    trace s' = (evs ++ [EvCall ("delete projects/" +:+ py_str nm) err])%list
    /\ r = match err with
           | None => Ok tt
           | Some e => if gone e then Ok tt else Raise e
           end.
Proof.
  intros Hmd Hnm E Hr. unfold cleanup_project in E.
  unfold bind at 1 in E. rewrite Hmd in E. cbn [lift] in E.
  unfold bind at 1 in E. rewrite Hnm in E. cbn [lift] in E.
  unfold bind at 1 in E. unfold log, emit at 1 in E.
  unfold bind at 1 in E.
  match type of E with context [try_except ?c (fun _ => ret tt) ?st] =>
    destruct (try_except c (fun _ => ret tt) st) as [[[]|e|n|] s2] eqn:Ein end.
  - unfold try_except at 1 in E. unfold bind at 1 in E. unfold invoke in E.
    match type of E with context [delete_cluster_custom_object ?a ?b ?c ?d ?e ?w] =>
      destruct (delete_cluster_custom_object a b c d e w) as [[e1|v] w3] end.
    + exists (trace s2), (Some e1).
      destruct e1; try (inversion E; subst; split; reflexivity).
      unfold tolerate_gone in E. cbn [gone].
      destruct ((status =? 404) || (status =? 409)); inversion E; subst; split; reflexivity.
    + exists (trace s2), None. inversion E; subst. split; reflexivity.
  - exfalso. unfold try_except in Ein.
    match type of Ein with context [match ?c with _ => _ end] => destruct c as [[[]| | |] ?] end;
      discriminate Ein.
  - inversion E; subst. destruct Hr as [Hr|[e Hr]]; discriminate Hr.
  - inversion E; subst. destruct Hr as [Hr|[e Hr]]; discriminate Hr.
Qed.

(** The client of a project cannot be built. *)
Definition sim_no_client : Sim := {|
  sim_env := sim_env sim_default; sim_yaml := sim_yaml sim_default;
  sim_client := fun _ _ => inl (OtherException "Invalid kube-config");
  sim_incluster := sim_incluster sim_default; sim_create := sim_create sim_default;
  sim_get := sim_get sim_default; sim_list := sim_list sim_default;
  sim_delete := sim_delete sim_default; sim_cm_read := sim_cm_read sim_default;
  sim_cm_write := sim_cm_write sim_default; sim_cm_delete := sim_cm_delete sim_default;
  sim_cm_list := sim_cm_list sim_default; sim_secret_write := sim_secret_write sim_default;
  sim_secret_list := sim_secret_list sim_default; sim_request := sim_request sim_default;
  sim_file := sim_file sim_default |}.

Definition listed_project (name : string) : pyval :=
  PDict [("metadata", PDict [("name", PStr name)])].

Lemma cleanup_project_always_deletes_witness :
  let base_cfg := fst (load_doc sample_kubeconfig []) in
  let s0 := mkState (snd (load_doc sample_kubeconfig [])) (world sim_start) [] in
  let run := cleanup_project (P := sim_platform sim_no_client) base_cfg sample_kubeconfig
               "0a1b2c3d" (listed_project "perf-org-p-001") s0 in
  exists evs err,
    trace (snd run) = (evs ++ [EvCall ("delete projects/" +:+ py_str (PStr "perf-org-p-001")) err])%list
    /\ fst run = match err with
                 | None => Ok tt
                 | Some e => if gone e then Ok tt else Raise e
                 end.
Proof.
  intros base_cfg s0 run.
  apply (cleanup_project_always_deletes SimWorld (sim_platform sim_no_client) sim_pylib
           base_cfg sample_kubeconfig "0a1b2c3d" (listed_project "perf-org-p-001")
           (PDict [("name", PStr "perf-org-p-001")]) (PStr "perf-org-p-001")
           s0 (snd run) (fst run)).
  - reflexivity.
  - reflexivity.
  - apply surjective_pairing.
  - left. vm_compute. reflexivity.
Defined.

(** The run behind the witness: the scoped client cannot be built, and the
    Project is deleted all the same. *)
Example cleanup_project_run :
  let base_cfg := fst (load_doc sample_kubeconfig []) in
  let s0 := mkState (snd (load_doc sample_kubeconfig [])) (world sim_start) [] in
  let '(r, s') := cleanup_project (P := sim_platform sim_no_client) base_cfg sample_kubeconfig
                    "0a1b2c3d" (listed_project "perf-org-p-001") s0 in
  r = Ok tt
  /\ calls_of (trace s')
     = [ ("KubeConfigLoader", Some (OtherException "Invalid kube-config"));
         ("delete projects/perf-org-p-001", None) ].
Proof. vm_compute. split; reflexivity. Qed.

(** ** Metrics Collector: the fallback on a simulated backend *)

(** Series exist only under the label [pod_name]: a request whose query
    selects on it answers 2, every other request answers an empty result. *)
Definition sim_pod_name : Sim :=
  sim_with_request
    (fun _ query _ =>
       if contains "pod_name=~" query
       then inr (PDict [("status", PStr "success");
                        ("data", PDict [("result",
                           PList [PDict [("metric", PDict []);
                                         ("value", PList [PInt 1700000000; PStr "2"])]])])])
       else inr (PDict [("status", PStr "success"); ("data", PDict [("result", PList [])])]))
    sim_default.


(** A run: the third combination is the first to see a non-zero metric; its
    whole result set is returned after sixteen requests (four pre-flight
    counts, then three combinations of four queries), and the fourth
    combination is never tried. *)
Example measure_pod_name_run :
  let run := measure_metrics (P := sim_platform sim_pod_name) "http://vm:8428/"
               "milo-system" "milo-apiserver.*" "etcd.*" "2m" sim_start in
  fst run = Ok (<["apiserver_cpu_cores" := 2%float]> (<["apiserver_mem_bytes" := 2%float]>
                  (<["etcd_cpu_cores" := 2%float]> (<["etcd_mem_bytes" := 2%float]> ∅))))
  /\ length (calls_of (trace (snd run))) = 16%nat.
Proof. split; vm_compute; reflexivity. Qed.

(** ** Scoped Credential Deriver *)

Section PyvalInd.
Variable Q : pyval -> Prop.
Hypothesis HNone : Q PNone.
Hypothesis HBool : forall b, Q (PBool b).
Hypothesis HInt : forall z, Q (PInt z).
Hypothesis HFloat : forall f, Q (PFloat f).
Hypothesis HStr : forall s, Q (PStr s).
Hypothesis HList : forall xs, Forall Q xs -> Q (PList xs).
Hypothesis HDict : forall kvs, Forall (fun kv => Q (snd kv)) kvs -> Q (PDict kvs).

Fixpoint pyval_nested_ind (t : pyval) : Q t :=
  match t with
  | PNone => HNone
  | PBool b => HBool b
  | PInt z => HInt z
  | PFloat f => HFloat f
  | PStr s => HStr s
  | PList xs =>
      HList xs ((fix go (xs : list pyval) : Forall Q xs :=
                   match xs return Forall Q xs with
                   | [] => List.Forall_nil Q
                   | x :: rest => @List.Forall_cons _ Q x rest (pyval_nested_ind x) (go rest)
                   end) xs)
  | PDict kvs =>
      HDict kvs ((fix go (kvs : list (string * pyval)) : Forall (fun kv => Q (snd kv)) kvs :=
                    match kvs return Forall (fun kv => Q (snd kv)) kvs with
                    | [] => List.Forall_nil _
                    | kv :: rest =>
                        @List.Forall_cons _ (fun kv => Q (snd kv)) kv rest
                          (pyval_nested_ind (snd kv)) (go rest)
                    end) kvs)
  end.

End PyvalInd.

Lemma fresh_mono n m v : (n <= m)%nat -> fresh m v -> fresh n v.
Proof. destruct v; simpl; auto. lia. Qed.

Lemma obj_fresh_mono n m o : (n <= m)%nat -> obj_fresh m o -> obj_fresh n o.
Proof.
  intros Hle. destruct o; simpl; intros Hf; (eapply Forall_impl; [exact Hf|]);
    intros; eapply fresh_mono; eauto.
Qed.

Lemma load_doc_fresh t :
  forall h v h', load_doc t h = (v, h') ->
    exists ext, h' = (h ++ ext)%list /\ fresh (length h) v /\ Forall (obj_fresh (length h)) ext.
Proof.
  induction t using pyval_nested_ind; intros h v h' E;
    try (inversion E; subst; exists []; rewrite app_nil_r; repeat split; simpl; auto; fail).
  - (* list *)
    simpl in E.
    match type of E with context [?f xs h] => set (items := f) in * end.
    assert (Hitems : forall h vs h1, items xs h = (vs, h1) ->
              exists ext, h1 = (h ++ ext)%list /\ Forall (fresh (length h)) vs
                          /\ Forall (obj_fresh (length h)) ext).
    { clear E h v h'. induction H as [|x rest Hx Hrest IH]; intros h vs h1 E.
      - inversion E; subst. exists []. rewrite app_nil_r. auto.
      - change (items (x :: rest) h)
          with (let '(v, h1) := load_doc x h in
                let '(vs, h2) := items rest h1 in (v :: vs, h2)) in E.
        destruct (load_doc x h) as [v ha] eqn:Ex.
        destruct (items rest ha) as [vs' hb] eqn:Er.
        inversion E; subst.
        apply Hx in Ex as (e1 & -> & Hv & He1).
        apply IH in Er as (e2 & -> & Hvs & He2).
        rewrite length_app in *.
        exists (e1 ++ e2)%list. rewrite app_assoc. split; [reflexivity|]. split.
        + constructor; [exact Hv|].
          eapply Forall_impl; [exact Hvs|]. intros; eapply fresh_mono; [|eassumption]. lia.
        + apply Forall_app. split; [exact He1|].
          eapply Forall_impl; [exact He2|]. intros; eapply obj_fresh_mono; [|eassumption]. lia. }
    destruct (items xs h) as [vs h1] eqn:Ei. inversion E; subst.
    apply Hitems in Ei as (ext & -> & Hvs & Hext).
    exists (ext ++ [OList vs])%list. rewrite app_assoc. split; [reflexivity|]. split.
    + simpl. rewrite length_app. lia.
    + apply Forall_app. split; [exact Hext|]. constructor; [exact Hvs|constructor].
  - (* dict *)
    simpl in E.
    match type of E with context [?f kvs h] => set (items := f) in * end.
    assert (Hitems : forall h vs h1, items kvs h = (vs, h1) ->
              exists ext, h1 = (h ++ ext)%list /\ Forall (fun kv => fresh (length h) (snd kv)) vs
                          /\ Forall (obj_fresh (length h)) ext).
    { clear E h v h'. induction H as [|[k x] rest Hx Hrest IH]; intros h vs h1 E.
      - inversion E; subst. exists []. rewrite app_nil_r. auto.
      - change (items ((k, x) :: rest) h)
          with (let '(v, h1) := load_doc x h in
                let '(vs, h2) := items rest h1 in ((k, v) :: vs, h2)) in E.
        destruct (load_doc x h) as [v ha] eqn:Ex.
        destruct (items rest ha) as [vs' hb] eqn:Er.
        inversion E; subst.
        apply Hx in Ex as (e1 & -> & Hv & He1).
        apply IH in Er as (e2 & -> & Hvs & He2).
        rewrite length_app in *.
        exists (e1 ++ e2)%list. rewrite app_assoc. split; [reflexivity|]. split.
        + constructor; [exact Hv|].
          eapply Forall_impl; [exact Hvs|]. intros kv Hkv. cbv beta in *.
          eapply fresh_mono; [|exact Hkv]. lia.
        + apply Forall_app. split; [exact He1|].
          eapply Forall_impl; [exact He2|]. intros; eapply obj_fresh_mono; [|eassumption]. lia. }
    destruct (items kvs h) as [vs h1] eqn:Ei. inversion E; subst.
    apply Hitems in Ei as (ext & -> & Hvs & Hext).
    exists (ext ++ [ODict vs])%list. rewrite app_assoc. split; [reflexivity|]. split.
    + simpl. rewrite length_app. lia.
    + apply Forall_app. split; [exact Hext|]. constructor; [exact Hvs|constructor].
Qed.

(** The round trip through YAML makes new objects only, and they point to
    new objects only. *)
Lemma copy_values_fresh {S : Type} (Inv : S -> Prop) (f : S -> value -> option (value * S))
    (base : nat) :
  (forall st v v' st', f st v = Some (v', st') -> Inv st -> fresh base v' /\ Inv st') ->
  forall vs st vs' st',
    copy_values f st vs = Some (vs', st') -> Inv st ->
    Forall (fresh base) vs' /\ Inv st' /\ length vs' = length vs.
Proof.
  intros Hf. induction vs as [|v vs IH]; intros st vs' st' E Hst.
  - inversion E; subst. auto.
  - cbn [copy_values] in E.
    destruct (f st v) as [[v1 st1]|] eqn:E1; [|discriminate E].
    destruct (copy_values f st1 vs) as [[vs1 st2]|] eqn:E2; [|discriminate E].
    inversion E; subst.
    destruct (Hf _ _ _ _ E1 Hst) as [Hv1 Hst1].
    destruct (IH _ _ _ E2 Hst1) as (Hvs & Hst2 & Hlen).
    split; [now constructor|]. split; [exact Hst2|]. cbn [length]. now rewrite Hlen.
Qed.

Lemma memo_get_fresh base l l' memo :
  Forall (fun p => (base <= snd p)%nat) memo -> memo_get l memo = Some l' -> (base <= l')%nat.
Proof.
  induction 1 as [|[a b] memo Hp _ IH]; [discriminate|]. cbn [memo_get].
  destruct (l =? a)%nat; [|exact IH]. intros E. now inversion E; subst.
Qed.

Lemma copy_value_inv base fuel h :
  forall st v v' st',
    copy_value fuel base h st v = Some (v', st') -> copy_inv base st ->
    fresh base v' /\ copy_inv base st'.
Proof.
  induction fuel as [|fuel IH]; intros st v v' st' E [Hm Ho].
  - destruct v; try (inversion E; subst; split; [exact I|now split]).
    cbn [copy_value] in E. destruct (memo_get l (fst st)) as [l'|] eqn:El; [|discriminate E].
    inversion E; subst. split; [|now split]. eapply memo_get_fresh; eauto.
  - destruct v; try (inversion E; subst; split; [exact I|now split]).
    cbn [copy_value] in E. destruct (memo_get l (fst st)) as [l'|] eqn:El.
    { inversion E; subst. split; [|now split]. eapply memo_get_fresh; eauto. }
    destruct (h !! l) as [[vs|kvs]|]; [| |discriminate E].
    + destruct (copy_values (copy_value fuel base h) st vs) as [[vs' [memo out]]|] eqn:Ev;
        [|discriminate E].
      inversion E; subst.
      destruct (copy_values_fresh (copy_inv base) _ base (IH) _ _ _ _ Ev (conj Hm Ho))
        as (Hvs & [Hm' Ho'] & _).
      split; [cbn [fresh]; lia|]. split; cbn [fst snd].
      * constructor; [cbn [snd]; lia|exact Hm'].
      * apply Forall_app. split; [exact Ho'|]. constructor; [exact Hvs|constructor].
    + destruct (copy_values (copy_value fuel base h) st (map snd (sort_items kvs)))
        as [[vs' [memo out]]|] eqn:Ev; [|discriminate E].
      inversion E; subst.
      destruct (copy_values_fresh (copy_inv base) _ base (IH) _ _ _ _ Ev (conj Hm Ho))
        as (Hvs & [Hm' Ho'] & _).
      split; [cbn [fresh]; lia|]. split; cbn [fst snd].
      * constructor; [cbn [snd]; lia|exact Hm'].
      * apply Forall_app. split; [exact Ho'|]. constructor; [|constructor].
        cbn [obj_fresh]. clear -Hvs. revert vs' Hvs.
        induction (map fst (sort_items kvs)) as [|k ks IHk]; intros vs' Hvs; [constructor|].
        destruct vs' as [|v vs']; [constructor|]. inversion Hvs; subst.
        cbn [zip zip_with]. constructor; [exact H1|now apply IHk].
Qed.

Lemma copy_value_fresh base fuel h st v v' st' :
  copy_value fuel base h st v = Some (v', st') ->
  Forall (fun p => (base <= snd p)%nat) (fst st) -> Forall (obj_fresh base) (snd st) ->
  fresh base v' /\ Forall (fun p => (base <= snd p)%nat) (fst st')
  /\ Forall (obj_fresh base) (snd st') /\ True.
Proof.
  intros E Hm Ho. destruct (copy_value_inv base fuel h st v v' st' E (conj Hm Ho))
    as (Hv & Hm' & Ho'). auto.
Qed.

Section Keeps.
Context {W : Type}.
Implicit Types (s : State W) (n : nat).

Lemma keeps_weaken {A} n (ok ok' : A -> Prop) (c : Py W A) :
  (forall a, ok a -> ok' a) -> keeps n ok c -> keeps n ok' c.
Proof.
  intros Himp Hc s r s' Hn Hcl E.
  destruct (Hc s r s' Hn Hcl E) as (? & ? & ? & ? & ? & Hok). repeat split; auto.
Qed.

Lemma keeps_ret {A} n (ok : A -> Prop) a : ok a -> keeps n ok (ret (W := W) a).
Proof.
  intros Ha s r s' Hn Hcl E. inversion E; subst. repeat split; auto.
  intros a' Heq. now inversion Heq; subst.
Qed.

Lemma keeps_raise {A} n (ok : A -> Prop) e : keeps n ok (raise (W := W) e).
Proof.
  intros s r s' Hn Hcl E. inversion E; subst. repeat split; auto. discriminate.
Qed.

Lemma keeps_bind {A B} n (okA : A -> Prop) (okB : B -> Prop) (c : Py W A) (k : A -> Py W B) :
  keeps n okA c -> (forall a, okA a -> keeps n okB (k a)) -> keeps n okB (bind c k).
Proof.
  intros Hc Hk s r s' Hn Hcl E. unfold bind in E.
  destruct (c s) as [[a|e|code|] s1] eqn:Ec;
    destruct (Hc s _ s1 Hn Hcl Ec) as (Ht & Hn1 & Hcl1 & Hw & Htr & Hok).
  - destruct (Hk a (Hok a eq_refl) s1 r s' Hn1 Hcl1 E) as (Ht2 & Hn2 & Hcl2 & Hw2 & Htr2 & Hok2).
    repeat split; try congruence; auto.
  - inversion E; subst. repeat split; auto. discriminate.
  - inversion E; subst. repeat split; auto. discriminate.
  - inversion E; subst. repeat split; auto. discriminate.
Qed.

Lemma keeps_if {A} n (ok : A -> Prop) (b : bool) (c1 c2 : Py W A) :
  keeps n ok c1 -> keeps n ok c2 -> keeps n ok (if b then c1 else c2).
Proof. now destruct b. Qed.

Lemma keeps_alloc n o : obj_fresh n o -> keeps n (fresh n) (alloc (W := W) o).
Proof.
  intros Ho s r s' Hn Hcl E. unfold alloc in E. inversion E; subst. cbn [heap world trace].
  split; [now rewrite take_app_le|]. split; [rewrite length_app; lia|].
  split; [|split; [reflexivity|split; [reflexivity|]]].
  - intros l o' Hl Hlook. apply lookup_app_Some in Hlook as [Hlook|[_ Hlook]].
    + eapply Hcl; eauto.
    + apply list_lookup_singleton_Some in Hlook as [_ <-]. exact Ho.
  - intros a Ha. inversion Ha; subst. simpl. exact Hn.
Qed.

Lemma keeps_deref n v :
  fresh n v ->
  keeps n (fun o => match o with Some x => obj_fresh n x | None => True end) (deref (W := W) v).
Proof.
  intros Hv s r s' Hn Hcl E. unfold deref in E. inversion E; subst.
  repeat split; auto. intros a Ha. inversion Ha; subst.
  destruct v as [| | | | |l]; try exact I.
  destruct (heap s' !! l) as [o|] eqn:El; [|exact I]. exact (Hcl l o Hv El).
Qed.

Lemma keeps_store n v o :
  fresh n v -> obj_fresh n o -> keeps n (fun _ => True) (store (W := W) v o).
Proof.
  intros Hv Ho s r s' Hn Hcl E. unfold store in E.
  destruct v; inversion E; subst; try (repeat split; auto; fail).
  cbn [heap world trace]. simpl in Hv.
  split; [now apply take_insert_ge|]. split; [now rewrite length_insert|].
  split; [|auto].
  intros l' o' Hl Hlook. apply list_lookup_insert_Some in Hlook as [(-> & <- & _)|[_ Hlook]].
  - exact Ho.
  - eapply Hcl; eauto.
Qed.

Lemma dict_get_fresh n k kvs x :
  Forall (fun kv => fresh n (snd kv)) kvs -> dict_get k kvs = Some x -> fresh n x.
Proof.
  induction 1 as [|[k' v'] kvs Hv _ IH]; simpl; [discriminate|].
  destruct (String.eqb k k'); [now intros [= <-]|exact IH].
Qed.

Lemma dict_set_fresh n k x kvs :
  fresh n x -> Forall (fun kv => fresh n (snd kv)) kvs ->
  Forall (fun kv => fresh n (snd kv)) (dict_set k x kvs).
Proof.
  intros Hx. induction 1 as [|[k' v'] kvs Hv Hkvs IH]; simpl.
  - constructor; [exact Hx|constructor].
  - destruct (String.eqb k k'); constructor; auto.
Qed.

Lemma keeps_h_get n v k d : fresh n v -> fresh n d -> keeps n (fresh n) (h_get (W := W) v k d).
Proof.
  intros Hv Hd. unfold h_get. eapply keeps_bind; [now apply keeps_deref|].
  intros [[vs|kvs]|] Ho; try apply keeps_raise.
  apply keeps_ret. destruct (dict_get k kvs) eqn:E; [|exact Hd].
  eapply dict_get_fresh; eauto.
Qed.

Lemma keeps_h_getitem n v k : fresh n v -> keeps n (fresh n) (h_getitem (W := W) v k).
Proof.
  intros Hv. unfold h_getitem. eapply keeps_bind; [now apply keeps_deref|].
  intros [[vs|kvs]|] Ho; try apply keeps_raise.
  destruct (dict_get k kvs) eqn:E; [|apply keeps_raise].
  apply keeps_ret. eapply dict_get_fresh; eauto.
Qed.

Lemma keeps_h_iter n v : fresh n v -> keeps n (Forall (fresh n)) (h_iter (W := W) v).
Proof.
  intros Hv. unfold h_iter. eapply keeps_bind; [now apply keeps_deref|].
  intros [[vs|kvs]|] Ho.
  - now apply keeps_ret.
  - apply keeps_ret. simpl in Ho. induction Ho; simpl; constructor; simpl; auto.
  - destruct v; try apply keeps_raise. apply keeps_ret.
    induction (string_chars s) as [|c cs IH]; simpl; constructor; auto.
    now destruct c.
Qed.

Lemma keeps_h_truthy n v : fresh n v -> keeps n (fun _ => True) (h_truthy (W := W) v).
Proof.
  intros Hv. unfold h_truthy. eapply keeps_bind; [now apply keeps_deref|].
  intros o _. now apply keeps_ret.
Qed.

Lemma keeps_h_rstrip n v : keeps n (fun _ => True) (h_rstrip (W := W) v).
Proof. unfold h_rstrip. destruct v; try apply keeps_raise. now apply keeps_ret. Qed.

Lemma keeps_h_setitem n v k x :
  fresh n v -> fresh n x -> keeps n (fun _ => True) (h_setitem (W := W) v k x).
Proof.
  intros Hv Hx. unfold h_setitem. eapply keeps_bind; [now apply keeps_deref|].
  intros [[vs|kvs]|] Ho; try apply keeps_raise.
  apply keeps_store; [exact Hv|]. simpl. now apply dict_set_fresh.
Qed.

Lemma keeps_for_each {A} n (okx : A -> Prop) (xs : list A) (body : A -> Py W unit) :
  Forall okx xs -> (forall x, okx x -> keeps n (fun _ => True) (body x)) ->
  keeps n (fun _ => True) (for_each xs body).
Proof.
  intros Hxs Hbody. induction Hxs as [|x xs Hx _ IH]; simpl.
  - now apply keeps_ret.
  - eapply keeps_bind; [apply Hbody, Hx|]. intros _ _. exact IH.
Qed.

Lemma keeps_yaml_safe_load n doc : keeps n (fresh n) (yaml_safe_load (W := W) doc).
Proof.
  intros s r s' Hn Hcl E. unfold yaml_safe_load in E.
  destruct (load_doc doc (heap s)) as [v h'] eqn:El. inversion E; subst. cbn [heap world trace].
  apply load_doc_fresh in El as (ext & -> & Hv & Hext).
  split; [now rewrite take_app_le|]. split; [rewrite length_app; lia|].
  split; [|split; [reflexivity|split; [reflexivity|]]].
  - intros l o Hl Hlook. apply lookup_app_Some in Hlook as [Hlook|[_ Hlook]].
    + eapply Hcl; eauto.
    + eapply obj_fresh_mono; [exact Hn|].
      eapply Forall_lookup_1 in Hext; eauto.
  - intros a Ha. inversion Ha; subst. eapply fresh_mono; eauto.
Qed.

Lemma keeps_snapshot n v : keeps n (fun _ => True) (snapshot (W := W) v).
Proof.
  intros s r s' Hn Hcl E. unfold snapshot in E.
  destruct (dump_value _ _ _); inversion E; subst; repeat split; auto.
Qed.

Lemma keeps_yaml_round_trip n v : keeps n (fresh n) (yaml_round_trip (W := W) v).
Proof.
  intros s r s' Hn Hcl E. unfold yaml_round_trip in E.
  destruct (copy_value (S (length (heap s))) (length (heap s)) (heap s) ([], []) v)
    as [[v' [memo out]]|] eqn:Ec.
  - inversion E; subst. cbn [heap world trace].
    destruct (copy_value_fresh (length (heap s)) (S (length (heap s))) (heap s) ([], []) v
                v' (memo, out) Ec) as (Hv & _ & Hout & _); [constructor|constructor|].
    cbn [snd] in Hout.
    split; [now rewrite take_app_le|]. split; [rewrite length_app; lia|].
    split; [|split; [reflexivity|split; [reflexivity|]]].
    + intros l o Hl Hlook. apply lookup_app_Some in Hlook as [Hlook|[_ Hlook]].
      * eapply Hcl; eauto.
      * eapply obj_fresh_mono; [exact Hn|].
        eapply Forall_lookup_1 in Hout; eauto.
    + intros a Ha. inversion Ha; subst. eapply fresh_mono; eauto.
  - inversion E; subst. repeat split; auto. intros a Ha. discriminate Ha.
Qed.

Lemma keeps_build_scoped_kubeconfig n base_cfg scope_path new_name :
  keeps n (fresh n) (build_scoped_kubeconfig (W := W) base_cfg scope_path new_name).
Proof.
  unfold build_scoped_kubeconfig.
  eapply keeps_bind; [apply keeps_yaml_round_trip|]. intros cfg Hcfg.
  eapply keeps_bind; [apply keeps_alloc; constructor|]. intros empty Hempty.
  eapply keeps_bind; [now apply keeps_h_get|]. intros clusters Hclusters.
  eapply keeps_bind; [now apply keeps_h_iter|]. intros cs Hcs.
  eapply keeps_bind.
  { eapply keeps_for_each; [exact Hcs|]. intros c Hc. cbv beta.
    eapply keeps_bind; [now apply keeps_h_getitem|]. intros cl Hcl.
    eapply keeps_bind; [apply keeps_h_get; [exact Hcl|exact I]|]. intros sv Hsv.
    eapply keeps_bind; [apply keeps_h_rstrip|]. intros server _.
    eapply keeps_bind; [apply keeps_h_setitem; [exact Hc|exact I]|]. intros _ _.
    eapply keeps_bind; [now apply keeps_h_getitem|]. intros cl' Hcl'.
    apply keeps_h_setitem; [exact Hcl'|exact I]. }
  intros _ _.
  eapply keeps_bind; [apply keeps_h_get; [exact Hcfg|exact I]|]. intros contexts Hcontexts.
  eapply keeps_bind; [now apply keeps_h_truthy|]. intros has_contexts _.
  eapply (keeps_bind _ (fun _ => True)).
  { apply keeps_if; [|now apply keeps_ret].
    eapply keeps_bind; [now apply keeps_h_getitem|]. intros ctxs Hctxs.
    eapply keeps_bind; [now apply keeps_h_iter|]. intros xs Hxs.
    eapply keeps_for_each; [exact Hxs|]. intros ctx Hctx. cbv beta.
    eapply keeps_bind; [apply keeps_h_setitem; [exact Hctx|exact I]|]. intros _ _.
    eapply keeps_bind; [now apply keeps_h_getitem|]. intros inner Hinner.
    apply keeps_h_setitem; [exact Hinner|exact I]. }
  intros _ _.
  eapply keeps_bind; [apply keeps_h_get; [exact Hcfg|exact I]|]. intros current Hcurrent.
  eapply keeps_bind; [now apply keeps_h_truthy|]. intros has_current _.
  eapply (keeps_bind _ (fun _ => True)).
  { apply keeps_if; [|now apply keeps_ret]. apply keeps_h_setitem; [exact Hcfg|exact I]. }
  intros _ _. now apply keeps_ret.
Qed.

End Keeps.

Lemma dump_value_app fuel :
  forall h ext v t, dump_value fuel h v = Some t -> dump_value fuel (h ++ ext) v = Some t.
Proof.
  induction fuel as [|fuel IH]; intros h ext v t E.
  - destruct v; exact E.
  - destruct v; try exact E. cbn [dump_value] in *.
    destruct (h !! l) as [[vs|kvs]|] eqn:El; [| |discriminate E];
      rewrite (lookup_app_l_Some _ _ _ _ El).
    + destruct (mapM (dump_value fuel h) vs) as [ts|] eqn:Em; [|discriminate E].
      apply mapM_Some in Em.
      assert (Hm : mapM (dump_value fuel (h ++ ext)) vs = Some ts).
      { apply mapM_Some. eapply Forall2_impl; [exact Em|]. intros x y. apply IH. }
      now rewrite Hm.
    + destruct (mapM (fun kv => pair (fst kv) <$> dump_value fuel h (snd kv)) kvs)
        as [ts|] eqn:Em; [|discriminate E].
      apply mapM_Some in Em.
      assert (Hm : mapM (fun kv => pair (fst kv) <$> dump_value fuel (h ++ ext) (snd kv)) kvs
                   = Some ts).
      { apply mapM_Some. eapply Forall2_impl; [exact Em|]. intros [k x] y. simpl.
        destruct (dump_value fuel h x) eqn:Ex; [|discriminate].
        now rewrite (IH _ _ _ _ Ex). }
      now rewrite Hm.
Qed.

(** X20: [build_scoped_kubeconfig] works on a copy: whatever it returns or
    raises, the objects that were on the heap before the call are still
    there unchanged and the new objects come after them and point to new
    objects only; the world and the trace are as before (no remote call, no
    log line); every value that could be dumped before the call dumps to the
    same document after it, so the base configuration is not mutated; and
    the configuration returned is not an object of the old heap. *)
Theorem build_scoped_kubeconfig_frame
    (W : Type) (base_cfg : value) (scope_path new_name : string) (s s' : State W)
    (r : Res value) :
  build_scoped_kubeconfig base_cfg scope_path new_name s = (r, s') ->
  (exists ext, heap s' = (heap s ++ ext)%list /\ Forall (obj_fresh (length (heap s))) ext)
  /\ world s' = world s
  /\ trace s' = trace s
  /\ (forall fuel v t,
        dump_value fuel (heap s) v = Some t -> dump_value fuel (heap s') v = Some t)
  /\ (forall cfg, r = Ok cfg -> fresh (length (heap s)) cfg).
Proof.
  intros E.
  assert (Hcl : closed_above (length (heap s)) (heap s)).
  { intros l o Hl Hlook. apply lookup_lt_Some in Hlook. lia. }
  destruct (keeps_build_scoped_kubeconfig (length (heap s)) base_cfg scope_path new_name
              s r s' (le_n _) Hcl E) as (Ht & Hn & Hcl' & Hw & Htr & Hok).
  rewrite firstn_all in Ht.
  assert (Hext : heap s' = (heap s ++ drop (length (heap s)) (heap s'))%list).
  { rewrite <- Ht at 1. now rewrite take_drop. }
  split; [|split; [exact Hw|split; [exact Htr|split; [|exact Hok]]]].
  - exists (drop (length (heap s)) (heap s')). split; [exact Hext|].
    apply Forall_lookup_2. intros i o Hi. rewrite lookup_drop in Hi.
    eapply Hcl'; [|exact Hi]. lia.
  - intros fuel v t Hd. rewrite Hext. now apply dump_value_app.
Qed.

Lemma build_scoped_kubeconfig_frame_witness :
  let base_cfg := fst (load_doc sample_kubeconfig []) in
  let s0 := mkState (snd (load_doc sample_kubeconfig [])) (world sim_start) [] in
  let run := build_scoped_kubeconfig base_cfg (project_scope "perf-org-p-001")
               "project-perf-org-p-001" s0 in
  (exists ext, heap (snd run) = (heap s0 ++ ext)%list
               /\ Forall (obj_fresh (length (heap s0))) ext)
  /\ world (snd run) = world s0
  /\ trace (snd run) = trace s0
  /\ (forall fuel v t,
        dump_value fuel (heap s0) v = Some t -> dump_value fuel (heap (snd run)) v = Some t)
  /\ (forall cfg, fst run = Ok cfg -> fresh (length (heap s0)) cfg).
Proof.
  intros base_cfg s0 run.
  apply (build_scoped_kubeconfig_frame SimWorld base_cfg (project_scope "perf-org-p-001")
           "project-perf-org-p-001" s0 (snd run) (fst run)).
  apply surjective_pairing.
Defined.

(** The run behind the witness: the copy carries the scoped server and the
    new names, its keys are sorted, and the base configuration still holds
    the document it was loaded from. *)
Example build_scoped_kubeconfig_run :
  let base_cfg := fst (load_doc sample_kubeconfig []) in
  let s0 := mkState (snd (load_doc sample_kubeconfig [])) (world sim_start) [] in
  let '(r, s') := build_scoped_kubeconfig base_cfg (project_scope "perf-org-p-001")
                    "project-perf-org-p-001" s0 in
  match r with
  | Ok cfg =>
      dump_value (S (length (heap s'))) (heap s') cfg
      = Some (PDict
          [ ("apiVersion", PStr "v1");
            ("clusters",
             PList [ PDict [ ("cluster",
                              PDict [("server",
                                      PStr ("https://milo.example:6443"
                                            +:+ project_scope "perf-org-p-001"))]);
                             ("name", PStr "project-perf-org-p-001") ] ]);
            ("contexts",
             PList [ PDict [ ("context", PDict [("cluster", PStr "project-perf-org-p-001");
                                                ("user", PStr "admin")]);
                             ("name", PStr "project-perf-org-p-001") ] ]);
            ("current-context", PStr "project-perf-org-p-001");
            ("kind", PStr "Config");
            ("users", PList [ PDict [ ("name", PStr "admin");
                                      ("user", PDict [("token", PStr "secret")]) ] ]) ])
      /\ dump_value (S (length (heap s'))) (heap s') base_cfg = Some sample_kubeconfig
  | _ => False
  end.
Proof. vm_compute. split; reflexivity. Qed.

(** On a base configuration whose two cluster entries share one [cluster]
    dict the second entry finds the server the first has written, and the
    scope path is appended twice. *)
Example build_scoped_kubeconfig_shared_run :
  let s0 := mkState shared_cluster_heap (world sim_start) [] in
  let '(r, s') := build_scoped_kubeconfig (VRef 4) "/scope" "n" s0 in
  match r with
  | Ok cfg =>
      dump_value (S (length (heap s'))) (heap s') cfg
      = Some (PDict
          [ ("clusters",
             PList [ PDict [ ("cluster", PDict [("server", PStr "https://a/scope/scope")]);
                             ("name", PStr "n") ];
                     PDict [ ("cluster", PDict [("server", PStr "https://a/scope/scope")]);
                             ("name", PStr "n") ] ]) ])
      /\ unshared (heap s0) (VRef 4) = false
  | _ => False
  end.
Proof. vm_compute. split; reflexivity. Qed.

(** ** Scoped Credential Deriver: the document returned *)

Lemma lay_lays_bounds h :
  (forall lo hi v t, lay h lo hi v t -> (lo <= hi)%nat)
  /\ (forall lo hi vs ts, lays h lo hi vs ts -> (lo <= hi)%nat).
Proof. apply lay_lays_ind; intros; lia. Qed.

Lemma lay_bounds h lo hi v t : lay h lo hi v t -> (lo <= hi)%nat.
Proof. apply lay_lays_bounds. Qed.

Lemma lays_bounds h lo hi vs ts : lays h lo hi vs ts -> (lo <= hi)%nat.
Proof. apply lay_lays_bounds. Qed.

Lemma lay_lays_widen h :
  (forall lo hi v t, lay h lo hi v t ->
     forall lo' hi', (lo' <= lo)%nat -> (hi <= hi')%nat -> lay h lo' hi' v t)
  /\ (forall lo hi vs ts, lays h lo hi vs ts ->
        forall lo' hi', (lo' <= lo)%nat -> (hi <= hi')%nat -> lays h lo' hi' vs ts).
Proof.
  apply lay_lays_ind; intros; try (constructor; lia).
  - eapply lay_list; eauto; lia.
  - eapply lay_dict; eauto; lia.
  - eapply lays_cons; eauto.
Qed.

Lemma lay_widen h lo hi v t lo' hi' :
  lay h lo hi v t -> (lo' <= lo)%nat -> (hi <= hi')%nat -> lay h lo' hi' v t.
Proof. intros H. now apply lay_lays_widen. Qed.

Lemma lays_widen h lo hi vs ts lo' hi' :
  lays h lo hi vs ts -> (lo' <= lo)%nat -> (hi <= hi')%nat -> lays h lo' hi' vs ts.
Proof. intros H. now apply lay_lays_widen. Qed.

Lemma lay_lays_frame h h' :
  (forall lo hi v t, lay h lo hi v t ->
     (forall l, (lo <= l < hi)%nat -> h' !! l = h !! l) -> lay h' lo hi v t)
  /\ (forall lo hi vs ts, lays h lo hi vs ts ->
        (forall l, (lo <= l < hi)%nat -> h' !! l = h !! l) -> lays h' lo hi vs ts).
Proof.
  apply lay_lays_ind; intros; try (constructor; lia).
  - pose proof (lays_bounds _ _ _ _ _ H).
    eapply lay_list; eauto; [apply H0; intros; apply H3; lia|rewrite H3; auto; lia].
  - pose proof (lays_bounds _ _ _ _ _ H).
    eapply lay_dict; eauto; [apply H0; intros; apply H4; lia|rewrite H4; auto; lia].
  - pose proof (lay_bounds _ _ _ _ _ H). pose proof (lays_bounds _ _ _ _ _ H1).
    eapply lays_cons; [apply H0|apply H2]; intros; apply H3; lia.
Qed.

Lemma lay_frame h h' lo hi v t :
  lay h lo hi v t -> (forall l, (lo <= l < hi)%nat -> h' !! l = h !! l) -> lay h' lo hi v t.
Proof. intros H. now apply lay_lays_frame. Qed.

Lemma lays_frame h h' lo hi vs ts :
  lays h lo hi vs ts -> (forall l, (lo <= l < hi)%nat -> h' !! l = h !! l) -> lays h' lo hi vs ts.
Proof. intros H. now apply lay_lays_frame. Qed.

Lemma mapM_dict {A B : Type} (f : A -> option B) (kvs : list (string * A)) (ts : list B) :
  mapM f (map snd kvs) = Some ts ->
  mapM (fun kv => pair (fst kv) <$> f (snd kv)) kvs = Some (zip (map fst kvs) ts).
Proof.
  revert ts. induction kvs as [|[k v] kvs IH]; intros ts E; simpl in *.
  - now inversion E.
  - destruct (f v) as [b|]; [|discriminate E]. simpl in *.
    destruct (mapM f (map snd kvs)) as [bs|]; [|discriminate E]. simpl in *.
    inversion E; subst. now rewrite (IH bs eq_refl).
Qed.

Lemma zip_fst_snd {A B : Type} (l : list (A * B)) : zip (map fst l) (map snd l) = l.
Proof. induction l as [|[a b] l IH]; simpl; congruence. Qed.

Lemma lay_lays_dump h :
  (forall lo hi v t, lay h lo hi v t ->
     forall fuel, (Nat.min hi (length h) - lo < fuel)%nat -> dump_value fuel h v = Some t)
  /\ (forall lo hi vs ts, lays h lo hi vs ts ->
        forall fuel, (fuel = 0%nat -> vs = []) ->
          (Nat.min hi (length h) - lo < fuel \/ vs = [])%nat ->
          mapM (dump_value fuel h) vs = Some ts).
Proof.
  apply lay_lays_ind; intros.
  - now destruct fuel.
  - now destruct fuel.
  - now destruct fuel.
  - now destruct fuel.
  - now destruct fuel.
  - destruct fuel as [|fuel]; [lia|]. cbn [dump_value]. rewrite H2.
    pose proof (lookup_lt_Some _ _ _ H2). pose proof (lays_bounds _ _ _ _ _ H).
    rewrite H0; [reflexivity| |].
    + intros ->. destruct vs; [reflexivity|]. exfalso.
      inversion H; subst. lia.
    + destruct vs; [now right|left]. lia.
  - destruct fuel as [|fuel]; [lia|]. cbn [dump_value]. rewrite H3.
    pose proof (lookup_lt_Some _ _ _ H3). pose proof (lays_bounds _ _ _ _ _ H).
    assert (Hm : mapM (dump_value fuel h) (map snd kvs) = Some (map snd kts)).
    { apply H0.
      - intros ->. destruct kvs; [reflexivity|]. exfalso. lia.
      - destruct kvs; [now right|left]. lia. }
    rewrite (mapM_dict _ _ _ Hm). simpl. now rewrite H1, zip_fst_snd.
  - reflexivity.
  - destruct H4 as [H4|H4]; [|discriminate H4].
    pose proof (lay_bounds _ _ _ _ _ H). pose proof (lays_bounds _ _ _ _ _ H1).
    simpl. rewrite H0 by lia. simpl.
    rewrite H2; [reflexivity| |].
    + intros ->. lia.
    + left. lia.
Qed.

Lemma lay_dump h lo hi v t : lay h lo hi v t -> dump_value (S (length h)) h v = Some t.
Proof. intros H. eapply lay_lays_dump; [exact H|]. lia. Qed.

Lemma load_doc_lay t :
  forall h v h', load_doc t h = (v, h') ->
    exists ext, h' = (h ++ ext)%list /\ lay h' (length h) (length h') v t.
Proof.
  induction t using pyval_nested_ind; intros h v h' E;
    try (inversion E; subst; exists []; rewrite app_nil_r; split; [reflexivity|];
         constructor; lia).
  - simpl in E.
    match type of E with context [?f xs h] => set (items := f) in * end.
    assert (Hitems : forall h vs h1, items xs h = (vs, h1) ->
              exists ext, h1 = (h ++ ext)%list /\ lays h1 (length h) (length h1) vs xs).
    { clear E h v h'. induction H as [|x rest Hx Hrest IH]; intros h vs h1 E.
      - inversion E; subst. exists []. rewrite app_nil_r. split; [reflexivity|].
        constructor. lia.
      - change (items (x :: rest) h)
          with (let '(v, h1) := load_doc x h in
                let '(vs, h2) := items rest h1 in (v :: vs, h2)) in E.
        destruct (load_doc x h) as [v ha] eqn:Ex.
        destruct (items rest ha) as [vs' hb] eqn:Er.
        inversion E; subst.
        apply Hx in Ex as (e1 & -> & Hv).
        apply IH in Er as (e2 & -> & Hvs).
        exists (e1 ++ e2)%list. rewrite app_assoc. split; [reflexivity|].
        eapply lays_cons; [|exact Hvs].
        eapply lay_frame; [exact Hv|]. intros l Hl. now apply lookup_app_l. }
    destruct (items xs h) as [vs h1] eqn:Ei. inversion E; subst.
    apply Hitems in Ei as (ext & -> & Hvs).
    exists (ext ++ [OList vs])%list. rewrite app_assoc. split; [reflexivity|].
    eapply lay_list.
    + eapply lays_frame; [exact Hvs|]. intros l Hl. now apply lookup_app_l.
    + rewrite !length_app. simpl. lia.
    + rewrite lookup_app_r by lia. now rewrite Nat.sub_diag.
  - simpl in E.
    match type of E with context [?f kvs h] => set (items := f) in * end.
    assert (Hitems : forall h vs h1, items kvs h = (vs, h1) ->
              exists ext, h1 = (h ++ ext)%list
                          /\ lays h1 (length h) (length h1) (map snd vs) (map snd kvs)
                          /\ map fst vs = map fst kvs).
    { clear E h v h'. induction H as [|[k x] rest Hx Hrest IH]; intros h vs h1 E.
      - inversion E; subst. exists []. rewrite app_nil_r. split; [reflexivity|].
        split; [constructor; lia|reflexivity].
      - change (items ((k, x) :: rest) h)
          with (let '(v, h1) := load_doc x h in
                let '(vs, h2) := items rest h1 in ((k, v) :: vs, h2)) in E.
        destruct (load_doc x h) as [v ha] eqn:Ex.
        destruct (items rest ha) as [vs' hb] eqn:Er.
        inversion E; subst.
        apply Hx in Ex as (e1 & -> & Hv).
        apply IH in Er as (e2 & -> & Hvs & Hks).
        exists (e1 ++ e2)%list. rewrite app_assoc. split; [reflexivity|].
        split; [|simpl; now rewrite Hks].
        simpl. eapply lays_cons; [|exact Hvs].
        eapply lay_frame; [exact Hv|]. intros l Hl. now apply lookup_app_l. }
    destruct (items kvs h) as [vs h1] eqn:Ei. inversion E; subst.
    apply Hitems in Ei as (ext & -> & Hvs & Hks).
    exists (ext ++ [ODict vs])%list. rewrite app_assoc. split; [reflexivity|].
    eapply lay_dict.
    + eapply lays_frame; [exact Hvs|]. intros l Hl. now apply lookup_app_l.
    + exact Hks.
    + rewrite !length_app. simpl. lia.
    + rewrite lookup_app_r by lia. now rewrite Nat.sub_diag.
Qed.

Lemma same_outside_refl a b h : same_outside a b h h.
Proof. split; auto. Qed.

Lemma same_outside_trans a b h1 h2 h3 :
  same_outside a b h1 h2 -> same_outside a b h2 h3 -> same_outside a b h1 h3.
Proof.
  intros [L1 H1] [L2 H2]. split; [congruence|]. intros l Hl. rewrite H2, H1; auto.
Qed.

Lemma same_outside_widen a b a' b' h h' :
  same_outside a b h h' -> (a' <= a)%nat -> (b <= b')%nat -> same_outside a' b' h h'.
Proof. intros [L H] Ha Hb. split; [exact L|]. intros l Hl. apply H. lia. Qed.

Lemma lay_dict_inv h lo hi v kts :
  lay h lo hi v (PDict kts) ->
  exists l kvs, v = VRef l /\ h !! l = Some (ODict kvs) /\ (lo <= l < hi)%nat
                /\ lay_kvs h lo l kvs kts.
Proof.
  intros H. inversion H; subst. exists l, kvs.
  match goal with Hl : lays _ _ _ _ _ |- _ => pose proof (lays_bounds _ _ _ _ _ Hl) end.
  repeat split; auto.
Qed.

Lemma lay_list_inv h lo hi v ts :
  lay h lo hi v (PList ts) ->
  exists l vs, v = VRef l /\ h !! l = Some (OList vs) /\ (lo <= l < hi)%nat
               /\ lays h lo l vs ts.
Proof.
  intros H. inversion H; subst. exists l, vs.
  match goal with Hl : lays _ _ _ _ _ |- _ => pose proof (lays_bounds _ _ _ _ _ Hl) end.
  repeat split; auto.
Qed.

Lemma lays_cons_inv h lo hi v vs t ts :
  lays h lo hi (v :: vs) (t :: ts) ->
  exists mid, (lo <= mid <= hi)%nat /\ lay h lo mid v t /\ lays h mid hi vs ts.
Proof.
  intros H. inversion H; subst. exists mid.
  match goal with
  | H1 : lay _ _ _ _ _, H2 : lays _ _ _ _ _ |- _ =>
      pose proof (lay_bounds _ _ _ _ _ H1); pose proof (lays_bounds _ _ _ _ _ H2)
  end.
  auto.
Qed.

Lemma lay_kvs_get h k : forall kvs kts lo hi,
  lay_kvs h lo hi kvs kts ->
  match dict_get k kvs with
  | Some x =>
      exists tx a b,
        dict_get k kts = Some tx /\ (lo <= a)%nat /\ (b <= hi)%nat /\ lay h a b x tx
        /\ forall h' tx',
             (forall l, (lo <= l < hi)%nat -> ~ (a <= l < b)%nat -> h' !! l = h !! l) ->
             lay h' a b x tx' ->
             lay_kvs h' lo hi kvs (dict_set k tx' kts)
  | None => dict_get k kts = None
  end.
Proof.
  induction kvs as [|[k0 v0] kvs IH]; intros kts lo hi [Hl Hk].
  - destruct kts; [reflexivity|discriminate Hk].
  - destruct kts as [|[k0' t0] kts]; [discriminate Hk|]. simpl in Hl, Hk.
    inversion Hk as [[Hk0 Hks]]. subst k0'.
    apply lays_cons_inv in Hl as (mid & Hmid & Hv & Hrest).
    simpl. destruct (String.eqb k k0) eqn:Ek.
    + exists t0, lo, mid. split; [reflexivity|]. split; [lia|]. split; [lia|].
      split; [exact Hv|]. intros h' tx' Hout Hx'. split; [|simpl; congruence].
      simpl. eapply lays_cons; [exact Hx'|].
      eapply lays_frame; [exact Hrest|]. intros l Hl'. apply Hout; lia.
    + specialize (IH kts mid hi (conj Hrest Hks)).
      destruct (dict_get k kvs) as [x|]; [|exact IH].
      destruct IH as (tx & a & b & Hg & Ha & Hb & Hx & Hctx).
      exists tx, a, b. split; [exact Hg|]. split; [lia|]. split; [lia|].
      split; [exact Hx|]. intros h' tx' Hout Hx'.
      destruct (Hctx h' tx') as [Hl2 Hk2]; [|exact Hx'|].
      { intros l Hl' Hn. apply Hout; [lia|exact Hn]. }
      split; [|simpl; congruence]. simpl.
      eapply lays_cons; [|exact Hl2].
      eapply lay_frame; [exact Hv|]. intros l Hl'. apply Hout; lia.
Qed.

Lemma lay_kvs_set_scalar h k x tx : forall kvs kts lo hi,
  (forall a b, (a <= b)%nat -> lay h a b x tx) ->
  lay_kvs h lo hi kvs kts ->
  lay_kvs h lo hi (dict_set k x kvs) (dict_set k tx kts).
Proof.
  induction kvs as [|[k0 v0] kvs IH]; intros kts lo hi Hx [Hl Hk].
  - destruct kts; [|discriminate Hk]. simpl in *.
    pose proof (lays_bounds _ _ _ _ _ Hl) as Hb. split; [|reflexivity].
    simpl. eapply lays_cons; [apply Hx; exact Hb|]. constructor. lia.
  - destruct kts as [|[k0' t0] kts]; [discriminate Hk|]. simpl in Hl, Hk.
    inversion Hk as [[Hk0 Hks]]. subst k0'.
    apply lays_cons_inv in Hl as (mid & Hmid & Hv & Hrest).
    simpl. destruct (String.eqb k k0) eqn:Ek.
    + split; [|simpl; congruence]. simpl.
      eapply lays_cons; [|exact Hrest]. apply Hx. lia.
    + destruct (IH kts mid hi Hx (conj Hrest Hks)) as [Hl2 Hk2].
      split; [|simpl; congruence]. simpl. eapply lays_cons; eassumption.
Qed.

Lemma lay_set_scalar h lo hi l kvs kts k x tx :
  (forall h a b, (a <= b)%nat -> lay h a b x tx) ->
  h !! l = Some (ODict kvs) ->
  lay h lo hi (VRef l) (PDict kts) ->
  lay (<[l := ODict (dict_set k x kvs)]> h) lo hi (VRef l) (PDict (dict_set k tx kts)).
Proof.
  intros Hx Hlook H. apply lay_dict_inv in H as (l' & kvs' & [= <-] & Hlook' & Hl & Hkvs).
  rewrite Hlook in Hlook'. inversion Hlook'; subst kvs'.
  assert (Hkvs' : lay_kvs (<[l := ODict (dict_set k x kvs)]> h) lo l kvs kts).
  { destruct Hkvs as [Hl1 Hk1]. split; [|exact Hk1].
    eapply lays_frame; [exact Hl1|]. intros l0 Hl0. apply list_lookup_insert_ne. lia. }
  apply (lay_kvs_set_scalar _ k x tx) in Hkvs' as [Hl2 Hk2]; [|intros; now apply Hx].
  eapply lay_dict; eauto; [lia|].
  apply list_lookup_insert_eq. now apply lookup_lt_Some in Hlook.
Qed.

Lemma lays_empty h lo hi vs ts : lays h lo hi vs ts -> (vs = [] <-> ts = []).
Proof. intros H. inversion H; subst; split; intros; congruence. Qed.

Section LayOps.
Context {W : Type}.
Implicit Types (s : State W).

Lemma lay_h_truthy s lo hi v t :
  lay (heap s) lo hi v t -> h_truthy v s = (Ok (truthy t), s).
Proof.
  intros H. unfold h_truthy, bind, deref, ret.
  inversion H; subst; try reflexivity.
  - match goal with Hl : heap s !! _ = Some _ |- _ => rewrite Hl end.
    match goal with Hl : lays _ _ _ _ _ |- _ => apply lays_empty in Hl as [Hl1 Hl2] end.
    destruct vs, ts; try reflexivity; [discriminate Hl1|discriminate Hl2]; reflexivity.
  - match goal with Hl : heap s !! _ = Some _ |- _ => rewrite Hl end.
    destruct kvs, kts; try reflexivity;
      match goal with Hk : map fst _ = map fst _ |- _ => discriminate Hk end.
Qed.

Lemma run_h_get s l kvs k d :
  heap s !! l = Some (ODict kvs) ->
  h_get (VRef l) k d s = (Ok (match dict_get k kvs with Some x => x | None => d end), s).
Proof. intros H. unfold h_get, bind, deref. now rewrite H. Qed.

Lemma run_h_getitem s l kvs k x :
  heap s !! l = Some (ODict kvs) -> dict_get k kvs = Some x ->
  h_getitem (VRef l) k s = (Ok x, s).
Proof. intros H E. unfold h_getitem, bind, deref. now rewrite H, E. Qed.

Lemma run_h_iter s l vs :
  heap s !! l = Some (OList vs) -> h_iter (VRef l) s = (Ok vs, s).
Proof. intros H. unfold h_iter, bind, deref. now rewrite H. Qed.

Lemma run_h_setitem s l kvs k x :
  heap s !! l = Some (ODict kvs) ->
  h_setitem (VRef l) k x s
  = (Ok tt, mkState (<[l := ODict (dict_set k x kvs)]> (heap s)) (world s) (trace s)).
Proof. intros H. unfold h_setitem, bind, deref, store. now rewrite H. Qed.

End LayOps.

Lemma dict_get_set_ne' {V : Type} k k' (v : V) kvs :
  String.eqb k k' = false -> dict_get k (dict_set k' v kvs) = dict_get k kvs.
Proof. intros H. apply dict_get_set_ne. now apply String.eqb_neq. Qed.

Lemma lay_str_any s : forall h a b, (a <= b)%nat -> lay h a b (VStr s) (PStr s).
Proof. intros. now constructor. Qed.

Lemma lay_set_root_child h a b v kts k1 s1 kc ckts k2 s2 :
  lay h a b v (PDict kts) ->
  dict_get kc (dict_set k1 (PStr s1) kts) = Some (PDict ckts) ->
  exists lc kvs lcl ckvs a',
    v = VRef lc
    /\ h !! lc = Some (ODict kvs)
    /\ dict_get kc (dict_set k1 (VStr s1) kvs) = Some (VRef lcl)
    /\ h !! lcl = Some (ODict ckvs)
    /\ (a <= lcl < lc)%nat /\ (lc < b)%nat
    /\ lay_kvs h a' lcl ckvs ckts
    /\ lay (<[lcl := ODict (dict_set k2 (VStr s2) ckvs)]>
              (<[lc := ODict (dict_set k1 (VStr s1) kvs)]> h)) a b (VRef lc)
         (PDict (dict_set kc (PDict (dict_set k2 (PStr s2) ckts))
                   (dict_set k1 (PStr s1) kts))).
Proof.
  intros H Hget.
  apply lay_dict_inv in H as (lc & kvs & -> & Hlook & Hlc & Hkvs).
  pose proof (lay_kvs_set_scalar h k1 (VStr s1) (PStr s1) kvs kts a lc
                (lay_str_any s1 h) Hkvs) as Hkvs1.
  pose proof (lay_kvs_get h kc _ _ _ _ Hkvs1) as Hg.
  destruct (dict_get kc (dict_set k1 (VStr s1) kvs)) as [x|] eqn:Ex; [|congruence].
  destruct Hg as (tx & a1 & b1 & Hg & Ha1 & Hb1 & Hx & Hctx).
  rewrite Hget in Hg. inversion Hg; subst tx.
  apply lay_dict_inv in Hx as (lcl & ckvs & -> & Hlook2 & Hlcl & Hckvs).
  exists lc, kvs, lcl, ckvs, a1.
  split; [reflexivity|]. split; [exact Hlook|]. split; [exact Ex|].
  split; [exact Hlook2|]. split; [lia|]. split; [lia|]. split; [exact Hckvs|].
  set (h1 := <[lc := ODict (dict_set k1 (VStr s1) kvs)]> h).
  set (h2 := <[lcl := ODict (dict_set k2 (VStr s2) ckvs)]> h1).
  assert (Hlen : (lc < length h)%nat) by now apply lookup_lt_Some in Hlook.
  assert (Hchild : lay h2 a1 b1 (VRef lcl) (PDict (dict_set k2 (PStr s2) ckts))).
  { apply lay_set_scalar; [apply lay_str_any| |].
    - unfold h1. rewrite list_lookup_insert_ne by lia. exact Hlook2.
    - eapply lay_dict; [| | |].
      + eapply lays_frame; [apply Hckvs|]. intros l Hl. unfold h1.
        apply list_lookup_insert_ne. lia.
      + apply Hckvs.
      + lia.
      + unfold h1. rewrite list_lookup_insert_ne by lia. exact Hlook2. }
  destruct (Hctx h2 (PDict (dict_set k2 (PStr s2) ckts))) as [Hl2 Hk2]; [|exact Hchild|].
  { intros l Hl Hn. unfold h2, h1. rewrite !list_lookup_insert_ne by lia. reflexivity. }
  apply (lay_dict h2 a b lc (dict_set k1 (VStr s1) kvs) _ Hl2 Hk2); [lia|].
  unfold h2, h1. rewrite list_lookup_insert_ne by lia.
  now apply list_lookup_insert_eq.
Qed.

Section Scoped.
Context {W : Type}.
Implicit Types (s : State W).

Lemma for_each_lays (f : pyval -> option pyval) (body : value -> Py W unit) :
  (forall a b c t t' s,
      lay (heap s) a b c t -> f t = Some t' ->
      exists s', body c s = (Ok tt, s')
                 /\ same_outside a b (heap s) (heap s') /\ lay (heap s') a b c t') ->
  forall vs ts ts' lo hi s,
    lays (heap s) lo hi vs ts -> mapM f ts = Some ts' ->
    exists s', for_each vs body s = (Ok tt, s')
               /\ same_outside lo hi (heap s) (heap s') /\ lays (heap s') lo hi vs ts'.
Proof.
  intros Hbody. induction vs as [|v vs IH]; intros ts ts' lo hi s Hl Hm.
  - inversion Hl; subst. simpl in Hm. inversion Hm; subst.
    exists s. split; [reflexivity|]. split; [apply same_outside_refl|exact Hl].
  - destruct ts as [|t ts]; [inversion Hl|].
    apply lays_cons_inv in Hl as (mid & Hmid & Hv & Hrest).
    simpl in Hm. destruct (f t) as [t1|] eqn:Ef; [|discriminate Hm]. simpl in Hm.
    destruct (mapM f ts) as [ts1|] eqn:Em; [|discriminate Hm]. simpl in Hm.
    inversion Hm; subst ts'.
    destruct (Hbody lo mid v t t1 s Hv Ef) as (s1 & E1 & [L1 O1] & Hv1).
    assert (Hrest1 : lays (heap s1) mid hi vs ts).
    { eapply lays_frame; [exact Hrest|]. intros l Hl. apply O1. lia. }
    destruct (IH ts ts1 mid hi s1 Hrest1 Em) as (s' & E' & [L2 O2] & Hvs').
    exists s'. cbn [for_each]. unfold bind at 1. rewrite E1.
    split; [exact E'|]. split.
    + split; [congruence|]. intros l Hl. rewrite O2, O1; auto; lia.
    + eapply lays_cons; [|exact Hvs'].
      eapply lay_frame; [exact Hv1|]. intros l Hl. apply O2. lia.
Qed.

Lemma same_outside_insert2 a b (h : list object) l1 o1 l2 o2 :
  (a <= l1 < b)%nat -> (a <= l2 < b)%nat ->
  same_outside a b h (<[l2 := o2]> (<[l1 := o1]> h)).
Proof.
  intros H1 H2. split; [now rewrite !length_insert|].
  intros l Hl. rewrite !list_lookup_insert_ne by lia. reflexivity.
Qed.

Lemma cluster_body_lay scope_path new_name a b c t t' s :
  lay (heap s) a b c t ->
  scope_cluster scope_path new_name t = Some t' ->
  exists s',
    (cl <- h_getitem c "cluster" ;;
     sv <- h_get cl "server" (VStr EmptyString) ;;
     server <- h_rstrip sv ;;
     h_setitem c "name" (VStr new_name) ;;;
     cl' <- h_getitem c "cluster" ;;
     h_setitem cl' "server" (VStr (server +:+ scope_path))) s = (Ok tt, s')
    /\ same_outside a b (heap s) (heap s') /\ lay (heap s') a b c t'.
Proof.
  intros Hlay Hspec. unfold scope_cluster in Hspec.
  destruct t as [| | | | | |kts]; try discriminate Hspec.
  destruct (dict_get "cluster" kts) as [[| | | | | |ckts]|] eqn:Ecl; try discriminate Hspec.
  destruct (default (PStr EmptyString) (dict_get "server" ckts))
    as [| | | |server| |] eqn:Esv; try discriminate Hspec.
  inversion Hspec; subst t'. clear Hspec.
  assert (Hget : dict_get "cluster" (dict_set "name" (PStr new_name) kts) = Some (PDict ckts))
    by (rewrite dict_get_set_ne' by reflexivity; exact Ecl).
  destruct (lay_set_root_child (heap s) a b c kts "name" new_name "cluster" ckts "server"
              (rstrip_slash server +:+ scope_path) Hlay Hget)
    as (lc & kvs & lcl & ckvs & a' & -> & Hlc & Hcl & Hlcl & Hb1 & Hb2 & Hckvs & Hfinal).
  rewrite dict_get_set_ne' in Hcl by reflexivity.
  assert (Hserver : match dict_get "server" ckvs with Some x => x | None => VStr EmptyString end
                    = VStr server).
  { pose proof (lay_kvs_get (heap s) "server" _ _ _ _ Hckvs) as Hg.
    destruct (dict_get "server" ckvs) as [x|].
    - destruct Hg as (tx & ? & ? & Hg & _ & _ & Hx & _). rewrite Hg in Esv. simpl in Esv.
      subst tx. now inversion Hx.
    - rewrite Hg in Esv. simpl in Esv. now inversion Esv. }
  exists (mkState (<[lcl := ODict (dict_set "server"
                                      (VStr (rstrip_slash server +:+ scope_path)) ckvs)]>
                    (<[lc := ODict (dict_set "name" (VStr new_name) kvs)]> (heap s)))
            (world s) (trace s)).
  split; [|split; [|exact Hfinal]].
  - unfold bind at 1. rewrite (run_h_getitem s lc kvs "cluster" _ Hlc Hcl).
    unfold bind at 1. rewrite (run_h_get s lcl ckvs "server" _ Hlcl). rewrite Hserver.
    unfold bind at 1. cbn [h_rstrip]. unfold ret at 1.
    unfold bind at 1. rewrite (run_h_setitem s lc kvs "name" _ Hlc).
    unfold bind at 1.
    erewrite run_h_getitem;
      [| cbn [heap]; apply list_lookup_insert_eq; now apply lookup_lt_Some in Hlc
       | rewrite dict_get_set_ne' by reflexivity; exact Hcl].
    erewrite run_h_setitem; [reflexivity|].
    cbn [heap]. rewrite list_lookup_insert_ne by lia. exact Hlcl.
  - cbn [heap]. apply same_outside_insert2; lia.
Qed.

Lemma context_body_lay new_name a b c t t' s :
  lay (heap s) a b c t ->
  rename_context new_name t = Some t' ->
  exists s',
    (h_setitem c "name" (VStr new_name) ;;;
     inner <- h_getitem c "context" ;;
     h_setitem inner "cluster" (VStr new_name)) s = (Ok tt, s')
    /\ same_outside a b (heap s) (heap s') /\ lay (heap s') a b c t'.
Proof.
  intros Hlay Hspec. unfold rename_context in Hspec.
  destruct t as [| | | | | |kts]; try discriminate Hspec. cbv zeta in Hspec.
  destruct (dict_get "context" (dict_set "name" (PStr new_name) kts))
    as [[| | | | | |ikts]|] eqn:Ectx; try discriminate Hspec.
  inversion Hspec; subst t'. clear Hspec.
  destruct (lay_set_root_child (heap s) a b c kts "name" new_name "context" ikts "cluster"
              new_name Hlay Ectx)
    as (lc & kvs & lcl & ckvs & a' & -> & Hlc & Hcl & Hlcl & Hb1 & Hb2 & Hckvs & Hfinal).
  exists (mkState (<[lcl := ODict (dict_set "cluster" (VStr new_name) ckvs)]>
                    (<[lc := ODict (dict_set "name" (VStr new_name) kvs)]> (heap s)))
            (world s) (trace s)).
  split; [|split; [|exact Hfinal]].
  - unfold bind at 1. rewrite (run_h_setitem s lc kvs "name" _ Hlc).
    unfold bind at 1.
    erewrite run_h_getitem;
      [| cbn [heap]; apply list_lookup_insert_eq; now apply lookup_lt_Some in Hlc
       | exact Hcl].
    erewrite run_h_setitem; [reflexivity|].
    cbn [heap]. rewrite list_lookup_insert_ne by lia. exact Hlcl.
  - cbn [heap]. apply same_outside_insert2; lia.
Qed.

(** A list field of the root object, transformed element by element. *)
Lemma lay_update_list_field (f : pyval -> option pyval) (body : value -> Py W unit)
    k a b v kts ts ts' s :
  (forall a b c t t' s,
      lay (heap s) a b c t -> f t = Some t' ->
      exists s', body c s = (Ok tt, s')
                 /\ same_outside a b (heap s) (heap s') /\ lay (heap s') a b c t') ->
  lay (heap s) a b v (PDict kts) ->
  dict_get k kts = Some (PList ts) ->
  mapM f ts = Some ts' ->
  exists l0 kvs lx vs s',
    v = VRef l0
    /\ heap s !! l0 = Some (ODict kvs)
    /\ dict_get k kvs = Some (VRef lx)
    /\ heap s !! lx = Some (OList vs)
    /\ (vs = [] <-> ts = [])
    /\ for_each vs body s = (Ok tt, s')
    /\ same_outside a b (heap s) (heap s')
    /\ lay (heap s') a b v (PDict (dict_set k (PList ts') kts)).
Proof.
  intros Hbody Hlay Hget Hm.
  apply lay_dict_inv in Hlay as (l0 & kvs & -> & Hl0 & Hb0 & Hkvs).
  pose proof (lay_kvs_get (heap s) k _ _ _ _ Hkvs) as Hg.
  destruct (dict_get k kvs) as [x|] eqn:Ex; [|congruence].
  destruct Hg as (tx & a1 & b1 & Hg & Ha1 & Hb1 & Hx & Hctx).
  rewrite Hget in Hg. inversion Hg; subst tx.
  apply lay_list_inv in Hx as (lx & vs & -> & Hlx & Hbx & Hvs).
  destruct (for_each_lays f body Hbody vs ts ts' a1 lx s Hvs Hm) as (s' & E & [L O] & Hvs').
  exists l0, kvs, lx, vs, s'.
  split; [reflexivity|]. split; [exact Hl0|]. split; [exact Ex|]. split; [exact Hlx|].
  split; [eapply lays_empty; exact Hvs|].
  split; [exact E|]. split.
  - split; [exact L|]. intros l Hl. apply O. lia.
  - assert (Hx' : lay (heap s') a1 b1 (VRef lx) (PList ts')).
    { eapply lay_list; [exact Hvs'|lia|]. rewrite O by lia. exact Hlx. }
    destruct (Hctx (heap s') (PList ts')) as [Hl2 Hk2]; [|exact Hx'|].
    { intros l Hl Hn. apply O. lia. }
    apply (lay_dict (heap s') a b l0 kvs _ Hl2 Hk2); [lia|].
    rewrite O by lia. exact Hl0.
Qed.


Lemma step_clusters scope_path new_name a b cfg kts kts1 le s :
  lay (heap s) a b cfg (PDict kts) ->
  heap s !! le = Some (OList []) ->
  scope_clusters scope_path new_name kts = Some kts1 ->
  exists s',
    (forall (B : Type) (k : Py W B),
        (clusters <- h_get cfg "clusters" (VRef le) ;;
         cs <- h_iter clusters ;;
         for_each cs (fun c =>
           cl <- h_getitem c "cluster" ;;
           sv <- h_get cl "server" (VStr EmptyString) ;;
           server <- h_rstrip sv ;;
           h_setitem c "name" (VStr new_name) ;;;
           cl' <- h_getitem c "cluster" ;;
           h_setitem cl' "server" (VStr (server +:+ scope_path))) ;;;
         k) s = k s')
    /\ same_outside a b (heap s) (heap s') /\ lay (heap s') a b cfg (PDict kts1).
Proof.
  intros Hlay Hle Hspec. unfold scope_clusters in Hspec.
  destruct (dict_get "clusters" kts) as [t|] eqn:Eg.
  - destruct t as [| | | | |cs|]; try discriminate Hspec.
    destruct (mapM (scope_cluster scope_path new_name) cs) as [cs'|] eqn:Em;
      [|discriminate Hspec].
    simpl in Hspec. inversion Hspec; subst kts1.
    destruct (lay_update_list_field (scope_cluster scope_path new_name) _ "clusters"
                a b cfg kts cs cs' s (cluster_body_lay scope_path new_name) Hlay Eg Em)
      as (l0 & kvs & lx & vs & s' & -> & Hl0 & Hgx & Hlx & _ & E & Hout & Hfinal).
    exists s'. split; [|split; [exact Hout|exact Hfinal]].
    intros B k. unfold bind at 1. rewrite (run_h_get s l0 kvs "clusters" _ Hl0), Hgx.
    unfold bind at 1. rewrite (run_h_iter s lx vs Hlx).
    exact (bind_ok _ (fun _ => k) s tt s' E).
  - inversion Hspec; subst kts1.
    pose proof Hlay as Hlay'.
    apply lay_dict_inv in Hlay' as (l0 & kvs & -> & Hl0 & Hb0 & Hkvs).
    pose proof (lay_kvs_get (heap s) "clusters" _ _ _ _ Hkvs) as Hg.
    destruct (dict_get "clusters" kvs) as [x|] eqn:Ex.
    { destruct Hg as (tx & ? & ? & Hg & _). congruence. }
    exists s. split; [|split; [apply same_outside_refl|exact Hlay]].
    intros B k. unfold bind at 1. rewrite (run_h_get s l0 kvs "clusters" _ Hl0), Ex.
    unfold bind at 1. rewrite (run_h_iter s le [] Hle). reflexivity.
Qed.

Lemma step_contexts new_name a b cfg kts kts1 s :
  lay (heap s) a b cfg (PDict kts) ->
  rename_contexts new_name kts = Some kts1 ->
  exists s',
    (forall (B : Type) (k : Py W B),
        (contexts <- h_get cfg "contexts" VNone ;;
         has_contexts <- h_truthy contexts ;;
         (if has_contexts then
            ctxs <- h_getitem cfg "contexts" ;;
            xs <- h_iter ctxs ;;
            for_each xs (fun ctx =>
              h_setitem ctx "name" (VStr new_name) ;;;
              inner <- h_getitem ctx "context" ;;
              h_setitem inner "cluster" (VStr new_name))
          else ret tt) ;;;
         k) s = k s')
    /\ same_outside a b (heap s) (heap s') /\ lay (heap s') a b cfg (PDict kts1).
Proof.
  intros Hlay Hspec. unfold rename_contexts in Hspec.
  pose proof Hlay as Hlay'.
  apply lay_dict_inv in Hlay' as (l0 & kvs & -> & Hl0 & Hb0 & Hkvs).
  pose proof (lay_kvs_get (heap s) "contexts" _ _ _ _ Hkvs) as Hg.
  destruct (dict_get "contexts" kts) as [t|] eqn:Eg.
  - destruct (dict_get "contexts" kvs) as [x|] eqn:Ex; [|congruence].
    destruct Hg as (tx & a1 & b1 & Hg & _ & _ & Hx & _). inversion Hg; subst tx.
    pose proof (lay_h_truthy s a1 b1 x t Hx) as Htr.
    destruct (truthy t) eqn:Et.
    + destruct t as [| | | | |xs|]; try discriminate Hspec.
      destruct (mapM (rename_context new_name) xs) as [xs'|] eqn:Em; [|discriminate Hspec].
      simpl in Hspec. inversion Hspec; subst kts1.
      destruct (lay_update_list_field (rename_context new_name) _ "contexts"
                  a b (VRef l0) kts xs xs' s (context_body_lay new_name) Hlay Eg Em)
        as (l0' & kvs' & lx & vs & s' & Heq & Hl0' & Hgx & Hlx & _ & E & Hout & Hfinal).
      inversion Heq; subst l0'. rewrite Hl0 in Hl0'. inversion Hl0'; subst kvs'.
      rewrite Ex in Hgx. inversion Hgx; subst x.
      exists s'. split; [|split; [exact Hout|exact Hfinal]].
      intros B k. unfold bind at 1. rewrite (run_h_get s l0 kvs "contexts" _ Hl0), Ex.
      unfold bind at 1. rewrite Htr.
      unfold bind at 1. unfold bind at 1.
      rewrite (run_h_getitem s l0 kvs "contexts" _ Hl0 Ex).
      unfold bind at 1. rewrite (run_h_iter s lx vs Hlx).
      exact (bind_ok _ (fun _ => k) s tt s' E).
    + inversion Hspec; subst kts1.
      exists s. split; [|split; [apply same_outside_refl|exact Hlay]].
      intros B k. unfold bind at 1. rewrite (run_h_get s l0 kvs "contexts" _ Hl0), Ex.
      unfold bind at 1. rewrite Htr. reflexivity.
  - inversion Hspec; subst kts1.
    destruct (dict_get "contexts" kvs) as [x|] eqn:Ex.
    { destruct Hg as (tx & ? & ? & Hg & _). congruence. }
    exists s. split; [|split; [apply same_outside_refl|exact Hlay]].
    intros B k. unfold bind at 1. rewrite (run_h_get s l0 kvs "contexts" _ Hl0), Ex.
    reflexivity.
Qed.

Lemma step_current_context new_name a b cfg kts s :
  lay (heap s) a b cfg (PDict kts) ->
  exists s',
    (forall (B : Type) (k : Py W B),
        (current <- h_get cfg "current-context" VNone ;;
         has_current <- h_truthy current ;;
         (if has_current then h_setitem cfg "current-context" (VStr new_name) else ret tt) ;;;
         k) s = k s')
    /\ lay (heap s') a b cfg (PDict (set_current_context new_name kts)).
Proof.
  intros Hlay. unfold set_current_context.
  pose proof Hlay as Hlay'.
  apply lay_dict_inv in Hlay' as (l0 & kvs & -> & Hl0 & Hb0 & Hkvs).
  pose proof (lay_kvs_get (heap s) "current-context" _ _ _ _ Hkvs) as Hg.
  destruct (dict_get "current-context" kts) as [t|] eqn:Eg.
  - destruct (dict_get "current-context" kvs) as [x|] eqn:Ex; [|congruence].
    destruct Hg as (tx & a1 & b1 & Hg & _ & _ & Hx & _). inversion Hg; subst tx.
    pose proof (lay_h_truthy s a1 b1 x t Hx) as Htr.
    destruct (truthy t) eqn:Et.
    + exists (mkState (<[l0 := ODict (dict_set "current-context" (VStr new_name) kvs)]> (heap s))
                (world s) (trace s)).
      split; [|cbn [heap]; apply lay_set_scalar; [apply lay_str_any|exact Hl0|exact Hlay]].
      intros B k. unfold bind at 1. rewrite (run_h_get s l0 kvs "current-context" _ Hl0), Ex.
      unfold bind at 1. rewrite Htr.
      unfold bind at 1. now rewrite (run_h_setitem s l0 kvs "current-context" _ Hl0).
    + exists s. split; [|exact Hlay].
      intros B k. unfold bind at 1. rewrite (run_h_get s l0 kvs "current-context" _ Hl0), Ex.
      unfold bind at 1. rewrite Htr. reflexivity.
  - destruct (dict_get "current-context" kvs) as [x|] eqn:Ex.
    { destruct Hg as (tx & ? & ? & Hg & _). congruence. }
    exists s. split; [|exact Hlay].
    intros B k. unfold bind at 1. rewrite (run_h_get s l0 kvs "current-context" _ Hl0), Ex.
    reflexivity.
Qed.

End Scoped.

(** ** Sorted keys *)

Lemma leb_refl (s : string) : String.leb s s = true.
Proof.
  unfold String.leb. replace (String.compare s s) with Eq; [reflexivity|].
  symmetry. induction s as [|a s IH]; [reflexivity|]. cbn [String.compare].
  unfold Ascii.compare. rewrite N.compare_refl. exact IH.
Qed.

Lemma insert_item_perm {V : Type} (kv : string * V) (l : list (string * V)) :
  insert_item kv l ≡ₚ kv :: l.
Proof.
  induction l as [|kv' l IH]; [reflexivity|]. cbn [insert_item].
  destruct (String.leb (fst kv) (fst kv')); [reflexivity|].
  rewrite IH. apply Permutation_swap.
Qed.

Lemma sort_items_perm {V : Type} (l : list (string * V)) : sort_items l ≡ₚ l.
Proof.
  induction l as [|kv l IH]; [reflexivity|]. cbn [sort_items].
  now rewrite insert_item_perm, IH.
Qed.

Lemma dict_get_insert_item {V : Type} (k : string) (kv : string * V) (l : list (string * V)) :
  dict_get k (insert_item kv l)
  = if String.eqb k (fst kv) then Some (snd kv) else dict_get k l.
Proof.
  induction l as [|[k' v'] l IH]; cbn [insert_item].
  - destruct kv. reflexivity.
  - destruct (String.leb (fst kv) (fst (k', v'))) eqn:Hle.
    + destruct kv. reflexivity.
    + cbn [dict_get]. rewrite IH. destruct (String.eqb k k') eqn:Hk; [|reflexivity].
      apply String.eqb_eq in Hk. subst k'.
      destruct (String.eqb k (fst kv)) eqn:Hk2; [|reflexivity].
      apply String.eqb_eq in Hk2. subst k. cbn [fst] in Hle.
      now rewrite leb_refl in Hle.
Qed.

Lemma dict_get_sort_items {V : Type} (k : string) (l : list (string * V)) :
  dict_get k (sort_items l) = dict_get k l.
Proof.
  induction l as [|[k' v'] l IH]; [reflexivity|]. cbn [sort_items].
  rewrite dict_get_insert_item, IH. reflexivity.
Qed.

Section SortRel.
Context {A B : Type} (R : string * A -> string * B -> Prop).
Hypothesis R_key : forall x y, R x y -> fst x = fst y.

Lemma insert_item_Forall2 x y l1 l2 :
  R x y -> Forall2 R l1 l2 -> Forall2 R (insert_item x l1) (insert_item y l2).
Proof.
  intros Hxy H. induction H as [|a b l1 l2 Hab Hl IH]; cbn [insert_item].
  - now repeat constructor.
  - rewrite <- (R_key _ _ Hxy), <- (R_key _ _ Hab).
    destruct (String.leb (fst x) (fst a)); repeat (constructor; try assumption).
Qed.

Lemma sort_items_Forall2 l1 l2 :
  Forall2 R l1 l2 -> Forall2 R (sort_items l1) (sort_items l2).
Proof.
  induction 1 as [|a b l1 l2 Hab _ IH]; [constructor|].
  cbn [sort_items]. now apply insert_item_Forall2.
Qed.

End SortRel.

Lemma sort_items_map {A B : Type} (g : A -> B) (l : list (string * A)) :
  sort_items (map (fun kv => (fst kv, g (snd kv))) l)
  = map (fun kv => (fst kv, g (snd kv))) (sort_items l).
Proof.
  induction l as [|kv l IH]; [reflexivity|]. cbn [map sort_items]. rewrite IH.
  generalize (sort_items l). intros l'. induction l' as [|kv' l' IH']; [reflexivity|].
  cbn [map insert_item fst]. destruct (String.leb (fst kv) (fst kv')); [reflexivity|].
  cbn [map]. now rewrite IH'.
Qed.

Lemma map_fst_values {A B : Type} (g : A -> B) (l : list (string * A)) :
  map fst (map (fun kv => (fst kv, g (snd kv))) l) = map fst l.
Proof. induction l as [|kv l IH]; [reflexivity|]. cbn [map fst]. now rewrite IH. Qed.

Lemma map_snd_values {A B : Type} (g : A -> B) (l : list (string * A)) :
  map snd (map (fun kv => (fst kv, g (snd kv))) l) = map g (map snd l).
Proof. induction l as [|kv l IH]; [reflexivity|]. cbn [map snd]. now rewrite IH. Qed.

Lemma sort_items_length {V : Type} (l : list (string * V)) : length (sort_items l) = length l.
Proof. apply Permutation_length, sort_items_perm. Qed.

Lemma sort_doc_dict (kvs : list (string * pyval)) :
  sort_doc (PDict kvs)
  = PDict (map (fun kv => (fst kv, sort_doc (snd kv))) (sort_items kvs)).
Proof.
  cbn [sort_doc]. f_equal. rewrite <- sort_items_map. f_equal.
  induction kvs as [|[k x] kvs IH]; [reflexivity|]. cbn [map fst snd]. now rewrite IH.
Qed.

Lemma field_sort_doc (k : string) (t : pyval) : field k (sort_doc t) = sort_doc <$> field k t.
Proof.
  destruct t; try reflexivity. rewrite sort_doc_dict. cbn [field].
  rewrite <- (dict_get_sort_items k kvs). generalize (sort_items kvs). intros l.
  induction l as [|[k' v'] l IH]; [reflexivity|]. cbn [map dict_get fst snd].
  destruct (String.eqb k k'); [reflexivity|exact IH].
Qed.

Lemma truthy_sort_doc (t : pyval) : truthy (sort_doc t) = truthy t.
Proof.
  destruct t; try reflexivity.
  - cbn [sort_doc]. now destruct xs.
  - rewrite sort_doc_dict. cbn [truthy].
    pose proof (sort_items_length kvs) as Hl.
    destruct kvs, (sort_items _); try discriminate Hl; reflexivity.
Qed.

(** ** Lists of cells, and permutations *)

Lemma Forall2_perm_l {A B : Type} (P : A -> B -> Prop) (l l' : list A) :
  l ≡ₚ l' -> forall k, Forall2 P l k -> exists k', k ≡ₚ k' /\ Forall2 P l' k'.
Proof.
  induction 1 as [|x l l' _ IH|x y l|l1 l2 l3 _ IH1 _ IH2]; intros k Hk.
  - inversion Hk; subst. exists []. split; [reflexivity|constructor].
  - inversion Hk as [|? b ? k0 Hb Hk0]; subst.
    destruct (IH k0 Hk0) as (k' & Hp & Hf). exists (b :: k'). split; [now constructor|].
    now constructor.
  - inversion Hk as [|? b ? k0 Hb Hk0]; subst.
    inversion Hk0 as [|? c ? k1 Hc Hk1]; subst.
    exists (c :: b :: k1). split; [apply Permutation_swap|]. now repeat constructor.
  - destruct (IH1 k Hk) as (k1 & Hp1 & Hf1). destruct (IH2 k1 Hf1) as (k2 & Hp2 & Hf2).
    exists k2. split; [now transitivity k1|exact Hf2].
Qed.

Lemma concat_perm {A : Type} (l l' : list (list A)) : l ≡ₚ l' -> concat l ≡ₚ concat l'.
Proof.
  induction 1 as [|x l l' _ IH|x y l|l1 l2 l3 _ IH1 _ IH2]; cbn [concat].
  - reflexivity.
  - now rewrite IH.
  - rewrite !app_assoc. f_equiv. apply Permutation_app_comm.
  - now transitivity (concat l2).
Qed.

(** ** Loading a document, item by item *)

Lemma load_doc_list (xs : list pyval) (h : list object) :
  load_doc (PList xs) h
  = let '(vs, h') := load_items xs h in (VRef (length h'), (h' ++ [OList vs])%list).
Proof.
  cbn [load_doc].
  match goal with |- context [?f xs h] => set (items := f) end.
  assert (Hi : forall xs h, items xs h = load_items xs h).
  { clear. induction xs as [|x xs IH]; intros h; [reflexivity|].
    change (items (x :: xs) h)
      with (let '(v, h1) := load_doc x h in let '(vs, h2) := items xs h1 in (v :: vs, h2)).
    cbn [load_items]. destruct (load_doc x h) as [v h1]. now rewrite IH. }
  now rewrite Hi.
Qed.

Lemma load_doc_dict (kvs : list (string * pyval)) (h : list object) :
  load_doc (PDict kvs) h
  = let '(vs, h') := load_items (map snd kvs) h in
    (VRef (length h'), (h' ++ [ODict (zip (map fst kvs) vs)])%list).
Proof.
  cbn [load_doc].
  match goal with |- context [?f kvs h] => set (items := f) end.
  assert (Hi : forall kvs h,
             items kvs h
             = let '(vs, h') := load_items (map snd kvs) h in (zip (map fst kvs) vs, h')).
  { clear. induction kvs as [|[k x] kvs IH]; intros h; [reflexivity|].
    change (items ((k, x) :: kvs) h)
      with (let '(v, h1) := load_doc x h in
            let '(vs, h2) := items kvs h1 in ((k, v) :: vs, h2)).
    cbn [load_items map fst snd]. destruct (load_doc x h) as [v h1]. rewrite IH.
    now destruct (load_items (map snd kvs) h1). }
  rewrite Hi. now destruct (load_items (map snd kvs) h).
Qed.

(** ** The round trip of a configuration that shares no object *)

Lemma memo_get_cons l l0 l' memo :
  l <> l0 -> memo_get l ((l0, l') :: memo) = memo_get l memo.
Proof. intros H. cbn [memo_get]. apply Nat.eqb_neq in H. now rewrite H. Qed.

Section CopyTree.
Variables (base fuel : nat) (h : list object).

Hypothesis copy_rec :
  forall v t ls memo out,
    dump_value fuel h v = Some t -> cells fuel h v = Some ls -> NoDup ls ->
    (forall l, l ∈ ls -> memo_get l memo = None) ->
    exists v' ext memo',
      copy_value fuel base h (memo, out) v = Some (v', (memo', (out ++ ext)%list))
      /\ (forall H, length H = (base + length out)%nat ->
            load_doc (sort_doc t) H = (v', (H ++ ext)%list))
      /\ (forall l, l ∉ ls -> memo_get l memo' = memo_get l memo).

Lemma copy_values_tree :
  forall vs ts, Forall2 (fun v t => dump_value fuel h v = Some t) vs ts ->
  forall lss memo out,
    Forall2 (fun v ls => cells fuel h v = Some ls) vs lss ->
    NoDup (concat lss) ->
    (forall l, l ∈ concat lss -> memo_get l memo = None) ->
    exists vs' ext memo',
      copy_values (copy_value fuel base h) (memo, out) vs
      = Some (vs', (memo', (out ++ ext)%list))
      /\ (forall H, length H = (base + length out)%nat ->
            load_items (map sort_doc ts) H = (vs', (H ++ ext)%list))
      /\ (forall l, l ∉ concat lss -> memo_get l memo' = memo_get l memo).
Proof.
  induction 1 as [|v t vs ts Hv _ IH]; intros lss memo out Hc Hnd Hm.
  - inversion Hc; subst. exists [], [], memo. rewrite app_nil_r.
    split; [reflexivity|]. split; [|reflexivity]. intros H _. now rewrite app_nil_r.
  - inversion Hc as [|? ls ? lss' Hls Hc']; subst. cbn [concat] in Hnd, Hm.
    apply NoDup_app in Hnd as (Hnd1 & Hdisj & Hnd2).
    destruct (copy_rec v t ls memo out Hv Hls Hnd1) as (v' & e1 & memo1 & E1 & L1 & M1).
    { intros l Hl. apply Hm, elem_of_app. now left. }
    destruct (IH lss' memo1 (out ++ e1)%list Hc' Hnd2) as (vs' & e2 & memo2 & E2 & L2 & M2).
    { intros l Hl. rewrite M1; [apply Hm, elem_of_app; now right|].
      intros Hl1. exact (Hdisj l Hl1 Hl). }
    exists (v' :: vs'), (e1 ++ e2)%list, memo2. cbn [copy_values]. rewrite E1, E2.
    rewrite <- app_assoc. split; [reflexivity|]. split.
    + intros H HH. cbn [map load_items]. rewrite (L1 H HH).
      rewrite (L2 (H ++ e1)%list) by (rewrite !length_app; lia).
      now rewrite <- app_assoc.
    + intros l Hl. rewrite M2, M1; [reflexivity| |];
        intros Hin; apply Hl, elem_of_app; [now left|now right].
Qed.

End CopyTree.

Lemma copy_value_tree (base fuel : nat) (h : list object) :
  forall v t ls memo out,
    dump_value fuel h v = Some t -> cells fuel h v = Some ls -> NoDup ls ->
    (forall l, l ∈ ls -> memo_get l memo = None) ->
    exists v' ext memo',
      copy_value fuel base h (memo, out) v = Some (v', (memo', (out ++ ext)%list))
      /\ (forall H, length H = (base + length out)%nat ->
            load_doc (sort_doc t) H = (v', (H ++ ext)%list))
      /\ (forall l, l ∉ ls -> memo_get l memo' = memo_get l memo).
Proof.
  induction fuel as [|fuel IH]; intros v t ls memo out Hd Hc Hnd Hm.
  - destruct v; try discriminate Hd;
      (inversion Hd; subst; eexists; exists [], memo; rewrite app_nil_r;
       split; [reflexivity|]; split; [|reflexivity]; intros H _; now rewrite app_nil_r).
  - destruct v;
      try (inversion Hd; subst; eexists; exists [], memo; rewrite app_nil_r;
           split; [reflexivity|]; split; [|reflexivity]; intros H _; now rewrite app_nil_r).
    cbn [dump_value cells] in Hd, Hc.
    destruct (h !! l) as [[vs|kvs]|] eqn:El; [| |discriminate Hd].
    + destruct (mapM (dump_value fuel h) vs) as [ts|] eqn:Ed; [|discriminate Hd].
      destruct (mapM (cells fuel h) vs) as [lss|] eqn:Ec; [|discriminate Hc].
      cbn in Hd, Hc. inversion Hd; subst t. inversion Hc; subst ls. clear Hd Hc.
      apply mapM_Some in Ed, Ec.
      apply NoDup_app in Hnd as (Hnd1 & Hdisj & _).
      destruct (copy_values_tree base fuel h (IH) vs ts Ed lss memo out Ec Hnd1)
        as (vs' & ext & memo' & E & L & M).
      { intros l0 Hl0. apply Hm, elem_of_app. now left. }
      exists (VRef (base + length (out ++ ext))), (ext ++ [OList vs'])%list,
        ((l, (base + length (out ++ ext))%nat) :: memo').
      cbn [copy_value fst]. rewrite (Hm l) by (apply elem_of_app; right; now left).
      rewrite El, E, app_assoc. split; [reflexivity|]. split.
      * intros H HH. cbn [sort_doc]. rewrite load_doc_list, (L H HH).
        rewrite !length_app, HH, app_assoc, Nat.add_assoc. reflexivity.
      * intros l0 Hl0. rewrite memo_get_cons.
        -- apply M. intros Hin. apply Hl0, elem_of_app. now left.
        -- intros ->. apply Hl0, elem_of_app. right. now left.
    + destruct (mapM (fun kv => pair (fst kv) <$> dump_value fuel h (snd kv)) kvs)
        as [kts|] eqn:Ed; [|discriminate Hd].
      destruct (mapM (cells fuel h) (map snd kvs)) as [lss|] eqn:Ec; [|discriminate Hc].
      cbn in Hd, Hc. inversion Hd; subst t. inversion Hc; subst ls. clear Hd Hc.
      apply mapM_Some in Ed, Ec.
      apply NoDup_app in Hnd as (Hnd1 & Hdisj & _).
      set (R := fun (kv : string * value) (kt : string * pyval) =>
                  fst kv = fst kt /\ dump_value fuel h (snd kv) = Some (snd kt)).
      assert (HR : Forall2 R kvs kts).
      { eapply Forall2_impl; [exact Ed|]. intros [k x] [k' t'] Hx. cbn in Hx.
        destruct (dump_value fuel h x) eqn:Ex; [|discriminate Hx]. cbn in Hx.
        inversion Hx; subst. now split. }
      apply (sort_items_Forall2 R) in HR; [|now intros x y [Hk _]].
      assert (Hkeys : map fst (sort_items kts) = map fst (sort_items kvs)).
      { clear -HR. induction HR as [|x y l1 l2 [Hk _] _ IH]; [reflexivity|].
        cbn [map]. now rewrite IH, Hk. }
      assert (Hdump : Forall2 (fun v t => dump_value fuel h v = Some t)
                        (map snd (sort_items kvs)) (map snd (sort_items kts))).
      { clear -HR. induction HR as [|x y l1 l2 [_ Hx] _ IH]; [constructor|].
        cbn [map]. now constructor. }
      assert (Hcells : exists lss', lss ≡ₚ lss'
                /\ Forall2 (fun v ls => cells fuel h v = Some ls)
                     (map snd (sort_items kvs)) lss').
      { apply (Forall2_perm_l _ (map snd kvs)); [|exact Ec].
        apply Permutation_map. symmetry. apply sort_items_perm. }
      destruct Hcells as (lss' & Hperm & Hc').
      apply concat_perm in Hperm.
      destruct (copy_values_tree base fuel h (IH) _ _ Hdump lss' memo out Hc')
        as (vs' & ext & memo' & E & L & M).
      { now rewrite <- Hperm. }
      { intros l0 Hl0. apply Hm, elem_of_app. left. now rewrite Hperm. }
      exists (VRef (base + length (out ++ ext))),
        (ext ++ [ODict (zip (map fst (sort_items kvs)) vs')])%list,
        ((l, (base + length (out ++ ext))%nat) :: memo').
      cbn [copy_value fst]. rewrite (Hm l) by (apply elem_of_app; right; now left).
      rewrite El. cbv zeta. rewrite E, app_assoc. split; [reflexivity|]. split.
      * intros H HH. rewrite sort_doc_dict, load_doc_dict.
        rewrite map_fst_values, map_snd_values, (L H HH).
        rewrite !length_app, HH, app_assoc, Nat.add_assoc, Hkeys. reflexivity.
      * intros l0 Hl0. rewrite memo_get_cons.
        -- apply M. rewrite <- Hperm. intros Hin. apply Hl0, elem_of_app. now left.
        -- intros ->. apply Hl0, elem_of_app. right. now left.
Qed.

Lemma yaml_round_trip_tree {W : Type} (s : State W) (v : value) (t : pyval) :
  dump_value (S (length (heap s))) (heap s) v = Some t ->
  unshared (heap s) v = true ->
  exists cfg ext,
    yaml_round_trip v s = (Ok cfg, mkState (heap s ++ ext)%list (world s) (trace s))
    /\ load_doc (sort_doc t) (heap s) = (cfg, (heap s ++ ext)%list).
Proof.
  intros Hd Hu. unfold unshared in Hu.
  destruct (cells (S (length (heap s))) (heap s) v) as [ls|] eqn:Ec; [|discriminate Hu].
  apply bool_decide_eq_true_1 in Hu.
  destruct (copy_value_tree (length (heap s)) _ (heap s) v t ls [] [] Hd Ec Hu)
    as (v' & ext & memo' & E & L & _); [reflexivity|].
  exists v', ext. unfold yaml_round_trip. rewrite E. cbn [app]. split; [reflexivity|].
  apply L. cbn [length]. lia.
Qed.

(** A configuration loaded from a document shares no object. *)
Lemma lay_lays_cells h :
  (forall lo hi v t, lay h lo hi v t ->
     forall fuel, (Nat.min hi (length h) - lo < fuel)%nat ->
       exists ls, cells fuel h v = Some ls /\ NoDup ls
                  /\ Forall (fun l => lo <= l < hi)%nat ls)
  /\ (forall lo hi vs ts, lays h lo hi vs ts ->
        forall fuel, (fuel = 0%nat -> vs = []) ->
          (Nat.min hi (length h) - lo < fuel \/ vs = [])%nat ->
          exists lss, mapM (cells fuel h) vs = Some lss /\ NoDup (concat lss)
                      /\ Forall (fun l => lo <= l < hi)%nat (concat lss)).
Proof.
  apply lay_lays_ind; intros.
  - exists []. destruct fuel; (split; [reflexivity|]; split; constructor).
  - exists []. destruct fuel; (split; [reflexivity|]; split; constructor).
  - exists []. destruct fuel; (split; [reflexivity|]; split; constructor).
  - exists []. destruct fuel; (split; [reflexivity|]; split; constructor).
  - exists []. destruct fuel; (split; [reflexivity|]; split; constructor).
  - destruct fuel as [|fuel]; [lia|]. cbn [cells]. rewrite H2.
    pose proof (lookup_lt_Some _ _ _ H2). pose proof (lays_bounds _ _ _ _ _ H).
    destruct (H0 fuel) as (lss & E & Hnd & Hb).
    + intros ->. destruct vs; [reflexivity|]. exfalso. lia.
    + destruct vs; [now right|left]. lia.
    + rewrite E. cbn. eexists. split; [reflexivity|]. split.
      * apply NoDup_app. split; [exact Hnd|]. split; [|apply NoDup_singleton].
        intros x Hx Hl. apply list_elem_of_singleton in Hl. subst x.
        rewrite List.Forall_forall in Hb. apply list_elem_of_In in Hx.
        specialize (Hb _ Hx). lia.
      * apply Forall_app. split.
        -- eapply Forall_impl; [exact Hb|]. cbn. intros; lia.
        -- constructor; [lia|constructor].
  - destruct fuel as [|fuel]; [lia|]. cbn [cells]. rewrite H3.
    pose proof (lookup_lt_Some _ _ _ H3). pose proof (lays_bounds _ _ _ _ _ H).
    destruct (H0 fuel) as (lss & E & Hnd & Hb).
    + intros ->. destruct kvs; [reflexivity|]. exfalso. lia.
    + destruct kvs; [now right|left]. lia.
    + rewrite E. cbn. eexists. split; [reflexivity|]. split.
      * apply NoDup_app. split; [exact Hnd|]. split; [|apply NoDup_singleton].
        intros x Hx Hl. apply list_elem_of_singleton in Hl. subst x.
        rewrite List.Forall_forall in Hb. apply list_elem_of_In in Hx.
        specialize (Hb _ Hx). lia.
      * apply Forall_app. split.
        -- eapply Forall_impl; [exact Hb|]. cbn. intros; lia.
        -- constructor; [lia|constructor].
  - exists []. split; [reflexivity|]. split; constructor.
  - destruct H4 as [H4|H4]; [|discriminate H4].
    pose proof (lay_bounds _ _ _ _ _ H). pose proof (lays_bounds _ _ _ _ _ H1).
    destruct (H0 fuel) as (ls & E1 & Hnd1 & Hb1); [lia|].
    destruct (H2 fuel) as (lss & E2 & Hnd2 & Hb2); [intros ->; lia|left; lia|].
    exists (ls :: lss). cbn [mapM]. rewrite E1. cbn. rewrite E2. cbn.
    split; [reflexivity|]. split.
    + apply NoDup_app. split; [exact Hnd1|]. split; [|exact Hnd2].
      intros x Hx1 Hx2. rewrite List.Forall_forall in Hb1, Hb2.
      apply list_elem_of_In in Hx1, Hx2.
      specialize (Hb1 _ Hx1). specialize (Hb2 _ Hx2). lia.
    + apply Forall_app. split; (eapply Forall_impl; [eassumption|]); cbn; intros; lia.
Qed.

Lemma lay_unshared h lo hi v t : lay h lo hi v t -> unshared h v = true.
Proof.
  intros H. destruct (proj1 (lay_lays_cells h) lo hi v t H (S (length h)))
    as (ls & E & Hnd & _); [lia|].
  unfold unshared. rewrite E. now apply bool_decide_eq_true_2.
Qed.

Lemma sort_doc_kind (t : pyval) :
  match t with PStr s => sort_doc t = PStr s | _ => forall s, sort_doc t <> PStr s end.
Proof. destruct t; try reflexivity; intros s'; discriminate. Qed.

Lemma server_of_sort_doc (cl : pyval) : server_of (sort_doc cl) = server_of cl.
Proof.
  unfold server_of. rewrite field_sort_doc.
  destruct (field "server" cl) as [t|]; [|reflexivity]. cbn.
  pose proof (sort_doc_kind t) as Hk. destruct t; try reflexivity;
    destruct (sort_doc _) eqn:E; try reflexivity; exfalso; eapply Hk; reflexivity.
Qed.

Lemma field_sort_doc_inv (k : string) (t x : pyval) :
  field k (sort_doc t) = Some x -> exists y, field k t = Some y /\ x = sort_doc y.
Proof.
  rewrite field_sort_doc. destruct (field k t) as [y|]; [|discriminate].
  intros E. inversion E. now exists y.
Qed.

Lemma scope_cluster_ok scope_path new_name c c' :
  scope_cluster scope_path new_name c = Some c' -> scoped_cluster_ok scope_path new_name c c'.
Proof.
  unfold scope_cluster. intros H.
  destruct c as [| | | | | |kts]; try discriminate H.
  destruct (dict_get "cluster" kts) as [[| | | | | |ckts]|] eqn:Ecl; try discriminate H.
  destruct (default (PStr EmptyString) (dict_get "server" ckts))
    as [| | | |server| |] eqn:Esv; try discriminate H.
  inversion H; subst c'. split.
  - simpl. rewrite dict_get_set_ne' by reflexivity. apply dict_get_set_eq.
  - exists (PDict ckts), (PDict (dict_set "server" (PStr (rstrip_slash server +:+ scope_path)) ckts)).
    split; [exact Ecl|]. split; [simpl; apply dict_get_set_eq|].
    simpl. unfold server_of. simpl. rewrite Esv. apply dict_get_set_eq.
Qed.

Lemma rename_context_ok new_name x x' :
  rename_context new_name x = Some x' -> renamed_context_ok new_name x'.
Proof.
  unfold rename_context. intros H.
  destruct x as [| | | | | |kts]; try discriminate H. cbv zeta in H.
  destruct (dict_get "context" (dict_set "name" (PStr new_name) kts))
    as [[| | | | | |ikts]|] eqn:Ectx; try discriminate H.
  inversion H; subst x'. split.
  - simpl. rewrite dict_get_set_ne' by reflexivity. apply dict_get_set_eq.
  - eexists. split; [simpl; apply dict_get_set_eq|]. simpl. apply dict_get_set_eq.
Qed.

Lemma set_current_context_other new_name kts k :
  k <> "current-context" ->
  dict_get k (set_current_context new_name kts) = dict_get k kts.
Proof.
  intros Hk. unfold set_current_context.
  destruct (dict_get "current-context" kts) as [t|]; [|reflexivity].
  destruct (truthy t); [|reflexivity]. now apply dict_get_set_ne.
Qed.

Lemma scope_clusters_other scope_path new_name kts kts1 k :
  scope_clusters scope_path new_name kts = Some kts1 ->
  k <> "clusters" -> dict_get k kts1 = dict_get k kts.
Proof.
  unfold scope_clusters. intros H Hk.
  destruct (dict_get "clusters" kts) as [[| | | | |cs|]|]; try discriminate H.
  - destruct (mapM _ cs); [|discriminate H]. simpl in H. inversion H; subst.
    now apply dict_get_set_ne.
  - now inversion H.
Qed.

Lemma rename_contexts_other new_name kts kts1 k :
  rename_contexts new_name kts = Some kts1 ->
  k <> "contexts" -> dict_get k kts1 = dict_get k kts.
Proof.
  unfold rename_contexts. intros H Hk.
  destruct (dict_get "contexts" kts) as [t|]; [|now inversion H].
  destruct (truthy t); [|now inversion H].
  destruct t; try discriminate H.
  destruct (mapM _ xs); [|discriminate H]. simpl in H. inversion H; subst.
  now apply dict_get_set_ne.
Qed.

Lemma edited_document_fields doc scope_path new_name doc' :
  edited_document doc scope_path new_name = Some doc' ->
  (forall cs,
      field "clusters" doc = Some (PList cs) ->
      exists cs', field "clusters" doc' = Some (PList cs')
                  /\ Forall2 (scoped_cluster_ok scope_path new_name) cs cs')
  /\ (forall xs,
        field "contexts" doc = Some (PList xs) -> xs <> [] ->
        exists xs', field "contexts" doc' = Some (PList xs')
                    /\ length xs' = length xs
                    /\ Forall (renamed_context_ok new_name) xs')
  /\ (forall t,
        field "current-context" doc = Some t -> truthy t = true ->
        field "current-context" doc' = Some (PStr new_name))
  /\ (forall k,
        k <> "clusters" -> k <> "contexts" -> k <> "current-context" ->
        field k doc' = field k doc).
Proof.
  unfold edited_document. intros H.
  destruct doc as [| | | | | |kts]; try discriminate H.
  destruct (scope_clusters scope_path new_name kts) as [kts1|] eqn:E1; [|discriminate H].
  simpl in H.
  destruct (rename_contexts new_name kts1) as [kts2|] eqn:E2; [|discriminate H].
  simpl in H. inversion H; subst doc'. clear H. simpl.
  split; [|split; [|split]].
  - intros cs Hcs.
    rewrite set_current_context_other by discriminate.
    rewrite (rename_contexts_other _ _ _ _ E2) by discriminate.
    unfold scope_clusters in E1. rewrite Hcs in E1.
    destruct (mapM (scope_cluster scope_path new_name) cs) as [cs'|] eqn:Em; [|discriminate E1].
    simpl in E1. inversion E1; subst kts1. exists cs'. split; [apply dict_get_set_eq|].
    apply mapM_Some_1 in Em. eapply Forall2_impl; [exact Em|].
    intros c c'. apply scope_cluster_ok.
  - intros xs Hxs Hne.
    rewrite set_current_context_other by discriminate.
    unfold rename_contexts in E2.
    rewrite (scope_clusters_other _ _ _ _ "contexts" E1), Hxs in E2 by discriminate.
    replace (truthy (PList xs)) with true in E2 by now destruct xs.
    destruct (mapM (rename_context new_name) xs) as [xs'|] eqn:Em; [|discriminate E2].
    simpl in E2. inversion E2; subst kts2. exists xs'. split; [apply dict_get_set_eq|].
    apply mapM_Some_1 in Em. split; [symmetry; eapply Forall2_length; exact Em|].
    eapply Forall2_Forall_r; [exact Em|]. apply Forall_forall. intros x' _ x.
    apply rename_context_ok.
  - intros t Ht Htr. unfold set_current_context.
    rewrite (rename_contexts_other _ _ _ "current-context" E2) by discriminate.
    rewrite (scope_clusters_other _ _ _ _ "current-context" E1) by discriminate.
    rewrite Ht, Htr. apply dict_get_set_eq.
  - intros k H1 H2 H3.
    rewrite set_current_context_other by exact H3.
    rewrite (rename_contexts_other _ _ _ k E2) by exact H2.
    now rewrite (scope_clusters_other _ _ _ _ k E1) by exact H1.
Qed.

Lemma scoped_cluster_ok_sort scope_path new_name c c' :
  scoped_cluster_ok scope_path new_name (sort_doc c) c' ->
  scoped_cluster_ok scope_path new_name c c'.
Proof.
  intros (Hn & cl & cl' & Hcl & Hcl' & Hs).
  apply field_sort_doc_inv in Hcl as (y & Hy & ->). rewrite server_of_sort_doc in Hs.
  split; [exact Hn|]. now exists y, cl'.
Qed.

Lemma scoped_document_fields doc scope_path new_name doc' :
  scoped_document doc scope_path new_name = Some doc' ->
  (forall cs,
      field "clusters" doc = Some (PList cs) ->
      exists cs', field "clusters" doc' = Some (PList cs')
                  /\ Forall2 (scoped_cluster_ok scope_path new_name) cs cs')
  /\ (forall xs,
        field "contexts" doc = Some (PList xs) -> xs <> [] ->
        exists xs', field "contexts" doc' = Some (PList xs')
                    /\ length xs' = length xs
                    /\ Forall (renamed_context_ok new_name) xs')
  /\ (forall t,
        field "current-context" doc = Some t -> truthy t = true ->
        field "current-context" doc' = Some (PStr new_name))
  /\ (forall k,
        k <> "clusters" -> k <> "contexts" -> k <> "current-context" ->
        field k doc' = sort_doc <$> field k doc).
Proof.
  unfold scoped_document. intros H.
  apply edited_document_fields in H as (Hc & Hx & Hcur & Hk).
  split; [|split; [|split]].
  - intros cs Hcs. destruct (Hc (map sort_doc cs)) as (cs' & Hf & HF).
    { rewrite field_sort_doc, Hcs. reflexivity. }
    exists cs'. split; [exact Hf|].
    change (Forall2 (scoped_cluster_ok scope_path new_name) (sort_doc <$> cs) cs') in HF.
    rewrite Forall2_fmap_l in HF.
    eapply Forall2_impl; [exact HF|]. intros c c'. apply scoped_cluster_ok_sort.
  - intros xs Hxs Hne. destruct (Hx (map sort_doc xs)) as (xs' & Hf & Hl & HF).
    { rewrite field_sort_doc, Hxs. reflexivity. }
    { now destruct xs. }
    exists xs'. split; [exact Hf|]. split; [|exact HF]. now rewrite Hl, length_map.
  - intros t Ht Htr. apply (Hcur (sort_doc t)).
    + rewrite field_sort_doc, Ht. reflexivity.
    + now rewrite truthy_sort_doc.
  - intros k H1 H2 H3. rewrite Hk by assumption. apply field_sort_doc.
Qed.

Lemma dump_value_fuel fuel :
  forall fuel' h v t,
    dump_value fuel h v = Some t -> (fuel <= fuel')%nat -> dump_value fuel' h v = Some t.
Proof.
  induction fuel as [|fuel IH]; intros fuel' h v t E Hle.
  - destruct v; try (destruct fuel'; exact E). discriminate E.
  - destruct fuel' as [|fuel']; [lia|].
    destruct v; try exact E. cbn [dump_value] in *.
    destruct (h !! l) as [[vs|kvs]|]; [| |discriminate E].
    + destruct (mapM (dump_value fuel h) vs) as [ts|] eqn:Em; [|discriminate E].
      apply mapM_Some in Em.
      assert (Hm : mapM (dump_value fuel' h) vs = Some ts).
      { apply mapM_Some. eapply Forall2_impl; [exact Em|]. intros x y Hx.
        eapply IH; [exact Hx|lia]. }
      now rewrite Hm.
    + destruct (mapM (fun kv => pair (fst kv) <$> dump_value fuel h (snd kv)) kvs)
        as [ts|] eqn:Em; [|discriminate E].
      apply mapM_Some in Em.
      assert (Hm : mapM (fun kv => pair (fst kv) <$> dump_value fuel' h (snd kv)) kvs
                   = Some ts).
      { apply mapM_Some. eapply Forall2_impl; [exact Em|]. intros [k x] y. simpl.
        destruct (dump_value fuel h x) eqn:Ex; [|discriminate].
        rewrite (IH fuel' _ _ _ Ex) by lia. auto. }
      now rewrite Hm.
Qed.

Lemma dump_value_extend (h ext : list object) (v : value) (t : pyval) :
  dump_value (S (length h)) h v = Some t ->
  dump_value (S (length (h ++ ext))) (h ++ ext)%list v = Some t.
Proof.
  intros E. eapply dump_value_fuel; [apply dump_value_app; exact E|].
  rewrite length_app. lia.
Qed.

Lemma build_scoped_kubeconfig_extends
    (W : Type) (base_cfg : value) (scope_path new_name : string) (s s' : State W)
    (r : Res value) :
  build_scoped_kubeconfig base_cfg scope_path new_name s = (r, s') ->
  exists ext, heap s' = (heap s ++ ext)%list /\ world s' = world s /\ trace s' = trace s.
Proof.
  intros Hrun.
  assert (Hcl : closed_above (length (heap s)) (heap s)).
  { intros l o Hl Hlook. apply lookup_lt_Some in Hlook. lia. }
  destruct (keeps_build_scoped_kubeconfig (length (heap s)) base_cfg scope_path new_name
              s _ s' (le_n _) Hcl Hrun) as (Ht & _ & _ & Hw & Htr & _).
  rewrite firstn_all in Ht.
  exists (drop (length (heap s)) (heap s')). split; [|now split].
  rewrite <- Ht at 1. now rewrite take_drop.
Qed.

(** On a base configuration of the kubeconfig shape that shares no object
    the call returns, and what it returns stands for the scoped document. *)
Lemma build_scoped_kubeconfig_returns
    (W : Type) (base_cfg : value) (scope_path new_name : string) (s : State W)
    (doc doc' : pyval) :
  dump_value (S (length (heap s))) (heap s) base_cfg = Some doc ->
  unshared (heap s) base_cfg = true ->
  scoped_document doc scope_path new_name = Some doc' ->
  exists cfg s',
    build_scoped_kubeconfig base_cfg scope_path new_name s = (Ok cfg, s')
    /\ dump_value (S (length (heap s'))) (heap s') cfg = Some doc'.
Proof.
  intros Hdump Hun Hspec.
  destruct (yaml_round_trip_tree s base_cfg doc Hdump Hun) as (cfg & ext0 & Hrt & El).
  unfold scoped_document, edited_document in Hspec.
  destruct (sort_doc doc) as [| | | | | |kts]; try discriminate Hspec.
  destruct (scope_clusters scope_path new_name kts) as [kts1|] eqn:E1; [|discriminate Hspec].
  simpl in Hspec.
  destruct (rename_contexts new_name kts1) as [kts2|] eqn:E2; [|discriminate Hspec].
  simpl in Hspec. inversion Hspec; subst doc'. clear Hspec.
  set (h1 := (heap s ++ ext0)%list) in *.
  pose proof El as El'.
  apply load_doc_lay in El' as (ext & Hh1 & Hlay).
  set (s2 := mkState (h1 ++ [OList []])%list (world s) (trace s)).
  assert (Hlay2 : lay (heap s2) (length (heap s)) (length h1) cfg (PDict kts)).
  { eapply lay_frame; [exact Hlay|]. intros l Hl. unfold s2. cbn [heap].
    apply lookup_app_l. lia. }
  assert (Hle : heap s2 !! length h1 = Some (OList [])).
  { unfold s2. cbn [heap]. rewrite lookup_app_r by lia. now rewrite Nat.sub_diag. }
  destruct (step_clusters scope_path new_name _ _ cfg kts kts1 (length h1) s2 Hlay2 Hle E1)
    as (s3 & Hrun3 & _ & Hlay3).
  destruct (step_contexts new_name _ _ cfg kts1 kts2 s3 Hlay3 E2) as (s4 & Hrun4 & _ & Hlay4).
  destruct (step_current_context new_name _ _ cfg kts2 s4 Hlay4) as (s5 & Hrun5 & Hlay5).
  exists cfg, s5. split; [|eapply lay_dump; exact Hlay5].
  unfold build_scoped_kubeconfig.
  unfold bind at 1. rewrite Hrt.
  unfold bind at 1. unfold alloc at 1. cbn [heap world trace]. fold h1. fold s2.
  rewrite Hrun3, Hrun4, Hrun5. reflexivity.
Qed.

(** X21: on a base configuration of the kubeconfig shape that shares no
    list or dict between two places, [build_scoped_kubeconfig] returns a
    deep copy that dumps to the scoped document, and leaves the base as it
    was: the base dumps to the same document after the call.  In the scoped
    document every cluster entry carries the new name and the server of the
    base entry, stripped of its trailing slashes and suffixed with the scope
    path; every context entry (of a non-empty list) carries the new name
    and points at the cluster of that name; a truthy current-context is the
    new name; every other top-level key holds the value of the base, with
    the keys of its dicts sorted as the dump through YAML sorts them. *)
Theorem build_scoped_kubeconfig_document
    (W : Type) (base_cfg : value) (scope_path new_name : string) (s : State W)
    (doc doc' : pyval) :
  dump_value (S (length (heap s))) (heap s) base_cfg = Some doc ->
  unshared (heap s) base_cfg = true ->
  scoped_document doc scope_path new_name = Some doc' ->
  (exists cfg s',
      build_scoped_kubeconfig base_cfg scope_path new_name s = (Ok cfg, s')
      /\ dump_value (S (length (heap s'))) (heap s') cfg = Some doc'
      /\ dump_value (S (length (heap s'))) (heap s') base_cfg = Some doc)
  /\ (forall cs,
        field "clusters" doc = Some (PList cs) ->
        exists cs', field "clusters" doc' = Some (PList cs')
                    /\ Forall2 (scoped_cluster_ok scope_path new_name) cs cs')
  /\ (forall xs,
        field "contexts" doc = Some (PList xs) -> xs <> [] ->
        exists xs', field "contexts" doc' = Some (PList xs')
                    /\ length xs' = length xs
                    /\ Forall (renamed_context_ok new_name) xs')
  /\ (forall t,
        field "current-context" doc = Some t -> truthy t = true ->
        field "current-context" doc' = Some (PStr new_name))
  /\ (forall k,
        k <> "clusters" -> k <> "contexts" -> k <> "current-context" ->
        field k doc' = sort_doc <$> field k doc).
Proof.
  intros Hdump Hun Hspec. split; [|now apply scoped_document_fields].
  destruct (build_scoped_kubeconfig_returns W base_cfg scope_path new_name s doc doc'
              Hdump Hun Hspec) as (cfg & s' & Hrun & Hcfg).
  exists cfg, s'. split; [exact Hrun|]. split; [exact Hcfg|].
  destruct (build_scoped_kubeconfig_extends W base_cfg scope_path new_name s s' _ Hrun)
    as (ext & Hext & _ & _).
  rewrite Hext. now apply dump_value_extend.
Qed.

Lemma build_scoped_kubeconfig_document_witness :
  let base_cfg := fst (load_doc sample_kubeconfig []) in
  let s0 := mkState (snd (load_doc sample_kubeconfig [])) (world sim_start) [] in
  exists doc' cfg s',
    scoped_document sample_kubeconfig (org_scope "perf-org") "organization-perf-org" = Some doc'
    /\ build_scoped_kubeconfig base_cfg (org_scope "perf-org") "organization-perf-org" s0
       = (Ok cfg, s')
    /\ dump_value (S (length (heap s'))) (heap s') cfg = Some doc'
    /\ dump_value (S (length (heap s'))) (heap s') base_cfg = Some sample_kubeconfig
    /\ field "current-context" doc' = Some (PStr "organization-perf-org").
Proof.
  intros base_cfg s0.
  destruct (scoped_document sample_kubeconfig (org_scope "perf-org") "organization-perf-org")
    as [doc'|] eqn:Es; [|discriminate Es].
  destruct (build_scoped_kubeconfig_document SimWorld base_cfg (org_scope "perf-org")
              "organization-perf-org" s0 sample_kubeconfig doc' eq_refl eq_refl Es)
    as ((cfg & s' & Hrun & Hd & Hb) & _ & _ & Hcur & _).
  exists doc', cfg, s'. repeat split; auto.
  apply (Hcur (PStr "milo")); reflexivity.
Defined.

(** ** Cleanup, run again *)

Section Cleanup.
Context {W : Type} {P : Platform W} {L : PyLib}.

Lemma sip_ret {A} (a : A) : settles_in_place (ret (W := W) a).
Proof. intros s. exists s. split; [reflexivity|left; now exists a]. Qed.

Lemma sip_raise {A} e : settles_in_place (raise (W := W) (A := A) e).
Proof. intros s. exists s. split; [reflexivity|right; now exists e]. Qed.

Lemma sip_invoke {A} op (f : Ext W A) : settles_in_place (invoke op f).
Proof.
  intros s. unfold invoke. destruct (f (world s)) as [[e|a] w'];
    eexists; (split; [|first [left; eexists; reflexivity|right; eexists; reflexivity]]);
    reflexivity.
Qed.

Lemma sip_bind {A B} (c : Py W A) (k : A -> Py W B) :
  settles_in_place c -> (forall a, settles_in_place (k a)) -> settles_in_place (bind c k).
Proof.
  intros Hc Hk s. destruct (Hc s) as (s1 & Hh & [[a E]|[e E]]); unfold bind; rewrite E.
  - destruct (Hk a s1) as (s2 & Hh2 & Hr). exists s2. split; [congruence|exact Hr].
  - exists s1. split; [exact Hh|right; eauto].
Qed.

Lemma sip_try_except {A} (c : Py W A) h :
  settles_in_place c -> (forall e, settles_in_place (h e)) -> settles_in_place (try_except c h).
Proof.
  intros Hc Hh s. destruct (Hc s) as (s1 & Hs & [[a E]|[e E]]); unfold try_except; rewrite E.
  - exists s1. split; [exact Hs|left; eauto].
  - destruct (Hh e s1) as (s2 & Hh2 & Hr). exists s2. split; [congruence|exact Hr].
Qed.

Lemma sip_for_each {A} (xs : list A) (body : A -> Py W unit) :
  (forall x, settles_in_place (body x)) -> settles_in_place (for_each xs body).
Proof.
  intros Hb. induction xs as [|x xs IH]; [apply sip_ret|].
  cbn [for_each]. apply sip_bind; [apply Hb|intros _; exact IH].
Qed.

Lemma sip_cleanup_secrets v1 label_sel : settles_in_place (cleanup_secrets v1 label_sel).
Proof.
  unfold cleanup_secrets. apply sip_try_except.
  - apply sip_bind; [apply sip_invoke|]. intros sl. apply sip_for_each. intros x.
    apply sip_try_except; [apply sip_invoke|].
    intros []; try apply sip_raise. destruct (negb _); [apply sip_raise|apply sip_ret].
  - intros []; try apply sip_raise. apply sip_ret.
Qed.

Lemma sip_cleanup_configmaps v1 label_sel :
  settles_in_place (cleanup_configmaps v1 label_sel).
Proof.
  unfold cleanup_configmaps. apply sip_try_except.
  - apply sip_bind; [apply sip_invoke|]. intros sl. apply sip_for_each. intros x.
    apply sip_try_except; [apply sip_invoke|].
    intros []; try apply sip_raise. destruct (negb _); [apply sip_raise|apply sip_ret].
  - intros []; try apply sip_raise. apply sip_ret.
Qed.

(** A delete that can only fail with 404 or 409, under [tolerate_gone]. *)
Lemma delete_tolerated op (f : Ext W pyval) (s : State W) :
  gone_or_ok f ->
  exists s', heap s' = heap s
             /\ try_except (invoke op f ;;; ret tt) tolerate_gone s = (Ok tt, s').
Proof.
  intros Hf. unfold try_except, bind, invoke.
  destruct (Hf (world s)) as [(a & w' & E)|(e & w' & E & Hg)]; rewrite E.
  - eexists. split; [|reflexivity]. reflexivity.
  - destruct e; try discriminate Hg. unfold tolerate_gone. cbn [gone] in Hg. rewrite Hg.
    eexists. split; [|reflexivity]. reflexivity.
Qed.

(** The client of a configuration that stands for a document. *)
Lemma kube_client_from_config_settles (cfg : value) (doc : pyval) (s : State W) :
  dump_value (S (length (heap s))) (heap s) cfg = Some doc ->
  exists s', heap s' = heap s
             /\ ((exists c, kube_client_from_config cfg s = (Ok c, s'))
                 \/ (exists e, kube_client_from_config cfg s = (Raise e, s'))).
Proof.
  intros Hd.
  assert (E : kube_client_from_config cfg s = invoke "KubeConfigLoader" (load_client doc) s).
  { unfold kube_client_from_config, bind, snapshot. now rewrite Hd. }
  rewrite E. apply (sip_invoke "KubeConfigLoader" (load_client doc) s).
Qed.

Lemma kube_client_from_config_returns (cfg : value) (doc : pyval) (s : State W) :
  (forall d w, exists c w', load_client d w = (inr c, w')) ->
  dump_value (S (length (heap s))) (heap s) cfg = Some doc ->
  exists c s', heap s' = heap s /\ kube_client_from_config cfg s = (Ok c, s').
Proof.
  intros Hc Hd.
  assert (E0 : kube_client_from_config cfg s = invoke "KubeConfigLoader" (load_client doc) s).
  { unfold kube_client_from_config, bind, snapshot. now rewrite Hd. }
  rewrite E0. unfold invoke. destruct (Hc doc (world s)) as (c & w' & E). rewrite E.
  eexists _, _. split; [|reflexivity]. reflexivity.
Qed.

Lemma cleanup_project_gone (base_cfg : value) (org_coapi : ApiClient) (test_id : string)
    (item : pyval) (doc : pyval) (s : State W) :
  (forall c plural name,
      gone_or_ok (delete_cluster_custom_object c api_group api_version plural name)) ->
  (forall scope name, is_Some (scoped_document doc scope name)) ->
  (exists md nm, py_getitem item "metadata" = inr md /\ py_getitem md "name" = inr nm) ->
  dump_value (S (length (heap s))) (heap s) base_cfg = Some doc ->
  unshared (heap s) base_cfg = true ->
  exists s' ext,
    cleanup_project base_cfg org_coapi test_id item s = (Ok tt, s')
    /\ heap s' = (heap s ++ ext)%list.
Proof.
  intros Hdel Hshape (md & nm & Hmd & Hnm) Hd Hun. unfold cleanup_project.
  unfold bind at 1. rewrite Hmd. cbn [lift].
  unfold bind at 1. rewrite Hnm. cbn [lift].
  unfold bind at 1. unfold log, emit at 1.
  set (s1 := mkState (heap s) (world s) _).
  assert (Hd1 : dump_value (S (length (heap s1))) (heap s1) base_cfg = Some doc) by exact Hd.
  destruct (Hshape (project_scope (py_str nm)) ("project-" +:+ py_str nm)) as [doc' Hdoc'].
  destruct (build_scoped_kubeconfig_returns W base_cfg _ _ s1 doc doc' Hd1 Hun Hdoc')
    as (cfg & s2 & Hrun & Hcfg).
  destruct (build_scoped_kubeconfig_extends W base_cfg _ _ s1 s2 _ Hrun)
    as (ext & Hext & _ & _).
  assert (Hblock : exists s3, heap s3 = heap s2 /\
            try_except
              (proj_cfg <- build_scoped_kubeconfig base_cfg (project_scope (py_str nm))
                             ("project-" +:+ py_str nm) ;;
               proj_client <- kube_client_from_config proj_cfg ;;
               cleanup_secrets (Some proj_client) (label_selector test_id) ;;;
               cleanup_configmaps (Some proj_client) (label_selector test_id))
              (fun _ => ret tt) s1 = (Ok tt, s3)).
  { unfold try_except. unfold bind at 1. rewrite Hrun.
    destruct (kube_client_from_config_settles cfg doc' s2 Hcfg)
      as (s3 & Hh3 & [[c E]|[e E]]); unfold bind at 1; rewrite E.
    - destruct (sip_bind (cleanup_secrets (Some c) (label_selector test_id))
                  (fun _ => cleanup_configmaps (Some c) (label_selector test_id))
                  (sip_cleanup_secrets _ _) (fun _ => sip_cleanup_configmaps _ _) s3)
        as (s4 & Hh4 & [[[] E4]|[e E4]]); rewrite E4.
      + exists s4. split; [congruence|reflexivity].
      + exists s4. split; [congruence|reflexivity].
    - exists s3. split; [exact Hh3|reflexivity]. }
  destruct Hblock as (s3 & Hh3 & Hblock).
  unfold bind at 1. rewrite Hblock.
  destruct (delete_tolerated ("delete projects/" +:+ py_str nm) _ s3
              (Hdel org_coapi "projects" (py_str nm))) as (s4 & Hh4 & E4).
  rewrite E4. exists s4, ext. split; [reflexivity|]. rewrite Hh4, Hh3, Hext. reflexivity.
Qed.

Lemma cleanup_projects_gone (base_cfg : value) (org_coapi : ApiClient) (test_id : string)
    (doc : pyval) (its : list pyval) (lo hi : nat) :
  (forall c plural name,
      gone_or_ok (delete_cluster_custom_object c api_group api_version plural name)) ->
  (forall scope name, is_Some (scoped_document doc scope name)) ->
  Forall (fun item => exists md nm,
            py_getitem item "metadata" = inr md /\ py_getitem md "name" = inr nm) its ->
  forall s,
    lay (heap s) lo hi base_cfg doc -> (hi <= length (heap s))%nat ->
    exists s', for_each its (cleanup_project base_cfg org_coapi test_id) s = (Ok tt, s').
Proof.
  intros Hdel Hshape Hits. induction Hits as [|item its Hitem _ IH]; intros s Hlay Hhi.
  - now exists s.
  - cbn [for_each].
    destruct (cleanup_project_gone base_cfg org_coapi test_id item doc s Hdel Hshape Hitem
                (lay_dump _ _ _ _ _ Hlay) (lay_unshared _ _ _ _ _ Hlay))
      as (s1 & ext & E & Hext).
    unfold bind at 1. rewrite E. apply IH.
    + eapply lay_frame; [exact Hlay|]. intros l Hl. rewrite Hext. apply lookup_app_l. lia.
    + rewrite Hext, length_app. lia.
Qed.

End Cleanup.

Lemma cleanup_resources_gone
    (W : Type) (P : Platform W) (L : PyLib) (milo_kubeconfig_path test_id org_name : string) :
  (forall w, exists doc w',
      yaml_load_file milo_kubeconfig_path w = (inr doc, w')
      /\ forall scope name, is_Some (scoped_document doc scope name)) ->
  (forall doc w, exists c w', load_client doc w = (inr c, w')) ->
  (forall c w, exists proj_list w',
      list_cluster_custom_object c api_group api_version "projects"
        (label_selector test_id) w = (inr proj_list, w')
      /\ project_listing proj_list) ->
  (forall c plural name,
      gone_or_ok (delete_cluster_custom_object c api_group api_version plural name)) ->
  forall s, exists s',
    cleanup_resources milo_kubeconfig_path test_id org_name s = (Ok tt, s')
    /\ exists evs err,
         trace s' = (evs ++ [EvCall ("delete organizations/" +:+ org_name) err])%list.
Proof.
  intros Hfile Hclient Hlist Hdel s. unfold cleanup_resources.
  (* the base configuration *)
  unfold bind at 1. unfold load_yaml_file, bind at 1. unfold invoke at 1.
  destruct (Hfile (world s)) as (doc & w1 & Efile & Hshape). rewrite Efile.
  unfold yaml_safe_load at 1. cbn [heap world trace].
  destruct (load_doc doc (heap s)) as [base_cfg h1] eqn:El.
  pose proof El as El'. apply load_doc_lay in El' as (ext & Hh1 & Hlay).
  pose proof (lay_bounds _ _ _ _ _ Hlay) as Hb.
  set (s1 := mkState h1 w1 _).
  assert (Hd1 : dump_value (S (length (heap s1))) (heap s1) base_cfg = Some doc)
    by (apply lay_dump in Hlay; exact Hlay).
  destruct (kube_client_from_config_returns base_cfg doc s1 Hclient Hd1)
    as (coapi & s2 & Hh2 & E2).
  unfold bind at 1. rewrite E2.
  (* the organization-scoped configuration *)
  assert (Hd2 : dump_value (S (length (heap s2))) (heap s2) base_cfg = Some doc)
    by (rewrite Hh2; exact Hd1).
  assert (Hun2 : unshared (heap s2) base_cfg = true)
    by (rewrite Hh2; exact (lay_unshared _ _ _ _ _ Hlay)).
  destruct (Hshape (org_scope org_name) ("organization-" +:+ org_name)) as [doc' Hdoc'].
  destruct (build_scoped_kubeconfig_returns W base_cfg _ _ s2 doc doc' Hd2 Hun2 Hdoc')
    as (org_cfg & s3 & E3 & Hcfg).
  destruct (build_scoped_kubeconfig_extends W base_cfg _ _ s2 s3 _ E3)
    as (ext3 & Hext3 & _ & _).
  unfold bind at 1. rewrite E3.
  destruct (kube_client_from_config_returns org_cfg doc' s3 Hclient Hcfg)
    as (org_coapi & s4 & Hh4 & E4).
  unfold bind at 1. rewrite E4.
  (* the listing *)
  unfold bind at 1. unfold invoke at 1.
  destruct (Hlist coapi (world s4)) as (pl & w5 & E5 & items & its & Hitems & Hiter & Hits).
  rewrite E5.
  unfold bind at 1. rewrite Hitems. cbn [lift].
  unfold bind at 1. rewrite Hiter. cbn [lift].
  set (s5 := mkState (heap s4) w5 _).
  assert (Hh5 : heap s5 = (h1 ++ ext3)%list).
  { unfold s5. cbn [heap]. now rewrite Hh4, Hext3, Hh2. }
  assert (Hlay5 : lay (heap s5) (length (heap s)) (length h1) base_cfg doc).
  { eapply lay_frame; [exact Hlay|]. intros l Hl. rewrite Hh5. apply lookup_app_l. lia. }
  destruct (cleanup_projects_gone base_cfg org_coapi test_id doc its _ _ Hdel Hshape Hits
              s5 Hlay5) as (s6 & E6).
  { rewrite Hh5, length_app. lia. }
  unfold bind at 1. rewrite E6.
  (* the organization *)
  unfold try_except, bind, invoke.
  destruct (Hdel coapi "organizations" org_name (world s6)) as [(a & w' & E)|(e & w' & E & Hg)];
    rewrite E.
  - eexists. split; [reflexivity|]. cbn [trace]. eauto.
  - destruct e; try discriminate Hg. unfold tolerate_gone. cbn [gone] in Hg. rewrite Hg.
    eexists. split; [reflexivity|]. cbn [trace]. eauto.
Qed.



(** A second cleanup pass: the Project is still listed, and every delete
    answers 404. *)
Definition sim_already_gone : Sim := {|
  sim_env := fun name =>
    if String.eqb name "RUN_MODE" then Some "Cleanup" else sim_env sim_default name;
  sim_yaml := sim_yaml sim_default;
  sim_client := sim_client sim_default;
  sim_incluster := fun _ => inl (OtherException "not in a cluster");
  sim_create := sim_create sim_default;
  sim_get := sim_get sim_default;
  sim_list := fun _ _ => inr (PDict [("items", PList [listed_project "perf-org-p-001"])]);
  sim_delete := fun _ _ _ => inl (ApiException 404 None);
  sim_cm_read := sim_cm_read sim_default;
  sim_cm_write := sim_cm_write sim_default;
  sim_cm_delete := fun _ _ => inl (ApiException 404 None);
  sim_cm_list := fun _ => inl (ApiException 404 None);
  sim_secret_write := sim_secret_write sim_default;
  sim_secret_list := fun _ => inl (OtherException "connection reset");
  sim_request := sim_request sim_default;
  sim_file := sim_file sim_default |}.


(** The run behind the witness: the Secret list of the project fails with
    an exception that is no API error, the ConfigMaps are then not looked
    at, and every delete answers 404. *)
Example cleanup_already_gone_run :
  let run := main (P := sim_platform sim_already_gone) 0 sim_start in
  fst run = Ok tt
  /\ calls_of (trace (snd run))
     = [ ("open /work/milo-kubeconfig", None);
         ("KubeConfigLoader", None);
         ("KubeConfigLoader", None);
         ("list projects", None);
         ("KubeConfigLoader", None);
         ("list secrets", Some (OtherException "connection reset"));
         ("delete projects/perf-org-p-001", Some (ApiException 404 None));
         ("delete organizations/perf-org", Some (ApiException 404 None));
         ("load_incluster_config", Some (OtherException "not in a cluster"));
         ("load_kube_config", None);
         ("delete configmaps/perf-results", Some (ApiException 404 None)) ].
Proof. vm_compute. split; reflexivity. Qed.

(** ** Project names *)

(** The decimal numeral of a positive number starts with a digit other
    than zero. *)
Lemma pretty_N_go_head (x : N) :
  forall s, (0 < x)%N ->
    exists c r, pretty_N_go x s = String c r /\ c <> "0"%char.
Proof.
  induction (N.lt_wf_0 x) as [x _ IH]; intros s Hx.
  rewrite pretty_N_go_step by exact Hx.
  assert (Hc : (0 < x < 10 \/ 10 <= x)%N) by lia. destruct Hc as [Hs|Hb].
  - rewrite N.div_small by lia. rewrite pretty_N_go_0.
    rewrite N.mod_small by lia. eexists _, _. split; [reflexivity|].
    assert (Hd : (x = 1 \/ x = 2 \/ x = 3 \/ x = 4 \/ x = 5 \/ x = 6
                  \/ x = 7 \/ x = 8 \/ x = 9)%N) by lia.
    destruct Hd as [->|[->|[->|[->|[->|[->|[->|[->| ->]]]]]]]]; discriminate.
  - apply IH.
    + apply N.div_lt; lia.
    + apply N.div_str_pos. lia.
Qed.

Lemma pretty_Z_head (i : Z) :
  0 < i -> exists c r, pretty i = String c r /\ c <> "0"%char.
Proof.
  intros Hi. destruct i as [|p|p]; try lia.
  change (pretty (Z.pos p)) with (pretty_N_go (N.pos p) EmptyString).
  apply pretty_N_go_head. lia.
Qed.

(** [f"{i:03d}"] tells positive numbers apart. *)
Lemma zfill3_inj (i j : Z) : 0 < i -> 0 < j -> zfill3 i = zfill3 j -> i = j.
Proof.
  intros Hi Hj E.
  destruct (pretty_Z_head i Hi) as (c & r & Ei & Hc).
  destruct (pretty_Z_head j Hj) as (c' & r' & Ej & Hc').
  apply (inj pretty). rewrite Ei, Ej.
  unfold zfill3 in E. rewrite Ei, Ej in E.
  destruct r as [|a [|b r]]; destruct r' as [|a' [|b' r']]; simpl in E;
    inversion E; subst; try reflexivity; congruence.
Qed.

Lemma append_inj_r (p a b : string) : p +:+ a = p +:+ b -> a = b.
Proof.
  induction p as [|c p IH]; simpl; intros E; [exact E|]. inversion E. auto.
Qed.

Lemma project_name_inj (org_name : string) (i j : Z) :
  0 < i -> 0 < j -> project_name org_name i = project_name org_name j -> i = j.
Proof.
  intros Hi Hj E. unfold project_name in E.
  apply append_inj_r in E. apply append_inj_r in E. now apply zfill3_inj.
Qed.

Lemma range1_spec (n i : Z) : In i (range1 n) <-> 1 <= i <= n.
Proof.
  unfold range1. rewrite in_map_iff. split.
  - intros (k & <- & Hk). apply in_seq in Hk. lia.
  - intros Hi. exists (Z.to_nat i). split; [lia|]. apply in_seq. lia.
Qed.

Lemma range1_NoDup (n : Z) : NoDup (range1 n).
Proof.
  unfold range1. change (NoDup (Z.of_nat <$> seq 1 (Z.to_nat n))).
  apply NoDup_fmap_2; [intros a b E; lia|apply NoDup_seq].
Qed.

Lemma range1_length (n : Z) : length (range1 n) = Z.to_nat n.
Proof. unfold range1. now rewrite length_map, length_seq. Qed.

Lemma project_names_NoDup (org_name : string) (n : Z) :
  NoDup (map (project_name org_name) (range1 n)).
Proof.
  assert (Hpos : forall i, In i (range1 n) -> 0 < i).
  { intros i Hi. apply range1_spec in Hi. lia. }
  pose proof (range1_NoDup n) as Hnd.
  induction (range1 n) as [|i l IH]; cbn [map]; [constructor|].
  apply NoDup_cons in Hnd as [Hi Hl]. apply NoDup_cons. split.
  - intros Hin. apply Hi. apply list_elem_of_In in Hin. apply in_map_iff in Hin as (j & E & Hj).
    apply project_name_inj in E; [|apply Hpos; now right|apply Hpos; now left].
    subst j. now apply list_elem_of_In.
  - apply IH; [|exact Hl]. intros j Hj. apply Hpos. now right.
Qed.

(** X23: what [create_org_and_projects] hands back.  Whenever it returns,
    the project names are [<org>-p-001], [<org>-p-002], ... in the order of
    creation, one for each number from 1 to [num_projects] (none when
    [num_projects] is not positive), and no two of them are the same, also
    beyond 999 where the numbers outgrow their three digits. *)
Theorem create_org_and_projects_names
    (W : Type) (P : Platform W) (L : PyLib) (fuel : nat)
    (milo_kubeconfig_path org_name : string) (num_projects : Z)
    (labels : list (string * string)) (s s' : State W)
    (base_cfg : value) (project_names : list string) (total_seconds : Z) :
  create_org_and_projects fuel milo_kubeconfig_path org_name num_projects labels s
  = (Ok (base_cfg, project_names, total_seconds), s') ->
  project_names = map (project_name org_name) (range1 num_projects)
  /\ length project_names = Z.to_nat num_projects
  /\ NoDup project_names
  /\ forall i, 1 <= i <= num_projects ->
       project_names !! Z.to_nat (i - 1) = Some (org_name +:+ "-p-" +:+ zfill3 i).
Proof.
  intros E. unfold create_org_and_projects in E.
  repeat (let H := fresh "Hstep" in apply bind_inv_ok in E as (? & ? & H & E)).
  inversion E; subst. clear E.
  match goal with
  | H : create_projects _ _ _ _ _ _ _ = _ |- _ => apply create_projects_names in H; subst
  end.
  cbn [app]. split; [reflexivity|].
  split; [now rewrite length_map, range1_length|].
  split; [apply project_names_NoDup|].
  intros i Hi. unfold range1.
  change (map (project_name org_name) (map Z.of_nat (seq 1 (Z.to_nat num_projects))))
    with (project_name org_name <$> (Z.of_nat <$> seq 1 (Z.to_nat num_projects))).
  rewrite !list_lookup_fmap.
  rewrite (lookup_seq_lt 1 (Z.to_nat num_projects) (Z.to_nat (i - 1))) by (clear - Hi; lia).
  cbn [fmap option_fmap option_map].
  replace (Z.of_nat (1 + Z.to_nat (i - 1))) with i by (clear - Hi; lia). reflexivity.
Qed.

Lemma create_org_and_projects_names_witness :
  exists base_cfg total_seconds s',
    create_org_and_projects (P := sim_platform sim_default) 5 "/work/milo-kubeconfig"
      "perf-org" 2 [("app", "milo-perf")] sim_start
    = (Ok (base_cfg, ["perf-org-p-001"; "perf-org-p-002"], total_seconds), s')
    /\ NoDup ["perf-org-p-001"; "perf-org-p-002"].
Proof.
  eexists _, _, _. split; [vm_compute; reflexivity|].
  eapply (create_org_and_projects_names SimWorld (sim_platform sim_default) sim_pylib 5
            "/work/milo-kubeconfig" "perf-org" 2 [("app", "milo-perf")] sim_start).
  vm_compute. reflexivity.
Defined.

(** ** The Project loop *)

Section ProjectLoop.
Context {W : Type} {P : Platform W} {L : PyLib}.

Lemma create_project_step (org_coapi : ApiClient) (org_name pname : string)
    (labels : list (string * string)) (s : State W) :
  exists r s1 (t : list (option exn)),
    create_project org_coapi org_name pname labels s = (r, s1)
    /\ calls_of (trace s1)
       = (calls_of (trace s) ++ map (pair ("create projects/" +:+ pname)) t)%list
    /\ (1 <= length t <= 6)%nat
    /\ match r with
       | Ok _ => last t = Some None
                 \/ exists body, last t = Some (Some (ApiException 409 body))
       | Raise e => last t = Some (Some e) /\ conflict e = false
       | _ => False
       end.
Proof.
  unfold create_project, retry_with_backoff.
  destruct (retry_loop_any ("create Project " +:+ pname) ("create projects/" +:+ pname)
              (create_cluster_custom_object org_coapi api_group api_version "projects"
                 (proj_body org_name pname labels)) 6 0 s eq_refl ltac:(lia))
    as (errs & lst & r & s1 & Hrun & Htr & Hlen & _ & Hlast).
  change (map Z.of_nat (seq 1 6)) with [1; 2; 3; 4; 5; 6] in Hrun.
  change (delay_at 0) with 1 in Hrun.
  assert (Hcalls : calls_of (trace s1)
                   = (calls_of (trace s)
                      ++ map (pair ("create projects/" +:+ pname))
                           (map Some errs ++ [lst]))%list).
  { rewrite Htr, !calls_of_app, calls_of_retry_rounds, map_app, map_map. reflexivity. }
  assert (Hlt : (1 <= length (map Some errs ++ [lst]) <= 6)%nat).
  { rewrite length_app, length_map. simpl. lia. }
  assert (Hl : last (map Some errs ++ [lst]) = Some lst) by apply last_snoc.
  unfold try_except, bind. rewrite Hrun.
  destruct lst as [e|].
  - destruct Hlast as [-> _].
    destruct e as [status body| | | | | | | | |];
      try (eexists _, _, _; split; [reflexivity|]; split; [exact Hcalls|];
           split; [exact Hlt|]; split; [exact Hl|reflexivity]).
    destruct (status =? 409) eqn:Hst.
    + apply Z.eqb_eq in Hst. subst status. cbn [negb].
      eexists _, _, _. split; [reflexivity|]. split; [exact Hcalls|].
      split; [exact Hlt|]. right. eauto.
    + cbn [negb]. unfold log, emit.
      eexists _, _, _. split; [reflexivity|]. cbn [trace].
      split; [|split; [exact Hlt|split; [exact Hl|exact Hst]]].
      rewrite calls_of_app, Hcalls. cbn. now rewrite app_nil_r.
  - destruct Hlast as [a ->].
    eexists _, _, _. split; [reflexivity|]. split; [exact Hcalls|].
    split; [exact Hlt|]. now left.
Qed.

End ProjectLoop.

(** X24: the Project loop.  Whatever the API answers, the loop ends, normally
    or with an exception; it creates the Projects in the order of their
    numbers, each with at least one and at most six calls, and starts no
    Project after one whose create has failed with anything but a 409.  When
    it ends normally every number has had its turn and the list of names has
    grown by one name for each; when it ends with an exception, that is the
    outcome of the last call made, and it is not a 409. *)
Theorem create_projects_in_order
    (W : Type) (P : Platform W) (L : PyLib) (org_coapi : ApiClient) (org_name : string)
    (labels : list (string * string)) (num_projects : Z) (indices : list Z) :
  forall (project_names : list string) (s : State W),
  exists r s' (tries : list (list (option exn))),
    create_projects org_coapi org_name labels num_projects indices project_names s = (r, s')
    /\ calls_of (trace s')
       = (calls_of (trace s)
          ++ call_attempts (map (fun i => "create projects/" +:+ project_name org_name i)
                         (take (length tries) indices)) tries)%list
    /\ (length tries <= length indices)%nat
    /\ Forall (fun t => (1 <= length t <= 6)%nat) tries
    /\ match r with
       | Ok names =>
           length tries = length indices
           /\ names = (project_names ++ map (project_name org_name) indices)%list
       | Raise e =>
           conflict e = false /\ exists t, last tries = Some t /\ last t = Some (Some e)
       | _ => False
       end.
Proof.
  induction indices as [|i rest IH]; intros names s.
  - exists (Ok names), s, []. split; [reflexivity|]. cbn.
    rewrite !app_nil_r. repeat split; auto.
  - cbn [create_projects].
    destruct (create_project_step org_coapi org_name (project_name org_name i) labels s)
      as (r1 & s1 & t & E1 & C1 & Ht & Hr1).
    unfold bind at 1. rewrite E1.
    destruct r1 as [[]|e| |]; try contradiction.
    + set (c := if (i mod 10 =? 0) || (i =? num_projects) then _ else _).
      assert (Hc : exists s2, c s1 = (Ok tt, s2) /\ calls_of (trace s2) = calls_of (trace s1)).
      { subst c. destruct ((i mod 10 =? 0) || (i =? num_projects)).
        - unfold log, emit. eexists. split; [reflexivity|]. cbn [trace].
          rewrite calls_of_app. cbn. now rewrite app_nil_r.
        - now exists s1. }
      destruct Hc as (s2 & E2 & C2). unfold bind at 1. rewrite E2.
      destruct (IH (names ++ [project_name org_name i])%list s2)
        as (r & s' & tries & E & C & Hlen & Hall & Hr).
      exists r, s', (t :: tries). split; [exact E|].
      split; [|split; [|split]].
      * rewrite C, C2, C1. cbn [length take map]. unfold call_attempts. cbn [zip_with concat].
        now rewrite <- !app_assoc.
      * cbn [length]. lia.
      * constructor; assumption.
      * destruct r as [names'|e| |]; try contradiction.
        -- destruct Hr as [Hl ->]. split; [cbn [length]; lia|].
           cbn [map]. now rewrite <- app_assoc.
        -- destruct Hr as (Hcf & t' & Hlast & Ht').
           split; [exact Hcf|]. exists t'. split; [|exact Ht'].
           destruct tries as [|t0 tries]; [discriminate Hlast|]. exact Hlast.
    + destruct Hr1 as [Hl Hcf].
      exists (Raise e), s1, [t]. split; [reflexivity|].
      split; [|split; [|split]].
      * rewrite C1. cbn [length take map]. unfold call_attempts. cbn [zip_with concat].
        now rewrite app_nil_r.
      * cbn [length]. lia.
      * constructor; [exact Ht|constructor].
      * split; [exact Hcf|]. exists t. split; [reflexivity|exact Hl].
Qed.

(** The second Project is refused: the first is created, the second is tried
    once, the third is never started. *)
Definition sim_second_forbidden : Sim := {|
  sim_env := sim_env sim_default; sim_yaml := sim_yaml sim_default;
  sim_client := sim_client sim_default;
  sim_incluster := sim_incluster sim_default;
  sim_create := fun _ body _ =>
    if pyval_name_is "perf-org-p-002" body then inl (ApiException 403 None) else inr body;
  sim_get := sim_get sim_default; sim_list := sim_list sim_default;
  sim_delete := sim_delete sim_default; sim_cm_read := sim_cm_read sim_default;
  sim_cm_write := sim_cm_write sim_default; sim_cm_delete := sim_cm_delete sim_default;
  sim_cm_list := sim_cm_list sim_default; sim_secret_write := sim_secret_write sim_default;
  sim_secret_list := sim_secret_list sim_default; sim_request := sim_request sim_default;
  sim_file := sim_file sim_default |}.

Example create_projects_run :
  let run := create_projects (P := sim_platform sim_second_forbidden) sample_kubeconfig
               "perf-org" [] 3 (range1 3) [] sim_start in
  fst run = Raise (ApiException 403 None)
  /\ calls_of (trace (snd run))
     = call_attempts ["create projects/perf-org-p-001"; "create projects/perf-org-p-002"]
         [[None]; [Some (ApiException 403 None)]].
Proof. vm_compute. split; reflexivity. Qed.

(** ** The bearer-token override *)

Section Token.
Context {W : Type} {P : Platform W} {L : PyLib}.

Lemma override_token_best_effort (base_cfg : value) (s : State W) :
  exists s',
    override_token base_cfg s = (Ok tt, s')
    /\ world s' = world s
    /\ length (heap s') = length (heap s)
    /\ calls_of (trace s') = calls_of (trace s).
Proof.
  unfold override_token. unfold bind at 1. unfold getenv at 1.
  destruct (os_getenv "AUTH_BEARER_TOKEN" (world s)) as [[|c token]|];
    try (exists s; repeat split; reflexivity).
  cbv [try_except bind h_get h_truthy h_getitem h_index h_setitem deref store
       log emit ret raise].
  repeat match goal with
         | |- context [match ?x with _ => _ end] =>
             lazymatch x with
             | context [match _ with _ => _ end] => fail
             | _ => destruct x eqn:?
             end
         end;
    cbn [heap world trace];
    try (eexists; split; [reflexivity|]; cbn [heap world trace];
         rewrite ?length_insert, ?calls_of_app; cbn; rewrite ?app_nil_r;
         repeat split; reflexivity).
Qed.

End Token.

(** X25: the bearer-token override is best-effort and works in place.  It
    always returns normally, makes no call and leaves the world and the size
    of the heap as they were.  With [AUTH_BEARER_TOKEN] unset or empty it does
    nothing at all.  With a token, a truthy [users] list and a dict under
    [users[0]["user"]], it writes the token into that very dict, the one
    [base_cfg] refers to, and logs one line. *)
Theorem override_token_in_place
    (W : Type) (P : Platform W) (L : PyLib) (base_cfg : value) (s : State W) :
  (exists s',
      override_token base_cfg s = (Ok tt, s')
      /\ world s' = world s
      /\ length (heap s') = length (heap s)
      /\ calls_of (trace s') = calls_of (trace s))
  /\ (os_getenv "AUTH_BEARER_TOKEN" (world s) = None
      \/ os_getenv "AUTH_BEARER_TOKEN" (world s) = Some EmptyString ->
      override_token base_cfg s = (Ok tt, s))
  /\ (forall token lb kvs lu l0 us ukvs lx xkvs,
        os_getenv "AUTH_BEARER_TOKEN" (world s) = Some token ->
        token <> EmptyString ->
        base_cfg = VRef lb ->
        heap s !! lb = Some (ODict kvs) ->
        dict_get "users" kvs = Some (VRef lu) ->
        heap s !! lu = Some (OList (VRef l0 :: us)) ->
        heap s !! l0 = Some (ODict ukvs) ->
        dict_get "user" ukvs = Some (VRef lx) ->
        heap s !! lx = Some (ODict xkvs) ->
        override_token base_cfg s
        = (Ok tt,
           mkState (<[lx := ODict (dict_set "token" (VStr token) xkvs)]> (heap s)) (world s)
             (trace s ++ [EvLog "Using AUTH_BEARER_TOKEN override for kubeconfig user[0]"]))).
Proof.
  split; [apply override_token_best_effort|]. split.
  - unfold override_token, bind, getenv. intros [E|E]; rewrite E; reflexivity.
  - intros token lb kvs lu l0 us ukvs lx xkvs Etok Hne -> Hb Hu Hlu Hl0 Hx Hlx.
    unfold override_token. unfold bind at 1. unfold getenv at 1. rewrite Etok.
    destruct token as [|c token]; [contradiction|].
    cbv [try_except bind h_get h_truthy h_getitem h_index h_setitem deref store
         log emit ret raise].
    repeat first [ rewrite Hb | rewrite Hu | rewrite Hlu | rewrite Hl0 | rewrite Hx
                 | rewrite Hlx | progress cbn [heap world trace lookup list_lookup] ].
    reflexivity.
Qed.

Lemma override_token_in_place_witness :
  let base_cfg := fst (load_doc sample_kubeconfig []) in
  let env name := if String.eqb name "AUTH_BEARER_TOKEN" then Some "t0k3n" else None in
  let s0 := mkState (snd (load_doc sample_kubeconfig [])) (world sim_start) [] in
  exists s',
    override_token (P := sim_platform (sim_with_env env sim_default)) base_cfg s0 = (Ok tt, s')
    /\ (field "users" <$> dump_value (S (length (heap s'))) (heap s') base_cfg)
       = Some (Some (PList [PDict [("name", PStr "admin");
                                   ("user", PDict [("token", PStr "t0k3n")])]])).
Proof.
  intros base_cfg env s0. eexists. split.
  - eapply (proj2 (proj2 (override_token_in_place SimWorld
                            (sim_platform (sim_with_env env sim_default)) sim_pylib
                            base_cfg s0))).
    + reflexivity.
    + discriminate.
    + reflexivity.
    + reflexivity.
    + reflexivity.
    + reflexivity.
    + reflexivity.
    + reflexivity.
    + reflexivity.
  - vm_compute. reflexivity.
Defined.

(** ** Conflict on create, end to end *)

Section ConflictRun.
Context {W : Type} {P : Platform W} {L : PyLib}.

(** The calls of a run come after the calls made before it. *)
Lemma calls_step (s0 s1 s2 : State W) :
  (exists l, calls_of (trace s1) = (calls_of (trace s0) ++ l)%list) ->
  (exists l, calls_of (trace s2) = (calls_of (trace s1) ++ l)%list) ->
  exists l, calls_of (trace s2) = (calls_of (trace s0) ++ l)%list.
Proof. intros [l1 E1] [l2 E2]. exists (l1 ++ l2)%list. now rewrite E2, E1, app_assoc. Qed.

Lemma calls_log (s : State W) line :
  calls_of (trace s ++ [EvLog line]) = calls_of (trace s).
Proof. rewrite calls_of_app. cbn. apply app_nil_r. Qed.

(** The Retry Executor on a call that answers or fails with 409 only: it
    ends with a value or with a 409, and leaves the heap alone. *)
Lemma retry_loop_conflict {A} name op (ext : Ext W A) :
  conflict_or_ok ext ->
  forall attempts d s, exists r s',
    retry_loop name (invoke op ext) attempts d s = (r, s')
    /\ heap s' = heap s
    /\ (exists l, calls_of (trace s') = (calls_of (trace s) ++ l)%list)
    /\ ((exists a, r = Ok a) \/ exists body, r = Raise (ApiException 409 body)).
Proof.
  intros Hext. induction attempts as [|attempt rest IH]; intros d s.
  - exists (Ok None), s. split; [reflexivity|]. split; [reflexivity|].
    split; [exists []; now rewrite app_nil_r|]. left. eauto.
  - destruct (Hext (world s)) as [(a & w' & E)|(body & w' & E)].
    + eexists _, _. split; [apply retry_loop_ok, invoke_ok, E|].
      split; [reflexivity|]. split; [|left; eauto].
      cbn [trace]. rewrite calls_of_app. eauto.
    + destruct (should_retry_api_exception 409 body && (attempt <? 6)) eqn:Hr.
      * apply andb_prop in Hr as [Hr Hlt]. apply Z.ltb_lt in Hlt.
        erewrite retry_loop_again; [|apply invoke_raise, E|exact Hr|exact Hlt].
        match goal with |- context [retry_loop _ _ _ _ ?st] =>
          destruct (IH (Z.min (d * 2) 16) st) as (r & s' & Hrun & Hh & Hc & Hres)
        end.
        exists r, s'. split; [exact Hrun|]. split; [exact Hh|]. split; [|exact Hres].
        destruct Hc as [l Hl]. rewrite Hl. cbn [trace]. rewrite !calls_of_app.
        cbn. rewrite app_nil_r, <- app_assoc. eauto.
      * eexists _, _. split; [eapply retry_loop_raise; [apply invoke_raise, E|exact Hr]|].
        split; [reflexivity|]. split; [|right; eauto].
        cbn [trace]. rewrite calls_of_app. eauto.
Qed.

Lemma create_organization_conflict coapi org_name labels (s : State W) :
  (forall c plural body,
      conflict_or_ok (create_cluster_custom_object c api_group api_version plural body)) ->
  exists s', create_organization coapi org_name labels s = (Ok tt, s')
             /\ heap s' = heap s
             /\ exists l, calls_of (trace s') = (calls_of (trace s) ++ l)%list.
Proof.
  intros Hc. unfold create_organization, retry_with_backoff.
  destruct (retry_loop_conflict "create Organization" ("create organizations/" +:+ org_name)
              _ (Hc coapi "organizations" (org_body org_name labels)) [1; 2; 3; 4; 5; 6] 1 s)
    as (r & s' & Hrun & Hh & Hl & [[a ->]|[body ->]]);
    exists s'; unfold try_except, bind; rewrite Hrun; auto.
Qed.

Lemma create_project_conflict org_coapi org_name pname labels (s : State W) :
  (forall c plural body,
      conflict_or_ok (create_cluster_custom_object c api_group api_version plural body)) ->
  exists s', create_project org_coapi org_name pname labels s = (Ok tt, s')
             /\ exists l, calls_of (trace s') = (calls_of (trace s) ++ l)%list.
Proof.
  intros Hc. unfold create_project, retry_with_backoff.
  destruct (retry_loop_conflict ("create Project " +:+ pname) ("create projects/" +:+ pname)
              _ (Hc org_coapi "projects" (proj_body org_name pname labels))
              [1; 2; 3; 4; 5; 6] 1 s)
    as (r & s' & Hrun & Hh & Hl & [[a ->]|[body ->]]);
    exists s'; unfold try_except, bind; rewrite Hrun; auto.
Qed.

Lemma create_projects_conflict org_coapi org_name labels n indices :
  (forall c plural body,
      conflict_or_ok (create_cluster_custom_object c api_group api_version plural body)) ->
  forall names (s : State W),
  exists s',
    create_projects org_coapi org_name labels n indices names s
    = (Ok (names ++ map (project_name org_name) indices)%list, s')
    /\ exists l, calls_of (trace s') = (calls_of (trace s) ++ l)%list.
Proof.
  intros Hc. induction indices as [|i rest IH]; intros names s.
  - exists s. rewrite app_nil_r. split; [reflexivity|]. exists []. now rewrite app_nil_r.
  - cbn [create_projects map].
    destruct (create_project_conflict org_coapi org_name (project_name org_name i) labels s Hc)
      as (s1 & E1 & Hl1).
    unfold bind at 1. rewrite E1.
    assert (Hlog : exists s2,
               (if (i mod 10 =? 0) || (i =? n)
                then log ("Created " +:+ pretty i +:+ "/" +:+ pretty n +:+ " Projects …")
                else ret tt) s1 = (Ok tt, s2)
               /\ calls_of (trace s2) = calls_of (trace s1)).
    { destruct ((i mod 10 =? 0) || (i =? n)).
      - eexists. split; [reflexivity|]. apply calls_log.
      - now exists s1. }
    destruct Hlog as (s2 & E2 & Hl2). unfold bind at 1. rewrite E2.
    destruct (IH (names ++ [project_name org_name i])%list s2) as (s3 & E3 & Hl3).
    exists s3. rewrite E3, <- app_assoc. split; [reflexivity|].
    apply (calls_step s s1 s3 Hl1). now rewrite <- Hl2.
Qed.

(** Every Project is Ready at the first look: one get for each name, in the
    order of the names. *)
Lemma wait_projects_ready fuel org_coapi total names :
  (forall c name w, exists obj w',
      get_cluster_custom_object c api_group api_version "projects" name w = (inr obj, w')
      /\ object_ready obj = inr true) ->
  forall ready (s : State W),
  exists s',
    wait_projects (S fuel) org_coapi total names ready s = (Ok tt, s')
    /\ calls_of (trace s')
       = (calls_of (trace s) ++ map (fun pname => ("get projects/" +:+ pname, None)) names)%list.
Proof.
  intros Hget. induction names as [|pname rest IH]; intros ready s.
  - exists s. split; [reflexivity|]. cbn [map]. now rewrite app_nil_r.
  - cbn [wait_projects map].
    destruct (Hget org_coapi pname (world s)) as (obj & w' & E & Hr).
    assert (Hw : wait_condition_ready (S fuel) org_coapi api_group api_version "projects"
                   pname 900 (Some "Project") s
                 = (Ok tt, mkState (heap s) w'
                             (trace s ++ [EvCall ("get projects/" +:+ pname) None]))).
    { unfold wait_condition_ready. unfold bind at 1. unfold now at 1.
      rewrite (wait_loop_ready org_coapi api_group api_version "projects" pname
                 (Some "Project") fuel _ _ 0 s obj w'); [reflexivity| |exact E|exact Hr].
      lia. }
    unfold bind at 1. rewrite Hw.
    set (s1 := mkState _ _ _).
    assert (Hlog : exists s2,
               (if ((ready + 1) mod 10 =? 0) || (ready + 1 =? total)
                then log ("Projects Ready: " +:+ pretty (ready + 1) +:+ "/" +:+ pretty total
                          +:+ " …")
                else ret tt) s1 = (Ok tt, s2)
               /\ calls_of (trace s2) = calls_of (trace s1)).
    { destruct (((ready + 1) mod 10 =? 0) || (ready + 1 =? total)).
      - eexists. split; [reflexivity|]. apply calls_log.
      - now exists s1. }
    destruct Hlog as (s2 & E2 & Hl2). unfold bind at 1. rewrite E2.
    destruct (IH (ready + 1) s2) as (s3 & E3 & Hl3).
    exists s3. split; [exact E3|]. rewrite Hl3, Hl2. unfold s1. cbn [trace].
    rewrite calls_of_app, <- app_assoc. reflexivity.
Qed.

Lemma log_kubeconfig_quiet scope cfg doc (s : State W) :
  dump_value (S (length (heap s))) (heap s) cfg = Some doc ->
  exists s', log_kubeconfig scope cfg s = (Ok tt, s')
             /\ heap s' = heap s /\ world s' = world s
             /\ calls_of (trace s') = calls_of (trace s).
Proof.
  intros Hd. unfold log_kubeconfig, try_except.
  unfold bind at 1. unfold snapshot at 1. rewrite Hd.
  repeat (unfold bind at 1;
          match goal with
          | |- context [lift ?r] => destruct r as [?|?]; cbn [lift]
          end; [exists s; repeat split; reflexivity|]).
  unfold log, emit. eexists. split; [reflexivity|]. cbn [heap world trace].
  repeat split. apply calls_log.
Qed.

Lemma kube_client_from_config_run cfg doc (s : State W) :
  (forall d w, exists c w', load_client d w = (inr c, w')) ->
  dump_value (S (length (heap s))) (heap s) cfg = Some doc ->
  exists c w',
    kube_client_from_config cfg s
    = (Ok c, mkState (heap s) w' (trace s ++ [EvCall "KubeConfigLoader" None])).
Proof.
  intros Hc Hd. destruct (Hc doc (world s)) as (c & w' & E). exists c, w'.
  unfold kube_client_from_config, bind, snapshot. rewrite Hd.
  now apply invoke_ok.
Qed.

(** The whole provisioning when every create answers or fails with 409 and
    every Project is Ready at the first look. *)
Lemma create_org_and_projects_conflict fuel path org_name n labels (s : State W) :
  (forall w, exists doc w',
      yaml_load_file path w = (inr doc, w')
      /\ is_Some (scoped_document doc (org_scope org_name) ("organization-" +:+ org_name))) ->
  (forall doc w, exists c w', load_client doc w = (inr c, w')) ->
  (forall w, os_getenv "AUTH_BEARER_TOKEN" w = None) ->
  (forall c plural body,
      conflict_or_ok (create_cluster_custom_object c api_group api_version plural body)) ->
  (forall c name w, exists obj w',
      get_cluster_custom_object c api_group api_version "projects" name w = (inr obj, w')
      /\ object_ready obj = inr true) ->
  exists base_cfg total_seconds s' calls,
    create_org_and_projects (S fuel) path org_name n labels s
    = (Ok (base_cfg, map (project_name org_name) (range1 n), total_seconds), s')
    /\ calls_of (trace s')
       = (calls_of (trace s) ++ calls
          ++ map (fun i => ("get projects/" +:+ project_name org_name i, None))
               (range1 n))%list.
Proof.
  intros Hfile Hclient Htok Hcreate Hget. unfold create_org_and_projects.
  (* the base configuration *)
  unfold bind at 1. unfold load_yaml_file, bind at 1. unfold invoke at 1.
  destruct (Hfile (world s)) as (doc & w1 & Efile & [doc' Hdoc']). rewrite Efile.
  unfold yaml_safe_load at 1. cbn [heap world trace].
  destruct (load_doc doc (heap s)) as [base_cfg h1] eqn:El.
  pose proof El as El'. apply load_doc_lay in El' as (ext & Hh1 & Hlay).
  set (s1 := mkState h1 w1 _).
  assert (Hc1 : exists l, calls_of (trace s1) = (calls_of (trace s) ++ l)%list).
  { unfold s1. cbn [trace]. rewrite calls_of_app. eauto. }
  assert (Hd1 : dump_value (S (length (heap s1))) (heap s1) base_cfg = Some doc)
    by (apply lay_dump in Hlay; exact Hlay).
  (* no token override *)
  unfold bind at 1. unfold override_token. unfold bind at 1. unfold getenv at 1.
  rewrite Htok.
  change (ret tt s1) with (Ok tt, s1).
  destruct (kube_client_from_config_run base_cfg doc s1 Hclient Hd1) as (coapi & w2 & E2).
  unfold bind at 1. rewrite E2.
  set (s2 := mkState (heap s1) w2 _).
  assert (Hc2 : exists l, calls_of (trace s2) = (calls_of (trace s) ++ l)%list).
  { apply (calls_step s s1 s2 Hc1). unfold s2. cbn [trace]. rewrite calls_of_app. eauto. }
  destruct (log_kubeconfig_quiet "cluster" base_cfg doc s2 Hd1) as (s3 & E3 & Hh3 & _ & Hl3).
  unfold bind at 1. rewrite E3.
  unfold bind at 1. unfold log at 1. unfold emit at 1.
  set (s4 := mkState (heap s3) _ _).
  (* the Organization *)
  destruct (create_organization_conflict coapi org_name labels s4 Hcreate)
    as (s5 & E5 & Hh5 & Hl5).
  unfold bind at 1. rewrite E5.
  unfold bind at 1. unfold log at 1. unfold emit at 1.
  set (s6 := mkState (heap s5) _ _).
  assert (Hh6 : heap s6 = h1) by (unfold s6; cbn [heap]; rewrite Hh5; exact Hh3).
  assert (Hc6 : exists l, calls_of (trace s6) = (calls_of (trace s) ++ l)%list).
  { apply (calls_step s s2 s6 Hc2). unfold s6. cbn [trace]. rewrite calls_log.
    destruct Hl5 as [l Hl5]. exists l. rewrite Hl5. unfold s4. cbn [trace].
    now rewrite calls_log, Hl3. }
  (* the organization-scoped configuration *)
  assert (Hd6 : dump_value (S (length (heap s6))) (heap s6) base_cfg = Some doc)
    by (rewrite Hh6; exact Hd1).
  assert (Hun6 : unshared (heap s6) base_cfg = true)
    by (rewrite Hh6; exact (lay_unshared _ _ _ _ _ Hlay)).
  destruct (build_scoped_kubeconfig_returns W base_cfg _ _ s6 doc doc' Hd6 Hun6 Hdoc')
    as (org_cfg & s7 & E7 & Hcfg).
  destruct (build_scoped_kubeconfig_extends W base_cfg _ _ s6 s7 _ E7)
    as (ext7 & _ & _ & Htr7).
  unfold bind at 1. rewrite E7.
  destruct (kube_client_from_config_run org_cfg doc' s7 Hclient Hcfg) as (org_coapi & w8 & E8).
  unfold bind at 1. rewrite E8.
  set (s8 := mkState (heap s7) w8 _).
  destruct (log_kubeconfig_quiet "organization" org_cfg doc' s8 Hcfg)
    as (s9 & E9 & _ & _ & Hl9).
  unfold bind at 1. rewrite E9.
  unfold bind at 1. unfold now at 1.
  unfold bind at 1. unfold log at 1. unfold emit at 1.
  set (s10 := mkState (heap s9) _ _).
  (* the Projects *)
  destruct (create_projects_conflict org_coapi org_name labels n (range1 n) Hcreate [] s10)
    as (s11 & E11 & Hl11).
  unfold bind at 1. rewrite E11. cbn [app].
  unfold bind at 1. unfold log at 1. unfold emit at 1.
  set (s12 := mkState (heap s11) _ _).
  assert (Hc12 : exists l, calls_of (trace s12) = (calls_of (trace s) ++ l)%list).
  { apply (calls_step s s6 s12 Hc6). unfold s12. cbn [trace]. rewrite calls_log.
    destruct Hl11 as [l Hl11]. rewrite Hl11. unfold s10. cbn [trace].
    rewrite calls_log, Hl9. unfold s8. cbn [trace]. rewrite calls_of_app, Htr7.
    rewrite <- app_assoc. eauto. }
  (* the waits *)
  destruct (wait_projects_ready fuel org_coapi
              (Z.of_nat (length (map (project_name org_name) (range1 n))))
              (map (project_name org_name) (range1 n)) Hget 0 s12) as (s13 & E13 & Hl13).
  unfold bind at 1. rewrite E13.
  unfold bind at 1. unfold now at 1.
  destruct Hc12 as [l Hl12].
  eexists _, _, _, l. split; [reflexivity|].
  rewrite Hl13, Hl12, map_map, <- app_assoc. reflexivity.
Qed.

End ConflictRun.

Lemma marker_retried body :
  no_marker body = false -> should_retry_api_exception 409 body = true.
Proof.
  unfold no_marker, should_retry_api_exception. cbn [Z.eqb Pos.eqb orb].
  set (msg := match body with Some b => b | None => EmptyString end).
  generalize (contains "Internal error occurred" msg) (contains "failed calling webhook" msg)
             (contains "EOF" msg).
  intros [|] [|] [|]; cbn; intros H; first [reflexivity|discriminate H].
Qed.

(** C1 (as amended): a create that fails with 409 and whose body carries none
    of the transient markers is classified non-retryable: one attempt, no
    sleep.  A 409 whose body carries a marker is classified retryable: the
    executor writes its progress line, sleeps one second and goes on with
    the second attempt.  Whenever the Retry Executor's run for a create ends
    in a 409, whatever its body, the Tree Provisioner takes it as success:
    the Organization step and the Project step return normally in the state
    the executor left, the Project loop goes on exactly as after a
    successful create, and the name of every Project is in the list the loop
    hands to the readiness waits.  End to end: when the kubeconfig file
    holds a configuration of the kubeconfig shape, the clients can be built,
    no bearer token is set, every create answers or fails with 409 and every
    Project is Ready when first looked at, [create_org_and_projects] returns
    normally with the names of all the Projects, and the last calls of the
    run are the readiness gets, one for each Project, in the order of the
    names. *)
Theorem create_conflict_tolerated
    (W : Type) (P : Platform W) (L : PyLib)
    (coapi : ApiClient) (org_name : string) (labels : list (string * string))
    (body : option string) :
  (forall (A : Type) name op (ext : Ext W A) s w',
      no_marker body = true ->
      ext (world s) = (inl (ApiException 409 body), w') ->
      should_retry_api_exception 409 body = false
      /\ retry_with_backoff name (invoke op ext) s
         = (Raise (ApiException 409 body),
            mkState (heap s) w' (trace s ++ [EvCall op (Some (ApiException 409 body))])))
  /\ (forall s s',
        retry_with_backoff "create Organization"
          (invoke ("create organizations/" +:+ org_name)
             (create_cluster_custom_object coapi api_group api_version "organizations"
                (org_body org_name labels))) s
        = (Raise (ApiException 409 body), s') ->
        create_organization coapi org_name labels s = (Ok tt, s'))
  /\ (forall i rest n names s s',
        retry_with_backoff ("create Project " +:+ project_name org_name i)
          (invoke ("create projects/" +:+ project_name org_name i)
             (create_cluster_custom_object coapi api_group api_version "projects"
                (proj_body org_name (project_name org_name i) labels))) s
        = (Raise (ApiException 409 body), s') ->
        create_project coapi org_name (project_name org_name i) labels s = (Ok tt, s')
        /\ create_projects coapi org_name labels n (i :: rest) names s
           = ((if (i mod 10 =? 0) || (i =? n)
               then log ("Created " +:+ pretty i +:+ "/" +:+ pretty n +:+ " Projects …")
               else ret tt) ;;;
              create_projects coapi org_name labels n rest
                (names ++ [project_name org_name i])%list) s')
  /\ (forall n indices names s names' s',
        create_projects coapi org_name labels n indices names s = (Ok names', s') ->
        names' = (names ++ map (project_name org_name) indices)%list)
  /\ (forall (A : Type) name op (ext : Ext W A) s w',
        no_marker body = false ->
        ext (world s) = (inl (ApiException 409 body), w') ->
        should_retry_api_exception 409 body = true
        /\ retry_with_backoff name (invoke op ext) s
           = retry_loop name (invoke op ext) [2; 3; 4; 5; 6] 2
               (mkState (heap s) (time_sleep 1 w')
                  ((trace s ++ [EvCall op (Some (ApiException 409 body))])
                   ++ [EvLog (retry_log_line name 1 409 1)] ++ [EvSleep 1])))
  /\ (forall fuel milo_kubeconfig_path num_projects s,
        (forall w, exists doc w',
            yaml_load_file milo_kubeconfig_path w = (inr doc, w')
            /\ is_Some (scoped_document doc (org_scope org_name)
                          ("organization-" +:+ org_name))) ->
        (forall doc w, exists c w', load_client doc w = (inr c, w')) ->
        (forall w, os_getenv "AUTH_BEARER_TOKEN" w = None) ->
        (forall c plural obj,
            conflict_or_ok
              (create_cluster_custom_object c api_group api_version plural obj)) ->
        (forall c name w, exists obj w',
            get_cluster_custom_object c api_group api_version "projects" name w
            = (inr obj, w')
            /\ object_ready obj = inr true) ->
        exists base_cfg total_seconds s' calls,
          create_org_and_projects (S fuel) milo_kubeconfig_path org_name num_projects
            labels s
          = (Ok (base_cfg, map (project_name org_name) (range1 num_projects),
                 total_seconds), s')
          /\ calls_of (trace s')
             = (calls_of (trace s) ++ calls
                ++ map (fun i => ("get projects/" +:+ project_name org_name i, None))
                     (range1 num_projects))%list).
Proof.
  split; [|split; [|split; [|split; [|split]]]].
  - intros A name op ext s w' Hm E.
    pose proof (no_marker_not_retried _ Hm) as Hc. split; [exact Hc|].
    unfold retry_with_backoff. apply retry_loop_raise; [now apply invoke_raise|].
    simpl. now rewrite Hc.
  - intros s s' E. unfold create_organization, try_except, bind. now rewrite E.
  - intros i rest n names s s' E.
    assert (Hp : create_project coapi org_name (project_name org_name i) labels s = (Ok tt, s'))
      by (unfold create_project, try_except, bind; now rewrite E).
    split; [exact Hp|].
    cbn [create_projects]. unfold bind at 1. now rewrite Hp.
  - intros n indices names s names' s'. apply create_projects_names.
  - intros A name op ext s w' Hm E.
    pose proof (marker_retried _ Hm) as Hc. split; [exact Hc|].
    unfold retry_with_backoff.
    rewrite (retry_loop_again name (invoke op ext) 1 [2; 3; 4; 5; 6] 1 s 409 body _
               (invoke_raise _ _ _ _ _ E) Hc) by lia.
    cbn [heap world trace]. reflexivity.
  - intros fuel path n s. apply create_org_and_projects_conflict.
Qed.

Lemma create_conflict_tolerated_witness :
  let P := sim_platform sim_conflict in
  let e := ApiException 409 conflict_body in
  let marked := Some "Internal error occurred: object already exists" in
  let s1 := mkState [] {| sw_clock := 1000; sw_calls := 1 |}
              [EvCall "create organizations/perf-org" (Some e)] in
  let s2 := mkState [] {| sw_clock := 1000; sw_calls := 1 |}
              [EvCall "create projects/perf-org-p-001" (Some e)] in
  (should_retry_api_exception 409 conflict_body = false
   /\ retry_with_backoff "create" (invoke "create" (conflict_call conflict_body)) sim_start
      = (Raise e, mkState [] {| sw_clock := 1000; sw_calls := 1 |} [EvCall "create" (Some e)]))
  /\ create_organization (P := P) sample_kubeconfig "perf-org" [] sim_start = (Ok tt, s1)
  /\ (create_project (P := P) sample_kubeconfig "perf-org" (project_name "perf-org" 1) [] sim_start
      = (Ok tt, s2)
      /\ create_projects (P := P) sample_kubeconfig "perf-org" [] 2 [1; 2] [] sim_start
         = create_projects (P := P) sample_kubeconfig "perf-org" [] 2 [2] ["perf-org-p-001"] s2)
  /\ ["perf-org-p-001"; "perf-org-p-002"] = ([] ++ map (project_name "perf-org") [1; 2])%list
  /\ (should_retry_api_exception 409 marked = true
      /\ retry_with_backoff "create" (invoke "create" (conflict_call marked)) sim_start
         = retry_loop "create" (invoke "create" (conflict_call marked)) [2; 3; 4; 5; 6] 2
             (mkState [] {| sw_clock := 1001; sw_calls := 1 |}
                [EvCall "create" (Some (ApiException 409 marked));
                 EvLog (retry_log_line "create" 1 409 1); EvSleep 1]))
  /\ (exists base_cfg total_seconds s' calls,
        create_org_and_projects (P := P) 1 "/work/milo-kubeconfig" "perf-org" 2 [] sim_start
        = (Ok (base_cfg, ["perf-org-p-001"; "perf-org-p-002"], total_seconds), s')
        /\ calls_of (trace s')
           = (calls_of (trace sim_start) ++ calls
              ++ [("get projects/perf-org-p-001", None);
                  ("get projects/perf-org-p-002", None)])%list).
Proof.
  intros P e marked s1 s2.
  destruct (create_conflict_tolerated SimWorld P sim_pylib sample_kubeconfig "perf-org" []
              conflict_body) as (H1 & H2 & H3 & H4 & _ & H6).
  destruct (create_conflict_tolerated SimWorld P sim_pylib sample_kubeconfig "perf-org" []
              marked) as (_ & _ & _ & _ & H5 & _).
  split; [|split; [|split; [|split; [|split]]]].
  - apply (H1 pyval "create" "create" (conflict_call conflict_body) sim_start
             {| sw_clock := 1000; sw_calls := 1 |}); reflexivity.
  - apply H2. reflexivity.
  - apply (H3 1 [2] 2 [] sim_start s2). reflexivity.
  - apply (H4 2 [1; 2] [] sim_start ["perf-org-p-001"; "perf-org-p-002"]
             (mkState [] {| sw_clock := 1000; sw_calls := 2 |}
                [EvCall "create projects/perf-org-p-001" (Some e);
                 EvCall "create projects/perf-org-p-002" (Some e);
                 EvLog "Created 2/2 Projects …"])).
    reflexivity.
  - apply (H5 pyval "create" "create" (conflict_call marked) sim_start
             {| sw_clock := 1000; sw_calls := 1 |}); reflexivity.
  - apply (H6 0%nat "/work/milo-kubeconfig" 2 sim_start).
    + intros w. eexists _, _. split; [reflexivity|]. eexists. reflexivity.
    + intros doc w. eexists _, _. reflexivity.
    + intros w. reflexivity.
    + intros c plural obj w. right. eexists _, _. reflexivity.
    + intros c name w. eexists _, _. split; reflexivity.
Defined.

(** The claim as written fails on a 409 whose body carries a marker: the
    executor classifies it retryable, calls six times and sleeps
    1, 2, 4, 8, 16 seconds. *)
Lemma conflict_with_marker_is_retried :
  let body := Some "Internal error occurred: object already exists" in
  should_retry_api_exception 409 body = true
  /\ (let '(r, s') := retry_with_backoff "create Project p"
                        (invoke "create" (conflict_call body)) sim_start in
      r = Raise (ApiException 409 body)
      /\ length (calls_of (trace s')) = 6%nat
      /\ sleeps_of (trace s') = [1; 2; 4; 8; 16]).
Proof. vm_compute. repeat split; reflexivity. Qed.

(** End to end on the simulated platform: every create answers 409, and the
    provisioner still waits for both projects and returns their names. *)
Example conflict_run_proceeds :
  let '(r, s') := create_org_and_projects (P := sim_platform sim_conflict) 500
                    "/work/milo-kubeconfig" "perf-org" 2 [] sim_start in
  (exists base_cfg seconds, r = Ok (base_cfg, ["perf-org-p-001"; "perf-org-p-002"], seconds))
  /\ calls_of (trace s')
     = [ ("open /work/milo-kubeconfig", None);
         ("KubeConfigLoader", None);
         ("create organizations/perf-org", Some (ApiException 409 conflict_body));
         ("KubeConfigLoader", None);
         ("create projects/perf-org-p-001", Some (ApiException 409 conflict_body));
         ("create projects/perf-org-p-002", Some (ApiException 409 conflict_body));
         ("get projects/perf-org-p-001", None);
         ("get projects/perf-org-p-002", None) ]
  /\ sleeps_of (trace s') = [].
Proof. vm_compute. split; [eauto|split; reflexivity]. Qed.
